(* ===== verification/_CoqProject ===== *)
-Q . S2P
Prelude.v
FreeList.v
Tiling.v
Spinlock.v
ProgramAlloc.v
BTreeMap.v
ByteMem.v
Elf.v
Utf8.v
RegionAllocator.v
Executable.v
Allocator.v
Timer.v
Task.v
ContextSwitch.v
Scheduler.v
NetBase.v
Checksum.v
Ethernet.v
Arp.v
Ipv4.v
Icmp.v
Packet.v
RingBuffer.v
Tcp.v
TcpWire.v
TcpInv.v
TcpMachine.v
TcpSafe.v
NetTask.v
TcpFindings.v
Gilbert.v
Vga.v
Memvis.v
PortIO.v
Mouse.v
Meminfo.v
Cursor.v
BasicLexer.v
BasicParser.v
BasicInterp.v
BasicSafe.v
BasicPrint.v
BasicRepl.v
BasicKernel.v
Telnet.v
Interrupts.v
Ne2000.v
NicSafe.v
NicFaults.v
NicDriver.v
Api.v
Hello.v
NetApi.v
Boot.v
Serial.v
Memstats.v
ExecTable.v
Bootloader.v
DiskImage.v
