(* ===== verification/Prelude.v ===== *)
(** * Ralph OS: a verification library

    Ralph OS is a small x86-64 kernel in Rust: a boot loader, two memory allocators, a
    cooperative scheduler, an ELF loader with a table of embedded files, an interrupt and timer
    layer, an NE2000 driver under a TCP/IP stack, a BASIC interpreter on a serial and a telnet
    terminal, a graphical map of memory, and an interface for user programs.  This library is a
    shallow embedding of that code: every function is a Rocq function, executable where the
    code is, and every file proves what its component promises to the others.

    ** Conventions

    Paths are relative to the repository.  Machine integers are [Z] with the wrap-around
    written out ([u8] ... [i64]).  A function that can panic or loop returns an [outcome]:
    [Ret], [Panic] (a Rust panic, and undefined behaviour where the source is unsafe) or
    [Diverge] (the fuel of a loop is used up); a [Result] is a [result].  Where state is
    threaded through many calls there is a small monad: [netM] and [tcpM] for the network,
    [ioM] for port programs, [basicM] for BASIC.  Indexing and slicing a byte buffer in the
    network code is checked and panics out of range ([index], [get_slice], [copy_in] of
    NetBase).  Memory is a function from addresses to bytes ([ram] of ByteMem),
    or a map of words for the free lists that live in free memory (FreeList).

    ** The parts

    - Memory.  FreeList and Tiling hold what the two allocators share: the list inside the free
      memory, and its description as a tiling of the region.  ProgramAlloc is
      src/program_alloc.rs, Allocator is src/allocator.rs, Spinlock its lock.  RegionAllocator
      is the interface of the program region as a class, against which Executable
      (src/executable.rs: table of files, loading, the blocks of every task) is proved;
      Elf is src/elf.rs, BTreeMap and Utf8 model what is used of the standard library.
      Theorems: allocation and deallocation on every branch, with the invariant of every
      reachable heap; loading leaves the image of the file; unloading returns exactly the blocks
      of the task.
    - Tasks.  Task (src/task.rs), ContextSwitch (the instructions of src/context_switch.rs,
      which implement the register switch of Task on the list of tasks in memory), Scheduler
      (src/scheduler.rs) and Timer (src/timer.rs).  Theorems: a reschedule saves and restores
      each task's own registers, reaps exactly the finished tasks and wakes exactly the
      sleepers that are due; a ready task is resumed within as many turns as there are tasks
      and spawned ones.
    - Interrupts.  Interrupts is src/pic.rs, src/idt.rs, src/interrupts.rs: the controllers as
      port programs, the descriptor table, the stubs as instruction lists on a register machine.
      Theorems: stubs restore all general registers (the vector registers are not saved), the
      six lines with a handler reach it, the handlers of lines 0, 1, 10 and 12 end their
      interrupts and that of lines 7 and 15 ends those of line 7.
    - Devices.  PortIO (src/io.rs) is the class of machines with port instructions.  Ne2000,
      NicSafe, NicFaults and NicDriver (src/net/ne2000.rs), Serial (src/serial.rs, src/basic/terminal.rs)
      and Mouse (src/mouse.rs) are drivers over it; card, UART, interrupt controllers and
      keyboard controller are further classes with the documented registers.  Theorems: the
      driver hands every received frame to the packet buffers once and in order, whatever
      arrives at the card between two port accesses, as long as its ring does not overflow, and
      sends exactly the frame it is given; on any card the interrupt handler does not panic,
      and after an overflow the frames of the ring are handed over (NicFaults).
    - Network.  NetBase and NetTask (src/net/mod.rs), Checksum, Ethernet, Arp, Ipv4, Icmp,
      Packet, and for src/net/tcp.rs: RingBuffer (the byte ring refines a queue), Tcp (the
      model), TcpWire (segments), TcpInv (invariant and operations), TcpMachine (state
      diagram), TcpSafe (no sequence of events makes it fail), TcpFindings (deviations from the
      protocol).
    - BASIC.  BasicLexer, BasicParser, BasicInterp, BasicRepl are the files of src/basic,
      BasicSafe and BasicPrint their safety and the inverse of LIST, BasicKernel the interpreter
      on the TCP stack (it panics only when the heap refuses a request, for an array beyond the
      address space, and for the one division that overflows), Telnet (src/telnet.rs) its remote terminal, Memstats its MEMSTATS
      command.
    - Graphics.  Gilbert, Vga (with src/font.rs), Memvis, Meminfo and Cursor: the curve visits
      every point of a rectangle once (in i32, up to a side of 715827882), the map shows the last event of every page, the tooltip agrees with the
      map, and nothing outside of the frame buffer is written.
    - Programs.  Api and NetApi (src/api.rs) and Hello (programs/hello): a program is spawned
      with its argument block, its heap is its own, the result and effect of every network call
      are known, and hello prints the (ASCII) arguments it was given.
    - From the build to the running kernel.  ExecTable (scripts/make_exec_table.py), DiskImage
      (the image rule of the Makefile), Bootloader (bootloader/stage1.asm and stage2.asm) and
      Boot (src/main.rs).  The theorem of DiskImage composes them: the files packed at the
      build are read back by the kernel that boots from the disk.

    ** Fuel and bounds

    Loops over lists that the code keeps in memory run with one unit of fuel per element that
    fits in the region; the invariants show that this is enough, and the theorems conclude
    [Ret].  Table searches have one unit per candidate address.  Polling loops of drivers have as
    a parameter the number of polls, and the theorems ask for more than the latency that the
    class of the device names.  The checksum folds at most three times (a 32-bit sum).
    The parser takes its fuel from the remaining input, which is proved to be enough;
    one BASIC statement is a total function, and the loop that runs a program has fuel, since the
    program need not end.

    ** Parameters

    Code and hardware outside of the repository are arguments with named laws: the devices
    above, the BIOS ([BiosOk] of Bootloader; that it leaves the upper half of EAX zero is a hypothesis
    of its own), the global allocator as BASIC sees it ([h_alloc] of [Host], which may refuse any
    request), addresses chosen by the linker, the behaviour of
    a compiled handler within the calling convention ([abi] of Interrupts).  Each class has an
    instance, which the examples at the end of the files run.

    ** Not modelled

    - The sequence of device initialisations in [kernel_main] on one machine that has all
      devices: each driver is proved over the laws of its own device.
    - Panic and allocation-error handlers: they print and halt.  Outside of BASIC's statements
      the kernel's own small allocations are assumed to succeed, and no depth of the machine
      stack is modelled.
    - The vector registers, except in Interrupts.
    - One memory for everything: the words of an allocator in its free blocks are a state
      of their own (see [exec_state] of Executable), and the task list is a list, tied to
      memory by ContextSwitch.
    - Console messages of the kernel and of the loader, except those that are the output of a
      command (LIST, PRINT, MEMSTATS).
    - The instructions sti, cli, lidt, lgdt and hlt as such; the interrupt flag is part of
      Spinlock and the interrupt frame part of Interrupts.
    - Linker scripts, target descriptions, Cargo files, the rules of the Makefile other than
      the image, run.sh, and the sample programs in bas, which are inputs of the interpreter. *)

From stdpp Require Export base numbers list option gmap.
From Stdlib Require Export ZArith Lia.

#[global] Open Scope Z_scope.

(** ** Outcomes of kernel code

    [Ret] is a normal return, [Panic] a Rust panic (the kernel prints and halts)
    and [Diverge] exhaustion of the fuel that bounds a pointer-chasing loop. *)
Inductive outcome (A : Type) : Type :=
| Ret (a : A)
| Panic
| Diverge.
Arguments Ret {A} a.
Arguments Panic {A}.
Arguments Diverge {A}.

#[global] Instance outcome_ret : MRet outcome := @Ret.
#[global] Instance outcome_bind : MBind outcome := λ A B f o,
  match o with
  | Ret a => f a
  | Panic => Panic
  | Diverge => Diverge
  end.
(** Used instead of computation, which would unfold what follows. *)
Lemma mbind_Ret {A B} (f : A → outcome B) (a : A) : Ret a ≫= f = f a.
Proof. reflexivity. Qed.

(** [assert!(b)] *)
Definition rust_assert (b : bool) : outcome unit :=
  if b then Ret tt else Panic.

Lemma bind_Ret {A B} (f : A → outcome B) (o : outcome A) (b : B) :
  o ≫= f = Ret b ↔ ∃ a, o = Ret a ∧ f a = Ret b.
Proof.
  destruct o; cbn; (split; [intros; eauto; done|intros (? & ? & ?); congruence]).
Qed.

(** [core::result::Result] *)
Inductive result (E A : Type) : Type :=
| Ok (a : A)
| Err (e : E).
Arguments Ok {E A} a.
Arguments Err {E A} e.

(** ** Machine integers

    A w-bit unsigned value is a [Z] in [[0, 2^w)]; the kernel is built with the
    release profile, where [+], [-] and [*] wrap around. *)
Definition u8 (z : Z) : Z := z mod 256.
Definition u16 (z : Z) : Z := z mod 65536.
Definition u32 (z : Z) : Z := z mod 4294967296.
Definition u64 (z : Z) : Z := z mod 18446744073709551616.
Definition i32 (z : Z) : Z := (z + 2147483648) mod 4294967296 - 2147483648.
Definition i64 (z : Z) : Z :=
  (z + 9223372036854775808) mod 18446744073709551616 - 9223372036854775808.
Definition u32_max : Z := 4294967295.
Definition u64_max : Z := 18446744073709551615.

(** Bitwise complement of a [usize]. *)
Definition not64 (z : Z) : Z := u64_max - z.

(** [saturating_sub] of any unsigned type and [saturating_add] up to [m]. *)
Definition sat_sub (a b : Z) : Z := Z.max 0 (a - b).
Definition sat_add (m a b : Z) : Z := Z.min m (a + b).

Lemma u8_small z : 0 ≤ z < 256 → u8 z = z.
Proof. apply Z.mod_small. Qed.
Lemma u16_small z : 0 ≤ z < 65536 → u16 z = z.
Proof. apply Z.mod_small. Qed.
Lemma u32_small z : 0 ≤ z < 4294967296 → u32 z = z.
Proof. apply Z.mod_small. Qed.
Lemma u64_small z : 0 ≤ z < 18446744073709551616 → u64 z = z.
Proof. apply Z.mod_small. Qed.
Lemma i32_small z : -2147483648 ≤ z < 2147483648 → i32 z = z.
Proof. intros. unfold i32. rewrite Z.mod_small; lia. Qed.
Lemma u8_range z : 0 ≤ u8 z < 256.
Proof. by apply Z.mod_pos_bound. Qed.
Lemma u16_range z : 0 ≤ u16 z < 65536.
Proof. by apply Z.mod_pos_bound. Qed.
Lemma u32_range z : 0 ≤ u32 z < 4294967296.
Proof. by apply Z.mod_pos_bound. Qed.
Lemma u64_range z : 0 ≤ u64 z < 18446744073709551616.
Proof. by apply Z.mod_pos_bound. Qed.
Lemma i64_range z : -9223372036854775808 ≤ i64 z < 9223372036854775808.
Proof.
  unfold i64.
  pose proof (Z.mod_pos_bound (z + 9223372036854775808) 18446744073709551616
                eq_refl). lia.
Qed.
Lemma i64_small z :
  -9223372036854775808 ≤ z < 9223372036854775808 → i64 z = z.
Proof. intros H. unfold i64. rewrite Z.mod_small; lia. Qed.

(** The default automation database of the development: range facts about
    wrapped integers. *)
Create HintDb ralph discriminated.
#[export] Hint Resolve u8_range u16_range u32_range u64_range i64_range : ralph.

(** Turn every boolean comparison in the context and the goal into its
    proposition, splitting conditionals. *)
Ltac case_bool :=
  match goal with
  | |- context [if ?b then _ else _] => destruct b eqn:?
  | H : context [if ?b then _ else _] |- _ => destruct b eqn:?
  end.
Ltac bool_to_prop :=
  rewrite ?Z.ltb_lt, ?Z.ltb_ge, ?Z.leb_le, ?Z.leb_gt, ?Z.eqb_eq, ?Z.eqb_neq,
    ?andb_true_iff, ?andb_false_iff, ?orb_true_iff, ?orb_false_iff,
    ?negb_true_iff, ?negb_false_iff in *.
Ltac blia := bool_to_prop; lia.

(** ** Alignment

    [(addr + align - 1) & !(align - 1)] *)
Definition align_up (addr align : Z) : Z :=
  Z.land (u64 (addr + align - 1)) (not64 (align - 1)).

Lemma land_not64_ones (a k : Z) :
  0 ≤ a < 18446744073709551616 → 0 ≤ k ≤ 64 →
  Z.land a (not64 (Z.ones k)) = a / 2 ^ k * 2 ^ k.
Proof.
  intros Ha Hk.
  assert (Hn : not64 (Z.ones k) = Z.ldiff (Z.ones 64) (Z.ones k)).
  { rewrite <- Z.sub_nocarry_ldiff.
    - reflexivity.
    - apply Z.bits_inj'. intros n Hn.
      rewrite Z.ldiff_spec, Z.bits_0.
      destruct (Z_lt_le_dec n k).
      + rewrite (Z.ones_spec_low k), (Z.ones_spec_low 64) by lia. reflexivity.
      + by rewrite Z.ones_spec_high by lia. }
  rewrite Hn, <- Z.shiftl_mul_pow2, <- Z.shiftr_div_pow2 by lia.
  rewrite <- Z.ldiff_ones_r by lia.
  apply Z.bits_inj'. intros n Hn'.
  rewrite Z.land_spec, !Z.ldiff_spec.
  destruct (Z_lt_le_dec n 64).
  - rewrite (Z.ones_spec_low 64) by lia. reflexivity.
  - rewrite (Z.bits_above_log2 a n); [done|lia|].
    destruct (decide (a = 0)) as [->|]; [cbn; lia|].
    apply Z.log2_lt_pow2; [lia|].
    apply Z.lt_le_trans with (2 ^ 64); [lia|]. apply Z.pow_le_mono_r; lia.
Qed.

(** Away from overflow [align_up] is the least multiple of the power of two
    that is not below the address. *)
Lemma align_up_spec (addr k : Z) :
  0 ≤ k < 63 → 0 ≤ addr → addr + 2 ^ k - 1 < 18446744073709551616 →
  align_up addr (2 ^ k) = (addr + 2 ^ k - 1) / 2 ^ k * 2 ^ k.
Proof.
  intros Hk Ha Hov. unfold align_up.
  assert (0 < 2 ^ k) by (apply Z.pow_pos_nonneg; lia).
  rewrite u64_small by lia.
  replace (2 ^ k - 1) with (Z.ones k) by (rewrite Z.ones_equiv; lia).
  apply land_not64_ones; lia.
Qed.

Lemma div_mul_bounds (a b : Z) : 0 < b →
  a - b < a / b * b ≤ a ∧ (a / b * b) mod b = 0.
Proof.
  intros Hb. split; [|by apply Z.mod_mul; lia].
  pose proof (Z.div_mod a b ltac:(lia)). pose proof (Z.mod_pos_bound a b Hb).
  lia.
Qed.

(** [z & (1 << k) != 0]. *)
Lemma land_bit z k : 0 ≤ k → (Z.land z (2 ^ k) =? 0) = negb (Z.testbit z k).
Proof.
  intros Hk. destruct (Z.testbit z k) eqn:E; cbn [negb].
  - apply Z.eqb_neq. intros E0. assert (Z.testbit (Z.land z (2 ^ k)) k = true) as E1.
    { by rewrite Z.land_spec, E, Z.pow2_bits_true. }
    by rewrite E0, Z.bits_0 in E1.
  - apply Z.eqb_eq, Z.bits_inj'. intros n Hn. rewrite Z.land_spec, Z.bits_0, Z.pow2_bits_eqb by lia.
    destruct (Z.eqb_spec k n) as [<-|]; [by rewrite E|by rewrite andb_false_r].
Qed.

(** ** Lists *)

(** Sum of a list of sizes. *)
Definition sumZ (l : list Z) : Z := foldr Z.add 0 l.
#[global] Arguments sumZ : simpl never.

Lemma sumZ_cons x l : sumZ (x :: l) = x + sumZ l.
Proof. done. Qed.
Lemma sumZ_app l1 l2 : sumZ (l1 ++ l2) = sumZ l1 + sumZ l2.
Proof. unfold sumZ. induction l1; cbn in *; lia. Qed.

#[export] Instance sumZ_Permutation : Proper ((≡ₚ) ==> (=)) sumZ.
Proof. intros l1 l2 H. unfold sumZ. induction H; cbn; lia. Qed.

Lemma NoDup_fmap_fst_inj {A B} (l : list (A * B)) a b1 b2 :
  NoDup l.*1 → (a, b1) ∈ l → (a, b2) ∈ l → b1 = b2.
Proof.
  induction l as [|[a' b'] l IH]; cbn; [set_solver|].
  rewrite NoDup_cons, list_elem_of_fmap, !elem_of_cons.
  intros [Hni Hnd] [?|?] [?|?]; simplify_eq; [done| | |eauto].
  - destruct Hni. by exists (a', b2).
  - destruct Hni. by exists (a', b1).
Qed.

(** ** Notifications to the memory visualiser

    [memvis::on_alloc] and [memvis::on_dealloc] are recorded as a log, oldest
    first. *)
Inductive vis_event : Type :=
| OnAlloc (addr size : Z)
| OnDealloc (addr size : Z).
