(* ===== verification/FreeList.v ===== *)
(** The address-ordered free list that both kernel allocators keep inside the
    free memory itself: machine memory, list nodes, the insertion and merging
    loops, and their refinement to operations on lists of [(address, size)]. *)

From S2P Require Import Prelude.

(** Enough fuel for any loop over a free list inside a region of [bytes] bytes:
    every block holds at least [MIN_BLOCK_SIZE] bytes. *)
Definition list_fuel (bytes : Z) : nat := Z.to_nat (bytes / 16 + 2).
#[global] Arguments list_fuel : simpl never.

(** ** Memory

    Physical memory is accessed by the allocators in aligned 8-byte words. *)
Definition load (m : gmap Z Z) (a : Z) : Z := default 0 (m !! a).
Definition store (m : gmap Z Z) (a v : Z) : gmap Z Z := <[a := v]> m.

(** [Option<NonNull<_>>]: the null pointer is [None]. *)
Definition load_ptr (m : gmap Z Z) (a : Z) : option Z :=
  let p := load m a in if p =? 0 then None else Some p.
Definition ptr_word (p : option Z) : Z := default 0 p.

Lemma load_store_eq m a v : load (store m a v) a = v.
Proof. unfold load, store. by rewrite lookup_insert_eq. Qed.
Lemma load_store_ne m a b v : a ≠ b → load (store m a v) b = load m b.
Proof. intros. unfold load, store. by rewrite lookup_insert_ne. Qed.

(** ** List nodes: [struct { size: usize, next: Option<NonNull<_>> }] *)
Definition MIN_BLOCK_SIZE : Z := 16.
Definition node_size (m : gmap Z Z) (a : Z) : Z := load m a.
Definition node_next (m : gmap Z Z) (a : Z) : option Z := load_ptr m (a + 8).
Definition set_size (m : gmap Z Z) (a s : Z) : gmap Z Z := store m a s.
Definition set_next (m : gmap Z Z) (a : Z) (p : option Z) : gmap Z Z :=
  store m (a + 8) (ptr_word p).
(** [FreeBlock::new] / [FreeRegion::new] *)
Definition node_new (m : gmap Z Z) (a s : Z) : gmap Z Z :=
  set_next (set_size m a s) a None.

(** Replace the link that points at the cursor: the previous node's [next]
    field, or the head of the list. *)
Definition set_link (m : gmap Z Z) (head prev p : option Z) :
    gmap Z Z * option Z :=
  match prev with
  | Some a => (set_next m a p, head)
  | None => (m, p)
  end.

(** The search loop of [add_free_block] / [add_free_region]. *)
Fixpoint find_insertion (fuel : nat) (m : gmap Z Z) (new_addr : Z)
    (prev current : option Z) : outcome (option Z * option Z) :=
  match fuel with
  | O => Diverge
  | S fuel =>
      match current with
      | Some addr =>
          if new_addr <? addr then Ret (prev, current)
          else find_insertion fuel m new_addr current (node_next m addr)
      | None => Ret (prev, None)
      end
  end.

(** [add_free_block] / [add_free_region] *)
Definition add_free (fuel : nat) (m : gmap Z Z) (head : option Z)
    (new_addr : Z) : outcome (gmap Z Z * option Z) :=
  '(prev, current) ← find_insertion fuel m new_addr None head;
  Ret (set_link (set_next m new_addr current) head prev (Some new_addr)).

(** [merge_free_blocks] / [merge_free_regions] *)
Fixpoint merge_free (fuel : nat) (m : gmap Z Z) (current : option Z) :
    outcome (gmap Z Z) :=
  match fuel with
  | O => Diverge
  | S fuel =>
      match current with
      | None => Ret m
      | Some a =>
          let block_end := u64 (a + node_size m a) in
          match node_next m a with
          | Some next_addr =>
              if block_end =? next_addr then
                let m1 := set_size m a
                            (u64 (node_size m a + node_size m next_addr)) in
                let m2 := set_next m1 a (node_next m1 next_addr) in
                merge_free fuel m2 (Some a)
              else merge_free fuel m (node_next m a)
          | None => merge_free fuel m (node_next m a)
          end
      end
  end.

(** Sum of the sizes along the list (the loop of [stats]). *)
Fixpoint sum_free (fuel : nat) (m : gmap Z Z) (free : Z) (current : option Z) :
    outcome Z :=
  match fuel with
  | O => Diverge
  | S fuel =>
      match current with
      | None => Ret free
      | Some a => sum_free fuel m (u64 (free + node_size m a)) (node_next m a)
      end
  end.

(** ** Representation: the list segment from [h] to [t] with contents [l] *)
Fixpoint lseg (m : gmap Z Z) (h : option Z) (l : list (Z * Z)) (t : option Z) :
    Prop :=
  match l with
  | [] => h = t
  | (a, s) :: l =>
      h = Some a ∧ 0 < a ∧ node_size m a = s ∧ lseg m (node_next m a) l t
  end.

(** The words of the list's nodes. *)
Definition node_words (l : list (Z * Z)) (w : Z) : Prop :=
  ∃ a s, (a, s) ∈ l ∧ (w = a ∨ w = a + 8).

(** Memory [m'] agrees with [m] outside the words in [P]. *)
Definition agree_outside (P : Z → Prop) (m m' : gmap Z Z) : Prop :=
  ∀ w, ¬ P w → load m' w = load m w.

(** Blocks in increasing address order, disjoint, inside [[lo, hi)], each large
    enough for its node. *)
Fixpoint blocks (lo hi : Z) (l : list (Z * Z)) : Prop :=
  match l with
  | [] => lo ≤ hi
  | (a, s) :: l => lo ≤ a ∧ MIN_BLOCK_SIZE ≤ s ∧ blocks (a + s) hi l
  end.

(** ** Abstract operations on the list of free blocks *)
Fixpoint fl_insert (a s : Z) (l : list (Z * Z)) : list (Z * Z) :=
  match l with
  | [] => [(a, s)]
  | (b, t) :: l' =>
      if a <? b then (a, s) :: l else (b, t) :: fl_insert a s l'
  end.

Fixpoint fl_merge_from (a s : Z) (l : list (Z * Z)) : list (Z * Z) :=
  match l with
  | [] => [(a, s)]
  | (b, t) :: l =>
      if a + s =? b then fl_merge_from a (s + t) l
      else (a, s) :: fl_merge_from b t l
  end.
Definition fl_merge (l : list (Z * Z)) : list (Z * Z) :=
  match l with
  | [] => []
  | (a, s) :: l => fl_merge_from a s l
  end.

(** First fit: the address of the first block that is large enough, and the
    list in which that block is replaced by what remains of it. *)
Fixpoint fl_alloc (size : Z) (l : list (Z * Z)) : option (Z * list (Z * Z)) :=
  match l with
  | [] => None
  | (a, s) :: l =>
      if size <=? s then
        Some (a, if MIN_BLOCK_SIZE <=? s - size
                 then (a + size, s - size) :: l else l)
      else
        match fl_alloc size l with
        | Some (r, l') => Some (r, (a, s) :: l')
        | None => None
        end
  end.

(** ** Lemmas: blocks *)
Lemma blocks_le lo hi l : blocks lo hi l → lo ≤ hi.
Proof.
  revert lo. induction l as [|[a s] l IH]; cbn; [done|].
  intros lo (? & ? & H%IH). unfold MIN_BLOCK_SIZE in *. lia.
Qed.

Lemma blocks_weaken lo lo' hi hi' l :
  lo' ≤ lo → hi ≤ hi' → blocks lo hi l → blocks lo' hi' l.
Proof.
  revert lo lo'. induction l as [|[a s] l IH]; cbn; intros lo lo' ?? Hb; [lia|].
  destruct Hb as (? & ? & Hb). split_and!; [lia..|]. by apply (IH (a + s)).
Qed.

Lemma blocks_app lo hi l1 l2 :
  blocks lo hi (l1 ++ l2) ↔ ∃ mid, blocks lo mid l1 ∧ blocks mid hi l2.
Proof.
  revert lo. induction l1 as [|[a s] l1 IH]; cbn; intros lo.
  - split; [intros; exists lo; split; [lia|done]|]. intros (mid & ? & ?).
    by apply (blocks_weaken mid lo hi hi).
  - rewrite IH. naive_solver.
Qed.

Lemma blocks_elem lo hi l a s :
  blocks lo hi l → (a, s) ∈ l → lo ≤ a ∧ MIN_BLOCK_SIZE ≤ s ∧ a + s ≤ hi.
Proof.
  revert lo. induction l as [|[b t] l IH]; cbn; intros lo Hb; [by intros ?%not_elem_of_nil|].
  destruct Hb as (? & ? & Hb). rewrite elem_of_cons. unfold MIN_BLOCK_SIZE in *.
  intros [[= -> ->]|Hin].
  - apply blocks_le in Hb. lia.
  - specialize (IH _ Hb Hin). lia.
Qed.

Lemma blocks_node_words lo hi l w :
  blocks lo hi l → node_words l w → lo ≤ w < hi.
Proof.
  intros Hb (a & s & Hin & Hw). apply (blocks_elem _ _ _ _ _ Hb) in Hin.
  unfold MIN_BLOCK_SIZE in *. lia.
Qed.

Lemma node_words_cons a s l w :
  node_words ((a, s) :: l) w ↔ w = a ∨ w = a + 8 ∨ node_words l w.
Proof.
  unfold node_words. split.
  - intros (b & t & Hin & Hw). rewrite elem_of_cons in Hin.
    destruct Hin as [[= -> ->]|]; naive_solver.
  - intros [->|[->|(b & t & Hin & Hw)]]; [exists a, s; set_solver..|].
    exists b, t. set_solver.
Qed.

Lemma node_words_app l1 l2 w :
  node_words (l1 ++ l2) w ↔ node_words l1 w ∨ node_words l2 w.
Proof. unfold node_words. set_solver. Qed.

Lemma blocks_length lo hi l :
  blocks lo hi l → 16 * Z.of_nat (length l) ≤ hi - lo.
Proof.
  revert lo. induction l as [|[a s] l IH]; cbn [blocks length]; intros lo; [lia|].
  intros (? & ? & H%IH). unfold MIN_BLOCK_SIZE in *. lia.
Qed.

Lemma blocks_fuel lo hi l : blocks lo hi l → (S (length l) < list_fuel (hi - lo))%nat.
Proof.
  intros H%blocks_length. unfold list_fuel.
  pose proof (Z.div_le_lower_bound (hi - lo) 16 (Z.of_nat (length l))). lia.
Qed.

Lemma blocks_sum lo hi l : blocks lo hi l → 0 ≤ sumZ l.*2 ≤ hi - lo.
Proof.
  revert lo. induction l as [|[a s] l IH]; cbn [blocks]; intros lo.
  { change (sumZ _) with 0. lia. }
  intros (? & ? & H%IH). rewrite fmap_cons, sumZ_cons. cbn.
  unfold MIN_BLOCK_SIZE in *. lia.
Qed.

(** Addresses inside the listed blocks. *)
Definition in_blocks (l : list (Z * Z)) (w : Z) : Prop :=
  ∃ a s, (a, s) ∈ l ∧ a ≤ w < a + s.

Lemma node_words_in_blocks lo hi l w :
  blocks lo hi l → node_words l w → in_blocks l w.
Proof.
  intros Hb (a & s & Hin & Hw). exists a, s. split; [done|].
  apply (blocks_elem _ _ _ _ _ Hb) in Hin. unfold MIN_BLOCK_SIZE in *. lia.
Qed.

Lemma in_blocks_app l1 l2 w :
  in_blocks (l1 ++ l2) w ↔ in_blocks l1 w ∨ in_blocks l2 w.
Proof. unfold in_blocks. set_solver. Qed.

Lemma in_blocks_here a s l w : a ≤ w < a + s → in_blocks ((a, s) :: l) w.
Proof. intros. exists a, s. split; [apply elem_of_cons; by left|done]. Qed.

(** ** Lemmas: segments and frames *)
Lemma lseg_app m h l1 l2 t :
  lseg m h (l1 ++ l2) t ↔ ∃ mid, lseg m h l1 mid ∧ lseg m mid l2 t.
Proof.
  revert h. induction l1 as [|[a s] l1 IH]; cbn; intros h; [naive_solver|].
  rewrite IH. naive_solver.
Qed.

Lemma agree_outside_trans (P : Z → Prop) m1 m2 m3 :
  agree_outside P m1 m2 → agree_outside P m2 m3 → agree_outside P m1 m3.
Proof. intros H1 H2 w Hw. by rewrite H2, H1. Qed.

Lemma agree_outside_weaken (P Q : Z → Prop) m1 m2 :
  (∀ w, P w → Q w) → agree_outside P m1 m2 → agree_outside Q m1 m2.
Proof. intros HPQ H w Hw. apply H. naive_solver. Qed.

(** A segment only depends on the words of its own nodes. *)
Lemma lseg_frame (P : Z → Prop) m m' h l t :
  agree_outside P m m' → (∀ w, node_words l w → ¬ P w) →
  lseg m h l t → lseg m' h l t.
Proof.
  intros Hag. revert h. induction l as [|[a s] l IH]; cbn; intros h Hdis; [done|].
  intros (-> & ? & Hs & Hl).
  assert (Hw : ∀ w, w = a ∨ w = a + 8 → load m' w = load m w).
  { intros w Hw. apply Hag, Hdis. rewrite node_words_cons. naive_solver. }
  unfold node_size, node_next, load_ptr in *.
  rewrite !Hw by auto. split_and!; auto.
  apply IH; [|done]. intros w ?. apply Hdis. rewrite node_words_cons. auto.
Qed.

Lemma load_ptr_store_eq m a p :
  (∀ x, p = Some x → x ≠ 0) → load_ptr (store m a (ptr_word p)) a = p.
Proof.
  intros Hp. unfold load_ptr. rewrite load_store_eq. unfold ptr_word.
  destruct p as [x|]; cbn; [|done].
  destruct (x =? 0) eqn:E; [apply Z.eqb_eq in E; naive_solver|done].
Qed.

Lemma node_next_set_next m a p :
  (∀ x, p = Some x → x ≠ 0) → node_next (set_next m a p) a = p.
Proof. apply load_ptr_store_eq. Qed.

Lemma node_size_set_next m a b p :
  a + 8 ≠ b → node_size (set_next m a p) b = node_size m b.
Proof. intros. by apply load_store_ne. Qed.

Lemma node_next_set_next_ne m a b p :
  a ≠ b → node_next (set_next m a p) b = node_next m b.
Proof.
  intros. unfold node_next, set_next, load_ptr. rewrite load_store_ne by lia. done.
Qed.

Lemma node_next_set_size m a b s :
  a ≠ b + 8 → node_next (set_size m a s) b = node_next m b.
Proof.
  intros. unfold node_next, set_size, load_ptr. by rewrite load_store_ne.
Qed.

Lemma agree_set_next m a p : agree_outside (λ w, w = a + 8) m (set_next m a p).
Proof. intros w Hw. apply load_store_ne. naive_solver. Qed.

Lemma agree_set_size m a s : agree_outside (λ w, w = a) m (set_size m a s).
Proof. intros w Hw. apply load_store_ne. naive_solver. Qed.

Lemma agree_node_new m a s :
  agree_outside (λ w, w = a ∨ w = a + 8) m (node_new m a s).
Proof.
  eapply agree_outside_trans; eapply agree_outside_weaken;
    [|apply agree_set_size| |apply agree_set_next]; naive_solver.
Qed.

Lemma node_size_node_new m a s : node_size (node_new m a s) a = s.
Proof.
  unfold node_new. rewrite node_size_set_next by lia. apply load_store_eq.
Qed.
Lemma node_next_node_new m a s : node_next (node_new m a s) a = None.
Proof. by apply node_next_set_next. Qed.

Lemma lseg_head_pos m h l x :
  lseg m h l None → h = Some x → x ≠ 0.
Proof. destruct l as [|[a s] l]; cbn; [naive_solver|]. intros; simplify_eq. naive_solver lia. Qed.

(** ** Refinement of the insertion loop *)
Lemma find_insertion_spec fuel m a prev cur l :
  lseg m cur l None → (length l < fuel)%nat →
  ∃ l1 l2 cur',
    find_insertion fuel m a prev cur =
      Ret (match last l1 with Some b => Some b.1 | None => prev end, cur') ∧
    l = l1 ++ l2 ∧ (∀ s, fl_insert a s l = l1 ++ (a, s) :: l2) ∧
    lseg m cur l1 cur' ∧ lseg m cur' l2 None.
Proof.
  revert fuel prev cur. induction l as [|[b t] l IH]; cbn [lseg length];
    intros fuel prev cur Hl Hf; (destruct fuel as [|fuel]; [lia|]).
  { subst. by exists [], [], None. }
  destruct Hl as (-> & ? & ? & Hl). cbn [find_insertion fl_insert].
  destruct (a <? b) eqn:E.
  { exists [], ((b, t) :: l), (Some b). cbn. naive_solver. }
  destruct (IH fuel (Some b) (node_next m b) Hl ltac:(lia))
    as (l1 & l2 & cur' & Hr & -> & Hins & H1 & H2).
  exists ((b, t) :: l1), l2, cur'. rewrite Hr. split_and!; [|done| |cbn; auto|done].
  - rewrite last_cons. by destruct (last l1).
  - intros s. cbn. by rewrite Hins.
Qed.

(** Redirecting the last link of a segment. *)
Lemma set_link_spec m head l cur p lo hi :
  blocks lo hi l → lseg m head l cur → (∀ x, p = Some x → x ≠ 0) →
  ∃ m' h', set_link m head (fst <$> last l) p = (m', h') ∧
    lseg m' h' l p ∧ agree_outside (node_words l) m m'.
Proof.
  intros Hb Hl Hp. destruct l as [|x l' _] using rev_ind.
  { cbn. eexists _, _. split_and!; done. }
  destruct x as [a s]. rewrite last_snoc. cbn.
  eexists _, _. split; [done|].
  apply blocks_app in Hb as (mid & Hb1 & Hb2 & Hb3 & _).
  apply lseg_app in Hl as (h & Hl1 & -> & ? & Hs & _).
  split.
  - apply lseg_app. exists (Some a). split.
    + eapply lseg_frame; [apply agree_set_next| |done].
      intros w Hw ->. apply (blocks_node_words _ _ _ _ Hb1) in Hw. lia.
    + cbn. split_and!; [done..| |].
      * by rewrite node_size_set_next by lia.
      * by apply node_next_set_next.
  - eapply agree_outside_weaken; [|apply agree_set_next].
    intros w ->. rewrite node_words_app, node_words_cons. auto.
Qed.

Lemma add_free_spec fuel m head l a s lo hi :
  0 < lo → lseg m head l None → blocks lo hi (fl_insert a s l) →
  node_size m a = s → (length l < fuel)%nat →
  ∃ m' h', add_free fuel m head a = Ret (m', h') ∧
    lseg m' h' (fl_insert a s l) None ∧
    agree_outside (node_words (fl_insert a s l)) m m'.
Proof.
  intros Hlo Hl Hb Hs Hf.
  destruct (find_insertion_spec fuel m a None head l Hl Hf)
    as (l1 & l2 & cur & Hr & -> & Hins & H1 & H2).
  rewrite Hins in *. apply blocks_app in Hb as (mid & Hb1 & Hb2).
  cbn in Hb2. destruct Hb2 as (? & ? & Hb2).
  set (m1 := set_next m a cur).
  pose proof (blocks_le _ _ _ Hb1) as Hmid. unfold MIN_BLOCK_SIZE in *.
  assert (Hag : agree_outside (λ w, w = a + 8) m m1) by apply agree_set_next.
  destruct (set_link_spec m1 head l1 cur (Some a) lo mid Hb1)
    as (m' & h' & Hsl & Hl' & Hag').
  { eapply lseg_frame; [done| |done].
    intros w Hw ->. apply (blocks_node_words _ _ _ _ Hb1) in Hw. lia. }
  { intros x [= <-]. lia. }
  exists m', h'. unfold add_free. rewrite Hr. cbn.
  replace (match last l1 with Some b => Some b.1 | None => None end)
    with (fst <$> last l1) by (by destruct (last l1)).
  split_and!.
  - f_equal. exact Hsl.
  - apply lseg_app. exists (Some a). split; [done|]. cbn.
    assert (Hout : ∀ w, mid ≤ w → load m' w = load m1 w).
    { intros w Hw. apply Hag'. intros Hn%(blocks_node_words _ _ _ _ Hb1). lia. }
    unfold node_size, node_next, load_ptr. rewrite !Hout by lia.
    split_and!; [done|lia| |].
    + unfold m1, set_next. by rewrite load_store_ne by lia.
    + change (lseg m' (node_next m1 a) l2 None). unfold m1 at 1.
      rewrite node_next_set_next by (intros; by eapply lseg_head_pos).
      eapply (lseg_frame (node_words l1)); [done| |].
      * intros w Hw Hw'. apply (blocks_node_words _ _ _ _ Hb2) in Hw.
        apply (blocks_node_words _ _ _ _ Hb1) in Hw'. lia.
      * eapply lseg_frame; [done| |done].
        intros w Hw ->. apply (blocks_node_words _ _ _ _ Hb2) in Hw. lia.
  - eapply agree_outside_trans; eapply agree_outside_weaken; [|done| |done].
    + intros w ->. rewrite node_words_app, node_words_cons. auto.
    + intros w Hw. rewrite node_words_app. auto.
Qed.

(** ** Refinement of the merging loop *)
Lemma merge_free_spec fuel m a s l lo hi :
  0 < lo → hi < 18446744073709551616 →
  lseg m (Some a) ((a, s) :: l) None → blocks lo hi ((a, s) :: l) →
  (S (length l) < fuel)%nat →
  ∃ m', merge_free fuel m (Some a) = Ret m' ∧
    lseg m' (Some a) (fl_merge_from a s l) None ∧
    agree_outside (node_words ((a, s) :: l)) m m'.
Proof.
  intros Hlo Hhi. revert fuel m a s lo Hlo.
  induction l as [|[b t] l IH]; intros fuel m a s lo Hlo Hl Hb Hf;
    (destruct fuel as [|fuel]; [cbn in Hf; lia|]); cbn [length] in Hf.
  { destruct Hl as (_ & ? & Hs & Hn). cbn [lseg] in Hn. cbn [merge_free fl_merge_from].
    rewrite Hn. destruct fuel; [lia|]. exists m. cbn. rewrite Hn. done. }
  destruct Hl as (_ & ? & Hs & Hn & ? & Ht & Hl). cbn in Hb.
  destruct Hb as (? & ? & ? & ? & Hb). unfold MIN_BLOCK_SIZE in *.
  pose proof (blocks_le _ _ _ Hb). cbn [merge_free]. rewrite Hn, Hs, u64_small by lia.
  cbn [fl_merge_from]. destruct (a + s =? b) eqn:E; bool_to_prop.
  - rewrite Ht, u64_small by lia.
    set (m1 := set_size m a (s + t)). set (m2 := set_next m1 a (node_next m1 b)).
    assert (Hag : agree_outside (λ w, w = a ∨ w = a + 8) m m2).
    { eapply agree_outside_trans; eapply agree_outside_weaken;
        [|apply agree_set_size| |apply agree_set_next]; naive_solver. }
    assert (Hnb : node_next m1 b = node_next m b) by (apply node_next_set_size; lia).
    destruct (IH fuel m2 a (s + t) lo Hlo) as (m' & Hr & Hl' & Hag').
    + assert (Hn2 : node_next m2 a = node_next m b).
      { unfold m2. rewrite Hnb. apply node_next_set_next.
        intros. by eapply lseg_head_pos. }
      cbn [lseg]. rewrite Hn2. split_and!; [done|lia| |].
      * unfold m2. rewrite node_size_set_next by lia. apply load_store_eq.
      * eapply lseg_frame; [done| |done].
        intros w Hw ?. apply (blocks_node_words _ _ _ _ Hb) in Hw. lia.
    + cbn. unfold MIN_BLOCK_SIZE. split_and!; [lia..|].
      by replace (a + (s + t)) with (b + t) by lia.
    + lia.
    + exists m'. split_and!; [done..|].
      eapply agree_outside_trans; eapply agree_outside_weaken; [|done| |done].
      * intros w Hw. rewrite node_words_cons. naive_solver.
      * intros w. rewrite !node_words_cons. naive_solver.
  - destruct (IH fuel m b t (a + s)) as (m' & Hr & Hl' & Hag'); [lia|..|lia|].
    { cbn. auto. }
    { cbn. unfold MIN_BLOCK_SIZE. auto. }
    exists m'. split_and!; [done| |].
    + cbn [lseg]. unfold node_size, node_next, load_ptr in *.
      rewrite !Hag'; [by rewrite Hs, Hn|..]; intros Hw%node_words_cons;
        destruct Hw as [?|[?|Hw]]; try lia;
        apply (blocks_node_words _ _ _ _ Hb) in Hw; lia.
    + eapply agree_outside_weaken; [|done].
      intros w Hw. rewrite node_words_cons. auto.
Qed.

Lemma sum_free_spec fuel m cur l lo hi free :
  lseg m cur l None → blocks lo hi l → (length l < fuel)%nat →
  0 ≤ free → free + (hi - lo) < 18446744073709551616 →
  sum_free fuel m free cur = Ret (free + sumZ l.*2).
Proof.
  revert fuel cur lo free. induction l as [|[a s] l IH]; cbn [lseg blocks length];
    intros fuel cur lo free Hl Hb Hf ? Hov; (destruct fuel as [|fuel]; [lia|]).
  { subst. cbn. f_equal. rewrite Z.add_comm. done. }
  destruct Hl as (-> & ? & Hs & Hl). destruct Hb as (? & ? & Hb).
  pose proof (blocks_le _ _ _ Hb). unfold MIN_BLOCK_SIZE in *. cbn [sum_free].
  rewrite Hs, u64_small by lia. erewrite IH by (done || lia). f_equal.
  rewrite fmap_cons, sumZ_cons. cbn. lia.
Qed.

Lemma blocks_inj lo hi l a s t :
  blocks lo hi l → (a, s) ∈ l → (a, t) ∈ l → s = t.
Proof.
  revert lo. induction l as [|[b u] l IH]; cbn; intros lo; [by intros _ ?%elem_of_nil|].
  intros (? & ? & Hb) [?|H1]%elem_of_cons [?|H2]%elem_of_cons; simplify_eq;
    [done| | |by eapply IH].
  - apply (blocks_elem _ _ _ _ _ Hb) in H2. unfold MIN_BLOCK_SIZE in *. lia.
  - apply (blocks_elem _ _ _ _ _ Hb) in H1. unfold MIN_BLOCK_SIZE in *. lia.
Qed.
