(* ===== verification/Tiling.v ===== *)
(** Tilings: the ghost description of an allocator's region as a sequence of
    consecutive tiles, each free or in use by an owner.  The free list of an
    allocator is the sequence of free tiles; the lemmas say how first-fit
    allocation, insertion and merging act on the tiling. *)

From S2P Require Import Prelude FreeList.

Record tile (A : Type) : Type := Tile {
  tl_addr : Z;
  tl_size : Z;
  tl_use : option A;
}.
Arguments Tile {A} tl_addr tl_size tl_use.
Arguments tl_addr {A} t.
Arguments tl_size {A} t.
Arguments tl_use {A} t.

(** Two address ranges do not overlap. *)
Definition apart (b c : Z * Z) : Prop := b.1 + b.2 ≤ c.1 ∨ c.1 + c.2 ≤ b.1.

#[export] Instance apart_dec b c : Decision (apart b c).
Proof. unfold apart. apply _. Defined.

(** Every two elements at different positions are related. *)
Fixpoint pairwise {A} (R : A → A → Prop) (l : list A) : Prop :=
  match l with
  | [] => True
  | x :: l => Forall (R x) l ∧ pairwise R l
  end.

#[export] Instance pairwise_Permutation {A} (R : A → A → Prop) `{!Symmetric R} :
  Proper ((≡ₚ) ==> iff) (pairwise R).
Proof.
  assert (Himp : ∀ l1 l2, l1 ≡ₚ l2 → pairwise R l1 → pairwise R l2).
  { induction 1; cbn; rewrite ?Forall_cons; [done| | |auto].
    - intros [HF ?]. split; [by eapply Forall_Permutation|auto].
    - intros [[? ?] [? ?]]. auto. }
  intros l1 l2 H. split; apply Himp; [done|by symmetry].
Qed.
Lemma pairwise_app_elem {A} (R : A → A → Prop) l1 l2 x y :
  pairwise R (l1 ++ l2) → x ∈ l1 → y ∈ l2 → R x y.
Proof.
  induction l1 as [|z l1 IH]; cbn; [by intros _ ?%elem_of_nil|].
  intros [HF Hp] [->|?]%elem_of_cons Hy; [|by apply IH].
  rewrite Forall_forall in HF. apply HF, elem_of_app. by right.
Qed.
#[export] Instance apart_sym : Symmetric apart.
Proof. intros [a s] [b t]. unfold apart. naive_solver. Qed.

Section tiling.
Context {A : Type}.
Implicit Types (ts : list (tile A)) (t : tile A).

(** The tiles cover [[lo, hi)] without gap or overlap; sizes are multiples of
    [g] and large enough for a node. *)
Fixpoint tiles (g lo hi : Z) ts : Prop :=
  match ts with
  | [] => lo = hi
  | t :: ts =>
      tl_addr t = lo ∧ MIN_BLOCK_SIZE ≤ tl_size t ∧ tl_size t mod g = 0 ∧
      tiles g (lo + tl_size t) hi ts
  end.

Definition free_block t : option (Z * Z) :=
  match tl_use t with None => Some (tl_addr t, tl_size t) | Some _ => None end.
Definition used_block t : option (Z * Z * A) :=
  match tl_use t with
  | None => None
  | Some x => Some (tl_addr t, tl_size t, x)
  end.
Definition frees ts : list (Z * Z) := omap free_block ts.
Definition useds ts : list (Z * Z * A) := omap used_block ts.

(** No two neighbouring tiles are both free. *)
Fixpoint coalesced ts : Prop :=
  match ts with
  | t1 :: ((t2 :: _) as ts) =>
      (tl_use t1 = None → tl_use t2 ≠ None) ∧ coalesced ts
  | _ => True
  end.

(** Join neighbouring free tiles. *)
Fixpoint coalesce ts : list (tile A) :=
  match ts with
  | [] => []
  | t :: ts =>
      match tl_use t, coalesce ts with
      | None, Tile b s None :: r => Tile (tl_addr t) (tl_size t + s) None :: r
      | _, r => t :: r
      end
  end.

Lemma frees_cons t ts : frees (t :: ts) =
  match tl_use t with
  | None => (tl_addr t, tl_size t) :: frees ts
  | Some _ => frees ts
  end.
Proof. destruct t as [a s [x|]]; done. Qed.
Lemma useds_cons t ts : useds (t :: ts) =
  match tl_use t with
  | None => useds ts
  | Some x => (tl_addr t, tl_size t, x) :: useds ts
  end.
Proof. destruct t as [a s [x|]]; done. Qed.
Lemma frees_app ts1 ts2 : frees (ts1 ++ ts2) = frees ts1 ++ frees ts2.
Proof. apply omap_app. Qed.
Lemma useds_app ts1 ts2 : useds (ts1 ++ ts2) = useds ts1 ++ useds ts2.
Proof. apply omap_app. Qed.

Lemma tiles_app g lo hi ts1 ts2 :
  tiles g lo hi (ts1 ++ ts2) ↔
  ∃ mid, tiles g lo mid ts1 ∧ tiles g mid hi ts2.
Proof.
  revert lo. induction ts1 as [|t ts1 IH]; cbn; intros lo; [naive_solver|].
  rewrite IH. naive_solver.
Qed.

Lemma tiles_le g lo hi ts : tiles g lo hi ts → lo ≤ hi.
Proof.
  revert lo. induction ts as [|t ts IH]; cbn; intros lo; [lia|].
  intros (? & ? & ? & H%IH). unfold MIN_BLOCK_SIZE in *. lia.
Qed.

#[local] Arguments frees : simpl never.
#[local] Arguments useds : simpl never.

Lemma tiles_frees g lo hi ts : tiles g lo hi ts → blocks lo hi (frees ts).
Proof.
  revert lo. induction ts as [|[a s [x|]] ts IH]; intros lo; rewrite ?frees_cons; cbn;
    [intros ->; exact (Z.le_refl _)|..]; intros (-> & ? & ? & H%IH); unfold MIN_BLOCK_SIZE in *.
  - eapply blocks_weaken; [..|done]; lia.
  - auto with lia.
Qed.

Lemma tiles_useds g lo hi ts :
  tiles g lo hi ts → blocks lo hi (useds ts).*1.
Proof.
  revert lo. induction ts as [|[a s [x|]] ts IH]; intros lo; rewrite ?useds_cons; cbn;
    [intros ->; exact (Z.le_refl _)|..]; intros (-> & ? & ? & H%IH); unfold MIN_BLOCK_SIZE in *.
  - auto with lia.
  - eapply blocks_weaken; [..|done]; lia.
Qed.

Lemma tiles_sum g lo hi ts :
  tiles g lo hi ts →
  sumZ (frees ts).*2 + sumZ (useds ts).*1.*2 = hi - lo.
Proof.
  revert lo. induction ts as [|[a s [x|]] ts IH]; intros lo;
    rewrite ?frees_cons, ?useds_cons; cbn; rewrite ?sumZ_cons.
  - intros ->. change (0 + 0 = hi - hi). lia.
  - intros (-> & ? & ? & H%IH). lia.
  - intros (-> & ? & ? & H%IH). lia.
Qed.

Lemma tiles_size_mod g lo hi ts a s :
  tiles g lo hi ts → (a, s) ∈ frees ts ∨ (a, s) ∈ (useds ts).*1 → s mod g = 0.
Proof.
  revert lo. induction ts as [|[b t [x|]] ts IH]; intros lo;
    rewrite ?frees_cons, ?useds_cons; cbn;
    [intros _ [H|H]; by apply elem_of_nil in H|..];
    intros (-> & ? & ? & H); rewrite elem_of_cons; naive_solver.
Qed.

(** Two tiles are the same place or apart. *)
Lemma tile_apart g lo hi ts a s u b n v :
  tiles g lo hi ts → Tile a s u ∈ ts → Tile b n v ∈ ts → a = b ∨ apart (a, s) (b, n).
Proof.
  assert (Hlow : ∀ ts lo c k x, tiles g lo hi ts → Tile c k x ∈ ts → lo ≤ c).
  { clear. induction ts as [|t ts IH]; cbn; intros lo c k x; [by intros _ ?%elem_of_nil|].
    intros (? & ? & _ & Ht) [<-|Hin]%elem_of_cons; [cbn in *; lia|].
    specialize (IH _ _ _ _ Ht Hin). unfold MIN_BLOCK_SIZE in *. lia. }
  unfold apart. cbn. revert lo. induction ts as [|t' ts IH]; cbn; intros lo.
  { by intros _ ?%elem_of_nil. }
  intros (? & _ & _ & Ht) [<-|H1]%elem_of_cons [Heq|H2]%elem_of_cons; cbn in *.
  - injection Heq. auto.
  - specialize (Hlow _ _ _ _ _ Ht H2). lia.
  - subst. cbn in *. specialize (Hlow _ _ _ _ _ Ht H1). lia.
  - by eapply IH.
Qed.

(** Tiles start at multiples of the granularity. *)
Lemma tiles_addr_mod g lo hi ts1 t ts2 :
  0 < g → lo mod g = 0 → tiles g lo hi (ts1 ++ t :: ts2) → tl_addr t mod g = 0.
Proof.
  intros Hg. revert lo. induction ts1 as [|t' ts1 IH]; cbn; intros lo Hlo.
  - by intros (-> & _).
  - intros (_ & _ & Hs & H). eapply IH; [|done].
    rewrite Zplus_mod, Hlo, Hs. apply Zmod_0_l.
Qed.

Lemma tiles_length g lo hi ts : tiles g lo hi ts → 16 * Z.of_nat (length ts) ≤ hi - lo.
Proof.
  revert lo. induction ts as [|t ts IH]; cbn [tiles length]; intros lo; [lia|].
  intros (? & ? & ? & H%IH). unfold MIN_BLOCK_SIZE in *. lia.
Qed.

(** An address of the region lies in exactly one tile. *)
Lemma tiles_cover g lo hi ts x :
  tiles g lo hi ts → lo ≤ x < hi →
  ∃ ts1 t ts2, ts = ts1 ++ t :: ts2 ∧ tl_addr t ≤ x < tl_addr t + tl_size t.
Proof.
  revert lo. induction ts as [|t ts IH]; cbn; intros lo; [lia|].
  intros (? & ? & ? & Ht) Hx.
  destruct (Z_lt_le_dec x (lo + tl_size t)).
  - exists [], t, ts. split; [done|lia].
  - destruct (IH _ Ht ltac:(lia)) as (ts1 & t' & ts2 & -> & ?).
    by exists (t :: ts1), t', ts2.
Qed.

(** A live block is a used tile. *)
Lemma used_tile ts a s :
  (a, s) ∈ (useds ts).*1 → ∃ ts1 x ts2, ts = ts1 ++ Tile a s (Some x) :: ts2.
Proof.
  induction ts as [|[b t [x|]] ts IH]; rewrite ?useds_cons; cbn.
  - by intros ?%elem_of_nil.
  - rewrite elem_of_cons. intros [[= -> ->]|(ts1 & y & ts2 & ->)%IH].
    + by exists [], x, ts.
    + by exists (Tile b t (Some x) :: ts1), y, ts2.
  - intros (ts1 & y & ts2 & ->)%IH. by exists (Tile b t None :: ts1), y, ts2.
Qed.

(** Free and used addresses are disjoint. *)
Lemma tiles_free_used g lo hi ts w :
  tiles g lo hi ts → in_blocks (frees ts) w → in_blocks (useds ts).*1 w → False.
Proof.
  revert lo. induction ts as [|[a s [x|]] ts IH]; intros lo;
    rewrite ?frees_cons, ?useds_cons; cbn.
  - intros _ (? & ? & H%elem_of_nil & _). done.
  - intros (-> & ? & ? & H) Hf (b & t & Hin & ?).
    apply elem_of_cons in Hin as [[= -> ->]|Hin]; [|by eapply IH; [| |by exists b, t]].
    destruct Hf as (c & u & Hin & ?). apply tiles_frees in H.
    apply (blocks_elem _ _ _ _ _ H) in Hin. lia.
  - intros (-> & ? & ? & H) (b & t & Hin & ?) Hu.
    apply elem_of_cons in Hin as [[= -> ->]|Hin]; [|by eapply IH; [|by exists b, t|]].
    destruct Hu as (c & u & Hin & ?). apply tiles_useds in H.
    apply (blocks_elem _ _ _ _ _ H) in Hin. lia.
Qed.

(** An address of the region is free or used. *)
Lemma tiles_free_or_used g lo hi ts w :
  tiles g lo hi ts → lo ≤ w < hi → in_blocks (frees ts) w ∨ in_blocks (useds ts).*1 w.
Proof.
  intros Ht Hw. destruct (tiles_cover g lo hi ts w Ht Hw) as (ts1 & [a s [x|]] & ts2 & -> & ?);
    rewrite ?frees_app, ?useds_app, ?frees_cons, ?useds_cons; cbn in *.
  - right. rewrite fmap_app. apply in_blocks_app. right. by apply in_blocks_here.
  - left. apply in_blocks_app. right. by apply in_blocks_here.
Qed.

(** A coalesced tiling with nothing in use is a single free tile. *)
Lemma coalesced_unused g lo hi ts :
  tiles g lo hi ts → coalesced ts → useds ts = [] → lo < hi → frees ts = [(lo, hi - lo)].
Proof.
  destruct ts as [|[a s [x|]] [|[b t [y|]] ts]]; rewrite ?useds_cons; cbn.
  1: lia. 1-3, 5: done.
  - intros (-> & ? & ? & <-) _ _ _. rewrite frees_cons. cbn.
    by replace (lo + s - lo) with s by lia.
  - intros _ [Hc _]. by destruct Hc.
Qed.

Lemma free_tile ts a s :
  (a, s) ∈ frees ts → ∃ ts1 ts2, ts = ts1 ++ Tile a s None :: ts2.
Proof.
  induction ts as [|[b t [x|]] ts IH]; rewrite ?frees_cons; cbn.
  - by intros ?%elem_of_nil.
  - intros (ts1 & ts2 & ->)%IH. by exists (Tile b t (Some x) :: ts1), ts2.
  - rewrite elem_of_cons. intros [[= -> ->]|(ts1 & ts2 & ->)%IH].
    + by exists [], ts.
    + by exists (Tile b t None :: ts1), ts2.
Qed.

Lemma coalesced_mid ts1 t1 t2 ts2 :
  coalesced (ts1 ++ t1 :: t2 :: ts2) → tl_use t1 = None → tl_use t2 ≠ None.
Proof.
  induction ts1 as [|t ts1 IH]; cbn [app]; [intros [H _]; exact H|].
  intros H. apply IH. destruct (ts1 ++ t1 :: t2 :: ts2); [done|]. apply H.
Qed.

(** The addresses next to a free block are in use. *)
Lemma free_neighbours_used g lo hi ts a s w :
  tiles g lo hi ts → coalesced ts → (a, s) ∈ frees ts →
  w = a - 1 ∨ w = a + s → lo ≤ w < hi → in_blocks (useds ts).*1 w.
Proof.
  intros Ht Hco (ts1 & ts2 & ->)%free_tile Hw Hr.
  apply tiles_app in Ht as (mid & Ht1 & Ha & ? & _ & Ht2). cbn in Ha, Ht2. subst mid.
  destruct Hw as [->| ->].
  - destruct ts1 as [|[b t u] ts1 _] using rev_ind; [cbn in Ht1; lia|].
    rewrite <- app_assoc in Hco.
    apply tiles_app in Ht1 as (mid & _ & Hb & ? & _ & He). cbn in Hb, He.
    destruct u as [x|]; [|by apply coalesced_mid in Hco].
    rewrite !useds_app, useds_cons, !fmap_app. cbn. apply in_blocks_app. left.
    apply in_blocks_app. right. apply in_blocks_here.
    unfold MIN_BLOCK_SIZE in *. cbn in *. lia.
  - destruct ts2 as [|[b t u] ts2]; [cbn in Ht2; lia|].
    apply coalesced_mid in Hco; [|done]. destruct u as [x|]; [|done].
    destruct Ht2 as (Hb & ? & _). cbn in *.
    rewrite useds_app, !useds_cons, fmap_app. cbn. apply in_blocks_app. right.
    apply in_blocks_here. unfold MIN_BLOCK_SIZE in *. lia.
Qed.

(** ** Allocation *)

(** The tiling after allocating [size] bytes at the start of the free tile
    [(a, s)]; [rest] says whether the remainder stays free. *)
Definition split_tile (a s size : Z) (x : A) : list (tile A) :=
  if MIN_BLOCK_SIZE <=? s - size
  then [Tile a size (Some x); Tile (a + size) (s - size) None]
  else [Tile a s (Some x)].

(** First fit picks a free tile and every earlier free tile is too small. *)
Lemma fl_alloc_tiles size ts a l :
  fl_alloc size (frees ts) = Some (a, l) →
  ∃ ts1 s ts2, ts = ts1 ++ Tile a s None :: ts2 ∧ size ≤ s ∧
    Forall (λ b, b.2 < size) (frees ts1) ∧
    (∀ x, l = frees (ts1 ++ split_tile a s size x ++ ts2)).
Proof.
  revert l. induction ts as [|[b s [x|]] ts IH]; intros l;
    rewrite ?frees_cons; cbn; [done|..].
  - intros (ts1 & s' & ts2 & -> & ? & ? & Hl)%IH.
    exists (Tile b s (Some x) :: ts1), s', ts2. split_and!; [done..|].
    intros y. rewrite (Hl y). cbn. by rewrite frees_cons.
  - destruct (size <=? s) eqn:E; bool_to_prop.
    + intros [= <- <-]. exists [], s, ts. split_and!; [done..|].
      intros y. unfold split_tile. cbn. by destruct (MIN_BLOCK_SIZE <=? s - size).
    + destruct (fl_alloc size (frees ts)) as [[r l']|] eqn:Hfl; [|done].
      intros [= -> <-]. destruct (IH _ eq_refl) as (ts1 & s' & ts2 & -> & ? & ? & Hl).
      exists (Tile b s None :: ts1), s', ts2. split_and!; [done..| |].
      * rewrite frees_cons. constructor; [done|done].
      * intros y. cbn. rewrite frees_cons. cbn. by rewrite (Hl y).
Qed.

Lemma fl_alloc_None size (l : list (Z * Z)) :
  fl_alloc size l = None ↔ Forall (λ b, b.2 < size) l.
Proof.
  induction l as [|[b s] l IH]; cbn; [done|].
  rewrite Forall_cons, <- IH. cbn. destruct (size <=? s) eqn:E; bool_to_prop.
  - split; [done|lia].
  - destruct (fl_alloc size l) as [[??]|]; naive_solver lia.
Qed.

Lemma tiles_split g lo hi ts1 ts2 a s size x :
  0 < g → MIN_BLOCK_SIZE ≤ size ≤ s → size mod g = 0 →
  tiles g lo hi (ts1 ++ Tile a s None :: ts2) →
  tiles g lo hi (ts1 ++ split_tile a s size x ++ ts2).
Proof.
  intros Hg Hsz Hmod. rewrite !tiles_app. intros (mid & H1 & H2).
  exists mid. split; [done|]. cbn in H2. destruct H2 as (-> & ? & Hs & H2).
  unfold split_tile. destruct (MIN_BLOCK_SIZE <=? s - size) eqn:E; bool_to_prop; cbn.
  - split_and!; [done|lia|done|lia|done| |].
    + rewrite Zminus_mod, Hs, Hmod. apply Zmod_0_l.
    + by replace (mid + size + (s - size)) with (mid + s) by lia.
  - auto.
Qed.

(** ** Deallocation *)
Lemma fl_insert_app a s l1 l2 :
  Forall (λ b, b.1 < a) l1 → Forall (λ b, a < b.1) l2 →
  fl_insert a s (l1 ++ l2) = l1 ++ (a, s) :: l2.
Proof.
  induction 1 as [|[b t] l1 Hb _ IH]; cbn; intros H2.
  - destruct H2 as [|[c u] l2 Hc]; cbn in *; [done|].
    by rewrite (proj2 (Z.ltb_lt a c) Hc).
  - cbn in Hb. rewrite (proj2 (Z.ltb_ge a b)) by lia. by rewrite IH.
Qed.

(** Inserting a used tile's range into the free list is freeing the tile. *)
Lemma fl_insert_tiles g lo hi ts1 a s x ts2 :
  tiles g lo hi (ts1 ++ Tile a s (Some x) :: ts2) →
  fl_insert a s (frees (ts1 ++ Tile a s (Some x) :: ts2)) =
    frees (ts1 ++ Tile a s None :: ts2).
Proof.
  rewrite tiles_app. intros (mid & H1 & H2). cbn in H2.
  destruct H2 as (-> & ? & ? & H2). rewrite !frees_app, !frees_cons. cbn.
  apply tiles_frees in H1, H2. unfold MIN_BLOCK_SIZE in *.
  apply fl_insert_app; apply Forall_forall; intros [b t] Hin; cbn.
  - apply (blocks_elem _ _ _ _ _ H1) in Hin. unfold MIN_BLOCK_SIZE in *. lia.
  - apply (blocks_elem _ _ _ _ _ H2) in Hin. lia.
Qed.

Lemma tiles_set_use g lo hi ts1 a s u v ts2 :
  tiles g lo hi (ts1 ++ Tile a s u :: ts2) → tiles g lo hi (ts1 ++ Tile a s v :: ts2).
Proof. rewrite !tiles_app. naive_solver. Qed.

(** ** Merging *)
Lemma fl_merge_from_eq a s l :
  fl_merge_from a s l =
    match fl_merge l with
    | (b, t) :: r => if a + s =? b then (a, s + t) :: r else (a, s) :: (b, t) :: r
    | [] => [(a, s)]
    end.
Proof.
  revert a s. induction l as [|[c u] l IH]; intros a s; [done|].
  cbn [fl_merge fl_merge_from]. rewrite (IH c u), (IH a (s + u)).
  destruct (fl_merge l) as [|[b t] r].
  { by destruct (a + s =? c). }
  destruct (a + s =? c) eqn:E1, (c + u =? b) eqn:E2, (a + (s + u) =? b) eqn:E3;
    try (exfalso; blia); rewrite ?E1; try done.
  by rewrite Z.add_assoc.
Qed.

Lemma coalesce_cons_free a s ts :
  coalesce (Tile a s None :: ts) =
    match coalesce ts with
    | Tile b t None :: r => Tile a (s + t) None :: r
    | r => Tile a s None :: r
    end.
Proof. cbn. by destruct (coalesce ts) as [|[b t [x|]] r]. Qed.

Lemma tiles_coalesce g lo hi ts :
  0 < g → tiles g lo hi ts → tiles g lo hi (coalesce ts).
Proof.
  intros Hg. revert lo. induction ts as [|[a s [x|]] ts IH]; intros lo; [done|..].
  - cbn. naive_solver.
  - rewrite coalesce_cons_free. cbn. intros (-> & ? & Hs & Hts).
    specialize (IH _ Hts). destruct (coalesce ts) as [|[b t [x|]] r]; cbn in *;
      [by auto..|].
    destruct IH as (? & ? & Ht & ?). unfold MIN_BLOCK_SIZE in *.
    split_and!; [done|lia| |by rewrite Z.add_assoc].
    rewrite Zplus_mod, Hs, Ht. apply Zmod_0_l.
Qed.

Lemma useds_coalesce ts : useds (coalesce ts) = useds ts.
Proof.
  induction ts as [|[a s [x|]] ts IH]; [done|..].
  - cbn [coalesce tl_use]. rewrite !useds_cons. cbn. by f_equal.
  - rewrite coalesce_cons_free, useds_cons. cbn [tl_use]. rewrite <- IH.
    by destruct (coalesce ts) as [|[b t [x|]] r].
Qed.

Lemma frees_coalesce g lo hi ts :
  0 < g → tiles g lo hi ts → frees (coalesce ts) = fl_merge (frees ts).
Proof.
  intros Hg. revert lo. induction ts as [|[a s [x|]] ts IH]; intros lo; [done|..];
    intros (Ha & ? & ? & Hts); cbn [tl_addr tl_size] in *.
  - cbn [coalesce tl_use]. rewrite !frees_cons. cbn. eauto.
  - rewrite coalesce_cons_free, frees_cons. cbn [tl_use tl_addr tl_size fl_merge].
    rewrite fl_merge_from_eq, <- (IH _ Hts).
    pose proof (tiles_coalesce g _ _ _ Hg Hts) as Hc.
    destruct (coalesce ts) as [|[b t [x|]] r]; [done|..];
      rewrite !frees_cons; cbn; destruct Hc as (? & ? & ? & Hr); cbn in *.
    + destruct (frees r) as [|[c u] r'] eqn:Er; [done|].
      assert (lo + s < c); [|by rewrite (proj2 (Z.eqb_neq (a + s) c)) by lia].
      apply tiles_frees in Hr. rewrite Er in Hr. cbn in Hr.
      unfold MIN_BLOCK_SIZE in *. lia.
    + by rewrite (proj2 (Z.eqb_eq (a + s) b)) by lia.
Qed.

Lemma coalesced_coalesce ts : coalesced (coalesce ts).
Proof.
  induction ts as [|[a s [x|]] ts IH]; [done|..].
  - cbn. destruct (coalesce ts) as [|t r]; cbn; auto.
  - rewrite coalesce_cons_free. destruct (coalesce ts) as [|[b t [x|]] r]; [done|..].
    + split; [done|exact IH].
    + cbn in *. destruct r as [|t' r]; [done|]. naive_solver.
Qed.

Lemma coalesced_split ts1 ts2 a s size x :
  coalesced (ts1 ++ Tile a s None :: ts2) →
  coalesced (ts1 ++ split_tile a s size x ++ ts2).
Proof.
  assert (Hu : ∀ u, coalesced (Tile a s None :: ts2) → tl_use u = None →
            coalesced (u :: ts2)).
  { intros u. destruct ts2; cbn; naive_solver. }
  intros H. induction ts1 as [|t ts1 IH].
  - cbn [app] in *. unfold split_tile.
    destruct (MIN_BLOCK_SIZE <=? s - size); cbn [app].
    + split; [done|]. by apply Hu.
    + destruct ts2; cbn in *; [done|]. naive_solver.
  - destruct ts1 as [|t' ts1].
    + cbn [app] in *. destruct H as [H1 H2]. specialize (IH H2). revert IH.
      unfold split_tile. destruct (MIN_BLOCK_SIZE <=? s - size); cbn [app];
        intros IH; (split; [done|exact IH]).
    + cbn [app] in *. destruct H as [H1 H2]. split; [done|]. by apply IH.
Qed.

(** In a coalesced tiling a gap free of used tiles lies inside one free tile:
    first fit misses no gap. *)
Lemma free_gap_in_tile g lo hi ts x n :
  tiles g lo hi ts → coalesced ts → 0 < n → lo ≤ x → x + n ≤ hi →
  Forall (λ b, apart (x, n) b.1) (useds ts) →
  ∃ a s, (a, s) ∈ frees ts ∧ a ≤ x ∧ x + n ≤ a + s.
Proof.
  intros Hts Hco Hn Hlo Hhi Hap.
  destruct (tiles_cover g lo hi ts x Hts ltac:(lia)) as (ts1 & [a s u] & ts2 & -> & Hx).
  rewrite useds_app, useds_cons, Forall_app in Hap. destruct Hap as [_ Hap].
  apply tiles_app in Hts as (mid & _ & Hm & ? & _ & Hts2). cbn in Hx, Hm, Hap, Hts2.
  destruct u as [y|].
  { apply Forall_cons in Hap as [Hap _]. unfold apart in Hap. cbn in Hap. lia. }
  exists a, s. split; [rewrite frees_app, frees_cons; set_solver|].
  split; [lia|]. destruct ts2 as [|[b t [y|]] ts2]; cbn in Hts2.
  - lia.
  - rewrite useds_cons in Hap. apply Forall_cons in Hap as [Hap _].
    unfold apart, MIN_BLOCK_SIZE in *. cbn in Hap. lia.
  - exfalso. clear -Hco. induction ts1 as [|t' ts1 IH]; cbn [app] in Hco.
    + destruct Hco as [Hco _]. by apply Hco.
    + apply IH. destruct (ts1 ++ Tile a s None :: _); [done|]. apply Hco.
Qed.
(** Putting a used tile on the free list and merging frees the tile; both
    allocators' deallocation paths are this sequence after writing the node. *)
Lemma release_spec g lo hi m h ts1 a s x ts2 fuel :
  0 < g → 0 < lo → hi < 18446744073709551616 →
  tiles g lo hi (ts1 ++ Tile a s (Some x) :: ts2) →
  lseg m h (frees (ts1 ++ Tile a s (Some x) :: ts2)) None → node_size m a = s →
  fuel = list_fuel (hi - lo) →
  ∃ m1 m2 h', add_free fuel m h a = Ret (m1, h') ∧ merge_free fuel m1 h' = Ret m2 ∧
    lseg m2 h' (frees (coalesce (ts1 ++ Tile a s None :: ts2))) None ∧
    agree_outside (in_blocks (frees (ts1 ++ Tile a s None :: ts2))) m m2.
Proof.
  intros Hg Hlo Hhi Ht Hl Hs ->. pose proof (tiles_set_use _ _ _ _ _ _ _ None _ Ht) as Ht'.
  pose proof (tiles_frees _ _ _ _ Ht') as Hb'. pose proof (tiles_frees _ _ _ _ Ht) as Hb.
  pose proof (fl_insert_tiles _ _ _ _ _ _ _ _ Ht) as Hins.
  destruct (add_free_spec (list_fuel (hi - lo)) m h
              (frees (ts1 ++ Tile a s (Some x) :: ts2)) a s lo hi)
    as (m1 & h' & -> & Hl1 & Hag1); [done..|by rewrite Hins|done| |].
  { apply blocks_fuel in Hb. lia. }
  rewrite Hins in Hl1, Hag1. rewrite (frees_coalesce g lo hi) by done.
  destruct (frees (ts1 ++ Tile a s None :: ts2)) as [|[b t] l] eqn:Hf.
  { rewrite frees_app, frees_cons in Hf. cbn in Hf. by destruct (frees ts1). }
  pose proof Hl1 as (-> & _).
  destruct (merge_free_spec (list_fuel (hi - lo)) m1 b t l lo hi)
    as (m2 & Hm & Hl2 & Hag2); [done..| |].
  { apply blocks_fuel in Hb'. cbn in Hb'. lia. }
  exists m1, m2, (Some b). split_and!; [done..|].
  eapply agree_outside_weaken, agree_outside_trans; [|exact Hag1|exact Hag2].
  intros w. by eapply node_words_in_blocks.
Qed.
End tiling.

(** Ranges listed by [blocks] are pairwise apart. *)
Lemma blocks_pairwise lo hi l : blocks lo hi l → pairwise apart l.
Proof.
  revert lo. induction l as [|[a s] l IH]; cbn; intros lo; [done|].
  intros (? & ? & H). split; [|by eapply IH].
  apply Forall_forall. intros [b t] Hin.
  apply (blocks_elem _ _ _ _ _ H) in Hin. unfold apart. cbn. lia.
Qed.
