(* ===== verification/Spinlock.v ===== *)
(** The kernel's lock ([Spinlock] of [src/allocator.rs]), which disables
    interrupts while it is held and panics on contention. *)

From S2P Require Import Prelude.

(** [Spinlock]: the flag, the protected data, and the processor's interrupt
    flag around it. *)
Record Spinlock (T : Type) : Type := mkSpinlock { locked : bool; data : T }.
Arguments mkSpinlock {T} locked data.
Arguments locked {T} s.
Arguments data {T} s.

(** [Spinlock::lock]: the new lock and interrupt flag, and the guard's record of
    the flag before. *)
Definition lock {T} (self : Spinlock T) (interrupts : bool) :
    outcome (Spinlock T * bool * bool) :=
  if locked self then Panic
  else Ret (mkSpinlock true (data self), false, interrupts).
(** [SpinlockGuard::drop] *)
Definition unlock {T} (self : Spinlock T) (interrupts guard : bool) : Spinlock T * bool :=
  (mkSpinlock false (data self), if guard then true else interrupts).

(** Run [f] on the data while holding the lock. *)
Definition with_lock {T R} (self : Spinlock T) (interrupts : bool)
    (f : T → outcome (T * R)) : outcome (Spinlock T * bool * R) :=
  '(s, i, g) ← lock self interrupts;
  '(d, r) ← f (data s);
  let '(s', i') := unlock (mkSpinlock (locked s) d) i g in
  Ret (s', i', r).

Lemma with_lock_Ret {T R} (d d' : T) interrupts f (r : R) :
  f d = Ret (d', r) →
  with_lock (mkSpinlock false d) interrupts f = Ret (mkSpinlock false d', interrupts, r).
Proof. intros Hf. unfold with_lock, lock, unlock. cbn. rewrite Hf. cbn. by destruct interrupts. Qed.

Lemma with_lock_contention {T R} (d : T) interrupts (f : T → outcome (T * R)) :
  with_lock (mkSpinlock true d) interrupts f = Panic.
Proof. done. Qed.
