(* ===== verification/ProgramAlloc.v ===== *)
(** The program-region allocator ([src/program_alloc.rs]): a first-fit,
    address-ordered free list over [0x400000, 0x1000000). *)

From S2P Require Import Prelude FreeList Tiling Spinlock.

Definition PROGRAM_REGION_START : Z := 0x400000.
Definition PROGRAM_REGION_END : Z := 0x1000000.
Definition PROGRAM_REGION_SIZE : Z := PROGRAM_REGION_END - PROGRAM_REGION_START.
Definition PAGE_SIZE : Z := 4096.

(** [struct ProgramAllocator], with the memory its list lives in and the log of
    visualiser notifications. *)
Record ProgramAllocator : Type := mkProgramAllocator {
  mem : gmap Z Z;
  head : option Z;
  allocated : Z;
  vis : list vis_event;
}.

(** [ProgramAllocator::new] *)
Definition new (m : gmap Z Z) : ProgramAllocator :=
  mkProgramAllocator m None 0 [].

(** [ProgramAllocator::init] *)
Definition init (self : ProgramAllocator) : ProgramAllocator :=
  mkProgramAllocator
    (node_new (mem self) PROGRAM_REGION_START PROGRAM_REGION_SIZE)
    (Some PROGRAM_REGION_START) 0 (vis self).

(** [ProgramAllocator::align_up] and the size actually reserved. *)
Definition align_up_page (addr : Z) : Z := align_up addr PAGE_SIZE.
Definition rounded (size : Z) : Z := Z.max (align_up_page size) MIN_BLOCK_SIZE.

Definition fuel : nat := list_fuel PROGRAM_REGION_SIZE.

(** The first-fit loop of [ProgramAllocator::allocate]. *)
Fixpoint allocate_loop (n : nat) (self : ProgramAllocator) (size : Z)
    (prev current : option Z) : outcome (ProgramAllocator * option Z) :=
  match n with
  | O => Diverge
  | S n =>
      match current with
      | Some region_start =>
          let region_size := node_size (mem self) region_start in
          if size <=? region_size then
            let next := node_next (mem self) region_start in
            let remaining := region_size - size in
            let '(m, h) :=
              if MIN_BLOCK_SIZE <=? remaining then
                let new_region := u64 (region_start + size) in
                let m1 := node_new (mem self) new_region remaining in
                let m2 := set_next m1 new_region next in
                set_link m2 (head self) prev (Some new_region)
              else set_link (mem self) (head self) prev next in
            Ret (mkProgramAllocator m h (u64 (allocated self + size))
                   (vis self ++ [OnAlloc region_start size]),
                 Some region_start)
          else
            allocate_loop n self size current (node_next (mem self) region_start)
      | None => Ret (self, None)
      end
  end.

(** [ProgramAllocator::allocate] *)
Definition allocate (self : ProgramAllocator) (size : Z) :
    outcome (ProgramAllocator * option Z) :=
  allocate_loop fuel self (rounded size) None (head self).

(** [ProgramAllocator::deallocate] *)
Definition deallocate (self : ProgramAllocator) (addr size : Z) :
    outcome ProgramAllocator :=
  let size := rounded size in
  let m1 := node_new (mem self) addr size in
  '(m2, h) ← add_free fuel m1 (head self) addr;
  m3 ← merge_free fuel m2 h;
  Ret (mkProgramAllocator m3 h (u64 (allocated self - size))
         (vis self ++ [OnDealloc addr size])).

(** [ProgramAllocator::stats]: (allocated bytes, free bytes). *)
Definition stats (self : ProgramAllocator) : outcome (Z * Z) :=
  free ← sum_free fuel (mem self) 0 (head self);
  Ret (allocated self, free).

(** The gap walk of [find_allocation]. *)
Fixpoint find_allocation_loop (n : nat) (m : gmap Z Z) (addr prev_end : Z)
    (current : option Z) : outcome (option (Z * Z)) :=
  match n with
  | O => Diverge
  | S n =>
      match current with
      | Some region_start =>
          let region_end := u64 (region_start + node_size m region_start) in
          if (prev_end <? region_start) && (prev_end <=? addr)
               && (addr <? region_start)
          then Ret (Some (prev_end, region_start))
          else if (region_start <=? addr) && (addr <? region_end) then Ret None
          else find_allocation_loop n m addr region_end (node_next m region_start)
      | None =>
          if (prev_end <? PROGRAM_REGION_END) && (prev_end <=? addr)
               && (addr <? PROGRAM_REGION_END)
          then Ret (Some (prev_end, PROGRAM_REGION_END))
          else Ret None
      end
  end.

(** [program_alloc::find_allocation] *)
Definition find_allocation (self : ProgramAllocator) (addr : Z) :
    outcome (option (Z * Z)) :=
  if (addr <? PROGRAM_REGION_START) || (PROGRAM_REGION_END <=? addr)
  then Ret None
  else find_allocation_loop fuel (mem self) addr PROGRAM_REGION_START (head self).

Fixpoint find_free_region_loop (n : nat) (m : gmap Z Z) (addr : Z)
    (current : option Z) : outcome (option (Z * Z)) :=
  match n with
  | O => Diverge
  | S n =>
      match current with
      | Some region_start =>
          let region_end := u64 (region_start + node_size m region_start) in
          if (region_start <=? addr) && (addr <? region_end)
          then Ret (Some (region_start, region_end))
          else find_free_region_loop n m addr (node_next m region_start)
      | None => Ret None
      end
  end.

(** [program_alloc::find_free_region] *)
Definition find_free_region (self : ProgramAllocator) (addr : Z) :
    outcome (option (Z * Z)) :=
  if (addr <? PROGRAM_REGION_START) || (PROGRAM_REGION_END <=? addr)
  then Ret None
  else find_free_region_loop fuel (mem self) addr (head self).

(** The module's functions, which run the methods on [PROGRAM_ALLOCATOR] under
    its lock. *)
Definition program_init (a : Spinlock ProgramAllocator) (interrupts : bool) :
    outcome (Spinlock ProgramAllocator * bool * unit) :=
  with_lock a interrupts (λ self, Ret (init self, tt)).
Definition program_allocate (a : Spinlock ProgramAllocator) (interrupts : bool) (size : Z) :
    outcome (Spinlock ProgramAllocator * bool * option Z) :=
  with_lock a interrupts (λ self, allocate self size).
Definition program_deallocate (a : Spinlock ProgramAllocator) (interrupts : bool)
    (addr size : Z) : outcome (Spinlock ProgramAllocator * bool * unit) :=
  with_lock a interrupts (λ self, self' ← deallocate self addr size; Ret (self', tt)).
Definition program_stats (a : Spinlock ProgramAllocator) (interrupts : bool) :
    outcome (Spinlock ProgramAllocator * bool * (Z * Z)) :=
  with_lock a interrupts (λ self, r ← stats self; Ret (self, r)).

(** ** Refinement of the loops to the abstract free list *)
Lemma allocate_loop_spec n self size l1 cur l2 lo hi :
  0 < lo → hi < 18446744073709551616 → MIN_BLOCK_SIZE ≤ size →
  lseg (mem self) (head self) l1 cur → lseg (mem self) cur l2 None →
  blocks lo hi (l1 ++ l2) → (length l2 < n)%nat →
  match fl_alloc size l2 with
  | None => allocate_loop n self size (fst <$> last l1) cur = Ret (self, None)
  | Some (a, l2') =>
      ∃ m' h',
        allocate_loop n self size (fst <$> last l1) cur =
          Ret (mkProgramAllocator m' h' (u64 (allocated self + size))
                 (vis self ++ [OnAlloc a size]), Some a) ∧
        lseg m' h' (l1 ++ l2') None ∧
        agree_outside (in_blocks (l1 ++ l2)) (mem self) m'
  end.
Proof.
  intros Hlo Hhi Hsize. revert n l1 cur.
  induction l2 as [|[a s] l2 IH]; intros n l1 cur H1 H2 Hb Hn;
    (destruct n as [|n]; [cbn in Hn; lia|]).
  { cbn in *. by subst. }
  destruct H2 as (-> & Ha & Hs & H2). cbn [allocate_loop fl_alloc]. rewrite Hs.
  destruct (size <=? s) eqn:Hfit; bool_to_prop.
  2:{ specialize (IH n (l1 ++ [(a, s)]) (node_next (mem self) a)).
      rewrite last_snoc, <- app_assoc in IH. cbn [app fmap option_fmap] in IH.
      destruct (fl_alloc size l2) as [[r l']|].
      - destruct IH as (m' & h' & Hr & Hl & Hag); [|done..|cbn in Hn; lia|].
        + apply lseg_app. exists (Some a). cbn. auto.
        + exists m', h'. rewrite <- app_assoc in Hl. auto.
      - apply IH; [|done..|cbn in Hn; lia].
        apply lseg_app. exists (Some a). cbn. auto. }
  apply blocks_app in Hb as (mid & Hb1 & Hb2). cbn in Hb2.
  destruct Hb2 as (Hmid & Hs16 & Hb2). pose proof (blocks_le _ _ _ Hb2).
  pose proof (blocks_le _ _ _ Hb1). unfold MIN_BLOCK_SIZE in *.
  assert (Hd1 : ∀ w, node_words l1 w → w < a).
  { intros w Hw%(blocks_node_words _ _ _ _ Hb1). lia. }
  assert (Hd2 : ∀ w, node_words l2 w → a + s ≤ w).
  { intros w Hw%(blocks_node_words _ _ _ _ Hb2). lia. }
  assert (Hin : agree_outside (node_words l1) (mem self) (mem self)) by done.
  destruct (16 <=? s - size) eqn:Hrem; bool_to_prop.
  - rewrite u64_small by lia.
    set (m2 := set_next _ _ _).
    assert (Hag : agree_outside (λ w, w = a + size ∨ w = a + size + 8) (mem self) m2).
    { eapply agree_outside_trans; eapply agree_outside_weaken;
        [|apply agree_node_new| |apply agree_set_next]; naive_solver. }
    destruct (set_link_spec m2 (head self) l1 (Some a) (Some (a + size)) lo mid)
      as (m' & h' & -> & Hl' & Hag'); [done| | |].
    { eapply lseg_frame; [done| |done]. intros w Hw%Hd1 Hw'. cbn in Hw'. lia. }
    { intros x [= <-]. lia. }
    exists m', h'. split; [done|]. split.
    + apply lseg_app. eexists. split; [done|]. cbn.
      assert (Hout : ∀ w, a ≤ w → load m' w = load m2 w).
      { intros w Hw. apply Hag'. intros Hw'%Hd1. lia. }
      unfold node_size, node_next, load_ptr. rewrite !Hout by lia.
      split_and!; [done|lia| |].
      * unfold m2, node_new, set_next, set_size.
        rewrite !load_store_ne by lia. apply load_store_eq.
      * change (lseg m' (node_next m2 (a + size)) l2 None).
        unfold m2 at 1. rewrite node_next_set_next by (intros; by eapply lseg_head_pos).
        eapply (lseg_frame (node_words l1)); [done|intros w ?%Hd2 ?%Hd1; lia|].
        eapply lseg_frame; [exact Hag|intros w ?%Hd2 Hw'; cbn in Hw'; lia|done].
    + eapply agree_outside_trans; eapply agree_outside_weaken; [|exact Hag| |exact Hag'].
      * intros w Hw. cbn in Hw. apply in_blocks_app. right. apply in_blocks_here. lia.
      * intros w Hw. apply in_blocks_app. left. by eapply node_words_in_blocks.
  - destruct (set_link_spec (mem self) (head self) l1 (Some a)
                (node_next (mem self) a) lo mid)
      as (m' & h' & -> & Hl' & Hag'); [done..| |].
    { intros x Hx. by eapply lseg_head_pos. }
    exists m', h'. split; [done|]. split.
    + apply lseg_app. eexists. split; [done|].
      eapply (lseg_frame (node_words l1)); [done|intros w ?%Hd2 ?%Hd1; lia|done].
    + eapply agree_outside_weaken; [|done].
      intros w Hw. apply in_blocks_app. left. by eapply node_words_in_blocks.
Qed.

Lemma find_free_region_loop_spec n m addr cur l lo hi :
  0 < lo → hi < 18446744073709551616 →
  lseg m cur l None → blocks lo hi l → (length l < n)%nat →
  ∃ r, find_free_region_loop n m addr cur = Ret r ∧
    match r with
    | Some (a, e) => (a, e - a) ∈ l ∧ a ≤ addr < e
    | None => ¬ in_blocks l addr
    end.
Proof.
  intros Hlo Hhi. revert n cur lo Hlo.
  induction l as [|[a s] l IH]; intros n cur lo Hlo Hl Hb Hn;
    (destruct n as [|n]; [cbn in Hn; lia|]).
  { cbn in *. subst. exists None. split; [done|]. intros (? & ? & Hin & _). set_solver. }
  destruct Hl as (-> & ? & Hs & Hl). cbn in Hb. destruct Hb as (? & ? & Hb).
  unfold MIN_BLOCK_SIZE in *. pose proof (blocks_le _ _ _ Hb).
  cbn [find_free_region_loop]. rewrite Hs, u64_small by lia.
  destruct ((a <=? addr) && (addr <? a + s)) eqn:E; bool_to_prop.
  - exists (Some (a, a + s)). split; [done|]. replace (a + s - a) with s by lia.
    split; [set_solver|lia].
  - destruct (IH n (node_next m a) (a + s)) as (r & Hr & HP); [lia|done..|cbn in Hn; lia|].
    exists r. split; [done|]. destruct r as [[b e]|]; [set_solver|].
    intros (b & t & [[= -> ->]|?]%elem_of_cons & ?); [lia|]. apply HP. by exists b, t.
Qed.

Lemma find_allocation_loop_spec n m addr prev_end cur l :
  0 < prev_end → lseg m cur l None → blocks prev_end PROGRAM_REGION_END l →
  prev_end ≤ addr < PROGRAM_REGION_END → (length l < n)%nat →
  ∃ r, find_allocation_loop n m addr prev_end cur = Ret r ∧
    match r with
    | Some (lo, hi) =>
        lo ≤ addr < hi ∧ (∀ w, lo ≤ w < hi → ¬ in_blocks l w) ∧
        (lo = prev_end ∨ in_blocks l (lo - 1)) ∧
        (hi = PROGRAM_REGION_END ∨ in_blocks l hi)
    | None => in_blocks l addr
    end.
Proof.
  revert n prev_end cur. induction l as [|[a s] l IH]; intros n pe cur Hpe Hl Hb Ha Hn;
    (destruct n as [|n]; [cbn in Hn; lia|]); cbn [find_allocation_loop lseg blocks] in *.
  { subst. rewrite (proj2 (Z.leb_le _ _)), !(proj2 (Z.ltb_lt _ _)) by lia.
    eexists. split; [done|]. split; [lia|]. split; [|by auto].
    intros w _ (? & ? & H%elem_of_nil & _). done. }
  destruct Hl as (-> & ? & Hs & Hl). destruct Hb as (? & ? & Hb). rewrite Hs.
  pose proof (blocks_le _ _ _ Hb). unfold MIN_BLOCK_SIZE, PROGRAM_REGION_END in *.
  rewrite u64_small by lia.
  destruct ((pe <? a) && (pe <=? addr) && (addr <? a)) eqn:E1; bool_to_prop.
  { eexists. split; [done|]. split; [lia|]. split_and!; [|by auto|].
    - intros w Hw (b & t & Hin & ?).
      apply elem_of_cons in Hin as [[= -> ->]|Hin]; [lia|].
      apply (blocks_elem _ _ _ _ _ Hb) in Hin. lia.
    - right. apply in_blocks_here. lia. }
  destruct ((a <=? addr) && (addr <? a + s)) eqn:E2; bool_to_prop.
  { exists None. split; [done|]. apply in_blocks_here. lia. }
  assert (Hcons : ∀ w, in_blocks l w → in_blocks ((a, s) :: l) w).
  { intros w (b & t & ? & ?). exists b, t. split; [by apply elem_of_cons; right|done]. }
  destruct (IH n (a + s) (node_next m a)) as (r & -> & HP); [lia|done..|lia|cbn in Hn; lia|].
  exists r. split; [done|]. destruct r as [[lo hi]|]; [|by auto].
  destruct HP as (? & Hnot & Hlo & Hhi). split; [done|]. split_and!.
  - intros w Hw (b & t & Hin & ?).
    apply elem_of_cons in Hin as [[= -> ->]|Hin]; [|apply (Hnot w Hw); by exists b, t].
    destruct Hlo as [->|(c & u & Hin & ?)]; [lia|].
    apply (blocks_elem _ _ _ _ _ Hb) in Hin. lia.
  - right. destruct Hlo as [->|?]; [apply in_blocks_here; lia|auto].
  - naive_solver.
Qed.

(** ** Invariant

    [live] lists the allocated blocks.  The region is tiled by the live blocks
    and the blocks of the free list, no two free blocks are adjacent, and sizes
    are multiples of [g] (16 in general, the page size when every request is
    positive and does not overflow when rounded). *)
Definition pa_inv (g : Z) (self : ProgramAllocator) (live : list (Z * Z)) : Prop :=
  ∃ ts : list (tile unit),
    tiles g PROGRAM_REGION_START PROGRAM_REGION_END ts ∧ coalesced ts ∧
    lseg (mem self) (head self) (frees ts) None ∧
    (useds ts).*1 ≡ₚ live ∧ allocated self = sumZ live.*2.

(** No gap of [size] bytes starts at [x]. *)
Definition no_gap_at (live : list (Z * Z)) (size x : Z) : Prop :=
  ∃ b, b ∈ live ∧ ¬ apart (x, size) b.

Lemma align_up_page_mod size : align_up_page size mod PAGE_SIZE = 0.
Proof.
  unfold align_up_page, align_up, PAGE_SIZE. change (4096 - 1) with (Z.ones 12).
  rewrite land_not64_ones by (try apply u64_range; lia). apply Z.mod_mul. lia.
Qed.

Lemma rounded_min size : MIN_BLOCK_SIZE ≤ rounded size.
Proof. unfold rounded. lia. Qed.

Lemma rounded_mod_16 size : rounded size mod 16 = 0.
Proof.
  unfold rounded. apply Z.max_case; [|done].
  pose proof (align_up_page_mod size) as H. unfold PAGE_SIZE in H.
  apply Z.mod_divide in H as [k ->]; [|lia].
  replace (k * 4096) with (k * 256 * 16) by lia. apply Z.mod_mul. lia.
Qed.

Lemma rounded_page size :
  0 < size → size + 4095 < 18446744073709551616 →
  rounded size mod PAGE_SIZE = 0 ∧ size ≤ rounded size < size + PAGE_SIZE.
Proof.
  intros H1 H2.
  assert (Ha : size ≤ align_up_page size < size + PAGE_SIZE).
  { unfold align_up_page, PAGE_SIZE. change 4096 with (2 ^ 12).
    rewrite align_up_spec by lia.
    pose proof (div_mul_bounds (size + 2 ^ 12 - 1) (2 ^ 12)). lia. }
  assert (Hr : rounded size = align_up_page size); [|rewrite Hr; split; [apply align_up_page_mod|done]].
  unfold rounded, MIN_BLOCK_SIZE, PAGE_SIZE in *. pose proof (align_up_page_mod size) as Hm.
  unfold PAGE_SIZE in Hm. apply Z.mod_divide in Hm as [k Hk]; lia.
Qed.

#[local] Abbreviation START := PROGRAM_REGION_START.
#[local] Abbreviation END := PROGRAM_REGION_END.

Lemma pa_inv_live g self live :
  pa_inv g self live →
  pairwise apart live ∧ (∀ a s, (a, s) ∈ live → START ≤ a ∧ MIN_BLOCK_SIZE ≤ s ∧ a + s ≤ END) ∧
  0 ≤ allocated self ≤ PROGRAM_REGION_SIZE.
Proof.
  intros (ts & Ht & _ & _ & Hp & Ha). pose proof (tiles_sum _ _ _ _ Ht) as Hsum.
  pose proof (tiles_frees _ _ _ _ Ht) as Hf. apply tiles_useds in Ht.
  pose proof (blocks_sum _ _ _ Hf). pose proof (blocks_sum _ _ _ Ht).
  split_and!.
  - rewrite <- Hp. by eapply blocks_pairwise.
  - intros a s. rewrite <- Hp. by apply blocks_elem.
  - rewrite Ha, <- Hp. lia.
  - rewrite Ha, <- Hp. unfold PROGRAM_REGION_SIZE. lia.
Qed.

Lemma pa_inv_init self : pa_inv 4096 (init self) [] ∧ pa_inv 16 (init self) [].
Proof.
  assert (Hl : lseg (mem (init self)) (head (init self)) [(START, PROGRAM_REGION_SIZE)] None).
  { split_and!; [done..|apply node_size_node_new|apply node_next_node_new]. }
  split; exists [Tile START PROGRAM_REGION_SIZE None]; (split_and!; [done..|exact Hl|done|done]).
Qed.

(** Allocation on the tiling: the block chosen by first fit and the gaps that
    first fit passes over. *)
Lemma first_fit_tiles g (ts : list (tile unit)) live size a l :
  0 < g → g mod 16 = 0 → size mod g = 0 → MIN_BLOCK_SIZE ≤ size →
  tiles g START END ts → coalesced ts → (useds ts).*1 ≡ₚ live →
  fl_alloc size (frees ts) = Some (a, l) →
  ∃ ts' : list (tile unit), tiles g START END ts' ∧ coalesced ts' ∧ l = frees ts' ∧
    (useds ts').*1 ≡ₚ (a, size) :: live ∧
    ∀ x, START ≤ x < a → no_gap_at live size x.
Proof.
  intros Hg Hg16 Hmod Hmin Ht Hco Hp Hfl.
  destruct (fl_alloc_tiles _ _ _ _ Hfl) as (ts1 & s & ts2 & -> & Hle & Hsmall & Hl).
  exists (ts1 ++ split_tile a s size tt ++ ts2).
  split; [by apply tiles_split|]. split; [by apply coalesced_split|].
  split; [by apply Hl|]. split.
  - rewrite <- Hp, !useds_app, useds_cons. cbn [tl_use].
    assert (useds (split_tile a s size tt) = [(a, size, tt)]) as ->.
    { unfold split_tile. destruct (MIN_BLOCK_SIZE <=? s - size) eqn:E; [done|].
      assert (s = size) as ->; [|done]. bool_to_prop. unfold MIN_BLOCK_SIZE in *.
      pose proof (tiles_size_mod g _ _ _ a s Ht) as Hs.
      rewrite frees_app, frees_cons in Hs. cbn in Hs.
      specialize (Hs ltac:(left; set_solver)).
      apply Z.mod_divide in Hs as [k Hk], Hmod as [k' Hk'], Hg16 as [k'' Hk'']; nia. }
    rewrite !fmap_app. cbn. by rewrite Permutation_middle.
  - intros x Hx. destruct (decide (Forall (apart (x, size)) live)) as [Hall|Hall].
    2:{ apply not_Forall_Exists in Hall; [|apply _].
        apply Exists_exists in Hall as (b & ? & ?). by exists b. }
    pose proof Ht as (mid & Ht1 & Ha & ? & ? & Ht2)%tiles_app. cbn in Ha, Ht2. subst mid.
    destruct (free_gap_in_tile g START END _ x size Ht Hco) as (b & t & Hin & ? & ?).
    { unfold MIN_BLOCK_SIZE in *. lia. } { lia. }
    { apply tiles_le in Ht2. unfold MIN_BLOCK_SIZE in *. lia. }
    { rewrite <- Hp in Hall. exact (proj1 (Forall_fmap _ _ _) Hall). }
    exfalso. rewrite frees_app, frees_cons in Hin. cbn in Hin.
    rewrite elem_of_app, elem_of_cons in Hin.
    rewrite Forall_forall in Hsmall.
    destruct Hin as [Hin|[[= -> ->]|Hin]]; [specialize (Hsmall _ Hin); cbn in *; lia|lia|].
    apply tiles_frees in Ht2. apply (blocks_elem _ _ _ _ _ Ht2) in Hin.
    unfold MIN_BLOCK_SIZE in *. lia.
Qed.

Lemma first_fit_none g (ts : list (tile unit)) live size x :
  MIN_BLOCK_SIZE ≤ size → tiles g START END ts → coalesced ts → (useds ts).*1 ≡ₚ live →
  fl_alloc size (frees ts) = None → START ≤ x → x + size ≤ END → no_gap_at live size x.
Proof.
  intros Hmin Ht Hco Hp Hfl%fl_alloc_None Hx Hx'.
  destruct (decide (Forall (apart (x, size)) live)) as [Hall|Hall].
  2:{ apply not_Forall_Exists in Hall; [|apply _].
      apply Exists_exists in Hall as (b & ? & ?). by exists b. }
  destruct (free_gap_in_tile g START END ts x size) as (b & t & Hin & ? & ?); [done..| |lia|lia| |].
  { unfold MIN_BLOCK_SIZE in *. lia. }
  { rewrite <- Hp in Hall. exact (proj1 (Forall_fmap _ _ _) Hall). }
  rewrite Forall_forall in Hfl. specialize (Hfl _ Hin). cbn in Hfl. lia.
Qed.

(** The words of live blocks are the same in [m] and [m']. *)
Definition live_same (live : list (Z * Z)) (m m' : gmap Z Z) : Prop :=
  ∀ w, in_blocks live w → load m' w = load m w.

Lemma live_same_frees g (ts : list (tile unit)) live m m' :
  tiles g START END ts → (useds ts).*1 ≡ₚ live →
  agree_outside (in_blocks (frees ts)) m m' → live_same live m m'.
Proof.
  intros Ht Hp Hag w (a & s & Hin & Hw). apply Hag. intros Hf.
  eapply tiles_free_used; [done..|]. exists a, s. by rewrite Hp.
Qed.

(** Functional behaviour of [allocate]. *)
Lemma allocate_ok g self live size :
  0 < g → g mod 16 = 0 → rounded size mod g = 0 → pa_inv g self live →
  ∃ self' r, allocate self size = Ret (self', r) ∧
    match r with
    | Some a =>
        pa_inv g self' ((a, rounded size) :: live) ∧
        vis self' = vis self ++ [OnAlloc a (rounded size)] ∧
        live_same live (mem self) (mem self') ∧
        ∀ x, START ≤ x < a → no_gap_at live (rounded size) x
    | None =>
        self' = self ∧
        ∀ x, START ≤ x → x + rounded size ≤ END → no_gap_at live (rounded size) x
    end.
Proof.
  intros Hg Hg16 Hmod Hinv. destruct (pa_inv_live _ _ _ Hinv) as (_ & _ & Hrange).
  destruct Hinv as (ts & Ht & Hco & Hl & Hp & Ha).
  pose proof (tiles_frees _ _ _ _ Ht) as Hb. pose proof (rounded_min size) as Hmin.
  pose proof (allocate_loop_spec fuel self (rounded size) [] (head self) (frees ts)
                START END) as Hloop.
  change (fst <$> last []) with (@None Z) in Hloop. cbn [app] in Hloop. unfold allocate.
  specialize (Hloop eq_refl eq_refl Hmin eq_refl Hl Hb).
  specialize (Hloop (Nat.lt_succ_l _ _ (blocks_fuel _ _ _ Hb))).
  destruct (fl_alloc (rounded size) (frees ts)) as [[a l']|] eqn:Hfl.
  - destruct Hloop as (m' & h' & -> & Hl' & Hag). eexists _, _. split; [done|].
    destruct (first_fit_tiles g ts live (rounded size) a l')
      as (ts' & Ht' & Hco' & -> & Hp' & Hgap); [done..|].
    assert (Hsum : u64 (allocated self + rounded size) = sumZ ((a, rounded size) :: live).*2).
    { pose proof (blocks_sum _ _ _ (tiles_useds _ _ _ _ Ht')) as Hs. rewrite Hp' in Hs.
      rewrite fmap_cons, sumZ_cons in *. cbn in *. rewrite Ha.
      unfold PROGRAM_REGION_END, PROGRAM_REGION_START in *. rewrite u64_small; lia. }
    split_and!; [by exists ts'|done| |done]. exact (live_same_frees g ts live _ _ Ht Hp Hag).
  - eexists _, _. split; [done|]. split; [done|]. intros x ??. by eapply first_fit_none.
Qed.

(** Functional behaviour of [deallocate]. *)
Lemma deallocate_ok g self live a size live' :
  0 < g → pa_inv g self live → live ≡ₚ (a, rounded size) :: live' →
  ∃ self', deallocate self a size = Ret self' ∧ pa_inv g self' live' ∧
    vis self' = vis self ++ [OnDealloc a (rounded size)] ∧
    live_same live' (mem self) (mem self').
Proof.
  intros Hg Hinv Hlive. destruct (pa_inv_live _ _ _ Hinv) as (_ & Hin & Hrange).
  destruct Hinv as (ts & Ht & Hco & Hl & Hp & Ha).
  destruct (used_tile ts a (rounded size)) as (ts1 & [] & ts2 & ->).
  { rewrite Hp, Hlive. apply elem_of_cons. by left. }
  set (m1 := node_new (mem self) a (rounded size)).
  assert (Hag1 : agree_outside (λ w, w = a ∨ w = a + 8) (mem self) m1) by apply agree_node_new.
  pose proof (tiles_set_use _ _ _ _ _ _ _ None _ Ht) as Ht'.
  destruct (release_spec g START END m1 (head self) ts1 a (rounded size) tt ts2 fuel)
    as (m2 & m3 & h & Hadd & Hmerge & Hl' & Hag2); [done..| |apply node_size_node_new|done|].
  { eapply lseg_frame; [exact Hag1| |done]. intros w Hw Hw'. cbn in Hw'.
    apply (node_words_in_blocks START END) in Hw; [|by eapply tiles_frees].
    eapply tiles_free_used; [exact Ht|done|]. exists a, (rounded size).
    split; [rewrite Hp, Hlive; apply elem_of_cons; by left|].
    pose proof (rounded_min size). unfold MIN_BLOCK_SIZE in *. lia. }
  eexists. unfold deallocate. fold m1. rewrite Hadd. cbn. rewrite Hmerge. cbn.
  split; [done|].
  assert (Hp' : (useds (ts1 ++ Tile a (rounded size) None :: ts2)).*1 ≡ₚ live').
  { apply (Permutation_cons_inv (a := (a, rounded size))). rewrite <- Hlive, <- Hp.
    rewrite !useds_app, !useds_cons, !fmap_app. cbn. apply Permutation_middle. }
  split_and!; [|done|].
  - eexists. split; [by apply tiles_coalesce|]. split; [apply coalesced_coalesce|].
    split; [done|]. split; [by rewrite useds_coalesce|]. cbn.
    rewrite Ha, Hlive, fmap_cons, sumZ_cons. cbn.
    pose proof (blocks_sum _ _ _ (tiles_useds _ _ _ _ Ht')) as Hs. rewrite Hp' in Hs.
    unfold PROGRAM_REGION_END, PROGRAM_REGION_START in *. rewrite u64_small; lia.
  - eapply live_same_frees; [exact Ht'|done|]. cbn.
    eapply agree_outside_trans; [|exact Hag2]. eapply agree_outside_weaken; [|exact Hag1].
    intros w Hw. cbn in Hw. rewrite frees_app, frees_cons. cbn. apply in_blocks_app. right.
    apply in_blocks_here. pose proof (rounded_min size). unfold MIN_BLOCK_SIZE in *. lia.
Qed.

(** A client write inside a live block does not touch the allocator. *)
Lemma pa_inv_write g self live w v :
  pa_inv g self live → in_blocks live w →
  pa_inv g (mkProgramAllocator (store (mem self) w v) (head self) (allocated self) (vis self)) live.
Proof.
  intros (ts & Ht & Hco & Hl & Hp & Ha) (a & s & Hin & Hw).
  exists ts. split_and!; [done..| |done|done].
  eapply (lseg_frame (λ x, x = w)); [intros x Hx; by apply load_store_ne| |done].
  intros x Hx ->. apply (node_words_in_blocks START END) in Hx; [|by eapply tiles_frees].
  eapply tiles_free_used; [done..|]. exists a, s. by rewrite Hp.
Qed.

(** ** Reachable states

    The states the kernel can bring the allocator into: initialisation,
    allocations whose rounded size is a multiple of [g], deallocations of live
    blocks with the size they were requested with, and writes of the owners
    into their blocks. *)
Inductive reachable (g : Z) : ProgramAllocator → list (Z * Z) → Prop :=
| reach_init m : reachable g (init (new m)) []
| reach_alloc self live size self' a :
    reachable g self live → rounded size mod g = 0 →
    allocate self size = Ret (self', Some a) →
    reachable g self' ((a, rounded size) :: live)
| reach_alloc_fail self live size self' :
    reachable g self live → rounded size mod g = 0 →
    allocate self size = Ret (self', None) → reachable g self' live
| reach_dealloc self live a size live' self' :
    reachable g self live → live ≡ₚ (a, rounded size) :: live' →
    deallocate self a size = Ret self' → reachable g self' live'
| reach_write self live w v :
    reachable g self live → in_blocks live w →
    reachable g (mkProgramAllocator (store (mem self) w v) (head self)
                   (allocated self) (vis self)) live.

(** The two granularities: 16 bytes always, a page for ordinary requests. *)
Definition granule (g : Z) : Prop := g = 16 ∨ g = PAGE_SIZE.

Lemma granule_pos g : granule g → 0 < g ∧ g mod 16 = 0 ∧ START mod g = 0.
Proof. by intros [-> | ->]. Qed.

Lemma reachable_inv g self live : granule g → reachable g self live → pa_inv g self live.
Proof.
  intros Hgr. destruct (granule_pos g Hgr) as (? & ? & _).
  induction 1 as [m|self live size self' a _ IH Hm Hr|self live size self' _ IH Hm Hr
                 |self live a size live' self' _ IH Hl Hr|self live w v _ IH Hw].
  - destruct (pa_inv_init (new m)). by destruct Hgr as [-> | ->].
  - destruct (allocate_ok g self live size) as (s & r & Hr' & H'); [done..|].
    rewrite Hr in Hr'. simplify_eq. naive_solver.
  - destruct (allocate_ok g self live size) as (s & r & Hr' & H'); [done..|].
    rewrite Hr in Hr'. simplify_eq. naive_solver.
  - destruct (deallocate_ok g self live a size live') as (s & Hr' & H' & _); [done..|].
    rewrite Hr in Hr'. by simplify_eq.
  - by apply pa_inv_write.
Qed.

Lemma pa_inv_aligned g self live a s :
  granule g → pa_inv g self live → (a, s) ∈ live → a mod g = 0 ∧ s mod g = 0.
Proof.
  intros Hgr (ts & Ht & _ & _ & Hp & _) Hin. destruct (granule_pos g Hgr) as (? & _ & ?).
  rewrite <- Hp in Hin. split; [|eapply tiles_size_mod; [done|by right]].
  destruct (used_tile ts a s Hin) as (ts1 & x & ts2 & ->). by apply tiles_addr_mod in Ht.
Qed.

(** A concrete reachable state: one request of 5000 bytes after boot, which
    takes the first two pages. *)
Lemma one_block_reachable g :
  granule g → ∃ self, reachable g self [(START, rounded 5000)].
Proof.
  intros Hgr. destruct (granule_pos g Hgr) as (? & ? & _).
  assert (rounded 5000 mod g = 0) by (by destruct Hgr as [-> | ->]).
  destruct (allocate_ok g (init (new ∅)) [] 5000) as (self & r & Hr & H'); [done..| |].
  { destruct (pa_inv_init (new ∅)). by destruct Hgr as [-> | ->]. }
  assert (Hempty : ∀ x n, no_gap_at [] x n → False).
  { by intros x n (b & []%elem_of_nil & _). }
  destruct r as [a|].
  - destruct H' as (Hinv & _ & _ & Hgap).
    destruct (pa_inv_live _ _ _ Hinv) as (_ & Hin & _).
    destruct (Hin a (rounded 5000)) as [Ha _]; [apply elem_of_cons; by left|].
    destruct (decide (START < a)); [destruct (Hempty (rounded 5000) START); apply Hgap; lia|].
    replace a with START in Hr by lia. exists self. by eapply reach_alloc; [apply reach_init| |].
  - destruct (Hempty (rounded 5000) START). by apply H'.
Qed.

(** ** Properties *)

(** C22: in every reachable state [allocate] returns, with its lock released.  A block it hands out is
    inside the region, aligned to and sized in the granularity, disjoint from
    every live block, and starts at the lowest address with a large enough gap;
    the contents of the live blocks are unchanged.  It answers [None], leaving
    the state unchanged, only if no gap of the rounded size exists. *)
Theorem allocate_spec g self live interrupts size :
  granule g → rounded size mod g = 0 → reachable g self live →
  ∃ self' r, program_allocate (mkSpinlock false self) interrupts size =
      Ret (mkSpinlock false self', interrupts, r) ∧
    match r with
    | Some a =>
        START ≤ a ∧ a + rounded size ≤ END ∧ a mod g = 0 ∧
        Forall (apart (a, rounded size)) live ∧
        live_same live (mem self) (mem self') ∧
        allocated self' = allocated self + rounded size ∧
        vis self' = vis self ++ [OnAlloc a (rounded size)] ∧
        ∀ x, START ≤ x < a → no_gap_at live (rounded size) x
    | None =>
        self' = self ∧
        ∀ x, START ≤ x → x + rounded size ≤ END → no_gap_at live (rounded size) x
    end.
Proof.
  intros Hgr Hm Hinv%reachable_inv; [|done]. destruct (granule_pos g Hgr) as (? & ? & _).
  destruct (allocate_ok g self live size) as (self' & r & Hr & H'); [done..|].
  exists self', r. split; [by apply with_lock_Ret|]. destruct r as [a|]; [|done].
  destruct H' as (Hinv' & Hvis & Hsame & Hgap).
  destruct (pa_inv_live _ _ _ Hinv') as ([Hap _] & Hin & _).
  destruct (Hin a (rounded size)) as (? & _ & ?); [apply elem_of_cons; by left|].
  split_and!; [done..| |done|done| |done|done].
  - destruct (pa_inv_aligned g self' _ a (rounded size) Hgr Hinv'); [apply elem_of_cons; by left|done].
  - destruct Hinv as (? & _ & _ & _ & _ & ->), Hinv' as (? & _ & _ & _ & _ & ->).
    rewrite fmap_cons, sumZ_cons. cbn. lia.
Qed.

Lemma allocate_spec_witness :
  ∃ self' r, program_allocate (mkSpinlock false (init (new ∅))) true 5000 =
      Ret (mkSpinlock false self', true, r) ∧
    (r = None → no_gap_at [] 8192 START).
Proof.
  destruct (allocate_spec PAGE_SIZE (init (new ∅)) [] true 5000) as (self' & r & Hr & H');
    [by right|reflexivity|apply reach_init|].
  exists self', r. split; [exact Hr|]. intros ->. apply H'; vm_compute; discriminate.
Defined.

(** C23: in every reachable state, deallocating a live block returns, removes
    exactly its size from the counter, leaves the contents of the other live
    blocks unchanged, and makes its memory available again: a following request
    of the same size succeeds. *)
Theorem deallocate_spec g self live interrupts a size live' :
  granule g → reachable g self live → live ≡ₚ (a, rounded size) :: live' →
  rounded size mod g = 0 →
  ∃ self', program_deallocate (mkSpinlock false self) interrupts a size =
      Ret (mkSpinlock false self', interrupts, tt) ∧
    live_same live' (mem self) (mem self') ∧
    allocated self' = allocated self - rounded size ∧
    vis self' = vis self ++ [OnDealloc a (rounded size)] ∧
    ∃ self'' b, allocate self' size = Ret (self'', Some b) ∧ b ≤ a.
Proof.
  intros Hgr Hinv%reachable_inv Hl Hm; [|done]. destruct (granule_pos g Hgr) as (? & ? & _).
  destruct (deallocate_ok g self live a size live') as (self' & Hr & Hinv' & Hvis & Hsame); [done..|].
  destruct (pa_inv_live _ _ _ Hinv) as (Hap & Hin & _).
  rewrite Hl in Hap. destruct Hap as [Hap _].
  destruct (Hin a (rounded size)) as (? & _ & ?); [rewrite Hl; apply elem_of_cons; by left|].
  exists self'. split_and!; [apply with_lock_Ret; by rewrite Hr|done| |done|].
  - destruct Hinv as (? & _ & _ & _ & _ & ->), Hinv' as (? & _ & _ & _ & _ & ->).
    rewrite Hl, fmap_cons, sumZ_cons. cbn. lia.
  - assert (Hgap : ¬ no_gap_at live' (rounded size) a).
    { intros (b & Hb & Hnot). rewrite Forall_forall in Hap. eauto. }
    destruct (allocate_ok g self' live' size) as (self'' & r & Hr' & H'); [done..|].
    destruct r as [b|]; [|destruct Hgap; by apply H'].
    exists self'', b. split; [done|]. destruct (Z_lt_le_dec a b); [|done].
    destruct Hgap. apply H'. lia.
Qed.

Lemma deallocate_spec_witness :
  ∃ self self', reachable PAGE_SIZE self [(START, rounded 5000)] ∧
    program_deallocate (mkSpinlock false self) true START 5000 =
      Ret (mkSpinlock false self', true, tt).
Proof.
  destruct (one_block_reachable PAGE_SIZE) as [self Hr]; [by right|].
  destruct (deallocate_spec PAGE_SIZE self [(START, rounded 5000)] true START 5000 [])
    as (self' & H & _); [by right|exact Hr|reflexivity|reflexivity|].
  by exists self, self'.
Defined.

Lemma stats_ok g self live :
  pa_inv g self live → stats self = Ret (sumZ live.*2, PROGRAM_REGION_SIZE - sumZ live.*2).
Proof.
  intros (ts & Ht & _ & Hl & Hp & Ha). unfold stats. pose proof (tiles_frees _ _ _ _ Ht) as Hb.
  rewrite (sum_free_spec _ _ _ (frees ts) START END) by
    (done || (apply blocks_fuel in Hb; unfold fuel, PROGRAM_REGION_SIZE; lia)).
  cbn. rewrite Ha. do 2 f_equal. apply tiles_sum in Ht. rewrite Hp in Ht.
  unfold PROGRAM_REGION_SIZE. lia.
Qed.

(** Accounting: in every reachable state the live blocks are pairwise
    disjoint, lie inside the region, and [stats] reports their total size and
    the rest of the region as free; once every block is freed the free list is
    the whole region again. *)
Lemma stats_spec g self live :
  granule g → reachable g self live →
  pairwise apart live ∧ Forall (λ b, START ≤ b.1 ∧ b.1 + b.2 ≤ END) live ∧
  stats self = Ret (sumZ live.*2, PROGRAM_REGION_SIZE - sumZ live.*2) ∧
  (live = [] → lseg (mem self) (head self) [(START, PROGRAM_REGION_SIZE)] None).
Proof.
  intros Hgr Hinv%reachable_inv; [|done]. destruct (pa_inv_live _ _ _ Hinv) as (Hap & Hin & _).
  destruct Hinv as (ts & Ht & Hco & Hl & Hp & Ha). split_and!; [done|..].
  - apply Forall_forall. intros [b s] (? & _ & ?)%Hin. done.
  - apply (stats_ok g). by exists ts.
  - intros ->. apply Permutation_nil_r, fmap_nil_inv in Hp.
    by rewrite (coalesced_unused _ START END ts) in Hl by done.
Qed.

(** The address queries of the memory visualiser agree with the live
    blocks: [find_free_region] answers [Some] exactly on the free addresses, with
    the whole free block; [find_allocation] answers [Some] exactly on the used
    ones, with the maximal run of used addresses. *)
Lemma find_region_ok g self live addr :
  granule g → pa_inv g self live → START ≤ addr < END →
  ∃ r1 r2, find_free_region self addr = Ret r1 ∧ find_allocation self addr = Ret r2 ∧
    match r1 with
    | Some (a, e) =>
        a ≤ addr < e ∧ (∀ w, a ≤ w < e → ¬ in_blocks live w) ∧
        (∀ w, w = a - 1 ∨ w = e → START ≤ w < END → in_blocks live w) ∧ r2 = None
    | None => in_blocks live addr
    end ∧
    match r2 with
    | Some (a, e) =>
        a ≤ addr < e ∧ (∀ w, a ≤ w < e → in_blocks live w) ∧
        (∀ w, w = a - 1 ∨ w = e → START ≤ w < END → ¬ in_blocks live w) ∧ r1 = None
    | None => ¬ in_blocks live addr
    end.
Proof.
  intros Hgr Hinv Haddr.
  destruct Hinv as (ts & Ht & Hco & Hl & Hp & _).
  assert (Hlive : ∀ w, in_blocks live w ↔ in_blocks (useds ts).*1 w).
  { intros w. unfold in_blocks. by setoid_rewrite Hp. }
  assert (Hcompl : ∀ w, START ≤ w < END → ¬ in_blocks (frees ts) w ↔ in_blocks live w).
  { intros w Hw. rewrite Hlive. split.
    - by destruct (tiles_free_or_used _ _ _ _ _ Ht Hw).
    - intros ??. by eapply tiles_free_used. }
  pose proof (tiles_frees _ _ _ _ Ht) as Hb.
  pose proof (Nat.lt_succ_l _ _ (blocks_fuel _ _ _ Hb)) as Hf.
  unfold find_free_region, find_allocation.
  rewrite (proj2 (Z.ltb_ge _ _)), (proj2 (Z.leb_gt _ _)) by lia. cbn [orb].
  destruct (find_free_region_loop_spec fuel (mem self) addr (head self) (frees ts) START END)
    as (r1 & -> & H1); [done..|].
  destruct (find_allocation_loop_spec fuel (mem self) addr START (head self) (frees ts))
    as (r2 & -> & H2); [done..|].
  exists r1, r2. split_and!; [done..| |].
  - destruct r1 as [[a e]|]; [|by apply Hcompl].
    destruct H1 as [Hin Ha]. assert (Hfree : ∀ w, a ≤ w < e → in_blocks (frees ts) w).
    { intros w Hw. exists a, (e - a). split; [done|lia]. }
    split; [done|]. split_and!.
    + intros w Hw%Hfree. rewrite Hlive. intros Hu. by eapply tiles_free_used.
    + intros w Hw ?. rewrite Hlive. eapply free_neighbours_used; [done..| |done]. lia.
    + destruct r2 as [[b f]|]; [|done]. destruct H2 as (? & Hno & _). by destruct (Hno addr); auto.
  - destruct r2 as [[a e]|]; [|rewrite <- Hcompl by done; naive_solver].
    destruct H2 as (Ha & Hno & Hlo & Hhi).
    assert (START ≤ a ∧ e ≤ END) as [].
    { split.
      - destruct Hlo as [->|(b & t & Hin & ?)]; [lia|].
        apply (blocks_elem _ _ _ _ _ Hb) in Hin. lia.
      - destruct Hhi as [->|(b & t & Hin & ?)]; [lia|].
        apply (blocks_elem _ _ _ _ _ Hb) in Hin. lia. }
    split; [done|]. split_and!.
    + intros w Hw. apply Hcompl; [lia|auto].
    + intros w Hw Hr. rewrite <- Hcompl by done. intros Hn. apply Hn.
      destruct Hw as [->| ->]; [destruct Hlo as [->|]|destruct Hhi as [->|]]; [lia|done|lia|done].
    + destruct r1 as [[b f]|]; [|done]. destruct H1 as [Hin ?]. destruct (Hno addr); [lia|].
      exists b, (f - b). split; [done|lia].
Qed.
