(* ===== verification/BTreeMap.v ===== *)
(** [alloc::collections::BTreeMap] with integer keys, as a list of bindings in
    increasing key order: the iteration order is part of what its users see. *)

From S2P Require Import Prelude.
From Stdlib Require Import Sorting.Sorted.

Definition btree (V : Type) : Type := list (Z * V).

Section btree.
Context {V : Type}.
Implicit Types (m : btree V) (k : Z) (v : V).

(** [BTreeMap::get] *)
Fixpoint bt_get m k : option V :=
  match m with
  | [] => None
  | (k', v) :: m => if k =? k' then Some v else bt_get m k
  end.

(** [BTreeMap::insert]: replaces the value of a key that is present. *)
Fixpoint bt_insert m k v : btree V :=
  match m with
  | [] => [(k, v)]
  | (k', v') :: m' =>
      if k <? k' then (k, v) :: m
      else if k =? k' then (k, v) :: m'
      else (k', v') :: bt_insert m' k v
  end.

(** [BTreeMap::remove] *)
Fixpoint bt_remove m k : btree V :=
  match m with
  | [] => []
  | (k', v') :: m => if k =? k' then m else (k', v') :: bt_remove m k
  end.

(** Keys strictly increase. *)
Definition bt_sorted m : Prop := StronglySorted (λ p q, p.1 < q.1) m.

Lemma bt_get_elem m k v : bt_get m k = Some v → (k, v) ∈ m.
Proof.
  induction m as [|[k' v'] m IH]; cbn; [done|].
  destruct (k =? k') eqn:E; bool_to_prop; subst; rewrite elem_of_cons; naive_solver.
Qed.

Lemma bt_elem_get m k v : bt_sorted m → (k, v) ∈ m → bt_get m k = Some v.
Proof.
  induction 1 as [|[k' v'] m Hs IH Hall]; [by intros ?%elem_of_nil|].
  rewrite elem_of_cons. cbn. intros [[= -> ->]|Hin]; [by rewrite Z.eqb_refl|].
  rewrite Forall_forall in Hall. specialize (Hall _ Hin). cbn in Hall.
  rewrite (proj2 (Z.eqb_neq k k')) by lia. auto.
Qed.

Lemma bt_insert_elem m k v p : p ∈ bt_insert m k v → p = (k, v) ∨ p ∈ m.
Proof.
  induction m as [|[k' v'] m IH]; cbn.
  - rewrite list_elem_of_singleton. auto.
  - repeat case_bool; rewrite !elem_of_cons; naive_solver.
Qed.

Lemma bt_remove_elem m k p : p ∈ bt_remove m k → p ∈ m.
Proof.
  induction m as [|[k' v'] m IH]; cbn; [done|].
  case_bool; rewrite !elem_of_cons; naive_solver.
Qed.

Lemma bt_insert_sorted m k v : bt_sorted m → bt_sorted (bt_insert m k v).
Proof.
  induction 1 as [|[k' v'] m Hs IH Hall]; cbn; [by repeat constructor|].
  rewrite Forall_forall in Hall.
  destruct (k <? k') eqn:E1; [|destruct (k =? k') eqn:E2]; bool_to_prop.
  - constructor; [constructor; [done|by apply Forall_forall]|].
    constructor; [done|]. apply Forall_forall.
    intros [k2 v2] Hin%Hall. cbn in *. lia.
  - subst. constructor; [done|]. by apply Forall_forall.
  - constructor; [done|]. apply Forall_forall.
    intros p [->|Hin]%bt_insert_elem; cbn; [lia|]. by apply Hall.
Qed.

Lemma bt_remove_sorted m k : bt_sorted m → bt_sorted (bt_remove m k).
Proof.
  induction 1 as [|[k' v'] m Hs IH Hall]; cbn; [by constructor|].
  case_bool; [done|]. constructor; [done|]. apply Forall_forall.
  rewrite Forall_forall in Hall. intros p Hp%bt_remove_elem. by apply Hall.
Qed.

Lemma bt_get_insert m k v k2 :
  bt_sorted m → bt_get (bt_insert m k v) k2 = if k2 =? k then Some v else bt_get m k2.
Proof.
  induction 1 as [|[k' v'] m Hs IH Hall]; cbn; [done|].
  repeat (case_bool; cbn); bool_to_prop; try lia; subst;
    rewrite ?(proj2 (Z.eqb_eq _ _)), ?(proj2 (Z.eqb_neq _ _)) by lia; auto.
  all: try (rewrite IH; by rewrite ?(proj2 (Z.eqb_eq _ _)), ?(proj2 (Z.eqb_neq _ _)) by lia).
Qed.

Lemma bt_get_remove m k k2 :
  bt_sorted m → bt_get (bt_remove m k) k2 = if k2 =? k then None else bt_get m k2.
Proof.
  induction 1 as [|[k' v'] m Hs IH Hall]; cbn; [by destruct (k2 =? k)|].
  destruct (k =? k') eqn:E1; bool_to_prop; subst.
  - destruct (k2 =? k') eqn:E2; bool_to_prop; subst; [|done].
    destruct (bt_get m k') as [v|] eqn:Hg; [|done]. apply bt_get_elem in Hg.
    rewrite Forall_forall in Hall. specialize (Hall _ Hg). cbn in Hall. lia.
  - cbn. rewrite IH. destruct (k2 =? k') eqn:E2, (k2 =? k) eqn:E3; bool_to_prop; try done; lia.
Qed.

(** Taking a binding out of the map, as a rearrangement of the bindings. *)
Lemma bt_remove_perm m k v : bt_get m k = Some v → m ≡ₚ (k, v) :: bt_remove m k.
Proof.
  induction m as [|[k' v'] m IH]; cbn; [done|].
  destruct (k =? k') eqn:E; bool_to_prop.
  - by intros [= ->]; subst.
  - intros H%IH. rewrite H at 1. apply Permutation_swap.
Qed.

Lemma bt_insert_perm_new m k v : bt_get m k = None → bt_insert m k v ≡ₚ (k, v) :: m.
Proof.
  induction m as [|[k' v'] m IH]; cbn; [done|].
  destruct (k =? k') eqn:E; [done|]. intros H%IH. case_bool; [done|].
  rewrite H. apply Permutation_swap.
Qed.

Lemma bt_insert_perm_old m k v v0 :
  bt_sorted m → bt_get m k = Some v0 → bt_insert m k v ≡ₚ (k, v) :: bt_remove m k.
Proof.
  induction 1 as [|[k' v'] m Hs IH Hall]; cbn; [done|].
  destruct (k =? k') eqn:E; bool_to_prop.
  - intros _. subst. rewrite Z.ltb_irrefl. done.
  - intros Hg. case_bool; bool_to_prop.
    + apply bt_get_elem in Hg. rewrite Forall_forall in Hall.
      specialize (Hall _ Hg). cbn in Hall. lia.
    + rewrite (IH Hg). apply Permutation_swap.
Qed.
End btree.
