(* ===== verification/ByteMem.v ===== *)
(** Physical memory seen as bytes: raw pointer reads, [write_bytes] and
    [copy_nonoverlapping] on 64-bit addresses, and little-endian loads. *)

From S2P Require Import Prelude.

Definition ram : Type := Z → Z.

(** [core::ptr::write_bytes(a, v, n)] *)
Definition write_bytes (m : ram) (a v n : Z) : ram := λ x,
  if u64 (x - a) <? n then v else m x.

(** [core::ptr::copy_nonoverlapping(src, dst, n)] *)
Definition copy_bytes (m : ram) (src dst n : Z) : ram := λ x,
  if u64 (x - dst) <? n then m (u64 (src + u64 (x - dst))) else m x.

(** The [n] bytes at address [a]. *)
Fixpoint peek (m : ram) (a : Z) (n : nat) : list Z :=
  match n with
  | O => []
  | S n => m (u64 a) :: peek m (a + 1) n
  end.

(** Little-endian number. *)
Fixpoint le_num (l : list Z) : Z :=
  match l with
  | [] => 0
  | b :: l => b + 256 * le_num l
  end.
Definition peek_u16 (m : ram) (a : Z) : Z := le_num (peek m a 2).
Definition peek_u32 (m : ram) (a : Z) : Z := le_num (peek m a 4).
Definition peek_u64 (m : ram) (a : Z) : Z := le_num (peek m a 8).

#[global] Arguments peek_u16 : simpl never.
#[global] Arguments peek_u32 : simpl never.
#[global] Arguments peek_u64 : simpl never.

(** A [&[u8]]: pointer and length. *)
Record slice : Type := mkSlice { sl_ptr : Z; sl_len : Z }.

Definition ram_ok (m : ram) : Prop := ∀ x, 0 ≤ m x < 256.

Lemma le_num_range l :
  Forall (λ b, 0 ≤ b < 256) l → 0 ≤ le_num l < 256 ^ Z.of_nat (length l).
Proof.
  induction 1 as [|b l Hb _ IH]; [cbn; lia|].
  cbn [le_num length]. rewrite Nat2Z.inj_succ, Z.pow_succ_r by lia. lia.
Qed.

Lemma peek_length m a n : length (peek m a n) = n.
Proof. revert a. induction n; cbn; auto. Qed.

Lemma peek_app m a n k : peek m a (n + k) = peek m a n ++ peek m (a + Z.of_nat n) k.
Proof.
  revert a. induction n as [|n IH]; intros a; cbn [Nat.add peek app]; [by rewrite Z.add_0_r|].
  rewrite IH. do 2 f_equal. f_equal. lia.
Qed.

Lemma peek_ok m a n : ram_ok m → Forall (λ b, 0 ≤ b < 256) (peek m a n).
Proof. intros Hm. revert a. induction n; cbn; auto. Qed.

Lemma peek_u16_range m a : ram_ok m → 0 ≤ peek_u16 m a < 65536.
Proof. intros Hm. pose proof (le_num_range _ (peek_ok m a 2 Hm)) as H. by rewrite peek_length in H. Qed.
Lemma peek_u32_range m a : ram_ok m → 0 ≤ peek_u32 m a < 4294967296.
Proof. intros Hm. pose proof (le_num_range _ (peek_ok m a 4 Hm)) as H. by rewrite peek_length in H. Qed.
Lemma peek_u64_range m a : ram_ok m → 0 ≤ peek_u64 m a < 18446744073709551616.
Proof. intros Hm. pose proof (le_num_range _ (peek_ok m a 8 Hm)) as H. by rewrite peek_length in H. Qed.
#[export] Hint Resolve peek_u16_range peek_u32_range peek_u64_range : ralph.

(** Reading through a write, away from address wrap-around. *)
Lemma write_bytes_in m a v n x :
  0 ≤ a ≤ x → x < a + n → x < 18446744073709551616 → write_bytes m a v n x = v.
Proof.
  intros. unfold write_bytes. rewrite u64_small by lia.
  by rewrite (proj2 (Z.ltb_lt _ _)) by lia.
Qed.
Lemma write_bytes_out m a v n x :
  0 ≤ a → a + n ≤ 18446744073709551616 → 0 ≤ x < 18446744073709551616 →
  x < a ∨ a + n ≤ x → write_bytes m a v n x = m x.
Proof.
  intros ? ? ? Hx. unfold write_bytes. destruct (u64 (x - a) <? n) eqn:E; [|done].
  bool_to_prop. assert (0 < n) by (pose proof (u64_range (x - a)); lia).
  destruct (Z_lt_le_dec x a); [|rewrite u64_small in E by lia; lia].
  unfold u64 in E. replace (x - a) with (x - a + 18446744073709551616 + -1 * 18446744073709551616) in E by lia.
  rewrite Z.mod_add, Z.mod_small in E by lia. lia.
Qed.
Lemma copy_bytes_in m src dst n x :
  0 ≤ dst ≤ x → x < dst + n → x < 18446744073709551616 →
  0 ≤ src → src + n ≤ 18446744073709551616 →
  copy_bytes m src dst n x = m (src + (x - dst)).
Proof.
  intros. unfold copy_bytes. rewrite (u64_small (x - dst)) by lia.
  rewrite (proj2 (Z.ltb_lt _ _)) by lia. by rewrite u64_small by lia.
Qed.
Lemma copy_bytes_out m src dst n x :
  0 ≤ dst → dst + n ≤ 18446744073709551616 → 0 ≤ x < 18446744073709551616 →
  x < dst ∨ dst + n ≤ x → copy_bytes m src dst n x = m x.
Proof.
  intros ? ? ? Hx. unfold copy_bytes.
  pose proof (write_bytes_out (λ _, 0) dst 1 n x) as H'. unfold write_bytes in H'.
  destruct (u64 (x - dst) <? n) eqn:E; [|done]. discriminate H'; lia.
Qed.

(** Loads only depend on the bytes they read. *)
Lemma peek_agree m m' lo hi a n :
  (∀ x, lo ≤ x < hi → m' x = m x) →
  0 ≤ lo ≤ a → a + Z.of_nat n ≤ hi → hi ≤ 18446744073709551616 →
  peek m' a n = peek m a n.
Proof.
  intros Hag. revert a. induction n as [|n IH]; intros a ? ? ?; cbn [peek]; [done|].
  rewrite u64_small by lia. rewrite Hag by lia. f_equal. apply IH; lia.
Qed.

(** Little-endian bytes of a number. *)
Fixpoint le_bytes (n : nat) (v : Z) : list Z :=
  match n with
  | O => []
  | S n => u8 v :: le_bytes n (Z.shiftr v 8)
  end.

Lemma le_num_bytes n v : le_num (le_bytes n v) = v mod 256 ^ Z.of_nat n.
Proof.
  revert v. induction n as [|n IH]; intros v; [by rewrite Z.mod_1_r|].
  cbn [le_num le_bytes]. rewrite IH, Nat2Z.inj_succ, Z.pow_succ_r by lia.
  rewrite Z.shiftr_div_pow2 by lia. change (2 ^ 8) with 256. unfold u8.
  rewrite Z.rem_mul_r by lia. done.
Qed.

Lemma le_bytes_length n v : length (le_bytes n v) = n.
Proof. revert v. induction n as [|n IH]; intros v; cbn; auto. Qed.
Lemma le_num_app l1 l2 : le_num (l1 ++ l2) = le_num l1 + 256 ^ Z.of_nat (length l1) * le_num l2.
Proof.
  induction l1 as [|b l1 IH]; cbn [app le_num length]; [lia|]. rewrite IH, Nat2Z.inj_succ, Z.pow_succ_r by lia. ring.
Qed.

(** [*p = v] for a [u64] *)
Definition poke_u64 (m : ram) (p v : Z) : ram := λ x,
  if u64 (x - p) <? 8 then u8 (Z.shiftr v (8 * u64 (x - p))) else m x.

Lemma poke_u64_in m p v k :
  0 ≤ p → p + 8 ≤ 18446744073709551616 → 0 ≤ k < 8 →
  poke_u64 m p v (p + k) = u8 (Z.shiftr v (8 * k)).
Proof.
  intros. unfold poke_u64. replace (p + k - p) with k by lia. rewrite u64_small by lia.
  by rewrite (proj2 (Z.ltb_lt _ _)) by lia.
Qed.

Lemma poke_u64_out m p v x :
  0 ≤ p → p + 8 ≤ 18446744073709551616 → 0 ≤ x < 18446744073709551616 →
  x < p ∨ p + 8 ≤ x → poke_u64 m p v x = m x.
Proof.
  intros ? ? ? Hx. unfold poke_u64.
  pose proof (write_bytes_out (λ _, 0) p 1 8 x) as H'. unfold write_bytes in H'.
  destruct (u64 (x - p) <? 8) eqn:E; [|done]. discriminate H'; lia.
Qed.

Lemma peek_poke m p v n k :
  0 ≤ p → p + 8 ≤ 18446744073709551616 → 0 ≤ k → k + Z.of_nat n ≤ 8 →
  peek (poke_u64 m p v) (p + k) n = le_bytes n (Z.shiftr v (8 * k)).
Proof.
  intros ? ?. revert k. induction n as [|n IH]; intros k Hk Hn; [done|].
  cbn [peek le_bytes]. rewrite u64_small, poke_u64_in by lia. f_equal.
  replace (p + k + 1) with (p + (k + 1)) by lia. rewrite IH by lia.
  rewrite Z.shiftr_shiftr by lia. do 2 f_equal. lia.
Qed.

Lemma peek_u64_poke m p v :
  0 ≤ p → p + 8 ≤ 18446744073709551616 → 0 ≤ v < 18446744073709551616 →
  peek_u64 (poke_u64 m p v) p = v.
Proof.
  intros. unfold peek_u64. replace p with (p + 0) at 2 by lia. rewrite peek_poke by lia.
  rewrite le_num_bytes, Z.shiftr_0_r. apply Z.mod_small. done.
Qed.

(** Copying the bytes [l] of a slice to [p]. *)
Definition poke_bytes (m : ram) (p : Z) (l : list Z) : ram := λ x,
  if u64 (x - p) <? Z.of_nat (length l) then nth (Z.to_nat (u64 (x - p))) l 0 else m x.

Lemma poke_bytes_out m p l x :
  0 ≤ p → p + Z.of_nat (length l) ≤ 18446744073709551616 → 0 ≤ x < 18446744073709551616 →
  x < p ∨ p + Z.of_nat (length l) ≤ x → poke_bytes m p l x = m x.
Proof.
  intros ? ? ? Hx. unfold poke_bytes.
  pose proof (write_bytes_out (λ _, 0) p 1 (Z.of_nat (length l)) x) as H'. unfold write_bytes in H'.
  destruct (u64 (x - p) <? Z.of_nat (length l)) eqn:E; [|done]. discriminate H'; lia.
Qed.

Lemma peek_poke_bytes_from m p l k n :
  0 ≤ p → p + Z.of_nat (length l) ≤ 18446744073709551616 → (k + n = length l)%nat →
  peek (poke_bytes m p l) (p + Z.of_nat k) n = drop k l.
Proof.
  intros ? ?. revert k. induction n as [|n IH]; intros k Hk; cbn [peek].
  { by rewrite drop_ge by lia. }
  destruct (lookup_lt_is_Some_2 l k) as [b Hb]; [lia|]. rewrite (drop_S l b k Hb). f_equal.
  - rewrite u64_small by lia. unfold poke_bytes. replace (p + Z.of_nat k - p) with (Z.of_nat k) by lia.
    rewrite u64_small, (proj2 (Z.ltb_lt _ _)), Nat2Z.id by lia. by apply nth_lookup_Some.
  - replace (p + Z.of_nat k + 1) with (p + Z.of_nat (S k)) by lia. apply IH. lia.
Qed.

Lemma peek_poke_bytes m p l :
  0 ≤ p → p + Z.of_nat (length l) ≤ 18446744073709551616 →
  peek (poke_bytes m p l) p (length l) = l.
Proof. intros. replace p with (p + Z.of_nat 0) at 2 by lia. by apply peek_poke_bytes_from. Qed.
