(* ===== verification/Elf.v ===== *)
(** The ELF64 loader ([src/elf.rs]).  A parsed file is a reference into physical
    memory, so every header field is read from the current memory. *)

From S2P Require Import Prelude ByteMem.

Definition ELF_MAGIC : list Z := [0x7F; 0x45; 0x4C; 0x46].
Definition ELFCLASS64 : Z := 2.
Definition ELFDATA2LSB : Z := 1.
Definition ET_EXEC : Z := 2.
Definition ET_DYN : Z := 3.
Definition EM_X86_64 : Z := 62.
Definition PT_LOAD : Z := 1.

(** [struct Elf64Header], 64 bytes *)
Record Elf64Header : Type := mkElf64Header {
  e_ident : list Z;
  e_type : Z;
  e_machine : Z;
  e_version : Z;
  e_entry : Z;
  e_phoff : Z;
  e_shoff : Z;
  e_flags : Z;
  e_ehsize : Z;
  e_phentsize : Z;
  e_phnum : Z;
  e_shentsize : Z;
  e_shnum : Z;
  e_shstrndx : Z;
}.
Definition header_at (m : ram) (p : Z) : Elf64Header :=
  mkElf64Header (peek m p 16) (peek_u16 m (p + 16)) (peek_u16 m (p + 18))
    (peek_u32 m (p + 20)) (peek_u64 m (p + 24)) (peek_u64 m (p + 32))
    (peek_u64 m (p + 40)) (peek_u32 m (p + 48)) (peek_u16 m (p + 52))
    (peek_u16 m (p + 54)) (peek_u16 m (p + 56)) (peek_u16 m (p + 58))
    (peek_u16 m (p + 60)) (peek_u16 m (p + 62)).

(** [struct Elf64ProgramHeader], 56 bytes *)
Record Elf64ProgramHeader : Type := mkElf64ProgramHeader {
  p_type : Z;
  p_flags : Z;
  p_offset : Z;
  p_vaddr : Z;
  p_paddr : Z;
  p_filesz : Z;
  p_memsz : Z;
  p_align : Z;
}.
Definition program_header_at (m : ram) (p : Z) : Elf64ProgramHeader :=
  mkElf64ProgramHeader (peek_u32 m p) (peek_u32 m (p + 4)) (peek_u64 m (p + 8))
    (peek_u64 m (p + 16)) (peek_u64 m (p + 24)) (peek_u64 m (p + 32))
    (peek_u64 m (p + 40)) (peek_u64 m (p + 48)).

Inductive ElfError : Type :=
| TooSmall
| InvalidMagic
| Not64Bit
| NotLittleEndian
| NotExecutable
| NotX86_64
| InvalidProgramHeader
| NoLoadableSegments.

(** [struct Elf]: the data; the header is the reference to its start. *)
Record Elf : Type := mkElf { data : slice }.
Definition header (m : ram) (self : Elf) : Elf64Header := header_at m (sl_ptr (data self)).

(** [Elf::parse] *)
Definition parse (m : ram) (d : slice) : result ElfError Elf :=
  if sl_len d <? 64 then Err TooSmall
  else
    let h := header_at m (sl_ptr d) in
    if negb (bool_decide (take 4 (e_ident h) = ELF_MAGIC)) then Err InvalidMagic
    else if negb (nth 4 (e_ident h) 0 =? ELFCLASS64) then Err Not64Bit
    else if negb (nth 5 (e_ident h) 0 =? ELFDATA2LSB) then Err NotLittleEndian
    else if negb (e_type h =? ET_EXEC) && negb (e_type h =? ET_DYN) then Err NotExecutable
    else if negb (e_machine h =? EM_X86_64) then Err NotX86_64
    else Ok (mkElf d).

(** [is_pie], [entry_offset], [program_header_count] *)
Definition is_pie (m : ram) (self : Elf) : bool := e_type (header m self) =? ET_DYN.
Definition entry_offset (m : ram) (self : Elf) : Z := e_entry (header m self).
Definition program_header_count (m : ram) (self : Elf) : Z := e_phnum (header m self).

(** [Elf::program_header] *)
Definition program_header (m : ram) (self : Elf) (index : Z) :
    result ElfError Elf64ProgramHeader :=
  if e_phnum (header m self) <=? index then Err InvalidProgramHeader
  else
    let offset := u64 (e_phoff (header m self)
                       + u64 (index * e_phentsize (header m self))) in
    let e := u64 (offset + 56) in
    if sl_len (data self) <? e then Err InvalidProgramHeader
    else Ok (program_header_at m (u64 (sl_ptr (data self) + offset))).

(** The filter of [Elf::loadable_segments], and the whole sequence. *)
Definition loadable (m : ram) (self : Elf) (i : Z) : option Elf64ProgramHeader :=
  match program_header m self i with
  | Ok ph => if p_type ph =? PT_LOAD then Some ph else None
  | Err _ => None
  end.
Definition header_indices (m : ram) (self : Elf) : list Z :=
  seqZ 0 (program_header_count m self).
Definition loadable_segments (m : ram) (self : Elf) : list Elf64ProgramHeader :=
  omap (loadable m self) (header_indices m self).

(** One iteration of [Elf::memory_requirements]. *)
Definition extend (acc : option Z * Z) (phdr : Elf64ProgramHeader) : option Z * Z :=
  let '(lowest, highest) := acc in
  let start := p_vaddr phdr in
  let e := u64 (p_vaddr phdr + p_memsz phdr) in
  (match lowest with
   | None => Some start
   | Some low => if start <? low then Some start else Some low
   end,
   if highest <? e then e else highest).

(** [Elf::memory_requirements]: (lowest_vaddr, total_size) *)
Definition memory_requirements (m : ram) (self : Elf) : result ElfError (Z * Z) :=
  match foldl extend (None, 0) (loadable_segments m self) with
  | (None, _) => Err NoLoadableSegments
  | (Some low, highest) => Ok (low, u64 (highest - low))
  end.

(** [Elf::segment_data] *)
Definition segment_data (self : Elf) (phdr : Elf64ProgramHeader) : outcome slice :=
  let offset := p_offset phdr in
  let e := u64 (offset + p_filesz phdr) in
  if e <=? sl_len (data self) then
    if offset <=? e then Ret (mkSlice (u64 (sl_ptr (data self) + offset)) (e - offset))
    else Panic
  else Ret (mkSlice 1 0).

(** The body of the loop of [load_elf]. *)
Definition load_segment (m : ram) (self : Elf) (base_addr lowest_vaddr : Z)
    (phdr : Elf64ProgramHeader) : outcome ram :=
  let dest := u64 (base_addr + u64 (p_vaddr phdr - lowest_vaddr)) in
  src ← segment_data self phdr;
  let m1 := if negb (sl_len src =? 0)
            then copy_bytes m (sl_ptr src) dest (sl_len src) else m in
  let bss_size := u64 (p_memsz phdr - p_filesz phdr) in
  Ret (if 0 <? bss_size
       then write_bytes m1 (u64 (dest + p_filesz phdr)) 0 bss_size else m1).

Fixpoint load_segments (m : ram) (self : Elf) (base_addr lowest_vaddr : Z)
    (indices : list Z) : outcome ram :=
  match indices with
  | [] => Ret m
  | i :: indices =>
      match loadable m self i with
      | None => load_segments m self base_addr lowest_vaddr indices
      | Some phdr =>
          m' ← load_segment m self base_addr lowest_vaddr phdr;
          load_segments m' self base_addr lowest_vaddr indices
      end
  end.

(** [load_elf] *)
Definition load_elf (m : ram) (d : slice) (base_addr : Z) :
    outcome (ram * result ElfError Z) :=
  match parse m d with
  | Err e => Ret (m, Err e)
  | Ok elf =>
      match memory_requirements m elf with
      | Err e => Ret (m, Err e)
      | Ok (lowest_vaddr, _) =>
          m' ← load_segments m elf base_addr lowest_vaddr (header_indices m elf);
          let entry := u64 (base_addr + u64 (entry_offset m' elf - lowest_vaddr)) in
          Ret (m', Ok entry)
      end
  end.

(** ** The image a well-formed file describes *)

(** The segment's fields are consistent with each other and with the file. *)
Definition segment_wf (len : Z) (ph : Elf64ProgramHeader) : Prop :=
  p_vaddr ph + p_memsz ph < 18446744073709551616 ∧
  p_filesz ph ≤ p_memsz ph ∧ p_offset ph + p_filesz ph ≤ len.

(** The file's headers do not overflow and its segments are well formed. *)
Definition elf_wf (m : ram) (self : Elf) : Prop :=
  e_phoff (header m self) + e_phnum (header m self) * e_phentsize (header m self) + 56
    < 18446744073709551616 ∧
  Forall (segment_wf (sl_len (data self))) (loadable_segments m self).

(** The byte of the image at virtual address [v]: the last segment that covers
    [v] supplies a file byte or, past its file size, zero. *)
Definition image_byte (m : ram) (file : Z) (segs : list Elf64ProgramHeader) (v : Z) :
    option Z :=
  foldl (λ acc ph,
    if (p_vaddr ph <=? v) && (v <? p_vaddr ph + p_memsz ph) then
      Some (if v <? p_vaddr ph + p_filesz ph
            then m (file + p_offset ph + (v - p_vaddr ph)) else 0)
    else acc) None segs.

(** ** Lemmas *)
Lemma image_byte_snoc m file segs ph v :
  image_byte m file (segs ++ [ph]) v =
    if (p_vaddr ph <=? v) && (v <? p_vaddr ph + p_memsz ph) then
      Some (if v <? p_vaddr ph + p_filesz ph
            then m (file + p_offset ph + (v - p_vaddr ph)) else 0)
    else image_byte m file segs v.
Proof. unfold image_byte. by rewrite foldl_app. Qed.

(** The bounds computed by [memory_requirements] enclose every segment. *)
Lemma foldl_extend_spec len segs lo0 h0 low high :
  Forall (segment_wf len) segs →
  Forall (λ ph, 0 ≤ p_vaddr ph ∧ 0 ≤ p_memsz ph) segs →
  foldl extend (lo0, h0) segs = (Some low, high) →
  (∀ l, lo0 = Some l → low ≤ l) ∧ h0 ≤ high ∧
  (h0 < 18446744073709551616 → high < 18446744073709551616) ∧
  (lo0 = Some low ∨ ∃ ph, ph ∈ segs ∧ p_vaddr ph = low) ∧
  Forall (λ ph, low ≤ p_vaddr ph ∧ p_vaddr ph + p_memsz ph ≤ high) segs.
Proof.
  intros Hwf Hpos. revert lo0 h0. induction segs as [|ph segs IH]; intros lo0 h0 Hf.
  { cbn in Hf. simplify_eq. split_and!; [naive_solver lia|lia|done|by left|done]. }
  apply Forall_cons in Hwf as [(Hv & _ & _) Hwf]. apply Forall_cons in Hpos as [[??] Hpos].
  cbn [foldl extend] in Hf. rewrite u64_small in Hf by lia.
  set (e := p_vaddr ph + p_memsz ph) in *.
  destruct (IH Hwf Hpos _ _ Hf) as (Hl & Hh & Hb & Hw & Hall). rewrite Forall_cons.
  assert (low ≤ p_vaddr ph ∧ ∀ l, lo0 = Some l → low ≤ l) as [? ?].
  { destruct lo0 as [l|]; [|split; [by apply Hl|done]].
    destruct (p_vaddr ph <? l) eqn:E; bool_to_prop; specialize (Hl _ eq_refl);
      split; [lia|naive_solver lia..]. }
  split_and!; [done|..|lia| |done].
  - case_bool; bool_to_prop; lia.
  - intros. apply Hb. case_bool; lia.
  - destruct Hw as [Hw|(ph' & ? & ?)]; [|right; exists ph'; set_solver].
    destruct lo0 as [l|]; simplify_eq; [|right; exists ph; set_solver].
    destruct (p_vaddr ph <? l); simplify_eq; [right; exists ph; set_solver|by left].
  - case_bool; bool_to_prop; unfold e in *; lia.
Qed.

Section load.
Context (m0 : ram) (self : Elf) (base low size : Z).
Let ptr := sl_ptr (data self).
Let len := sl_len (data self).
Context (Hram : ram_ok m0) (Hlen : 64 ≤ len).
Context (Hptr : 0 ≤ ptr ∧ ptr + len < 18446744073709551616).
Context (Hbase : 0 ≤ base ∧ 0 ≤ size ∧ base + size < 18446744073709551616).
Context (Hdis : ptr + len ≤ base ∨ base + size ≤ ptr).
Context (Hwf : elf_wf m0 self).

(** The memory after loading the segments [segs]. *)
Definition loaded (segs : list Elf64ProgramHeader) (m : ram) : Prop :=
  ∀ x, 0 ≤ x < 18446744073709551616 →
    m x = if (base <=? x) && (x <? base + size)
          then default (m0 x) (image_byte m0 ptr segs (x - base + low)) else m0 x.

Lemma loaded_file segs m x : loaded segs m → ptr ≤ x < ptr + len → m x = m0 x.
Proof.
  intros Hl Hx. rewrite Hl by lia.
  destruct ((base <=? x) && (x <? base + size)) eqn:E; [|done]. blia.
Qed.

Lemma loaded_header segs m : loaded segs m → header m self = header m0 self.
Proof.
  intros Hl. unfold header, header_at, peek_u16, peek_u32, peek_u64. fold ptr.
  assert (H : ∀ a n, ptr ≤ a → a + Z.of_nat n ≤ ptr + 64 → peek m a n = peek m0 a n).
  { intros a n ??. apply (peek_agree m0 m ptr (ptr + len)); [|lia..].
    intros x Hx. by apply (loaded_file segs). }
  by rewrite !H by lia.
Qed.

Lemma loaded_loadable segs m i :
  loaded segs m → 0 ≤ i → loadable m self i = loadable m0 self i.
Proof.
  intros Hl Hi. unfold loadable, program_header. rewrite (loaded_header segs m Hl).
  destruct Hwf as [Hov _]. pose proof (peek_u64_range m0 (ptr + 32) Hram) as Hr1.
  pose proof (peek_u16_range m0 (ptr + 54) Hram) as Hr2. unfold header in *. cbn in Hov |- *. fold ptr len in Hov |- *.
  destruct (peek_u16 m0 (ptr + 56) <=? i) eqn:Ei; [done|]. bool_to_prop.
  assert (0 ≤ i * peek_u16 m0 (ptr + 54) ≤ peek_u16 m0 (ptr + 56) * peek_u16 m0 (ptr + 54)) by nia.
  rewrite !(u64_small (i * _)), !(u64_small (peek_u64 m0 (ptr + 32) + _)) by lia.
  rewrite !(u64_small (_ + 56)) by lia.
  destruct (len <? _) eqn:Ee; [done|]. bool_to_prop. rewrite !(u64_small (ptr + _)) by lia.
  set (off := peek_u64 m0 (ptr + 32) + i * peek_u16 m0 (ptr + 54)) in *.
  assert (0 ≤ off) by lia. set (p := ptr + off).
  unfold program_header_at, peek_u16, peek_u32, peek_u64.
  assert (H1 : ∀ a n, p ≤ a → a + Z.of_nat n ≤ p + 56 → peek m a n = peek m0 a n).
  { intros a n ??. apply (peek_agree m0 m ptr (ptr + len)); [|unfold p in *; lia..].
    intros x Hx. by apply (loaded_file segs). }
  by rewrite !H1 by lia.
Qed.

Lemma load_segment_spec segs m ph :
  loaded segs m → segment_wf len ph →
  0 ≤ p_offset ph → 0 ≤ p_filesz ph →
  low ≤ p_vaddr ph → p_vaddr ph + p_memsz ph ≤ low + size → 0 ≤ low →
  ∃ m', load_segment m self base low ph = Ret m' ∧ loaded (segs ++ [ph]) m'.
Proof.
  intros Hl (Hv & Hf & Ho) Hoff Hfs Hlow Hhigh Hlow0.
  unfold load_segment, segment_data. fold ptr len.
  rewrite (u64_small (p_offset ph + p_filesz ph)) by lia.
  rewrite !(proj2 (Z.leb_le _ _)) by lia. cbn.
  rewrite (u64_small (p_vaddr ph - low)), (u64_small (base + _)), (u64_small (p_memsz ph - _)) by lia.
  set (d := base + (p_vaddr ph - low)).
  replace (p_offset ph + p_filesz ph - p_offset ph) with (p_filesz ph) by lia.
  set (m1 := if negb (p_filesz ph =? 0) then _ else m).
  assert (Hm1 : ∀ x, 0 ≤ x < 18446744073709551616 →
    m1 x = if (d <=? x) && (x <? d + p_filesz ph)
           then m0 (ptr + p_offset ph + (x - d)) else m x).
  { intros x Hx. unfold m1. destruct (p_filesz ph =? 0) eqn:E0; cbn.
    { destruct ((d <=? x) && _) eqn:E; [blia|done]. }
    bool_to_prop. rewrite (u64_small (ptr + p_offset ph)) by lia.
    destruct ((d <=? x) && (x <? d + p_filesz ph)) eqn:E.
    - rewrite copy_bytes_in by (unfold d in *; blia).
      apply (loaded_file segs); [done|]. unfold d in *; blia.
    - apply copy_bytes_out; unfold d in *; blia. }
  eexists. split; [done|]. intros x Hx. rewrite image_byte_snoc.
  assert (Hin : (p_vaddr ph <=? x - base + low) && (x - base + low <? p_vaddr ph + p_memsz ph)
                = ((d <=? x) && (x <? d + p_memsz ph))).
  { apply eq_bool_prop_intro. unfold d. rewrite !Is_true_true. bool_to_prop. lia. }
  assert (Hin2 : (x - base + low <? p_vaddr ph + p_filesz ph) = (x <? d + p_filesz ph)).
  { apply eq_bool_prop_intro. unfold d. rewrite !Is_true_true. bool_to_prop. lia. }
  rewrite Hin, Hin2. replace (x - base + low - p_vaddr ph) with (x - d) by (unfold d; lia).
  assert (Hw : (if 0 <? p_memsz ph - p_filesz ph
     then write_bytes m1 (u64 (d + p_filesz ph)) 0 (p_memsz ph - p_filesz ph) else m1) x =
     if (d + p_filesz ph <=? x) && (x <? d + p_memsz ph) then 0 else m1 x).
  { destruct (0 <? p_memsz ph - p_filesz ph) eqn:E0; bool_to_prop.
    - rewrite u64_small by (unfold d; lia).
      destruct ((d + p_filesz ph <=? x) && _) eqn:E.
      + apply write_bytes_in; unfold d in *; blia.
      + apply write_bytes_out; unfold d in *; blia.
    - destruct ((d + p_filesz ph <=? x) && _) eqn:E; [blia|done]. }
  rewrite Hw, Hm1, (Hl x) by done.
  destruct (x <? d + p_filesz ph) eqn:E1, (d <=? x) eqn:E2, (x <? d + p_memsz ph) eqn:E3,
    (d + p_filesz ph <=? x) eqn:E4, (base <=? x) eqn:E5, (x <? base + size) eqn:E6;
    cbn; try done; exfalso; unfold d in *; blia.
Qed.
(** Segment fields are unsigned. *)
Definition fields_nonneg (ph : Elf64ProgramHeader) : Prop :=
  0 ≤ p_vaddr ph ∧ 0 ≤ p_memsz ph ∧ 0 ≤ p_offset ph ∧ 0 ≤ p_filesz ph.

Lemma loadable_nonneg i ph : loadable m0 self i = Some ph → fields_nonneg ph.
Proof.
  unfold loadable, program_header. repeat case_bool; try done. intros [= <-].
  unfold fields_nonneg, program_header_at. cbn.
  split_and!; by apply peek_u64_range.
Qed.

Definition fits (ph : Elf64ProgramHeader) : Prop :=
  low ≤ p_vaddr ph ∧ p_vaddr ph + p_memsz ph ≤ low + size.

Lemma load_segments_spec ixs segs m :
  0 ≤ low → loaded segs m → Forall (λ i, 0 ≤ i) ixs →
  Forall (λ ph, segment_wf len ph ∧ fits ph) (omap (loadable m0 self) ixs) →
  ∃ m', load_segments m self base low ixs = Ret m' ∧
    loaded (segs ++ omap (loadable m0 self) ixs) m'.
Proof.
  intros Hlow. revert segs m. induction ixs as [|i ixs IH]; intros segs m Hl Hi Hfit.
  { exists m. cbn. by rewrite app_nil_r. }
  apply Forall_cons in Hi as [Hi His]. cbn [load_segments omap list_omap] in *.
  rewrite (loaded_loadable segs m i) by done.
  destruct (loadable m0 self i) as [ph|] eqn:Eph; [|by apply IH].
  apply Forall_cons in Hfit as [[Hwfp [??]] Hfit].
  pose proof (loadable_nonneg i ph Eph) as (? & ? & ? & ?).
  destruct (load_segment_spec segs m ph) as (m1 & -> & Hl1); [done..|]. cbn.
  destruct (IH (segs ++ [ph]) m1) as (m' & Hr & Hl'); [done..|].
  exists m'. split; [done|]. by rewrite <- app_assoc in Hl'.
Qed.
End load.

Lemma parse_Ok m d elf : parse m d = Ok elf → elf = mkElf d ∧ 64 ≤ sl_len d.
Proof.
  unfold parse. destruct (sl_len d <? 64) eqn:E; [done|]. bool_to_prop.
  repeat case_bool; try done. by intros [= <-].
Qed.

(** ** Properties *)

(** Loading a well-formed file. *)
Lemma load_elf_ok m d base elf low size :
  ram_ok m → parse m d = Ok elf → elf_wf m elf →
  memory_requirements m elf = Ok (low, size) →
  0 ≤ sl_ptr d → sl_ptr d + sl_len d < 18446744073709551616 →
  0 ≤ base → base + size < 18446744073709551616 →
  sl_ptr d + sl_len d ≤ base ∨ base + size ≤ sl_ptr d →
  ∃ m', load_elf m d base = Ret (m', Ok (u64 (base + u64 (entry_offset m elf - low)))) ∧
    (∀ x, 0 ≤ x < 18446744073709551616 →
      m' x = if (base <=? x) && (x <? base + size)
             then default (m x) (image_byte m (sl_ptr d) (loadable_segments m elf) (x - base + low))
             else m x) ∧
    Forall (λ ph, low ≤ p_vaddr ph ∧ p_vaddr ph + p_memsz ph ≤ low + size)
      (loadable_segments m elf).
Proof.
  intros Hram Hp Hwf Hreq Hptr Hptr' Hbase Hbase' Hdis.
  destruct (parse_Ok _ _ _ Hp) as [-> Hlen]. pose proof Hwf as [_ Hsegs].
  unfold load_elf. rewrite Hp, Hreq. unfold memory_requirements in Hreq.
  destruct (foldl extend (None, 0) _) as [[low'|] high] eqn:Hf; simplify_eq.
  assert (Hnn : Forall fields_nonneg (loadable_segments m (mkElf d))).
  { apply Forall_forall. intros ph (i & _ & Hi)%list_elem_of_omap. by eapply loadable_nonneg. }
  destruct (foldl_extend_spec (sl_len d) _ _ _ _ _ Hsegs
              ltac:(eapply Forall_impl; [exact Hnn|by intros ? (?&?&?)]) Hf)
    as (_ & Hh & Hhb & Hw & Hfits).
  assert (0 ≤ low ≤ high) as Hlh.
  { destruct Hw as [?|(ph & Hin & <-)]; [done|]. rewrite Forall_forall in Hnn, Hfits.
    destruct (Hnn _ Hin) as (? & ? & _). specialize (Hfits _ Hin). cbn in Hfits. lia. }
  specialize (Hhb ltac:(lia)). rewrite (u64_small (high - low)) in * by lia.
  assert (Hfits' : Forall (λ ph, low ≤ p_vaddr ph ∧ p_vaddr ph + p_memsz ph ≤ low + (high - low))
                     (loadable_segments m (mkElf d))).
  { eapply Forall_impl; [exact Hfits|]. cbn. lia. }
  assert (Hl0 : loaded m (mkElf d) base low (high - low) [] m).
  { intros x _. cbn. by destruct (_ && _). }
  destruct (load_segments_spec m (mkElf d) base low (high - low) Hram Hlen ltac:(cbn; lia)
              ltac:(lia) Hdis Hwf (header_indices m (mkElf d)) [] m)
    as (m' & -> & Hl'); [lia|done|..].
  { apply Forall_forall. intros i Hi%elem_of_seqZ. lia. }
  { apply Forall_and. done. }
  exists m'. split_and!; [|exact Hl'|done]. cbn [mbind outcome_bind].
  unfold entry_offset. by rewrite (loaded_header m (mkElf d) base low (high - low)
    Hlen ltac:(cbn; lia) ltac:(lia) Hdis _ m' Hl').
Qed.

(** C31: loading a well-formed file at a block that is large enough and apart
    from the file returns its entry point and leaves in the block exactly the
    image its segments describe (file bytes, then zeroes), and every byte outside
    the block unchanged. *)
Theorem load_elf_spec m d base elf low size :
  ram_ok m → parse m d = Ok elf → elf_wf m elf →
  memory_requirements m elf = Ok (low, size) →
  0 ≤ sl_ptr d → sl_ptr d + sl_len d < 18446744073709551616 →
  0 ≤ base → base + size < 18446744073709551616 →
  sl_ptr d + sl_len d ≤ base ∨ base + size ≤ sl_ptr d →
  ∃ m', load_elf m d base = Ret (m', Ok (u64 (base + u64 (entry_offset m elf - low)))) ∧
    (∀ x, 0 ≤ x < 18446744073709551616 →
      m' x = if (base <=? x) && (x <? base + size)
             then default (m x) (image_byte m (sl_ptr d) (loadable_segments m elf) (x - base + low))
             else m x) ∧
    Forall (λ ph, low ≤ p_vaddr ph ∧ p_vaddr ph + p_memsz ph ≤ low + size)
      (loadable_segments m elf).
Proof. apply load_elf_ok. Qed.

(** A 128-byte file at address 0x1000: one segment with 8 file bytes and 16
    bytes of memory. *)
Definition demo_elf : list Z :=
  [0x7F; 0x45; 0x4C; 0x46; 2; 1; 1; 0; 0; 0; 0; 0; 0; 0; 0; 0;
   3; 0; 62; 0; 1; 0; 0; 0; 4; 0; 0; 0; 0; 0; 0; 0; 64; 0; 0; 0; 0; 0; 0; 0;
   0; 0; 0; 0; 0; 0; 0; 0; 0; 0; 0; 0; 64; 0; 56; 0; 1; 0; 0; 0; 0; 0; 0; 0;
   1; 0; 0; 0; 5; 0; 0; 0; 120; 0; 0; 0; 0; 0; 0; 0; 0; 0; 0; 0; 0; 0; 0; 0;
   0; 0; 0; 0; 0; 0; 0; 0; 8; 0; 0; 0; 0; 0; 0; 0; 16; 0; 0; 0; 0; 0; 0; 0;
   0; 0; 0; 0; 0; 0; 0; 0; 11; 12; 13; 14; 15; 16; 17; 18].
Definition demo_ram : ram := λ x, nth (Z.to_nat (x - 0x1000)) demo_elf 0.

Lemma demo_ram_ok : ram_ok demo_ram.
Proof.
  intros x. unfold demo_ram.
  destruct (nth_in_or_default (Z.to_nat (x - 0x1000)) demo_elf 0) as [Hin| ->]; [|lia].
  assert (H : Forall (λ b, 0 ≤ b < 256) demo_elf) by (repeat constructor; lia).
  rewrite Forall_forall in H. apply H. by apply list_elem_of_In.
Qed.

Lemma load_elf_spec_witness :
  ∃ m', load_elf demo_ram (mkSlice 0x1000 128) 0x400000 = Ret (m', Ok 0x400004) ∧
    m' 0x400007 = 18 ∧ m' 0x400008 = 0.
Proof.
  destruct (load_elf_spec demo_ram (mkSlice 0x1000 128) 0x400000
              (mkElf (mkSlice 0x1000 128)) 0 16) as (m' & H1 & H2 & _);
    [apply demo_ram_ok|vm_compute; reflexivity| |vm_compute; reflexivity|cbn; lia..|].
  { split; [vm_compute; reflexivity|].
    replace (loadable_segments demo_ram (mkElf (mkSlice 0x1000 128)))
      with [mkElf64ProgramHeader 1 5 120 0 0 8 16 0] by (vm_compute; reflexivity).
    repeat constructor; cbn; lia. }
  exists m'. split; [rewrite H1; vm_compute; reflexivity|].
  split; rewrite H2 by lia; vm_compute; reflexivity.
Defined.
