(* ===== verification/Utf8.v ===== *)
(** [String::from_utf8_lossy]: every maximal invalid prefix of a UTF-8 sequence
    is replaced by U+FFFD. *)

From S2P Require Import Prelude.

Definition is_cont (b : Z) : bool := (0x80 <=? b) && (b <=? 0xBF).

(** The range of the second byte of a sequence that starts with [b], and the
    number of plain continuation bytes after it; [None] if [b] starts none. *)
Definition seq_shape (b : Z) : option (Z * Z * nat) :=
  if (0xC2 <=? b) && (b <=? 0xDF) then Some (0x80, 0xBF, 0%nat)
  else if b =? 0xE0 then Some (0xA0, 0xBF, 1%nat)
  else if b =? 0xED then Some (0x80, 0x9F, 1%nat)
  else if (0xE1 <=? b) && (b <=? 0xEF) then Some (0x80, 0xBF, 1%nat)
  else if b =? 0xF0 then Some (0x90, 0xBF, 2%nat)
  else if (0xF1 <=? b) && (b <=? 0xF3) then Some (0x80, 0xBF, 2%nat)
  else if b =? 0xF4 then Some (0x80, 0x8F, 2%nat)
  else None.

(** Up to [n] continuation bytes: those taken, whether all [n] were there, and
    the rest. *)
Fixpoint take_cont (n : nat) (l : list Z) : list Z * bool * list Z :=
  match n, l with
  | O, _ => ([], true, l)
  | S n, b :: l' =>
      if is_cont b then
        let '(t, ok, r) := take_cont n l' in (b :: t, ok, r)
      else ([], false, l)
  | S _, [] => ([], false, [])
  end.

Definition replacement : list Z := [0xEF; 0xBF; 0xBD].

(** [fuel] at least the length of the input. *)
Fixpoint lossy_loop (fuel : nat) (l : list Z) : list Z :=
  match fuel, l with
  | S fuel, b :: l =>
      if b <? 0x80 then b :: lossy_loop fuel l
      else
        match seq_shape b, l with
        | Some (lo, hi, n), c :: l' =>
            if (lo <=? c) && (c <=? hi) then
              let '(t, ok, r) := take_cont n l' in
              (if ok then b :: c :: t else replacement) ++ lossy_loop fuel r
            else replacement ++ lossy_loop fuel l
        | _, _ => replacement ++ lossy_loop fuel l
        end
  | _, _ => []
  end.

Definition from_utf8_lossy (l : list Z) : list Z := lossy_loop (length l) l.

Lemma from_utf8_lossy_ascii l :
  Forall (λ b, 0 ≤ b < 0x80) l → from_utf8_lossy l = l.
Proof.
  unfold from_utf8_lossy. induction 1 as [|b l Hb _ IH]; cbn; [done|].
  rewrite (proj2 (Z.ltb_lt b 0x80)) by lia. by rewrite IH.
Qed.

(** ** Characters

    [core::str::from_utf8] followed by [chars]: the code points of a valid string. *)
Definition scalar (b c : Z) (t : list Z) : Z :=
  foldl (λ a x, a * 64 + (x - 0x80)) (b - nth (length t) [0xC0; 0xE0; 0xF0] 0) (c :: t).

Fixpoint decode_loop (fuel : nat) (l : list Z) : option (list Z) :=
  match fuel, l with
  | S fuel, b :: l =>
      if b <? 0x80 then cons b <$> decode_loop fuel l
      else
        match seq_shape b, l with
        | Some (lo, hi, n), c :: l' =>
            if (lo <=? c) && (c <=? hi) then
              let '(t, ok, r) := take_cont n l' in
              if ok then cons (scalar b c t) <$> decode_loop fuel r else None
            else None
        | _, _ => None
        end
  | _, _ => Some []
  end.
Definition from_utf8 (l : list Z) : option (list Z) := decode_loop (length l) l.

(** [char::encode_utf8], and the bytes of a string ([str::as_bytes]). *)
Definition encode_utf8 (c : Z) : list Z :=
  if c <? 0x80 then [u8 c]
  else if c <? 0x800 then [u8 (0xC0 + c / 64); u8 (0x80 + c mod 64)]
  else if c <? 0x10000 then [u8 (0xE0 + c / 4096); u8 (0x80 + c / 64 mod 64); u8 (0x80 + c mod 64)]
  else [u8 (0xF0 + c / 262144); u8 (0x80 + c / 4096 mod 64); u8 (0x80 + c / 64 mod 64); u8 (0x80 + c mod 64)].
Definition as_bytes (s : list Z) : list Z := s ≫= encode_utf8.

Lemma as_bytes_bytes s : Forall (λ b, 0 ≤ b < 256) (as_bytes s).
Proof.
  induction s as [|c s IH]; cbn; [constructor|]. apply Forall_app. split; [|done].
  unfold encode_utf8. repeat case_match; repeat constructor; apply u8_range.
Qed.

Lemma take_cont_length n l t ok r : take_cont n l = (t, ok, r) → (length t + length r = length l)%nat.
Proof.
  revert l t ok r. induction n as [|n IH]; intros [|b l] t ok r; cbn; try (by intros [= <- <- <-]).
  destruct (is_cont b); [|by intros [= <- <- <-]].
  destruct (take_cont n l) as [[t' ok'] r'] eqn:E. intros [= <- <- <-]. apply IH in E. cbn. lia.
Qed.

Lemma take_cont_app n l t r r' : take_cont n l = (t, true, r) → take_cont n (t ++ r') = (t, true, r').
Proof.
  revert l t r. induction n as [|n IH]; intros [|b l] t r; cbn; try (by intros [= <- <-]).
  destruct (is_cont b) eqn:Eb; [|done].
  destruct (take_cont n l) as [[t' ok'] r0] eqn:E. intros [= <- -> <-]. cbn. rewrite Eb.
  by rewrite (IH _ _ _ E).
Qed.

Lemma decode_step fuel b c t lo hi n r :
  seq_shape b = Some (lo, hi, n) → (b <? 0x80) = false → (lo <=? c) && (c <=? hi) = true →
  take_cont n (t ++ r) = (t, true, r) →
  decode_loop (S fuel) ((b :: c :: t) ++ r) = cons (scalar b c t) <$> decode_loop fuel r.
Proof. intros Hs Hb Hc Ht. cbn -[scalar]. by rewrite Hb, Hs, Hc, Ht. Qed.

(** What the lossy conversion produces is valid UTF-8. *)
Lemma decode_lossy fuel l : ∀ f, (length (lossy_loop fuel l) ≤ f)%nat →
  is_Some (decode_loop f (lossy_loop fuel l)).
Proof.
  assert (∀ r f, (length (replacement ++ r) ≤ f)%nat →
    (∀ f, (length r ≤ f)%nat → is_Some (decode_loop f r)) → is_Some (decode_loop f (replacement ++ r))) as Hrep.
  { intros r f Hf Hr. destruct f as [|f]; [cbn in Hf; lia|]. unfold replacement.
    change [0xEF; 0xBF; 0xBD] with (0xEF :: 0xBF :: [0xBD]).
    rewrite (decode_step f 0xEF 0xBF [0xBD] 0x80 0xBF 1 r) by done.
    apply fmap_is_Some, Hr. cbn in Hf. lia. }
  revert l. induction fuel as [|fuel IH]; intros [|b l] f; cbn [lossy_loop]; try (by destruct f; eexists).
  destruct (b <? 0x80) eqn:Eb.
  { cbn. intros Hf. destruct f as [|f]; [lia|]. cbn. rewrite Eb. apply fmap_is_Some, IH. lia. }
  destruct (seq_shape b) as [[[lo hi] n]|] eqn:Es; [|intros Hf; apply Hrep; auto].
  destruct l as [|c l']; [intros Hf; apply Hrep; auto|].
  destruct ((lo <=? c) && (c <=? hi)) eqn:Ec; [|intros Hf; apply Hrep; auto].
  destruct (take_cont n l') as [[t ok] r] eqn:Et. destruct ok; intros Hf; [|apply Hrep; auto].
  destruct f as [|f]; [cbn in Hf; lia|].
  rewrite (decode_step f b c t lo hi n) by (first [done|by eapply take_cont_app]).
  apply fmap_is_Some, IH. rewrite length_app in Hf. cbn in Hf. lia.
Qed.

Lemma from_utf8_lossy_valid l : is_Some (from_utf8 (from_utf8_lossy l)).
Proof. by apply decode_lossy. Qed.

From Stdlib Require Import Strings.String.
(** The characters of a literal. *)
Definition chars (s : String.string) : list Z := (λ c, Z.of_N (Ascii.N_of_ascii c)) <$> String.list_ascii_of_string s.
#[global] Arguments chars s%_string.
