(* ===== verification/RegionAllocator.v ===== *)
(** What the kernel's clients of the program region rely on: the interface of
    [program_alloc] as a class, implemented by [ProgramAlloc]. *)

From S2P Require Import Prelude FreeList Tiling ProgramAlloc.

Class RegionAllocator (St : Type) : Type := {
  ra_init : St → St;
  ra_allocate : St → Z → outcome (St * option Z);
  ra_deallocate : St → Z → Z → outcome St;
  ra_stats : St → outcome (Z * Z);
  (** The size reserved for a request. *)
  ra_rounded : Z → Z;
  (** The range the blocks come from. *)
  ra_start : Z;
  ra_end : Z;
  (** The word of memory at an address. *)
  ra_word : St → Z → Z;
  (** The allocator is consistent and its live blocks are those listed. *)
  ra_inv : St → list (Z * Z) → Prop;
  ra_inv_perm s l1 l2 : l1 ≡ₚ l2 → ra_inv s l1 → ra_inv s l2;
  ra_init_ok s : ra_inv (ra_init s) [];
  ra_allocate_ok s live size : ra_inv s live →
    ∃ s' r, ra_allocate s size = Ret (s', r) ∧
      match r with
      | Some a =>
          ra_inv s' ((a, ra_rounded size) :: live) ∧
          ∀ w, in_blocks live w → ra_word s' w = ra_word s w
      | None => s' = s
      end;
  ra_deallocate_ok s live a size :
    ra_inv s ((a, ra_rounded size) :: live) →
    ∃ s', ra_deallocate s a size = Ret s' ∧ ra_inv s' live ∧
      ∀ w, in_blocks live w → ra_word s' w = ra_word s w;
  ra_live_apart s live : ra_inv s live → pairwise apart live;
  ra_live_pos s live a n : ra_inv s live → (a, n) ∈ live →
    0 < a ∧ 0 < n ∧ a + n < 18446744073709551616 ∧ a mod 16 = 0;
  ra_live_in s live a n : ra_inv s live → (a, n) ∈ live → ra_start ≤ a ∧ a + n ≤ ra_end;
  ra_rounded_ge n : 0 < n < 9223372036854775808 → n ≤ ra_rounded n;
}.

#[export] Instance program_region : RegionAllocator ProgramAllocator.
Proof.
  refine {|
    ra_init := init; ra_allocate := allocate; ra_deallocate := deallocate;
    ra_stats := stats; ra_rounded := rounded;
    ra_start := PROGRAM_REGION_START; ra_end := PROGRAM_REGION_END; ra_word := λ s, load (mem s);
    ra_inv := pa_inv 16
  |}.
  - intros s l1 l2 Hp (ts & ? & ? & ? & Hl & Ha). exists ts.
    split_and!; [done..|by rewrite Hl|by rewrite <- Hp].
  - intros s. apply pa_inv_init.
  - intros s live size Hinv.
    destruct (allocate_ok 16 s live size) as (s' & r & Hr & H);
      [done|done|apply rounded_mod_16|done|].
    exists s', r. split; [done|]. destruct r; naive_solver.
  - intros s live a size Hinv.
    destruct (deallocate_ok 16 s _ a size live ltac:(lia) Hinv) as (s' & ? & ? & _ & ?); [done|].
    eauto.
  - intros s live (? & _)%pa_inv_live. done.
  - intros s live a n Hinv Hin. destruct (pa_inv_live _ _ _ Hinv) as (_ & H & _).
    destruct (pa_inv_aligned 16 s live a n ltac:(by left) Hinv Hin) as [? _].
    apply H in Hin. unfold PROGRAM_REGION_START, PROGRAM_REGION_END, MIN_BLOCK_SIZE in *. lia.
  - intros s live a n Hinv Hin. destruct (pa_inv_live _ _ _ Hinv) as (_ & H & _).
    apply H in Hin. lia.
  - intros n Hn. apply rounded_page; lia.
Defined.
