(* ===== verification/Executable.v ===== *)
(** Embedded executables and per-task memory ([src/executable.rs]): the
    executable table, loading, and the registry of every task's stack, program
    and heap blocks, over any implementation of the program-region interface. *)

From S2P Require Import Prelude FreeList Tiling BTreeMap ByteMem Elf Utf8 RegionAllocator.

Definition EXEC_TABLE_MAGIC : list Z := [0x52; 0x45; 0x58; 0x45].
Definition MAX_EXECUTABLES : Z := 15.

(** [struct ExecEntry], 32 bytes *)
Record ExecEntry : Type := mkExecEntry {
  name : list Z;
  offset : Z;
  esize : Z;
}.
(** [header.entries[i]] of the table at [addr]. *)
Definition entry_at (m : ram) (addr i : Z) : outcome ExecEntry :=
  if i <? MAX_EXECUTABLES then
    let p := u64 (addr + 16 + 32 * i) in
    Ret (mkExecEntry (peek m p 16) (peek_u32 m (p + 16)) (peek_u32 m (p + 20)))
  else Panic.

(** [struct LoadedProgram] *)
Record LoadedProgram : Type := mkLoadedProgram {
  lp_name : list Z;
  base_addr : Z;
  lp_size : Z;
  entry : Z;
}.

Inductive ExecError : Type :=
| NotInitialized
| NoTableFound
| NotFound
| ElfErr (e : ElfError)
| AllocationFailed
| InvalidTable.

(** [struct TaskAllocations] and its [new] *)
Record TaskAllocations : Type := mkTaskAllocations {
  stack : Z * Z;
  program : option (Z * Z * list Z);
  heap_blocks : list (Z * Z);
}.
Definition TaskAllocations_new (stack_base stack_size : Z) : TaskAllocations :=
  mkTaskAllocations (stack_base, stack_size) None [].

(** [struct ExecRegistry] and [struct RegistryCell] *)
Record ExecRegistry : Type := mkExecRegistry {
  table_addr : Z;
  exec_count : Z;
  task_allocations : btree TaskAllocations;
}.
Record RegistryCell : Type := mkRegistryCell {
  inner : ExecRegistry;
  initialized : bool;
}.
Definition RegistryCell_new : RegistryCell :=
  mkRegistryCell (mkExecRegistry 0 0 []) false.
(** [RegistryCell::init] *)
Definition RegistryCell_init (self : RegistryCell) (addr count : Z) : outcome RegistryCell :=
  if initialized self then Panic
  else Ret (mkRegistryCell (mkExecRegistry addr count (task_allocations (inner self))) true).
(** [RegistryCell::with] *)
Definition registry_with (self : RegistryCell) : outcome ExecRegistry :=
  _ ← rust_assert (initialized self);
  Ret (inner self).

(** ** The table *)

(** The entry loop of [validate_table]. *)
Fixpoint validate_entries (m : ram) (addr i : Z) (n : nat) : outcome bool :=
  match n with
  | O => Ret true
  | S n =>
      e ← entry_at m addr i;
      if (offset e =? 0) || (esize e =? 0) then Ret false
      else validate_entries m addr (i + 1) n
  end.

(** [validate_table] *)
Definition validate_table (m : ram) (addr : Z) : outcome bool :=
  if negb (bool_decide (peek m addr 4 = EXEC_TABLE_MAGIC)) then Ret false
  else if negb (peek_u32 m (addr + 4) =? 1) then Ret false
  else
    let count := peek_u32 m (addr + 8) in
    if MAX_EXECUTABLES <? count then Ret false
    else validate_entries m addr 0 (Z.to_nat count).

Definition search_start : Z := 0x100000.
Definition search_end : Z := 0x200000.

(** The search loop of [init]; one unit of fuel per candidate address. *)
Fixpoint search_table (n : nat) (m : ram) (addr : Z) : outcome (option Z) :=
  match n with
  | O => Diverge
  | S n =>
      if addr <? search_end - 4 then
        if bool_decide (peek m addr 4 = EXEC_TABLE_MAGIC) then
          ok ← validate_table m addr;
          if (ok : bool) then Ret (Some addr) else search_table n m (addr + 4)
        else search_table n m (addr + 4)
      else Ret None
  end.
Definition search_fuel : nat := S (Z.to_nat 0x40000).

(** [entry_name] *)
Fixpoint until_nul (l : list Z) : list Z :=
  match l with
  | [] => []
  | b :: l => if b =? 0 then [] else b :: until_nul l
  end.
Definition entry_name (e : ExecEntry) : list Z := from_utf8_lossy (until_nul (name e)).

(** The name loop of [list]. *)
Fixpoint list_entries (m : ram) (addr i : Z) (n : nat) : outcome (list (list Z)) :=
  match n with
  | O => Ret []
  | S n =>
      e ← entry_at m addr i;
      rest ← list_entries m addr (i + 1) n;
      Ret (entry_name e :: rest)
  end.

(** The search of [find_executable] over the entries from [i] on. *)
Fixpoint find_entry (m : ram) (addr i : Z) (n : nat) (wanted : list Z) :
    outcome (option (Z * Z)) :=
  match n with
  | O => Ret None
  | S n =>
      e ← entry_at m addr i;
      if bool_decide (entry_name e = wanted)
      then Ret (Some (u64 (addr + offset e), esize e))
      else find_entry m addr (i + 1) n wanted
  end.

(** [find_executable] *)
Definition find_executable (cell : RegistryCell) (m : ram) (wanted : list Z) :
    outcome (result ExecError (Z * Z)) :=
  reg ← registry_with cell;
  if table_addr reg =? 0 then Ret (Err NoTableFound)
  else
    r ← find_entry m (table_addr reg) 0 (Z.to_nat (exec_count reg)) wanted;
    match r with
    | Some p => Ret (Ok p)
    | None => Ret (Err NotFound)
    end.

(** [list] *)
Definition list_executables (cell : RegistryCell) (m : ram) : outcome (list (list Z)) :=
  if negb (initialized cell) then Ret []
  else
    reg ← registry_with cell;
    if table_addr reg =? 0 then Ret []
    else list_entries m (table_addr reg) 0 (Z.to_nat (exec_count reg)).

(** [read]: the slice of the named file. *)
Definition read (cell : RegistryCell) (m : ram) (wanted : list Z) :
    outcome (result ExecError slice) :=
  if negb (initialized cell) then Ret (Err NotInitialized)
  else
    r ← find_executable cell m wanted;
    match r with
    | Ok (addr, size) => Ret (Ok (mkSlice addr size))
    | Err e => Ret (Err e)
    end.

(** *** The table search *)

Lemma entry_at_Ret m addr i : i < MAX_EXECUTABLES → ∃ e, entry_at m addr i = Ret e.
Proof. intros. unfold entry_at. rewrite (proj2 (Z.ltb_lt _ _)) by done. eauto. Qed.

Lemma validate_entries_Ret m addr n i :
  i + Z.of_nat n ≤ MAX_EXECUTABLES → ∃ b, validate_entries m addr i n = Ret b.
Proof.
  revert i. induction n as [|n IH]; intros i Hi; cbn [validate_entries]; [eauto|].
  destruct (entry_at_Ret m addr i) as [e ->]; [lia|]. cbn.
  case_bool; [eauto|]. apply IH. lia.
Qed.

Lemma validate_table_Ret m addr : ram_ok m → ∃ b, validate_table m addr = Ret b.
Proof.
  intros Hm. unfold validate_table. repeat (case_bool; [by eauto|]). bool_to_prop.
  apply validate_entries_Ret. pose proof (peek_u32_range m (addr + 8) Hm). lia.
Qed.

(** A candidate address of the search holds a valid table. *)
Definition table_at (m : ram) (addr : Z) : Prop :=
  peek m addr 4 = EXEC_TABLE_MAGIC ∧ validate_table m addr = Ret true.

Lemma search_table_spec m n addr :
  ram_ok m → search_end - 4 ≤ addr + 4 * Z.of_nat n →
  ∃ r, search_table (S n) m addr = Ret r ∧
    match r with
    | Some a =>
        table_at m a ∧ addr ≤ a < search_end - 4 ∧ (a - addr) mod 4 = 0 ∧
        ∀ b, addr ≤ b < a → (b - addr) mod 4 = 0 → ¬ table_at m b
    | None => ∀ b, addr ≤ b < search_end - 4 → (b - addr) mod 4 = 0 → ¬ table_at m b
    end.
Proof.
  intros Hm. revert addr. induction n as [|n IH]; intros addr Hn.
  { cbn [search_table]. rewrite (proj2 (Z.ltb_ge _ _)) by lia.
    exists None. split; [done|]. lia. }
  cbn [search_table]. destruct (addr <? search_end - 4) eqn:E; bool_to_prop.
  2:{ exists None. split; [done|]. lia. }
  assert (Hskip : ¬ table_at m addr →
    ∃ r, search_table (S n) m (addr + 4) = Ret r ∧
    match r with
    | Some a =>
        table_at m a ∧ addr ≤ a < search_end - 4 ∧ (a - addr) mod 4 = 0 ∧
        ∀ b, addr ≤ b < a → (b - addr) mod 4 = 0 → ¬ table_at m b
    | None => ∀ b, addr ≤ b < search_end - 4 → (b - addr) mod 4 = 0 → ¬ table_at m b
    end).
  { intros Hno. destruct (IH (addr + 4)) as (r & Hr & HP); [lia|]. exists r. split; [done|].
    assert (Hb : ∀ b, addr ≤ b → (b - addr) mod 4 = 0 →
               b = addr ∨ addr + 4 ≤ b ∧ (b - (addr + 4)) mod 4 = 0).
    { intros b ? Hmod. apply Z.mod_divide in Hmod as [k Hk]; [|lia].
      destruct (decide (k = 0)) as [->|]; [left; lia|right]. split; [lia|].
      replace (b - (addr + 4)) with ((k - 1) * 4) by lia. apply Z.mod_mul. lia. }
    destruct r as [a|].
    - destruct HP as (? & ? & Hma & Hall). split_and!; [done|lia|lia| |].
      + replace (a - addr) with (a - (addr + 4) + 1 * 4) by lia. by rewrite Z.mod_add.
      + intros b ? Hmb. destruct (Hb b) as [->|[? ?]]; [lia|done|done|]. apply Hall; [lia|done].
    - intros b ? Hmb. destruct (Hb b) as [->|[? ?]]; [lia|done|done|]. apply HP; [lia|done]. }
  destruct (bool_decide (peek m addr 4 = EXEC_TABLE_MAGIC)) eqn:Em.
  - apply bool_decide_eq_true in Em. destruct (validate_table_Ret m addr Hm) as [[] Hv];
      rewrite Hv; cbn [mbind outcome_bind].
    + exists (Some addr). split; [done|]. rewrite Z.sub_diag.
      split_and!; [done..|lia|lia|done|]. lia.
    + apply Hskip. intros [_ Hv']. congruence.
  - apply Hskip. intros [Hm' _]. by apply bool_decide_eq_false in Em.
Qed.

(** ** Tasks' memory *)
Section executable.
Context {St : Type} `{RegionAllocator St}.

(** The registry, the program region and memory.  The kernel has one memory; here
    [region] has the words that the allocator keeps in the free blocks of its region, and
    [memory] everything else.  The split loses nothing of the blocks in use: the allocator does
    not change a word of a live block ([ra_allocate_ok] and [ra_deallocate_ok]), and tasks,
    stacks and images are in live blocks.  What a free block holds, and so what a new block
    holds before it is first written, is not described by [memory]. *)
Record exec_state : Type := mkExec {
  cell : RegistryCell;
  region : St;
  memory : ram;
}.
Definition set_allocs (w : exec_state) (m : btree TaskAllocations) : exec_state :=
  let reg := inner (cell w) in
  mkExec (mkRegistryCell (mkExecRegistry (table_addr reg) (exec_count reg) m)
            (initialized (cell w))) (region w) (memory w).
Definition set_region (w : exec_state) (s : St) : exec_state :=
  mkExec (cell w) s (memory w).

(** [init] *)
Definition exec_init (w : exec_state) : outcome (exec_state * Z) :=
  let s := ra_init (region w) in
  t ← search_table search_fuel (memory w) search_start;
  let '(addr, count) :=
    match t with
    | Some addr => (addr, peek_u32 (memory w) (addr + 8))
    | None => (0, 0)
    end in
  c ← RegistryCell_init (cell w) addr count;
  Ret (mkExec c s (memory w), count).

(** [load] *)
Definition exec_load (w : exec_state) (wanted : list Z) :
    outcome (exec_state * result ExecError LoadedProgram) :=
  if negb (initialized (cell w)) then Ret (w, Err NotInitialized)
  else
    r ← find_executable (cell w) (memory w) wanted;
    match r with
    | Err e => Ret (w, Err e)
    | Ok (elf_addr, elf_size) =>
        let d := mkSlice elf_addr elf_size in
        match parse (memory w) d with
        | Err e => Ret (w, Err (ElfErr e))
        | Ok elf =>
            match memory_requirements (memory w) elf with
            | Err e => Ret (w, Err (ElfErr e))
            | Ok (_, mem_size) =>
                '(s, a) ← ra_allocate (region w) mem_size;
                match a with
                | None => Ret (set_region w s, Err AllocationFailed)
                | Some base =>
                    '(m, e) ← load_elf (memory w) d base;
                    match e with
                    | Err e => Ret (mkExec (cell w) s m, Err (ElfErr e))
                    | Ok entry =>
                        Ret (mkExec (cell w) s m,
                             Ok (mkLoadedProgram wanted base mem_size entry))
                    end
                end
            end
        end
    end.

(** [register_task_stack] *)
Definition register_task_stack (w : exec_state) (task_id stack_base stack_size : Z) :
    outcome exec_state :=
  reg ← registry_with (cell w);
  Ret (set_allocs w (bt_insert (task_allocations reg) task_id
                       (TaskAllocations_new stack_base stack_size))).

(** [register_task_program] *)
Definition register_task_program (w : exec_state) (task_id base size : Z) (nm : list Z) :
    outcome exec_state :=
  reg ← registry_with (cell w);
  match bt_get (task_allocations reg) task_id with
  | Some allocs =>
      Ret (set_allocs w (bt_insert (task_allocations reg) task_id
             (mkTaskAllocations (stack allocs) (Some (base, size, nm)) (heap_blocks allocs))))
  | None => Ret w
  end.

(** [task_alloc] *)
Definition task_alloc (w : exec_state) (task_id size : Z) : outcome (exec_state * option Z) :=
  if size =? 0 then Ret (w, None)
  else
    let aligned_size := align_up size 0x1000 in
    '(s, a) ← ra_allocate (region w) aligned_size;
    match a with
    | None => Ret (set_region w s, None)
    | Some addr =>
        reg ← registry_with (cell w);
        let w1 := set_region w s in
        match bt_get (task_allocations reg) task_id with
        | Some allocs =>
            Ret (set_allocs w1 (bt_insert (task_allocations reg) task_id
                   (mkTaskAllocations (stack allocs) (program allocs)
                      (heap_blocks allocs ++ [(addr, aligned_size)]))), Some addr)
        | None => Ret (w1, Some addr)
        end
    end.

(** [position] and [Vec::remove] of [task_free]. *)
Fixpoint take_block (l : list (Z * Z)) (ptr : Z) : option (Z * Z * list (Z * Z)) :=
  match l with
  | [] => None
  | (a, s) :: l =>
      if a =? ptr then Some (a, s, l)
      else match take_block l ptr with
           | Some (b, l') => Some (b, (a, s) :: l')
           | None => None
           end
  end.

(** [task_free] *)
Definition task_free (w : exec_state) (task_id ptr : Z) : outcome (exec_state * bool) :=
  reg ← registry_with (cell w);
  match bt_get (task_allocations reg) task_id with
  | None => Ret (w, false)
  | Some allocs =>
      match take_block (heap_blocks allocs) ptr with
      | None => Ret (w, false)
      | Some (addr, size, rest) =>
          let w1 := set_allocs w (bt_insert (task_allocations reg) task_id
                      (mkTaskAllocations (stack allocs) (program allocs) rest)) in
          s ← ra_deallocate (region w) addr size;
          Ret (set_region w1 s, true)
      end
  end.

(** [for (addr, size) in blocks { deallocate(addr, size) }] *)
Fixpoint deallocate_all (s : St) (l : list (Z * Z)) : outcome St :=
  match l with
  | [] => Ret s
  | (a, n) :: l => s' ← ra_deallocate s a n; deallocate_all s' l
  end.

(** [unload_task] *)
Definition unload_task (w : exec_state) (task_id : Z) : outcome exec_state :=
  if negb (initialized (cell w)) then Ret w
  else
    reg ← registry_with (cell w);
    match bt_get (task_allocations reg) task_id with
    | None => Ret w
    | Some allocs =>
        let w1 := set_allocs w (bt_remove (task_allocations reg) task_id) in
        s1 ← deallocate_all (region w) (heap_blocks allocs);
        s2 ← match program allocs with
             | Some (addr, size, _) => ra_deallocate s1 addr size
             | None => Ret s1
             end;
        s3 ← ra_deallocate s2 (stack allocs).1 (stack allocs).2;
        Ret (set_region w1 s3)
    end.

(** [memory_stats] *)
Definition memory_stats (w : exec_state) : outcome (Z * Z) := ra_stats (region w).

(** [get_all_task_memory], in task order *)
Definition get_all_task_memory (w : exec_state) : list (Z * TaskAllocations) :=
  if negb (initialized (cell w)) then [] else task_allocations (inner (cell w)).

Definition in_range (addr base size : Z) : bool := (base <=? addr) && (addr <? u64 (base + size)).

(** [find_program_by_addr] *)
Fixpoint find_program (l : btree TaskAllocations) (addr : Z) : option (Z * Z * list Z) :=
  match l with
  | [] => None
  | (_, allocs) :: l =>
      match program allocs with
      | Some (base, size, nm) =>
          if in_range addr base size then Some (base, u64 (base + size), nm)
          else find_program l addr
      | None => find_program l addr
      end
  end.
Definition find_program_by_addr (w : exec_state) (addr : Z) : option (Z * Z * list Z) :=
  if negb (initialized (cell w)) then None
  else find_program (task_allocations (inner (cell w))) addr.

(** [find_task_by_program_addr] *)
Definition owns (allocs : TaskAllocations) (addr : Z) : bool :=
  in_range addr (stack allocs).1 (stack allocs).2
  || match program allocs with
     | Some (base, size, _) => in_range addr base size
     | None => false
     end
  || existsb (λ b, in_range addr b.1 b.2) (heap_blocks allocs).
Fixpoint find_owner (l : btree TaskAllocations) (addr : Z) : option Z :=
  match l with
  | [] => None
  | (task_id, allocs) :: l => if owns allocs addr then Some task_id else find_owner l addr
  end.
Definition find_task_by_program_addr (w : exec_state) (addr : Z) : option Z :=
  if negb (initialized (cell w)) then None
  else find_owner (task_allocations (inner (cell w))) addr.

(** ** Ownership invariant *)

(** A task's recorded blocks, in the order [unload_task] frees them, and the
    ranges the allocator reserved for recorded blocks. *)
Definition task_blocks (allocs : TaskAllocations) : list (Z * Z) :=
  heap_blocks allocs ++
  match program allocs with Some (a, n, _) => [(a, n)] | None => [] end ++
  [stack allocs].
Definition reserve (b : Z * Z) : Z * Z := (b.1, ra_rounded b.2).
Definition owned (m : btree TaskAllocations) : list (Z * Z) :=
  m ≫= λ p, reserve <$> task_blocks p.2.
Definition allocs_of (w : exec_state) : btree TaskAllocations :=
  task_allocations (inner (cell w)).

(** Every recorded block is live in the region; [others] are the live blocks
    that no task has registered. *)
Definition exec_inv (w : exec_state) (others : list (Z * Z)) : Prop :=
  initialized (cell w) = true ∧ bt_sorted (allocs_of w) ∧
  ra_inv (region w) (owned (allocs_of w) ++ others).

(** The memory words in the given blocks are unchanged. *)
Definition words_same (l : list (Z * Z)) (w w' : exec_state) : Prop :=
  ∀ x, in_blocks l x → ra_word (region w') x = ra_word (region w) x.

Lemma in_blocks_perm l1 l2 x : l1 ≡ₚ l2 → in_blocks l1 x → in_blocks l2 x.
Proof. intros Hp (a & n & Hin & ?). exists a, n. by rewrite <- Hp. Qed.

Lemma owned_cons t al m :
  owned ((t, al) :: m) = (reserve <$> task_blocks al) ++ owned m.
Proof. done. Qed.

Lemma owned_remove m t al :
  bt_get m t = Some al → owned m ≡ₚ (reserve <$> task_blocks al) ++ owned (bt_remove m t).
Proof.
  intros Hg. rewrite <- (owned_cons t). unfold owned.
  by rewrite (bt_remove_perm m t al Hg) at 1.
Qed.

Lemma owned_insert m t al al' :
  bt_sorted m → bt_get m t = Some al →
  owned (bt_insert m t al') ≡ₚ (reserve <$> task_blocks al') ++ owned (bt_remove m t).
Proof.
  intros Hs Hg. rewrite <- (owned_cons t). unfold owned.
  by rewrite (bt_insert_perm_old m t al' al Hs Hg).
Qed.

Lemma take_block_spec l ptr :
  match take_block l ptr with
  | Some (a, n, rest) =>
      ∃ l1 l2, l = l1 ++ (ptr, n) :: l2 ∧ rest = l1 ++ l2 ∧ a = ptr ∧ ptr ∉ l1.*1
  | None => ptr ∉ l.*1
  end.
Proof.
  induction l as [|[a n] l IH]; cbn; [by intros ?%elem_of_nil|].
  destruct (a =? ptr) eqn:E; bool_to_prop.
  - subst. exists [], l. split_and!; [done..|]. by intros ?%elem_of_nil.
  - destruct (take_block l ptr) as [[[b k] r]|].
    + destruct IH as (l1 & l2 & -> & -> & -> & Hni). exists ((a, n) :: l1), l2.
      split_and!; [done..|]. cbn. rewrite not_elem_of_cons. naive_solver.
    + rewrite not_elem_of_cons. naive_solver.
Qed.

Lemma deallocate_all_ok s l live :
  ra_inv s ((reserve <$> l) ++ live) →
  ∃ s', deallocate_all s l = Ret s' ∧ ra_inv s' live ∧
    ∀ x, in_blocks live x → ra_word s' x = ra_word s x.
Proof.
  revert s. induction l as [|[a n] l IH]; cbn; intros s Hinv; [by exists s|].
  destruct (ra_deallocate_ok s _ a n Hinv) as (s1 & -> & Hinv1 & Hw1). cbn.
  destruct (IH s1 Hinv1) as (s' & -> & Hinv' & Hw'). exists s'. split_and!; [done..|].
  intros x Hx. rewrite Hw' by done. apply Hw1. apply in_blocks_app. by right.
Qed.

(** [unload_task] frees the task's blocks in the order of [task_blocks]. *)
Lemma unload_task_eq w t al :
  initialized (cell w) = true → bt_get (allocs_of w) t = Some al →
  unload_task w t =
    (s ← deallocate_all (region w) (task_blocks al);
     Ret (set_region (set_allocs w (bt_remove (allocs_of w) t)) s)).
Proof.
  intros Hi Hg. unfold unload_task, registry_with. rewrite Hi. cbn. unfold allocs_of in *.
  rewrite Hg. unfold task_blocks. generalize (region w) as s.
  induction (heap_blocks al) as [|[a n] l IH]; cbn; intros s.
  - destruct (program al) as [[[a n] nm]|], (stack al) as [b k]; cbn.
    + destruct (ra_deallocate s a n) as [s2| |]; cbn; try done. by destruct (ra_deallocate s2 b k).
    + by destruct (ra_deallocate s b k).
  - destruct (ra_deallocate s a n); cbn; [apply IH|done|done].
Qed.

Lemma unload_task_ok w others t :
  exec_inv w others →
  ∃ w', unload_task w t = Ret w' ∧ exec_inv w' others ∧
    (∀ t', bt_get (allocs_of w') t' = if t' =? t then None else bt_get (allocs_of w) t') ∧
    words_same (owned (allocs_of w') ++ others) w w' ∧
    (bt_get (allocs_of w) t = None → w' = w).
Proof.
  intros (Hi & Hs & Hinv). destruct (bt_get (allocs_of w) t) as [al|] eqn:Hg.
  - rewrite (unload_task_eq w t al) by done.
    destruct (deallocate_all_ok (region w) (task_blocks al)
                (owned (bt_remove (allocs_of w) t) ++ others)) as (s & -> & Hinv' & Hw').
    { eapply ra_inv_perm; [|exact Hinv]. by rewrite (owned_remove _ t al Hg), app_assoc. }
    eexists. cbn. split; [done|]. split_and!; [|intros; by apply bt_get_remove|done|done].
    split_and!; [done|by apply bt_remove_sorted|done].
  - exists w. unfold unload_task, registry_with. rewrite Hi. cbn.
    unfold allocs_of in *. rewrite Hg. split_and!; [done..| |done|done].
    intros t'. destruct (t' =? t) eqn:E; [|done]. bool_to_prop. by subst.
Qed.
End executable.
Arguments exec_state : clear implicits.

Section properties.
Context {St : Type} `{RegionAllocator St}.
Implicit Types w : exec_state St.

(** C24: when a task exits, [unload_task] returns every block recorded for it to
    the region, and only those: afterwards the task has no record, the other
    tasks' records are unchanged, exactly the other blocks are live, and their
    contents are unchanged.  Unloading an unknown task changes nothing. *)
Theorem unload_task_spec w others t :
  exec_inv w others →
  ∃ w', unload_task w t = Ret w' ∧ exec_inv w' others ∧
    (∀ t', bt_get (allocs_of w') t' = if t' =? t then None else bt_get (allocs_of w) t') ∧
    words_same (owned (allocs_of w') ++ others) w w' ∧
    (bt_get (allocs_of w) t = None → w' = w).
Proof.
  apply unload_task_ok.
Qed.

(** [task_free] frees exactly the block that the calling task allocated at
    the given address; for any other pointer, one of another task included, it
    answers [false] and changes nothing. *)
Lemma task_free_spec w others t al ptr :
  exec_inv w others → bt_get (allocs_of w) t = Some al →
  ∃ w' r, task_free w t ptr = Ret (w', r) ∧ exec_inv w' others ∧
    words_same (owned (allocs_of w') ++ others) w w' ∧
    if (r : bool) then
      ∃ n l1 l2, heap_blocks al = l1 ++ (ptr, n) :: l2 ∧ (ptr ∉ l1.*1) ∧
        bt_get (allocs_of w') t = Some (mkTaskAllocations (stack al) (program al) (l1 ++ l2)) ∧
        ∀ t', t' ≠ t → bt_get (allocs_of w') t' = bt_get (allocs_of w) t'
    else w' = w ∧ ptr ∉ (heap_blocks al).*1.
Proof.
  intros (Hi & Hs & Hinv) Hg. unfold task_free, registry_with. rewrite Hi. cbn.
  unfold allocs_of in *. rewrite Hg. pose proof (take_block_spec (heap_blocks al) ptr) as Ht.
  destruct (take_block (heap_blocks al) ptr) as [[[a n] rest]|].
  - destruct Ht as (l1 & l2 & Hl & -> & -> & Hni).
    set (al' := mkTaskAllocations (stack al) (program al) (l1 ++ l2)).
    set (m' := bt_insert _ t al').
    assert (Hp : owned (task_allocations (inner (cell w))) ≡ₚ reserve (ptr, n) :: owned m').
    { unfold m'. rewrite (owned_remove _ t al Hg), (owned_insert _ t al al' Hs Hg).
      unfold task_blocks. cbn. rewrite Hl, <- !app_assoc, !fmap_app. cbn.
      solve_Permutation. }
    destruct (ra_deallocate_ok (region w) (owned m' ++ others) ptr n) as (s' & -> & Hinv' & Hw').
    { eapply ra_inv_perm; [|exact Hinv]. by rewrite Hp. }
    cbn. eexists _, true. split; [done|]. split_and!.
    + split_and!; [done|by apply bt_insert_sorted|done].
    + exact Hw'.
    + exists n, l1, l2. split_and!; [done..| |].
      * cbn. unfold m'. rewrite bt_get_insert by done. by rewrite Z.eqb_refl.
      * intros t' Ht'. cbn. unfold m'. rewrite bt_get_insert by done.
        by rewrite (proj2 (Z.eqb_neq t' t)).
  - exists w, false. split_and!; [done..|done|done].
Qed.

(** [task_alloc] of a positive size, for a registered task, either hands out
    a fresh block that it records for that task alone, or answers [None] and
    changes nothing; no recorded block's contents change. *)
Lemma task_alloc_spec w others t al size :
  exec_inv w others → bt_get (allocs_of w) t = Some al → 0 < size →
  ∃ w' r, task_alloc w t size = Ret (w', r) ∧ exec_inv w' others ∧ memory w' = memory w ∧
    words_same (owned (allocs_of w) ++ others) w w' ∧
    match r with
    | Some a =>
        bt_get (allocs_of w') t =
          Some (mkTaskAllocations (stack al) (program al)
                  (heap_blocks al ++ [(a, align_up size 0x1000)])) ∧
        (∀ t', t' ≠ t → bt_get (allocs_of w') t' = bt_get (allocs_of w) t') ∧
        Forall (apart (reserve (a, align_up size 0x1000))) (owned (allocs_of w) ++ others)
    | None => allocs_of w' = allocs_of w
    end.
Proof.
  intros (Hi & Hs & Hinv) Hg Hsz. unfold task_alloc. rewrite (proj2 (Z.eqb_neq size 0)) by lia.
  destruct (ra_allocate_ok (region w) _ (align_up size 0x1000) Hinv) as (s' & r & -> & Hr). cbn.
  destruct r as [a|].
  - destruct Hr as [Hinv' Hw']. unfold registry_with. rewrite Hi. cbn.
    unfold allocs_of in *. rewrite Hg.
    set (al' := mkTaskAllocations (stack al) (program al)
                  (heap_blocks al ++ [(a, align_up size 0x1000)])).
    eexists _, (Some a). split; [done|].
    split_and!; [|done|exact Hw'|..].
    + split_and!; [done|by apply bt_insert_sorted|]. cbn.
      eapply ra_inv_perm; [|exact Hinv']. unfold allocs_of. cbn.
      fold (owned (bt_insert (task_allocations (inner (cell w))) t al')).
      rewrite (owned_insert _ t al al' Hs Hg), (owned_remove _ t al Hg).
      unfold task_blocks, al'. cbn. rewrite !fmap_app. cbn.
      solve_Permutation.
    + cbn. rewrite bt_get_insert by done. by rewrite Z.eqb_refl.
    + intros t' Ht'. cbn. rewrite bt_get_insert by done.
      by rewrite (proj2 (Z.eqb_neq t' t)).
    + apply ra_live_apart in Hinv'. apply Hinv'.
  - subst. exists (set_region w (region w)), None. split; [done|].
    split_and!; [split_and!; done|done|done|done].
Qed.

Lemma in_range_spec addr b n :
  0 ≤ b → 0 ≤ n → b + n < 18446744073709551616 →
  in_range addr b n = true ↔ b ≤ addr < b + n.
Proof. intros. unfold in_range. rewrite u64_small by lia. bool_to_prop. lia. Qed.

(** Sizes are recorded unrounded; the reserved range covers them. *)
Definition sizes_ok (l : list (Z * Z)) : Prop := Forall (λ b, 0 ≤ b.2 ≤ ra_rounded b.2) l.

Lemma owns_spec al addr :
  Forall (λ b, 0 ≤ b.1 ∧ 0 ≤ b.2 ∧ b.1 + b.2 < 18446744073709551616) (task_blocks al) →
  owns al addr = true ↔ in_blocks (task_blocks al) addr.
Proof.
  unfold task_blocks. rewrite !Forall_app. intros (Hh & Hp & Hst).
  unfold owns. rewrite !orb_true_iff, existsb_exists, !in_blocks_app.
  assert (Hsingle : ∀ a n, in_blocks [(a, n)] addr ↔ a ≤ addr < a + n).
  { intros a n. split; [|apply in_blocks_here].
    by intros (? & ? & [= -> ->]%list_elem_of_singleton & ?). }
  assert (Hheap : (∃ b, In b (heap_blocks al) ∧ in_range addr b.1 b.2 = true) ↔
                  in_blocks (heap_blocks al) addr).
  { rewrite Forall_forall in Hh. unfold in_blocks. split.
    - intros ([a n] & Hin%list_elem_of_In & Hr). exists a, n. split; [done|].
      destruct (Hh _ Hin) as (? & ? & ?). by apply in_range_spec in Hr.
    - intros (a & n & Hin & ?). exists (a, n). split; [by apply list_elem_of_In|].
      destruct (Hh _ Hin) as (? & ? & ?). by apply in_range_spec. }
  rewrite Hheap. apply Forall_singleton in Hst as (? & ? & ?).
  rewrite in_range_spec by done. destruct (stack al) as [sb sn]. rewrite Hsingle.
  destruct (program al) as [[[a n] nm]|]; cbn.
  - apply Forall_singleton in Hp as (? & ? & ?). cbn in *.
    rewrite in_range_spec, Hsingle by done. tauto.
  - assert (¬ in_blocks [] addr) by (by intros (? & ? & ?%elem_of_nil & _)). naive_solver.
Qed.

Lemma find_owner_spec m addr :
  Forall (λ p, owns p.2 addr = true ↔ in_blocks (task_blocks p.2) addr) m →
  match find_owner m addr with
  | Some t => ∃ al, (t, al) ∈ m ∧ in_blocks (task_blocks al) addr
  | None => ∀ t al, (t, al) ∈ m → ¬ in_blocks (task_blocks al) addr
  end.
Proof.
  induction 1 as [|[t al] m Hal _ IH]; cbn; [by intros ?? ?%elem_of_nil|]. cbn in Hal.
  destruct (owns al addr) eqn:E.
  - exists al. split; [apply elem_of_cons; by left|]. by apply Hal.
  - destruct (find_owner m addr) as [t'|].
    + destruct IH as (al' & ? & ?). exists al'. split; [apply elem_of_cons; by right|done].
    + intros t' al' [[= -> ->]|Hin]%elem_of_cons; [|by eapply IH]. rewrite <- Hal. done.
Qed.

Lemma blocks_in_range w others t al :
  exec_inv w others → Forall (λ p, sizes_ok (task_blocks p.2)) (allocs_of w) →
  (t, al) ∈ allocs_of w →
  Forall (λ b, 0 ≤ b.1 ∧ 0 ≤ b.2 ∧ b.1 + b.2 < 18446744073709551616) (task_blocks al).
Proof.
  intros (Hi & Hs & Hinv) Hok Hin. rewrite Forall_forall in Hok.
  specialize (Hok _ Hin). cbn in Hok. unfold sizes_ok in Hok. rewrite Forall_forall in Hok.
  apply Forall_forall. intros [a n] Hb. specialize (Hok _ Hb). cbn in *.
  destruct (ra_live_pos (region w) _ a (ra_rounded n) Hinv) as (? & ? & ? & _); [|lia].
  apply elem_of_app. left. apply bt_elem_get in Hin; [|done]. rewrite (owned_remove _ t al Hin).
  apply elem_of_app. left. by apply (list_elem_of_fmap_2 reserve _ (a, n)).
Qed.

(** Distinct tasks own disjoint ranges. *)
Lemma owners_disjoint w others t al t' al' addr :
  exec_inv w others → bt_get (allocs_of w) t = Some al → bt_get (allocs_of w) t' = Some al' →
  sizes_ok (task_blocks al) → sizes_ok (task_blocks al') → t' ≠ t →
  in_blocks (task_blocks al) addr → in_blocks (task_blocks al') addr → False.
Proof.
  intros (Hi & Hs & Hinv) Hg Hg' Hok Hok' Hne (a & n & Hin & ?) (b & k & Hin' & ?).
  apply ra_live_apart in Hinv. rewrite (owned_remove _ t al Hg), <- app_assoc in Hinv.
  assert (Hg2 : bt_get (bt_remove (allocs_of w) t) t' = Some al').
  { rewrite bt_get_remove by done. by rewrite (proj2 (Z.eqb_neq t' t)). }
  rewrite (owned_remove _ t' al' Hg2) in Hinv.
  apply (pairwise_app_elem _ _ _ (reserve (a, n)) (reserve (b, k))) in Hinv.
  - unfold sizes_ok in *. rewrite Forall_forall in Hok, Hok'.
    apply Hok in Hin. apply Hok' in Hin'. unfold apart, reserve in Hinv. cbn in *. lia.
  - by apply list_elem_of_fmap_2.
  - rewrite !elem_of_app. left. left. by apply list_elem_of_fmap_2.
Qed.

(** [find_task_by_program_addr] names the one task that owns the address,
    and answers [None] only when no task owns it. *)
Lemma find_task_by_program_addr_ok w others addr :
  exec_inv w others →
  Forall (λ p, sizes_ok (task_blocks p.2)) (allocs_of w) →
  match find_task_by_program_addr w addr with
  | Some t =>
      ∃ al, bt_get (allocs_of w) t = Some al ∧ in_blocks (task_blocks al) addr ∧
        ∀ t' al', t' ≠ t → bt_get (allocs_of w) t' = Some al' → ¬ in_blocks (task_blocks al') addr
  | None => ∀ t al, bt_get (allocs_of w) t = Some al → ¬ in_blocks (task_blocks al) addr
  end.
Proof.
  intros Hexec Hok. pose proof Hexec as (Hi & Hs & Hinv).
  unfold find_task_by_program_addr. rewrite Hi. cbn. fold (allocs_of w).
  assert (Howns : Forall (λ p, owns p.2 addr = true ↔ in_blocks (task_blocks p.2) addr)
                    (allocs_of w)).
  { apply Forall_forall. intros [t al] Hin. apply owns_spec. by eapply blocks_in_range. }
  pose proof (find_owner_spec (allocs_of w) addr Howns) as Hf.
  destruct (find_owner (allocs_of w) addr) as [t|]; [|intros t al Hin%bt_get_elem; eauto].
  destruct Hf as (al & Hin & Hb). exists al.
  pose proof (bt_elem_get _ _ _ Hs Hin) as Hg. split_and!; [done..|].
  intros t' al' Hne Hg' Hb'. pose proof (bt_get_elem _ _ _ Hg') as Hin'.
  rewrite Forall_forall in Hok.
  exact (owners_disjoint w others t al t' al' addr Hexec Hg Hg' (Hok _ Hin) (Hok _ Hin') Hne Hb Hb').
Qed.

(** What loading relies on: the file found under a name lies outside the program
    region and is well formed. *)
Definition file_ok w (wanted : list Z) : Prop :=
  exec_count (inner (cell w)) ≤ MAX_EXECUTABLES ∧
  ∀ addr size, find_executable (cell w) (memory w) wanted = Ret (Ok (addr, size)) →
    0 ≤ addr ∧ addr + size < 18446744073709551616 ∧ (addr + size ≤ ra_start ∨ ra_end ≤ addr) ∧
    ∀ elf low n, parse (memory w) (mkSlice addr size) = Ok elf →
      memory_requirements (memory w) elf = Ok (low, n) →
      elf_wf (memory w) elf ∧ 0 < n < 9223372036854775808.

Lemma find_entry_Ret m addr n i wanted :
  i + Z.of_nat n ≤ MAX_EXECUTABLES → ∃ r, find_entry m addr i n wanted = Ret r.
Proof.
  revert i. induction n as [|n IH]; intros i Hi; cbn [find_entry]; [eauto|].
  destruct (entry_at_Ret m addr i) as [e ->]; [lia|]. cbn.
  case_bool; [eauto|]. apply IH. lia.
Qed.

Lemma find_executable_Ret w wanted :
  initialized (cell w) = true → exec_count (inner (cell w)) ≤ MAX_EXECUTABLES →
  ∃ r, find_executable (cell w) (memory w) wanted = Ret r.
Proof.
  intros Hi Hc. unfold find_executable, registry_with. rewrite Hi. cbn [rust_assert mbind outcome_bind].
  case_bool; [eauto|].
  destruct (find_entry_Ret (memory w) (table_addr (inner (cell w))) (Z.to_nat (exec_count (inner (cell w)))) 0 wanted)
    as [[p|] ->]; [unfold MAX_EXECUTABLES in *; lia|cbn; eauto..].
Qed.

(** The program in memory: the image of the file, at the block allocated for it. *)
Definition program_image w w' (wanted : list Z) (p : LoadedProgram) : Prop :=
  ∃ addr size elf low, find_executable (cell w) (memory w) wanted = Ret (Ok (addr, size)) ∧
    parse (memory w) (mkSlice addr size) = Ok elf ∧
    memory_requirements (memory w) elf = Ok (low, lp_size p) ∧
    entry p = u64 (base_addr p + u64 (entry_offset (memory w) elf - low)) ∧
    ∀ x, 0 ≤ x < 18446744073709551616 →
      memory w' x = if (base_addr p <=? x) && (x <? base_addr p + lp_size p)
             then default (memory w x) (image_byte (memory w) addr (loadable_segments (memory w) elf) (x - base_addr p + low))
             else memory w x.

(** Loading a program reserves a block and leaves the image in it, or changes nothing. *)
Lemma exec_load_ok w others wanted :
  exec_inv w others → ram_ok (memory w) → file_ok w wanted →
  ∃ w' r, exec_load w wanted = Ret (w', r) ∧ cell w' = cell w ∧
    match r with
    | Ok p => lp_name p = wanted ∧ exec_inv w' ((base_addr p, ra_rounded (lp_size p)) :: others) ∧
        0 < lp_size p ≤ ra_rounded (lp_size p) ∧ program_image w w' wanted p
    | Err _ => exec_inv w' others ∧ memory w' = memory w
    end.
Proof.
  intros Hinv Hm [Hc Hf]. pose proof Hinv as (Hi & Hs & Hr). unfold exec_load. rewrite Hi. cbn [negb].
  destruct (find_executable_Ret w wanted Hi Hc) as [[[addr size]|e] Hfe]; rewrite Hfe; rewrite mbind_Ret; [|by eexists _, _].
  destruct (Hf addr size Hfe) as (Ha & Hsz & Hout & Hok).
  destruct (parse _ _) as [elf|e] eqn:Hp; [|by eexists _, _].
  destruct (memory_requirements _ _) as [[low n]|e] eqn:Hq; [|by eexists _, _].
  destruct (Hok elf low n eq_refl Hq) as [Hwf Hn]. pose proof (ra_rounded_ge n Hn) as Hge.
  destruct (ra_allocate_ok (region w) _ n Hr) as (s' & r & -> & Hr'). rewrite mbind_Ret.
  destruct r as [base|]; [|subst; eexists _, _; split; [done|]; split; [done|]; split; [by split_and!|done]].
  destruct Hr' as [Hinv' _].
  destruct (ra_live_pos _ _ base (ra_rounded n) Hinv') as (? & ? & ? & _); [apply elem_of_cons; by left|].
  destruct (ra_live_in _ _ base (ra_rounded n) Hinv') as [? ?]; [apply elem_of_cons; by left|].
  destruct (load_elf_ok (memory w) (mkSlice addr size) base elf low n) as (m' & -> & Himg & _);
    [done..|cbn; lia|cbn; lia|lia|lia|cbn; lia|]. rewrite mbind_Ret.
  eexists _, _. split; [done|]. split; [done|]. split; [done|]. split; [|split; [cbn; lia|]].
  - split_and!; [done|done|]. eapply ra_inv_perm; [|exact Hinv']. cbn. unfold allocs_of. cbn. solve_Permutation.
  - by exists addr, size, elf, low.
Qed.

(** At boot [init] always succeeds: it resets the program region and
    registers the first valid table at a 4-byte aligned address of the search
    range, or no table if there is none. *)
Lemma exec_init_spec w :
  ram_ok (memory w) → initialized (cell w) = false → allocs_of w = [] →
  ∃ w' n, exec_init w = Ret (w', n) ∧ exec_inv w' [] ∧
    exec_count (inner (cell w')) = n ∧ 0 ≤ n ≤ MAX_EXECUTABLES ∧
    let first := table_addr (inner (cell w')) in
    (∀ b, search_start ≤ b < (if first =? 0 then search_end - 4 else first) →
       b mod 4 = 0 → ¬ table_at (memory w) b) ∧
    (first = 0 ∧ n = 0 ∨ table_at (memory w) first ∧ n = peek_u32 (memory w) (first + 8) ∧
       search_start ≤ first ∧ first mod 4 = 0).
Proof.
  intros Hm Hi Ha. unfold exec_init.
  destruct (search_table_spec (memory w) (Z.to_nat 0x40000) search_start Hm) as (r & Hr & HP).
  { rewrite Z2Nat.id by lia. done. }
  unfold search_fuel. rewrite Hr. cbn [mbind outcome_bind].
  assert (Hmod : ∀ b, b mod 4 = 0 → (b - search_start) mod 4 = 0).
  { intros b Hb. rewrite Zminus_mod, Hb. done. }
  assert (Hinv : ∀ a n, exec_inv (mkExec (mkRegistryCell (mkExecRegistry a n (allocs_of w)) true)
                            (ra_init (region w)) (memory w)) []).
  { intros a n. rewrite Ha. split_and!; [done|constructor|apply ra_init_ok]. }
  unfold RegistryCell_init. rewrite Hi. destruct r as [a|]; cbn [mbind outcome_bind].
  - destruct HP as (Hat & Hra & Hmod4 & Hfirst). eexists _, _. split; [done|].
    split; [apply Hinv|]. cbn. split; [done|].
    rewrite (proj2 (Z.eqb_neq a 0)) by (unfold search_start in *; lia).
    assert (a mod 4 = 0) as Ha4.
    { replace a with (a - search_start + search_start) by lia. by rewrite Z.add_mod, Hmod4 by lia. }
    split_and!; [apply peek_u32_range, Hm| | |right; split_and!; done || lia].
    + destruct Hat as [_ Hv]. unfold validate_table in Hv.
      destruct (MAX_EXECUTABLES <? peek_u32 (memory w) (a + 8)) eqn:E; [|blia].
      by repeat case_bool.
    + intros b Hb Hb4. apply Hfirst; [lia|by apply Hmod].
  - eexists _, _. split; [done|]. split; [apply Hinv|]. cbn.
    split_and!; [done..| |by left]. intros b Hb Hb4. apply HP; [lia|by apply Hmod].
Qed.
End properties.

(** A concrete kernel state: task 1 registered with a stack at the start of the
    program region. *)
Definition demo_state (s : ProgramAlloc.ProgramAllocator) : exec_state ProgramAlloc.ProgramAllocator :=
  mkExec (mkRegistryCell (mkExecRegistry 0 0
            [(1, TaskAllocations_new ProgramAlloc.PROGRAM_REGION_START 5000)]) true) s (λ _, 0).

Lemma demo_state_inv : ∃ s, exec_inv (demo_state s) [].
Proof.
  destruct (ProgramAlloc.one_block_reachable 16) as [s Hs]; [by left|]. exists s.
  split_and!; [done|by repeat constructor|].
  apply ProgramAlloc.reachable_inv; [by left|exact Hs].
Qed.

Lemma unload_task_spec_witness :
  ∃ s w', unload_task (demo_state s) 1 = Ret w' ∧ bt_get (allocs_of w') 1 = None.
Proof.
  destruct demo_state_inv as [s Hs].
  destruct (unload_task_spec (demo_state s) [] 1 Hs) as (w' & H1 & _ & H2 & _).
  exists s, w'. split; [exact H1|]. rewrite H2. reflexivity.
Defined.

