(* ===== verification/Allocator.v ===== *)
(** The kernel heap ([src/allocator.rs]): a first-fit linked-list allocator
    whose blocks carry a header with the owning task, the interrupt-disabling
    spinlock around it, and the queries that walk the heap. *)

From S2P Require Import Prelude FreeList Tiling Spinlock.

Definition ALIGNMENT : Z := 8.
Definition HEADER_MAGIC : Z := 0x48504C52.
Definition KERNEL_TASK_ID_SENTINEL : Z := u32_max.
Definition HEADER_SIZE : Z := 16.

(** [encode_task_id] and [decode_task_id] *)
Definition encode_task_id (task_id : option Z) : Z :=
  match task_id with None => KERNEL_TASK_ID_SENTINEL | Some id => id end.
Definition decode_task_id (raw : Z) : option Z :=
  if raw =? KERNEL_TASK_ID_SENTINEL then None else Some raw.

(** [get_current_task_id]: the scheduler's current task once it is ready. *)
Definition get_current_task_id (scheduler_ready : bool) (current : option Z) : option Z :=
  if scheduler_ready then current else None.

(** [struct AllocationHeader]: the 32-bit magic and task id share the first
    word, the block size is the second. *)
Definition hdr_magic (m : gmap Z Z) (a : Z) : Z := load m a mod 4294967296.
Definition hdr_task_id (m : gmap Z Z) (a : Z) : Z := load m a / 4294967296.
Definition hdr_block_size (m : gmap Z Z) (a : Z) : Z := load m (a + 8).
Definition write_header (m : gmap Z Z) (a task_id block_size : Z) : gmap Z Z :=
  store (store m a (HEADER_MAGIC + 4294967296 * task_id)) (a + 8) block_size.

(** [struct LinkedListAllocator], with the memory and the visualiser log *)
Record LinkedListAllocator : Type := mkHeap {
  mem : gmap Z Z;
  head : option Z;
  heap_start : Z;
  heap_end : Z;
  vis : list vis_event;
}.

(** [LinkedListAllocator::new] and [init] *)
Definition new (m : gmap Z Z) : LinkedListAllocator := mkHeap m None 0 0 [].
Definition init (self : LinkedListAllocator) (start size : Z) : outcome LinkedListAllocator :=
  _ ← rust_assert (start mod ALIGNMENT =? 0);
  _ ← rust_assert (size mod ALIGNMENT =? 0);
  Ret (mkHeap (node_new (mem self) start size) (Some start) start (u64 (start + size))
         (vis self)).

(** One unit of fuel per block that fits in the heap. *)
Definition fuel (self : LinkedListAllocator) : nat :=
  list_fuel (heap_end self - heap_start self).

(** The bytes a request takes: header, payload and padding. *)
Definition total_size (size : Z) : Z :=
  let user_size := Z.max size 1 in
  Z.max (align_up (u64 (HEADER_SIZE + user_size)) ALIGNMENT) MIN_BLOCK_SIZE.

(** [LinkedListAllocator::add_free_block] and [merge_free_blocks] *)
Definition add_free_block (self : LinkedListAllocator) (m : gmap Z Z) (h : option Z)
    (new_addr : Z) : outcome (gmap Z Z * option Z) :=
  add_free (fuel self) m h new_addr.
Definition merge_free_blocks (self : LinkedListAllocator) (m : gmap Z Z) (h : option Z) :
    outcome (gmap Z Z) :=
  merge_free (fuel self) m h.

(** The first-fit loop of [allocate]; the result is the user address or 0. *)
Fixpoint allocate_loop (n : nat) (self : LinkedListAllocator) (current_task : option Z)
    (total : Z) (prev current : option Z) : outcome (LinkedListAllocator * Z) :=
  match n with
  | O => Diverge
  | S n =>
      match current with
      | None => Ret (self, 0)
      | Some block_start =>
          let block_size := node_size (mem self) block_start in
          if total <=? block_size then
            let next := node_next (mem self) block_start in
            let '(m1, h1) := set_link (mem self) (head self) prev next in
            let '(alloc_block_size, remaining) :=
              if MIN_BLOCK_SIZE <=? block_size - total
              then (total, block_size - total) else (block_size, 0) in
            let used_end := u64 (block_start + alloc_block_size) in
            '(m2, h2) ← (if MIN_BLOCK_SIZE <=? remaining
                         then add_free_block self (node_new m1 used_end remaining) h1 used_end
                         else Ret (m1, h1));
            let m3 := write_header m2 block_start (encode_task_id current_task)
                        alloc_block_size in
            Ret (mkHeap m3 h2 (heap_start self) (heap_end self)
                   (vis self ++ [OnAlloc block_start alloc_block_size]),
                 align_up (u64 (block_start + HEADER_SIZE)) ALIGNMENT)
          else allocate_loop n self current_task total current
                 (node_next (mem self) block_start)
      end
  end.

(** [LinkedListAllocator::allocate] *)
Definition allocate (self : LinkedListAllocator) (current_task : option Z) (size align : Z) :
    outcome (LinkedListAllocator * Z) :=
  _ ← rust_assert (align <=? ALIGNMENT);
  allocate_loop (fuel self) self current_task (total_size size) None (head self).

(** [LinkedListAllocator::deallocate] *)
Definition deallocate (self : LinkedListAllocator) (ptr : Z) : outcome LinkedListAllocator :=
  let block_start := u64 (ptr - HEADER_SIZE) in
  if negb (hdr_magic (mem self) block_start =? HEADER_MAGIC) then Panic
  else
    let block_size := hdr_block_size (mem self) block_start in
    let m1 := node_new (mem self) block_start (Z.max block_size MIN_BLOCK_SIZE) in
    '(m2, h) ← add_free_block self m1 (head self) block_start;
    m3 ← merge_free_blocks self m2 h;
    Ret (mkHeap m3 h (heap_start self) (heap_end self)
           (vis self ++ [OnDealloc block_start block_size])).

(** ** The global allocator *)

(** [LockedAllocator::alloc] and [dealloc] *)
Definition global_alloc (a : Spinlock LinkedListAllocator) (interrupts : bool)
    (current_task : option Z) (size align : Z) :
    outcome (Spinlock LinkedListAllocator * bool * Z) :=
  with_lock a interrupts (λ self, allocate self current_task size align).
Definition global_dealloc (a : Spinlock LinkedListAllocator) (interrupts : bool) (ptr : Z) :
    outcome (Spinlock LinkedListAllocator * bool * unit) :=
  with_lock a interrupts (λ self, self' ← deallocate self ptr; Ret (self', tt)).

(** ** Queries *)

(** [get_heap_stats]: (used bytes, free bytes) *)
Definition get_heap_stats (self : LinkedListAllocator) : outcome (Z * Z) :=
  free ← sum_free (fuel self) (mem self) 0 (head self);
  let total := u64 (heap_end self - heap_start self) in
  Ret (u64 (total - free), free).

(** The inner loop of every query: the size of the free block at [cursor]. *)
Fixpoint free_size_at (n : nat) (m : gmap Z Z) (cursor : Z) (current : option Z) :
    outcome (option Z) :=
  match n with
  | O => Diverge
  | S n =>
      match current with
      | None => Ret None
      | Some block_start =>
          if block_start =? cursor then Ret (Some (node_size m block_start))
          else free_size_at n m cursor (node_next m block_start)
      end
  end.

(** A query's action on a block: go on with a new accumulator, or answer. *)
Inductive visit_result (A R : Type) : Type :=
| Continue (acc : A)
| Return (r : R).
Arguments Continue {A R} acc.
Arguments Return {A R} r.

(** The walk shared by the queries: from [cursor], block by block.  [on_free]
    and [on_used] get the block's bounds ([on_used] its task id as well);
    [finish] answers at the end of the heap and at a corrupt header. *)
Fixpoint walk {A R} (n : nat) (self : LinkedListAllocator)
    (on_free : A → Z → Z → visit_result A R) (on_used : A → Z → Z → Z → visit_result A R)
    (finish : A → R) (acc : A) (cursor : Z) : outcome R :=
  match n with
  | O => Diverge
  | S n =>
      if cursor <? heap_end self then
        fs ← free_size_at (fuel self) (mem self) cursor (head self);
        match fs with
        | Some size =>
            let e := u64 (cursor + size) in
            match on_free acc cursor e with
            | Continue acc => walk n self on_free on_used finish acc e
            | Return r => Ret r
            end
        | None =>
            if negb (hdr_magic (mem self) cursor =? HEADER_MAGIC) then Ret (finish acc)
            else
              let block_size := hdr_block_size (mem self) cursor in
              if (block_size <? MIN_BLOCK_SIZE) || negb (block_size mod ALIGNMENT =? 0)
              then Ret (finish acc)
              else
                let e := sat_add u64_max cursor block_size in
                if heap_end self <? e then Ret (finish acc)
                else
                  match on_used acc cursor e (hdr_task_id (mem self) cursor) with
                  | Continue acc => walk n self on_free on_used finish acc e
                  | Return r => Ret r
                  end
        end
      else Ret (finish acc)
  end.

Definition outside_heap (self : LinkedListAllocator) (addr : Z) : bool :=
  (addr <? heap_start self) || (heap_end self <=? addr).
Definition inside (addr lo hi : Z) : bool := (lo <=? addr) && (addr <? hi).

(** [find_allocation] *)
Definition find_allocation (self : LinkedListAllocator) (addr : Z) : outcome (option (Z * Z)) :=
  if outside_heap self addr then Ret None
  else walk (fuel self) self
    (λ (_ : unit) lo hi, if inside addr lo hi then Return None else Continue tt)
    (λ _ lo hi _, if inside addr lo hi then Return (Some (lo, hi)) else Continue tt)
    (λ _, None) tt (heap_start self).

(** [find_free_region] *)
Definition find_free_region (self : LinkedListAllocator) (addr : Z) : outcome (option (Z * Z)) :=
  if outside_heap self addr then Ret None
  else walk (fuel self) self
    (λ (_ : unit) lo hi, if inside addr lo hi then Return (Some (lo, hi)) else Continue tt)
    (λ _ _ _ _, Continue tt)
    (λ _, None) tt (heap_start self).

(** [find_allocation_owner] *)
Definition find_allocation_owner (self : LinkedListAllocator) (addr : Z) :
    outcome (option (option Z)) :=
  if outside_heap self addr then Ret None
  else walk (fuel self) self
    (λ (_ : unit) lo hi, if inside addr lo hi then Return None else Continue tt)
    (λ _ lo hi t, if inside addr lo hi then Return (Some (decode_task_id t)) else Continue tt)
    (λ _, None) tt (heap_start self).

Definition MAX_TASKS : nat := 8.

(** The update of [task_bytes] in [find_majority_owner]. *)
Fixpoint add_bytes (l : list (option Z * Z)) (t : option Z) (n : Z) : option (list (option Z * Z)) :=
  match l with
  | [] => None
  | (t', b) :: l =>
      if bool_decide (t' = t) then Some ((t', u64 (b + n)) :: l)
      else match add_bytes l t n with
           | Some l' => Some ((t', b) :: l')
           | None => None
           end
  end.
Definition count_bytes (l : list (option Z * Z)) (t : option Z) (n : Z) : list (option Z * Z) :=
  match add_bytes l t n with
  | Some l' => l'
  | None => if (length l <? MAX_TASKS)%nat then l ++ [(t, n)] else l
  end.
(** The final loop of [find_majority_owner]. *)
Definition best_of (l : list (option Z * Z)) : option (option Z * Z) :=
  foldl (λ best p,
    if 0 <? p.2 then
      match best with
      | None => Some p
      | Some (_, b) => if b <? p.2 then Some p else best
      end
    else best) None l.

(** [find_majority_owner] *)
Definition find_majority_owner (self : LinkedListAllocator) (range_start range_end : Z) :
    outcome (option (option Z * Z)) :=
  if (heap_end self <=? range_start) || (range_end <=? heap_start self) then Ret None
  else
    task_bytes ← walk (fuel self) self
      (λ acc _ _, Continue acc)
      (λ acc lo hi t,
        if (range_start <? hi) && (lo <? range_end) then
          let overlap_bytes := u64 (Z.min hi range_end - Z.max lo range_start) in
          Continue (if 0 <? overlap_bytes
                    then count_bytes acc (decode_task_id t) overlap_bytes else acc)
        else Continue acc)
      (λ acc, acc) [] (heap_start self);
    Ret (best_of task_bytes).

(** [snapshot_task_heap_allocations] into a buffer of [len] entries *)
Definition snapshot_task_heap_allocations (self : LinkedListAllocator) (task_id : option Z)
    (len : nat) : outcome (list (Z * Z)) :=
  let want := encode_task_id task_id in
  walk (fuel self) self
    (λ acc _ _, Continue acc)
    (λ acc lo hi t,
      if t =? want then
        if (len <=? length acc)%nat then Return acc else Continue (acc ++ [(lo, hdr_block_size (mem self) lo)])
      else Continue acc)
    (λ acc, acc) [] (heap_start self).

Definition MAX_SNAPSHOT_ALLOCS : nat := 256.
(** [get_task_heap_allocations] *)
Definition get_task_heap_allocations (self : LinkedListAllocator) (task_id : option Z) :
    outcome (list (Z * Z)) :=
  snapshot_task_heap_allocations self task_id MAX_SNAPSHOT_ALLOCS.

(** ** Refinement of the allocation loop *)
Lemma agree_write_header m a t s :
  agree_outside (λ w, w = a ∨ w = a + 8) m (write_header m a t s).
Proof. intros w Hw. unfold write_header. rewrite !load_store_ne by naive_solver. done. Qed.

Lemma write_header_words m a t s :
  load (write_header m a t s) a = HEADER_MAGIC + 4294967296 * t ∧
  load (write_header m a t s) (a + 8) = s.
Proof.
  unfold write_header. rewrite load_store_eq. split; [|done].
  rewrite load_store_ne by lia. apply load_store_eq.
Qed.

(** Unlinking the block [(a, s)] and putting its tail, if there is one, back. *)
Lemma carve_spec fuel m head l1 a s l2 total lo hi :
  0 < lo → hi < 18446744073709551616 → MIN_BLOCK_SIZE ≤ total ≤ s →
  lseg m head l1 (Some a) → lseg m (node_next m a) l2 None →
  blocks lo hi (l1 ++ (a, s) :: l2) → fuel = list_fuel (hi - lo) →
  let next := node_next m a in
  let '(m1, h1) := set_link m head (fst <$> last l1) next in
  let '(asz, remaining) :=
    if MIN_BLOCK_SIZE <=? s - total then (total, s - total) else (s, 0) in
  ∃ m2 h2,
    (if MIN_BLOCK_SIZE <=? remaining
     then add_free fuel (node_new m1 (u64 (a + asz)) remaining) h1 (u64 (a + asz))
     else Ret (m1, h1)) = Ret (m2, h2) ∧
    lseg m2 h2 (l1 ++ (if MIN_BLOCK_SIZE <=? s - total then [(a + total, s - total)] else []) ++ l2)
      None ∧
    agree_outside (in_blocks (l1 ++ (a, s) :: l2)) m m2.
Proof.
  intros Hlo Hhi Htot H1 H2 Hb ->. apply blocks_app in Hb as (mid & Hb1 & Hb2).
  cbn in Hb2. destruct Hb2 as (Hmid & Hs & Hb2).
  pose proof (blocks_le _ _ _ Hb1). pose proof (blocks_le _ _ _ Hb2).
  unfold MIN_BLOCK_SIZE in *.
  assert (Hd1 : ∀ w, node_words l1 w → w < a).
  { intros w Hw%(blocks_node_words _ _ _ _ Hb1). lia. }
  assert (Hd2 : ∀ w, node_words l2 w → a + s ≤ w).
  { intros w Hw%(blocks_node_words _ _ _ _ Hb2). lia. }
  assert (Hin : ∀ w, node_words l1 w ∨ node_words l2 w ∨ a ≤ w < a + s →
                in_blocks (l1 ++ (a, s) :: l2) w).
  { intros w Hw. apply in_blocks_app.
    destruct Hw as [Hw|[Hw|Hw]]; [left; by eapply node_words_in_blocks|right..].
    - eapply node_words_in_blocks in Hw as (b & t & ? & ?); [|done].
      exists b, t. split; [by apply elem_of_cons; right|done].
    - by apply in_blocks_here. }
  destruct (set_link_spec m head l1 (Some a) (node_next m a) lo mid)
    as (m1 & h1 & -> & Hl1 & Hag1); [done..| |].
  { intros x Hx. by eapply lseg_head_pos. }
  assert (Hl12 : lseg m1 h1 (l1 ++ l2) None).
  { apply lseg_app. eexists. split; [done|].
    eapply lseg_frame; [exact Hag1|intros w ?%Hd2 ?%Hd1; lia|done]. }
  destruct (16 <=? s - total) eqn:E; bool_to_prop; cbn [app].
  2:{ exists m1, h1. split; [done|]. split; [done|].
      eapply agree_outside_weaken; [|exact Hag1]. auto. }
  rewrite (proj2 (Z.leb_le 16 (s - total))), u64_small by lia.
  set (m1' := node_new m1 (a + total) (s - total)).
  assert (Hag1' : agree_outside (λ w, w = a + total ∨ w = a + total + 8) m1 m1')
    by apply agree_node_new.
  assert (Hins : fl_insert (a + total) (s - total) (l1 ++ l2) = l1 ++ (a + total, s - total) :: l2).
  { apply fl_insert_app; apply Forall_forall; intros [b t] Hbt; cbn.
    - apply (blocks_elem _ _ _ _ _ Hb1) in Hbt. unfold MIN_BLOCK_SIZE in *. lia.
    - apply (blocks_elem _ _ _ _ _ Hb2) in Hbt. lia. }
  assert (Hbi : blocks lo hi (l1 ++ (a + total, s - total) :: l2)).
  { apply blocks_app. exists mid. split; [done|]. cbn. unfold MIN_BLOCK_SIZE.
    split_and!; [lia..|]. by replace (a + total + (s - total)) with (a + s) by lia. }
  destruct (add_free_spec (list_fuel (hi - lo)) m1' h1 (l1 ++ l2) (a + total) (s - total) lo hi)
    as (m2 & h2 & Hadd & Hl2 & Hag2); [done| |by rewrite Hins|apply node_size_node_new| |].
  { eapply lseg_frame; [exact Hag1'| |done]. intros w [?%Hd1|?%Hd2]%node_words_app Hw; cbn in Hw; lia. }
  { apply blocks_fuel in Hbi. rewrite length_app in *. cbn in Hbi. lia. }
  rewrite Hins in *. exists m2, h2. split; [done|]. split; [done|].
  eapply agree_outside_trans; [|eapply agree_outside_trans].
  - eapply agree_outside_weaken; [|exact Hag1]. auto.
  - eapply agree_outside_weaken; [|exact Hag1']. intros w Hw. cbn in Hw. apply Hin. lia.
  - eapply agree_outside_weaken; [|exact Hag2].
    intros w [?|[->|[->|?]]%node_words_cons]%node_words_app; apply Hin; auto; lia.
Qed.

Lemma heap_allocate_loop_spec n self ct total l1 cur l2 :
  0 < heap_start self → heap_end self < 18446744073709551616 → MIN_BLOCK_SIZE ≤ total →
  lseg (mem self) (head self) l1 cur → lseg (mem self) cur l2 None →
  blocks (heap_start self) (heap_end self) (l1 ++ l2) → (length l2 < n)%nat →
  match fl_alloc total l2 with
  | None => allocate_loop n self ct total (fst <$> last l1) cur = Ret (self, 0)
  | Some (a, l2') =>
      ∃ s m' h', (a, s) ∈ l2 ∧
        let asz := if MIN_BLOCK_SIZE <=? s - total then total else s in
        allocate_loop n self ct total (fst <$> last l1) cur =
          Ret (mkHeap m' h' (heap_start self) (heap_end self) (vis self ++ [OnAlloc a asz]),
               align_up (u64 (a + HEADER_SIZE)) ALIGNMENT) ∧
        lseg m' h' (l1 ++ l2') None ∧
        load m' a = HEADER_MAGIC + 4294967296 * encode_task_id ct ∧ load m' (a + 8) = asz ∧
        agree_outside (in_blocks (l1 ++ l2)) (mem self) m'
  end.
Proof.
  intros Hlo Hhi Htot. revert n l1 cur.
  induction l2 as [|[a s] l2 IH]; intros n l1 cur H1 H2 Hb Hn;
    (destruct n as [|n]; [cbn in Hn; lia|]).
  { cbn in *. by subst. }
  destruct H2 as (-> & Ha & Hs & H2). cbn [allocate_loop fl_alloc]. rewrite Hs.
  destruct (total <=? s) eqn:Hfit; bool_to_prop.
  2:{ specialize (IH n (l1 ++ [(a, s)]) (node_next (mem self) a)).
      rewrite last_snoc, <- app_assoc in IH. cbn [app fmap option_fmap] in IH.
      assert (lseg (mem self) (head self) (l1 ++ [(a, s)]) (node_next (mem self) a)) as Hl'.
      { apply lseg_app. exists (Some a). cbn. auto. }
      specialize (IH Hl' H2 Hb ltac:(cbn in Hn; lia)).
      destruct (fl_alloc total l2) as [[r l']|]; [|done].
      destruct IH as (t & m' & h' & Hin & IH). exists t, m', h'.
      split; [by apply elem_of_cons; right|]. by rewrite <- app_assoc in IH. }
  pose proof (carve_spec (fuel self) (mem self) (head self) l1 a s l2 total
                (heap_start self) (heap_end self) Hlo Hhi ltac:(done) H1 H2 Hb eq_refl) as Hcarve.
  cbn zeta in Hcarve. unfold add_free_block. destruct (set_link _ _ _ _) as [m1 h1].
  assert (Hasz : (if MIN_BLOCK_SIZE <=? s - total then (total, s - total) else (s, 0)) =
    (if MIN_BLOCK_SIZE <=? s - total then total else s,
     if MIN_BLOCK_SIZE <=? s - total then s - total else 0)) by (by case_bool).
  rewrite Hasz in *. destruct Hcarve as (m2 & h2 & -> & Hl2 & Hag2). cbn [mbind outcome_bind].
  exists s, (write_header m2 a (encode_task_id ct) (if MIN_BLOCK_SIZE <=? s - total then total else s)), h2.
  destruct (write_header_words m2 a (encode_task_id ct)
              (if MIN_BLOCK_SIZE <=? s - total then total else s)) as [-> ->].
  split; [apply elem_of_cons; by left|]. split_and!; [done| |done|done|].
  - eapply lseg_frame; [apply agree_write_header| |].
    2:{ destruct (MIN_BLOCK_SIZE <=? s - total); exact Hl2. }
    intros w Hw Hwa. cbn in Hwa. apply blocks_app in Hb as (mid & Hb1 & Hb2). cbn in Hb2.
    destruct Hb2 as (? & ? & Hb2). unfold MIN_BLOCK_SIZE in *.
    apply node_words_app in Hw as [Hw|Hw].
    + apply (blocks_node_words _ _ _ _ Hb1) in Hw. lia.
    + assert (node_words l2 w → False) as Hno.
      { intros Hw'%(blocks_node_words _ _ _ _ Hb2). lia. }
      destruct (16 <=? s - total); [apply node_words_cons in Hw as [?|[?|?]]|]; auto; lia.
  - eapply agree_outside_trans; [exact Hag2|].
    eapply agree_outside_weaken; [|apply agree_write_header].
    intros w Hw. cbn in Hw. apply in_blocks_app. right. apply in_blocks_here.
    unfold MIN_BLOCK_SIZE in *. lia.
Qed.

(** ** Invariant

    [used] lists the allocated blocks as (start, size, raw task id). *)
Definition header_ok (m : gmap Z Z) (b : Z * Z * Z) : Prop :=
  let '(a, s, t) := b in
  load m a = HEADER_MAGIC + 4294967296 * t ∧ load m (a + 8) = s ∧ 0 ≤ t < 4294967296.

Definition heap_tiling (self : LinkedListAllocator) (used : list (Z * Z * Z))
    (ts : list (tile Z)) : Prop :=
  0 < heap_start self ∧ heap_start self mod 8 = 0 ∧ heap_end self < 18446744073709551616 ∧
  tiles 8 (heap_start self) (heap_end self) ts ∧ coalesced ts ∧
  lseg (mem self) (head self) (frees ts) None ∧
  useds ts ≡ₚ used ∧ Forall (header_ok (mem self)) used.
Definition heap_inv (self : LinkedListAllocator) (used : list (Z * Z * Z)) : Prop :=
  ∃ ts, heap_tiling self used ts.

(** The words of the allocated blocks are unchanged. *)
Definition used_same (used : list (Z * Z * Z)) (m m' : gmap Z Z) : Prop :=
  ∀ w, in_blocks used.*1 w → load m' w = load m w.

Lemma used_same_frees self used ts m' :
  heap_tiling self used ts → agree_outside (in_blocks (frees ts)) (mem self) m' →
  used_same used (mem self) m'.
Proof.
  intros (_ & _ & _ & Ht & _ & _ & Hp & _) Hag w (a & s & Hin & Hw). apply Hag. intros Hf.
  eapply tiles_free_used; [done..|]. exists a, s. by rewrite Hp.
Qed.

Lemma header_ok_same m m' used :
  used_same used m m' → (∀ b, b ∈ used → 16 ≤ b.1.2) →
  Forall (header_ok m) used → Forall (header_ok m') used.
Proof.
  intros Hsame Hsz. rewrite !Forall_forall. intros H [[a s] t] Hin.
  destruct (H _ Hin) as (? & ? & ?). specialize (Hsz _ Hin). cbn in Hsz.
  assert (Hl : ∀ w, a ≤ w < a + s → load m' w = load m w).
  { intros w Hw. apply Hsame. exists a, s. split; [|done].
    apply list_elem_of_fmap. by exists (a, s, t). }
  unfold header_ok. by rewrite !Hl by lia.
Qed.

Lemma heap_tiling_used self used ts a s t :
  heap_tiling self used ts → (a, s, t) ∈ used →
  heap_start self ≤ a ∧ 16 ≤ s ∧ a + s ≤ heap_end self ∧
  ∃ ts1 ts2, ts = ts1 ++ Tile a s (Some t) :: ts2.
Proof.
  intros (_ & _ & _ & Ht & _ & _ & Hp & _) Hin. rewrite <- Hp in Hin.
  assert (Hin' : (a, s) ∈ (useds ts).*1) by (apply list_elem_of_fmap; by exists (a, s, t)).
  pose proof (tiles_useds _ _ _ _ Ht) as Hb.
  destruct (blocks_elem _ _ _ _ _ Hb Hin') as (? & ? & ?). split_and!; [done..|].
  destruct (used_tile ts a s Hin') as (ts1 & x & ts2 & ->). exists ts1, ts2.
  rewrite useds_app, useds_cons in Hin, Hb. cbn [tl_use tl_addr tl_size] in Hin, Hb.
  assert (x = t) as ->; [|done].
  rewrite fmap_app in Hb. apply blocks_app in Hb as (mid & Hb1 & Hb2). cbn in Hb2.
  destruct Hb2 as (? & ? & Hb2). unfold MIN_BLOCK_SIZE in *.
  rewrite elem_of_app, elem_of_cons in Hin. destruct Hin as [Hin|[[= ->]|Hin]]; [|done|].
  - assert ((a, s) ∈ (useds ts1).*1) as H' by (apply list_elem_of_fmap; by exists (a, s, t)).
    apply (blocks_elem _ _ _ _ _ Hb1) in H'. unfold MIN_BLOCK_SIZE in *. lia.
  - assert ((a, s) ∈ (useds ts2).*1) as H' by (apply list_elem_of_fmap; by exists (a, s, t)).
    apply (blocks_elem _ _ _ _ _ Hb2) in H'. lia.
Qed.

Lemma align_up_8 a : 0 ≤ a → a + 7 < 18446744073709551616 →
  align_up a ALIGNMENT = (a + 7) / 8 * 8.
Proof.
  intros. unfold ALIGNMENT. change 8 with (2 ^ 3) at 1. rewrite align_up_spec by lia.
  change (2 ^ 3) with 8. by replace (a + 8 - 1) with (a + 7) by lia.
Qed.

Lemma align_up_8_id a : 0 ≤ a → a + 7 < 18446744073709551616 → a mod 8 = 0 →
  align_up a ALIGNMENT = a.
Proof.
  intros ? ? Hm. rewrite align_up_8 by lia. apply Z.mod_divide in Hm as [k ->]; [|lia].
  rewrite Z.add_comm, Z.div_add by lia. change (7 / 8) with 0. lia.
Qed.

Lemma total_size_spec size :
  0 ≤ size < 9223372036854775808 →
  total_size size mod 8 = 0 ∧ HEADER_SIZE + Z.max size 1 ≤ total_size size ≤ size + 24 ∧
  MIN_BLOCK_SIZE ≤ total_size size.
Proof.
  intros Hs. unfold total_size, HEADER_SIZE, MIN_BLOCK_SIZE.
  rewrite u64_small, align_up_8 by lia.
  pose proof (div_mul_bounds (16 + Z.max size 1 + 7) 8 ltac:(lia)) as [? ?].
  rewrite Z.max_l by lia. lia.
Qed.

(** A task id fits in 32 bits. *)
Definition task_ok (t : option Z) : Prop := ∀ id, t = Some id → 0 ≤ id < 4294967296.

Lemma encode_range t : task_ok t → 0 ≤ encode_task_id t < 4294967296.
Proof. destruct t as [id|]; cbn; [auto|]. intros _. unfold KERNEL_TASK_ID_SENTINEL, u32_max. lia. Qed.

(** No [size] free bytes start at [x]. *)
Definition no_room_at (used : list (Z * Z * Z)) (size x : Z) : Prop :=
  ∃ b, b ∈ used.*1 ∧ ¬ apart (x, size) b.

Lemma heap_no_room self used ts size x :
  heap_tiling self used ts → MIN_BLOCK_SIZE ≤ size → fl_alloc size (frees ts) = None →
  heap_start self ≤ x → x + size ≤ heap_end self → no_room_at used size x.
Proof.
  intros (_ & _ & _ & Ht & Hco & _ & Hp & _) Hmin Hfl%fl_alloc_None Hx Hx'.
  destruct (decide (Forall (apart (x, size)) used.*1)) as [Hall|Hall].
  2:{ apply not_Forall_Exists in Hall; [|apply _].
      apply Exists_exists in Hall as (b & ? & ?). by exists b. }
  destruct (free_gap_in_tile 8 (heap_start self) (heap_end self) ts x size)
    as (b & t & Hin & ? & ?); [done..| |lia|lia| |].
  { unfold MIN_BLOCK_SIZE in *. lia. }
  { rewrite <- Hp in Hall. exact (proj1 (Forall_fmap _ _ _) Hall). }
  rewrite Forall_forall in Hfl. specialize (Hfl _ Hin). cbn in Hfl. lia.
Qed.

Lemma heap_allocate_ok self used ct size align :
  heap_inv self used → align ≤ ALIGNMENT → 0 ≤ size < 9223372036854775808 → task_ok ct →
  ∃ self' p, allocate self ct size align = Ret (self', p) ∧
    ((p = 0 ∧ self' = self ∧
      ∀ x, heap_start self ≤ x → x + total_size size ≤ heap_end self →
        no_room_at used (total_size size) x) ∨
     (∃ s, total_size size ≤ s < total_size size + 16 ∧ p mod 8 = 0 ∧ 0 < p - HEADER_SIZE ∧
        heap_inv self' ((p - HEADER_SIZE, s, encode_task_id ct) :: used) ∧
        heap_start self' = heap_start self ∧ heap_end self' = heap_end self ∧
        vis self' = vis self ++ [OnAlloc (p - HEADER_SIZE) s] ∧
        used_same used (mem self) (mem self'))).
Proof.
  intros [ts Hti] Hal Hsize Hct. pose proof Hti as (Hlo & Hlo8 & Hhi & Ht & Hco & Hl & Hp & Hh).
  destruct (total_size_spec size Hsize) as (Htm & Htot & Hmin).
  unfold allocate, rust_assert. rewrite (proj2 (Z.leb_le _ _)) by done. cbn [mbind outcome_bind].
  pose proof (tiles_frees _ _ _ _ Ht) as Hb.
  pose proof (heap_allocate_loop_spec (fuel self) self ct (total_size size) [] (head self)
    (frees ts) Hlo Hhi Hmin eq_refl Hl Hb (Nat.lt_succ_l _ _ (blocks_fuel _ _ _ Hb))) as Hloop.
  change (fst <$> last []) with (@None Z) in Hloop. cbn [app] in Hloop.
  destruct (fl_alloc (total_size size) (frees ts)) as [[a l']|] eqn:Hfl.
  2:{ exists self, 0. split; [done|]. left. split_and!; [done..|]. intros. by eapply heap_no_room. }
  destruct Hloop as (s & m' & h' & Hin & -> & Hl' & Hw1 & Hw2 & Hag).
  destruct (fl_alloc_tiles _ _ _ _ Hfl) as (ts1 & s' & ts2 & -> & Hle & _ & Hl2).
  assert (s' = s) as ->.
  { eapply blocks_inj; [exact Hb| |exact Hin]. rewrite frees_app, frees_cons. set_solver. }
  pose proof (tiles_addr_mod 8 _ _ _ _ _ ltac:(lia) Hlo8 Ht) as Ha8. cbn in Ha8.
  destruct (blocks_elem _ _ _ _ _ Hb Hin) as (? & ? & ?).
  unfold HEADER_SIZE, MIN_BLOCK_SIZE in *.
  assert (24 ≤ total_size size) by (apply Z.mod_divide in Htm as [k Hk]; lia).
  rewrite u64_small, align_up_8_id by (try (rewrite Zplus_mod, Ha8; done); lia).
  eexists _, _. split; [done|]. right.
  replace (a + 16 - 16) with a by lia.
  set (asz := if 16 <=? s - total_size size then total_size size else s).
  assert (Hasz : total_size size ≤ asz < total_size size + 16 ∧ 16 ≤ asz).
  { unfold asz. case_bool; bool_to_prop; lia. }
  exists asz. pose proof (used_same_frees _ _ _ _ Hti Hag) as Hsame.
  split_and!; [lia|lia|by rewrite Zplus_mod, Ha8|lia| |done|done|done|done].
  exists (ts1 ++ split_tile a s (total_size size) (encode_task_id ct) ++ ts2).
  split_and!; [done..|by apply tiles_split|by apply coalesced_split| | |].
  - cbn. by rewrite <- (Hl2 (encode_task_id ct)).
  - rewrite <- Hp, !useds_app, useds_cons. cbn [tl_use].
    assert (useds (split_tile a s (total_size size) (encode_task_id ct)) =
            [(a, asz, encode_task_id ct)]) as ->.
    { unfold split_tile, asz, MIN_BLOCK_SIZE. by case_bool. }
    solve_Permutation.
  - apply Forall_cons. cbn. split; [split_and!; [done..|by apply encode_range|by apply encode_range]|].
    eapply header_ok_same; [exact Hsame| |done].
    intros [[b u] t] Hb'. by destruct (heap_tiling_used _ _ _ _ _ _ Hti Hb') as (_ & ? & _).
Qed.

Lemma heap_deallocate_ok self used a s t used' :
  heap_inv self used → used ≡ₚ (a, s, t) :: used' →
  ∃ self', deallocate self (a + HEADER_SIZE) = Ret self' ∧ heap_inv self' used' ∧
    heap_start self' = heap_start self ∧ heap_end self' = heap_end self ∧
    vis self' = vis self ++ [OnDealloc a s] ∧ used_same used' (mem self) (mem self').
Proof.
  intros [ts Hti] Hu. pose proof Hti as (Hlo & Hlo8 & Hhi & Ht & Hco & Hl & Hp & Hh).
  assert (Hin : (a, s, t) ∈ used) by (rewrite Hu; apply elem_of_cons; by left).
  destruct (heap_tiling_used _ _ _ _ _ _ Hti Hin) as (? & ? & ? & ts1 & ts2 & ->).
  rewrite Forall_forall in Hh. destruct (Hh _ Hin) as (Hw1 & Hw2 & Htr).
  unfold deallocate, add_free_block, merge_free_blocks, HEADER_SIZE. replace (a + 16 - 16) with a by lia. rewrite u64_small by lia.
  assert (Hmag : hdr_magic (mem self) a = HEADER_MAGIC).
  { unfold hdr_magic. rewrite Hw1, Z.mul_comm, Z.mod_add by lia. done. }
  rewrite Hmag, Z.eqb_refl. cbn [negb]. unfold hdr_block_size. rewrite Hw2.
  unfold MIN_BLOCK_SIZE. rewrite Z.max_l by lia.
  set (m1 := node_new (mem self) a s).
  assert (Hag1 : agree_outside (λ w, w = a ∨ w = a + 8) (mem self) m1) by apply agree_node_new.
  pose proof (tiles_set_use _ _ _ _ _ _ _ None _ Ht) as Ht'.
  destruct (release_spec 8 _ _ m1 (head self) ts1 a s t ts2 (fuel self) ltac:(lia) Hlo Hhi Ht)
    as (m2 & m3 & h & -> & Hmerge & Hl' & Hag2); [|apply node_size_node_new|done|].
  { eapply lseg_frame; [exact Hag1| |done]. intros w Hw Hw'. cbn in Hw'.
    eapply node_words_in_blocks in Hw; [|by eapply tiles_frees].
    eapply tiles_free_used; [exact Ht|done|]. exists a, s. split; [|lia].
    apply list_elem_of_fmap. exists (a, s, t). by rewrite Hp. }
  cbn [mbind outcome_bind]. rewrite Hmerge. cbn [mbind outcome_bind].
  eexists. split; [done|].
  assert (Hp' : useds (ts1 ++ Tile a s None :: ts2) ≡ₚ used').
  { apply (Permutation_cons_inv (a := (a, s, t))). rewrite <- Hu, <- Hp.
    rewrite !useds_app, !useds_cons. cbn. apply Permutation_middle. }
  assert (Hsame : used_same used' (mem self) m3).
  { intros w (b & u & Hbu & Hw). rewrite Hag2; [rewrite Hag1; [done|]|].
    - intros Hwa. cbn in Hwa. eapply (tiles_free_used _ _ _ _ w Ht'); [|exists b, u; by rewrite Hp'].
      rewrite frees_app, frees_cons. apply in_blocks_app. right. apply in_blocks_here. cbn. lia.
    - intros Hf. eapply tiles_free_used; [exact Ht'|done|]. exists b, u. by rewrite Hp'. }
  split_and!; [|done..|done].
  exists (coalesce (ts1 ++ Tile a s None :: ts2)). split_and!; [done..| | | | |]; cbn.
  - by apply tiles_coalesce.
  - apply coalesced_coalesce.
  - done.
  - by rewrite useds_coalesce.
  - eapply header_ok_same; [exact Hsame| |].
    + intros [[b u] x] Hb. assert ((b, u, x) ∈ used) as Hb' by (rewrite Hu; apply elem_of_cons; by right).
      by destruct (heap_tiling_used _ _ _ _ _ _ Hti Hb') as (_ & ? & _).
    + apply Forall_forall. intros b Hb. apply Hh. rewrite Hu. apply elem_of_cons. by right.
Qed.

Lemma heap_inv_init m start size :
  0 < start → MIN_BLOCK_SIZE ≤ size → start + size < 18446744073709551616 →
  start mod 8 = 0 → size mod 8 = 0 →
  ∃ self, init (new m) start size = Ret self ∧ heap_inv self [] ∧
    heap_start self = start ∧ heap_end self = start + size.
Proof.
  intros ? ? ? Hm1 Hm2. unfold init, rust_assert, ALIGNMENT. rewrite Hm1, Hm2. cbn.
  eexists. split; [done|]. unfold MIN_BLOCK_SIZE in *. cbn. rewrite u64_small by lia.
  split; [|done]. exists [Tile start size None].
  split_and!; cbn;
    first [done|lia|split_and!; [done|lia|apply node_size_node_new|apply node_next_node_new]|idtac].
Qed.

(** ** Reachable heaps

    Initialisation, allocations for any task, deallocations of allocated blocks
    by their user pointer, and writes of the owners into their payloads. *)
Inductive heap_reachable : LinkedListAllocator → list (Z * Z * Z) → Prop :=
| hr_init m start size self :
    0 < start → MIN_BLOCK_SIZE ≤ size → start + size < 18446744073709551616 →
    init (new m) start size = Ret self → heap_reachable self []
| hr_alloc self used ct size align self' p s :
    heap_reachable self used → 0 ≤ size < 9223372036854775808 → task_ok ct →
    allocate self ct size align = Ret (self', p) → p ≠ 0 →
    hdr_block_size (mem self') (p - HEADER_SIZE) = s →
    heap_reachable self' ((p - HEADER_SIZE, s, encode_task_id ct) :: used)
| hr_alloc_fail self used ct size align self' :
    heap_reachable self used → 0 ≤ size < 9223372036854775808 → task_ok ct →
    allocate self ct size align = Ret (self', 0) → heap_reachable self' used
| hr_dealloc self used a s t used' self' :
    heap_reachable self used → used ≡ₚ (a, s, t) :: used' →
    deallocate self (a + HEADER_SIZE) = Ret self' → heap_reachable self' used'
| hr_write self used a s t w v :
    heap_reachable self used → (a, s, t) ∈ used → a + HEADER_SIZE ≤ w < a + s →
    heap_reachable (mkHeap (store (mem self) w v) (head self) (heap_start self)
                      (heap_end self) (vis self)) used.

Lemma allocate_align self ct size align self' p :
  allocate self ct size align = Ret (self', p) → align ≤ ALIGNMENT.
Proof.
  unfold allocate, rust_assert. destruct (align <=? ALIGNMENT) eqn:E; cbn; [|done]. blia.
Qed.

Lemma heap_inv_write self used a s t w v :
  heap_inv self used → (a, s, t) ∈ used → a + HEADER_SIZE ≤ w < a + s →
  heap_inv (mkHeap (store (mem self) w v) (head self) (heap_start self) (heap_end self)
              (vis self)) used.
Proof.
  intros [ts Hti] Hin Hw. pose proof Hti as (Hlo & Hlo8 & Hhi & Ht & Hco & Hl & Hp & Hh).
  destruct (heap_tiling_used _ _ _ _ _ _ Hti Hin) as (Hge & Hs & _ & _). unfold HEADER_SIZE in *.
  exists ts. split_and!; [done..| |done|]; cbn.
  - eapply (lseg_frame (λ x, x = w)); [intros x Hx; by apply load_store_ne| |done].
    intros x Hx ->. eapply node_words_in_blocks in Hx; [|by eapply tiles_frees].
    eapply tiles_free_used; [done..|]. exists a, s. split; [|lia].
    apply list_elem_of_fmap. exists (a, s, t). by rewrite Hp.
  - rewrite Forall_forall in *. intros [[b u] x] Hb. destruct (Hh _ Hb) as (Hw1 & Hw2 & ?).
    assert (Hne : w ≠ b ∧ w ≠ b + 8); [|unfold header_ok; rewrite !load_store_ne by lia; done].
    destruct (heap_tiling_used _ _ _ _ _ _ Hti Hb) as (? & ? & ? & ts1 & ts2 & ->).
    destruct (heap_tiling_used _ _ _ _ _ _ Hti Hin) as (_ & _ & _ & ts3 & ts4 & Heq).
    assert (Hd : b = a ∨ apart (b, u) (a, s)).
    { apply (tile_apart 8 _ _ (ts1 ++ Tile b u (Some x) :: ts2) b u (Some x) a s (Some t) Ht).
      - apply elem_of_app. right. apply elem_of_cons. by left.
      - rewrite Heq. apply elem_of_app. right. apply elem_of_cons. by left. }
    unfold apart in Hd. cbn in Hd. lia.
Qed.

Lemma heap_reachable_inv self used : heap_reachable self used → heap_inv self used.
Proof.
  induction 1 as [m start size self H1 H2 H3 Hi|self used ct size align self' p s _ IH Hs Ht Ha Hp Hb
    |self used ct size align self' _ IH Hs Ht Ha|self used a s t used' self' _ IH Hu Hd
    |self used a s t w v _ IH Hin Hw].
  - assert (start mod 8 = 0 ∧ size mod 8 = 0) as [Hm1 Hm2].
    { unfold init, rust_assert, ALIGNMENT in Hi.
      destruct (start mod 8 =? 0) eqn:E1; [|done]. destruct (size mod 8 =? 0) eqn:E2; [|done].
      blia. }
    destruct (heap_inv_init m start size) as (self2 & Hi2 & ? & _); [done..|].
    rewrite Hi in Hi2. by simplify_eq.
  - pose proof (allocate_align _ _ _ _ _ _ Ha) as Hal.
    destruct (heap_allocate_ok self used ct size align IH Hal Hs Ht) as (self2 & p2 & Ha2 & H2).
    rewrite Ha in Ha2. simplify_eq. destruct H2 as [(? & _)|(s & _ & _ & _ & Hinv & _)]; [done|].
    assert (hdr_block_size (mem self2) (p2 - HEADER_SIZE) = s) as ->; [|done].
    destruct Hinv as [ts (_ & _ & _ & _ & _ & _ & _ & Hh)].
    apply Forall_cons in Hh as [(_ & ? & _) _]. done.
  - pose proof (allocate_align _ _ _ _ _ _ Ha) as Hal.
    destruct (heap_allocate_ok self used ct size align IH Hal Hs Ht) as (self2 & p2 & Ha2 & H2).
    rewrite Ha in Ha2. simplify_eq.
    destruct H2 as [(_ & -> & _)|(s & _ & _ & Hp & _)]; [done|]. unfold HEADER_SIZE in Hp. lia.
  - destruct (heap_deallocate_ok self used a s t used' IH Hu) as (self2 & Hd2 & ? & _).
    rewrite Hd in Hd2. by simplify_eq.
  - by eapply heap_inv_write.
Qed.

(** ** Refinement of the walk *)
Lemma free_size_at_spec n m cursor cur l :
  lseg m cur l None → (length l < n)%nat →
  ∃ r, free_size_at n m cursor cur = Ret r ∧
    match r with Some s => (cursor, s) ∈ l | None => cursor ∉ l.*1 end.
Proof.
  revert n cur. induction l as [|[a s] l IH]; cbn [lseg]; intros n cur Hl Hn;
    (destruct n as [|n]; [cbn in Hn; lia|]).
  { subst. exists None. split; [done|]. by intros ?%elem_of_nil. }
  destruct Hl as (-> & _ & Hs & Hl). cbn [free_size_at].
  destruct (a =? cursor) eqn:E; bool_to_prop.
  - exists (Some s). rewrite Hs, E. split; [done|]. apply elem_of_cons. by left.
  - destruct (IH n (node_next m a) Hl) as (r & -> & Hr); [cbn in Hn; lia|].
    exists r. split; [done|]. destruct r; [by apply elem_of_cons; right|].
    cbn. rewrite not_elem_of_cons. auto.
Qed.

(** The walk over the tiles. *)
Fixpoint walk_tiles {A R} (on_free : A → Z → Z → visit_result A R)
    (on_used : A → Z → Z → Z → visit_result A R) (finish : A → R) (acc : A)
    (ts : list (tile Z)) : R :=
  match ts with
  | [] => finish acc
  | Tile a s u :: ts =>
      match (match u with
             | None => on_free acc a (a + s)
             | Some t => on_used acc a (a + s) t
             end) with
      | Continue acc => walk_tiles on_free on_used finish acc ts
      | Return r => r
      end
  end.

Lemma walk_spec {A R} self used ts (on_free : A → Z → Z → visit_result A R) on_used finish :
  heap_tiling self used ts →
  ∀ acc, walk (fuel self) self on_free on_used finish acc (heap_start self) =
    Ret (walk_tiles on_free on_used finish acc ts).
Proof.
  intros Hti. pose proof Hti as (Hlo & Hlo8 & Hhi & Ht & Hco & Hl & Hp & Hh).
  pose proof (tiles_frees _ _ _ _ Ht) as Hb.
  assert (Hf : (length ts < fuel self)%nat).
  { pose proof (tiles_length _ _ _ _ Ht). unfold fuel, list_fuel.
    pose proof (Z.div_le_lower_bound (heap_end self - heap_start self) 16 (Z.of_nat (length ts))). lia. }
  assert (Hgen : ∀ ts2 ts1 n acc cursor, ts = ts1 ++ ts2 →
    tiles 8 cursor (heap_end self) ts2 → heap_start self ≤ cursor → (length ts2 < n)%nat →
    walk n self on_free on_used finish acc cursor = Ret (walk_tiles on_free on_used finish acc ts2));
    [|intros acc; by apply (Hgen ts [])].
  induction ts2 as [|[a s u] ts2 IH]; intros ts1 n acc cursor Hts Ht2 Hcur Hn;
    (destruct n as [|n]; [cbn in Hn; lia|]); cbn [walk].
  { cbn in Ht2. subst. by rewrite Z.ltb_irrefl. }
  destruct Ht2 as (Ha & Hs & Hs8 & Ht2). cbn in Ha, Hs, Hs8, Ht2. subst a.
  pose proof (tiles_le _ _ _ _ Ht2) as Hle. unfold MIN_BLOCK_SIZE in *.
  rewrite (proj2 (Z.ltb_lt _ _)) by lia.
  assert (Hnext : ∀ acc, walk n self on_free on_used finish acc (cursor + s) =
                    Ret (walk_tiles on_free on_used finish acc ts2)).
  { intros acc'. eapply (IH (ts1 ++ [Tile cursor s u])); [by rewrite <- app_assoc|done|lia|cbn in Hn; lia]. }
  destruct (free_size_at_spec (fuel self) (mem self) cursor (head self) (frees ts) Hl
              (Nat.lt_succ_l _ _ (blocks_fuel _ _ _ Hb))) as (r & -> & Hr).
  cbn [mbind outcome_bind walk_tiles]. destruct u as [t|].
  - assert (Hin : (cursor, s, t) ∈ used).
    { rewrite <- Hp, Hts, useds_app, useds_cons. apply elem_of_app. right. apply elem_of_cons. by left. }
    assert (Hno : ∀ k, (cursor, k) ∈ frees ts → False).
    { intros k Hk. pose proof (blocks_elem _ _ _ _ _ Hb Hk) as (? & ? & ?). unfold MIN_BLOCK_SIZE in *.
      apply (tiles_free_used _ _ _ _ cursor Ht); [exists cursor, k; split; [done|lia]|].
      exists cursor, s. split; [|lia]. apply list_elem_of_fmap. exists (cursor, s, t). by rewrite Hp. }
    destruct r as [k|]; [by destruct (Hno k)|].
    rewrite Forall_forall in Hh. destruct (Hh _ Hin) as (Hw1 & Hw2 & Htr).
    assert (hdr_magic (mem self) cursor = HEADER_MAGIC) as ->.
    { unfold hdr_magic. rewrite Hw1, Z.mul_comm, Z.mod_add by lia. done. }
    assert (hdr_task_id (mem self) cursor = t) as ->.
    { unfold hdr_task_id. rewrite Hw1, Z.mul_comm, Z.div_add by lia. done. }
    unfold hdr_block_size, ALIGNMENT, sat_add, u64_max. rewrite Hw2, Hs8, Z.eqb_refl.
    rewrite (proj2 (Z.ltb_ge s 16)), Z.min_r, (proj2 (Z.ltb_ge (heap_end self) _)) by lia.
    cbn. destruct (on_used acc cursor (cursor + s) t); [apply Hnext|done].
  - assert (Hin : (cursor, s) ∈ frees ts).
    { rewrite Hts, frees_app, frees_cons. apply elem_of_app. right. apply elem_of_cons. by left. }
    destruct r as [k|].
    2:{ destruct Hr. apply list_elem_of_fmap. by exists (cursor, s). }
    rewrite (blocks_inj _ _ _ _ _ _ Hb Hr Hin), u64_small by lia.
    destruct (on_free acc cursor (cursor + s)); [apply Hnext|done].
Qed.

(** A query that looks for one address answers at the tile that holds it. *)
Lemma walk_tiles_find {R} addr lo hi ts (ff : Z → Z → R) (fu : Z → Z → Z → R) (finish : R) :
  tiles 8 lo hi ts → lo ≤ addr < hi →
  ∃ a s u, Tile a s u ∈ ts ∧ a ≤ addr < a + s ∧
    walk_tiles (λ (_ : unit) lo hi, if inside addr lo hi then Return (ff lo hi) else Continue tt)
      (λ _ lo hi t, if inside addr lo hi then Return (fu lo hi t) else Continue tt)
      (λ _, finish) tt ts =
    match u with None => ff a (a + s) | Some t => fu a (a + s) t end.
Proof.
  revert lo. induction ts as [|[a s u] ts IH]; cbn; intros lo; [lia|].
  intros (? & ? & _ & Ht) Haddr. cbn in *. subst a.
  destruct (inside addr lo (lo + s)) eqn:E; unfold inside in E; bool_to_prop.
  - exists lo, s, u. split_and!; [apply elem_of_cons; by left|lia|lia|].
    by destruct u.
  - destruct (IH _ Ht) as (b & k & v & ? & ? & Hw); [lia|].
    exists b, k, v. split; [apply elem_of_cons; by right|]. split; [done|].
    rewrite <- Hw. by destruct u.
Qed.

(** [find_free_region] answers at the free tile that holds the address. *)
Lemma walk_tiles_free addr lo hi ts :
  tiles 8 lo hi ts → lo ≤ addr < hi →
  ∃ a s u, Tile a s u ∈ ts ∧ a ≤ addr < a + s ∧
    walk_tiles (λ (_ : unit) lo hi, if inside addr lo hi then Return (Some (lo, hi)) else Continue tt)
      (λ _ _ _ _, Continue tt) (λ _, None) tt ts =
    match u with None => Some (a, a + s) | Some _ => None end.
Proof.
  assert (Hpast : ∀ ts lo, addr < lo → tiles 8 lo hi ts →
    walk_tiles (λ (_ : unit) lo hi, if inside addr lo hi then Return (Some (lo, hi)) else Continue tt)
      (λ _ _ _ _, Continue tt) (λ _, None) tt ts = None).
  { clear. induction ts as [|[a s u] ts IH]; cbn; intros lo Hlt; [done|].
    intros (? & ? & _ & Ht). cbn in *. unfold MIN_BLOCK_SIZE in *.
    destruct u as [t|]; [apply (IH (lo + s)); [lia|done]|].
    unfold inside at 1. rewrite (proj2 (Z.leb_gt a addr)) by lia. cbn.
    apply (IH (lo + s)); [lia|done]. }
  revert lo. induction ts as [|[a s u] ts IH]; cbn; intros lo; [lia|].
  intros (? & ? & _ & Ht) Haddr. cbn in *. subst a.
  destruct (decide (addr < lo + s)).
  - exists lo, s, u. split; [apply elem_of_cons; by left|]. split; [lia|]. destruct u as [t|].
    + by apply (Hpast ts (lo + s)).
    + unfold inside. by rewrite (proj2 (Z.leb_le _ _)), (proj2 (Z.ltb_lt _ _)) by lia.
  - destruct (IH _ Ht) as (b & k & v & ? & ? & Hw); [lia|].
    exists b, k, v. split; [apply elem_of_cons; by right|]. split; [done|].
    rewrite <- Hw. destruct u; [done|]. unfold inside at 1.
    by rewrite (proj2 (Z.ltb_ge addr (lo + s))), andb_false_r by lia.
Qed.

(** The tile that holds an address is unique. *)
Lemma tile_unique g lo hi (ts : list (tile Z)) a s u b n v addr :
  tiles g lo hi ts → Tile a s u ∈ ts → Tile b n v ∈ ts →
  a ≤ addr < a + s → b ≤ addr < b + n → a = b ∧ s = n ∧ u = v.
Proof.
  intros Ht H1 H2 Ha Hb. destruct (tile_apart _ _ _ _ _ _ _ _ _ _ Ht H1 H2) as [->|Hap].
  2:{ unfold apart in Hap. cbn in Hap. lia. }
  apply list_elem_of_split in H1 as (ts1 & ts2 & ->).
  apply tiles_app in Ht as (mid & Ht1 & Hm & ? & _ & Ht2). cbn in Hm, Ht2. subst mid.
  rewrite elem_of_app, elem_of_cons in H2. destruct H2 as [H2|[[= -> ->]|H2]]; [|done|].
  - apply list_elem_of_split in H2 as (ts3 & ts4 & ->).
    apply tiles_app in Ht1 as (mid & _ & Hm & ? & _ & Ht3). cbn in *. apply tiles_le in Ht3.
    unfold MIN_BLOCK_SIZE in *. lia.
  - apply list_elem_of_split in H2 as (ts3 & ts4 & ->).
    apply tiles_app in Ht2 as (mid & Ht3 & Hm & _). cbn in *. apply tiles_le in Ht3.
    unfold MIN_BLOCK_SIZE in *. lia.
Qed.

(** ** Bytes per owner *)

(** Bytes of block [b] inside the range, and the total for one owner. *)
Definition overlap (rs re : Z) (b : Z * Z * Z) : Z :=
  Z.max 0 (Z.min (b.1.1 + b.1.2) re - Z.max b.1.1 rs).
Definition owner_bytes (rs re : Z) (used : list (Z * Z * Z)) (t : option Z) : Z :=
  sumZ ((λ b, if bool_decide (decode_task_id b.2 = t) then overlap rs re b else 0) <$> used).

(** The total recorded for [t] in the table of [find_majority_owner]. *)
Definition tally (l : list (option Z * Z)) (t : option Z) : Z :=
  sumZ ((λ p, if bool_decide (p.1 = t) then p.2 else 0) <$> l).

Lemma tally_cons p l t :
  tally (p :: l) t = (if bool_decide (p.1 = t) then p.2 else 0) + tally l t.
Proof. done. Qed.
Lemma tally_notin l t : t ∉ l.*1 → tally l t = 0.
Proof.
  induction l as [|[t' b] l IH]; [done|]. rewrite tally_cons. cbn. rewrite not_elem_of_cons.
  intros [? ?]. rewrite bool_decide_eq_false_2 by done. rewrite IH by done. done.
Qed.
Lemma tally_in l t n : NoDup l.*1 → (t, n) ∈ l → tally l t = n.
Proof.
  induction l as [|[t' b] l IH]; cbn; [by intros _ ?%elem_of_nil|].
  rewrite NoDup_cons, tally_cons. cbn. intros [Hni Hnd] [[= -> ->]|Hin]%elem_of_cons.
  - rewrite bool_decide_eq_true_2, tally_notin by done. lia.
  - rewrite bool_decide_eq_false_2; [by apply IH|]. intros ->. apply Hni.
    apply list_elem_of_fmap. by exists (t, n).
Qed.

Lemma add_bytes_spec l t n :
  NoDup l.*1 → 0 ≤ n → Forall (λ p, 0 < p.2) l → tally l t + n < 18446744073709551616 →
  match add_bytes l t n with
  | None => t ∉ l.*1
  | Some l' => l'.*1 = l.*1 ∧ Forall (λ p, 0 < p.2) l' ∧
      ∀ t', tally l' t' = tally l t' + if bool_decide (t = t') then n else 0
  end.
Proof.
  induction l as [|[t' b] l IH]; cbn [add_bytes]; intros Hnd Hn Hpos Hov.
  { by intros ?%elem_of_nil. }
  rewrite fmap_cons, NoDup_cons in Hnd. destruct Hnd as [Hni Hnd]. cbn in Hni.
  apply Forall_cons in Hpos as [Hb Hpos]. cbn in Hb. rewrite tally_cons in Hov. cbn in Hov.
  destruct (bool_decide (t' = t)) eqn:E.
  - apply bool_decide_eq_true in E as ->. rewrite tally_notin in Hov by done.
    rewrite u64_small by lia. split_and!; [done|constructor; [cbn; lia|done]|].
    intros t'. rewrite !tally_cons. cbn. case_bool; lia.
  - apply bool_decide_eq_false in E. specialize (IH Hnd Hn Hpos ltac:(lia)).
    destruct (add_bytes l t n) as [l'|].
    + destruct IH as (Hk & Hp & Hta). split_and!; [by cbn; rewrite Hk|by constructor|].
      intros t2. rewrite !tally_cons, Hta. lia.
    + cbn. rewrite not_elem_of_cons. naive_solver.
Qed.

Lemma count_bytes_spec l t n :
  NoDup l.*1 → 0 < n → Forall (λ p, 0 < p.2) l → tally l t + n < 18446744073709551616 →
  t ∈ l.*1 ∨ (length l < MAX_TASKS)%nat →
  NoDup (count_bytes l t n).*1 ∧ Forall (λ p, 0 < p.2) (count_bytes l t n) ∧
  (∀ t', t' ∈ (count_bytes l t n).*1 → t' ∈ l.*1 ∨ t' = t) ∧
  ∀ t', tally (count_bytes l t n) t' = tally l t' + if bool_decide (t = t') then n else 0.
Proof.
  intros Hnd Hn Hpos Hov Hroom. unfold count_bytes.
  pose proof (add_bytes_spec l t n Hnd ltac:(lia) Hpos Hov) as Hadd.
  destruct (add_bytes l t n) as [l'|].
  - destruct Hadd as (-> & ? & ?). naive_solver.
  - destruct Hroom as [?|Hlen]; [done|]. apply Nat.ltb_lt in Hlen as ->.
    rewrite !fmap_app. cbn. split_and!.
    + apply NoDup_app. split_and!; [done|set_solver|apply NoDup_singleton].
    + apply Forall_app. auto.
    + set_solver.
    + intros t'. unfold tally. rewrite fmap_app, sumZ_app. cbn. unfold sumZ at 2. cbn. lia.
Qed.

Lemma best_of_spec l :
  NoDup l.*1 → Forall (λ p, 0 < p.2) l →
  match best_of l with
  | None => l = []
  | Some p => p ∈ l ∧ ∀ q, q ∈ l → q.2 ≤ p.2
  end.
Proof.
  intros _. unfold best_of.
  induction l as [|q l IH] using rev_ind; [done|].
  rewrite Forall_app, Forall_singleton. intros [Hpos Hq]. specialize (IH Hpos).
  rewrite foldl_snoc. rewrite (proj2 (Z.ltb_lt _ _)) by done.
  destruct (foldl _ None l) as [[t b]|].
  - destruct IH as [Hin Hmax]. destruct (b <? q.2) eqn:E; bool_to_prop.
    + split; [set_solver|]. intros r [Hr%Hmax| ->%list_elem_of_singleton]%elem_of_app; cbn in *; lia.
    + split; [set_solver|]. intros r [Hr%Hmax| ->%list_elem_of_singleton]%elem_of_app; cbn in *; lia.
  - subst. cbn. split; [set_solver|]. intros r ->%list_elem_of_singleton. done.
Qed.

Lemma walk_tiles_fold {A} (f : A → Z * Z * Z → A) on_used (acc : A) ts :
  Forall (λ b, ∀ acc, on_used acc b.1.1 (b.1.1 + b.1.2) b.2 = Continue (f acc b)) (useds ts) →
  walk_tiles (λ acc _ _, Continue acc) on_used (λ acc, acc) acc ts = foldl f acc (useds ts).
Proof.
  revert acc. induction ts as [|[a s [t|]] ts IH]; intros acc Hu; rewrite ?useds_cons in *; cbn in *.
  - done.
  - apply Forall_cons in Hu as [Hu HF]. cbn in Hu. rewrite Hu. by apply IH.
  - by apply IH.
Qed.

(** One block in the loop of [find_majority_owner]. *)
Definition count_block (rs re : Z) (acc : list (option Z * Z)) (b : Z * Z * Z) :
    list (option Z * Z) :=
  if 0 <? overlap rs re b then count_bytes acc (decode_task_id b.2) (overlap rs re b) else acc.

Lemma count_block_visit rs re lo hi l :
  0 ≤ rs ≤ re → 0 < lo → hi < 18446744073709551616 → blocks lo hi l.*1 →
  Forall (λ b, ∀ acc,
    (if (rs <? b.1.1 + b.1.2) && (b.1.1 <? re) then
       Continue (if 0 <? u64 (Z.min (b.1.1 + b.1.2) re - Z.max b.1.1 rs)
                 then count_bytes acc (decode_task_id b.2)
                        (u64 (Z.min (b.1.1 + b.1.2) re - Z.max b.1.1 rs)) else acc)
     else Continue acc) =
    @Continue _ (list (option Z * Z)) (count_block rs re acc b)) l.
Proof.
  intros Hr Hlo Hhi Hb. apply Forall_forall. intros [[a s] t] Hin acc.
  destruct (blocks_elem _ _ _ a s Hb) as (? & ? & ?).
  { apply list_elem_of_fmap. by exists (a, s, t). }
  unfold count_block, overlap, MIN_BLOCK_SIZE in *. cbn.
  destruct ((rs <? a + s) && (a <? re)) eqn:E; bool_to_prop.
  - rewrite u64_small, (Z.max_r 0) by lia. done.
  - rewrite (proj2 (Z.ltb_ge 0 _)) by lia. done.
Qed.

Lemma overlap_nonneg rs re b : 0 ≤ overlap rs re b.
Proof. unfold overlap. lia. Qed.
Lemma owner_bytes_nonneg rs re l t : 0 ≤ owner_bytes rs re l t.
Proof.
  unfold owner_bytes. induction l as [|b l IH]; [done|]. rewrite fmap_cons, sumZ_cons.
  pose proof (overlap_nonneg rs re b). case_bool; lia.
Qed.

Lemma owner_bytes_outside rs re lo hi l t :
  blocks lo hi l.*1 → hi ≤ rs ∨ re ≤ lo → owner_bytes rs re l t = 0.
Proof.
  intros Hb Hr. assert (HF : Forall (λ b, overlap rs re b = 0) l).
  { apply Forall_forall. intros [[a s] x] Hin.
    destruct (blocks_elem _ _ _ a s Hb) as (? & ? & ?).
    { apply list_elem_of_fmap. by exists (a, s, x). }
    unfold overlap. cbn. lia. }
  unfold owner_bytes. induction HF as [|b l Hb0 _ IH]; [done|].
  rewrite fmap_cons, sumZ_cons, Hb0.
  assert (blocks lo hi l.*1) as Hb'.
  { cbn in Hb. destruct b as [[a s] x], Hb as (? & ? & Hb). cbn in *.
    apply (blocks_weaken (a + s) lo hi hi); [unfold MIN_BLOCK_SIZE in *; lia|done..]. }
  specialize (IH Hb'). case_bool; lia.
Qed.

Lemma owner_bytes_le rs re lo hi l t :
  blocks lo hi l.*1 → owner_bytes rs re l t ≤ sumZ l.*1.*2.
Proof.
  revert lo. unfold owner_bytes. induction l as [|[[a s] x] l IH]; intros lo; [done|].
  intros (? & ? & Hb). specialize (IH _ Hb). rewrite !fmap_cons, !sumZ_cons.
  unfold overlap, MIN_BLOCK_SIZE in *. cbn in *. case_bool; lia.
Qed.

Lemma count_blocks_spec rs re owners l acc :
  (length owners ≤ MAX_TASKS)%nat → Forall (λ b, decode_task_id b.2 ∈ owners) l →
  NoDup acc.*1 → acc.*1 ⊆ owners → Forall (λ p, 0 < p.2) acc →
  (∀ t, tally acc t + owner_bytes rs re l t < 18446744073709551616) →
  let acc' := foldl (count_block rs re) acc l in
  NoDup acc'.*1 ∧ Forall (λ p, 0 < p.2) acc' ∧
  ∀ t, tally acc' t = tally acc t + owner_bytes rs re l t.
Proof.
  intros Hlen Hown. revert acc. induction Hown as [|b l Hb _ IH]; intros acc Hnd Hsub Hpos Hov.
  { split_and!; [done..|]. intros t. change (owner_bytes rs re [] t) with 0. cbn. lia. }
  cbn [foldl]. unfold count_block at 2 4 6.
  assert (Hcons : ∀ t, owner_bytes rs re (b :: l) t =
    (if bool_decide (decode_task_id b.2 = t) then overlap rs re b else 0) + owner_bytes rs re l t) by done.
  destruct (0 <? overlap rs re b) eqn:E; bool_to_prop.
  - destruct (count_bytes_spec acc (decode_task_id b.2) (overlap rs re b)) as (H1 & H2 & H3 & H4); try done.
    + specialize (Hov (decode_task_id b.2)). rewrite Hcons, bool_decide_eq_true_2 in Hov by done.
      pose proof (owner_bytes_nonneg rs re l (decode_task_id b.2)). lia.
    + destruct (decide (decode_task_id b.2 ∈ acc.*1)) as [?|Hni]; [by left|right].
      assert (Hle : (length (decode_task_id b.2 :: acc.*1) ≤ length owners)%nat).
      { apply submseteq_length, NoDup_submseteq; [by apply NoDup_cons|].
        intros x [->|?]%elem_of_cons; [done|by apply Hsub]. }
      cbn in Hle. rewrite length_fmap in Hle. lia.
    + destruct (IH (count_bytes acc (decode_task_id b.2) (overlap rs re b))) as (? & ? & Hta); [done| |done| |].
      * intros t' [?| ->]%H3; [by apply Hsub|done].
      * intros t. rewrite H4. specialize (Hov t). rewrite Hcons in Hov. lia.
      * split_and!; [done..|]. intros t. rewrite Hta, H4, Hcons. lia.
  - pose proof (overlap_nonneg rs re b). assert (overlap rs re b = 0) as H0 by lia.
    destruct (IH acc) as (? & ? & Hta); [done..| |].
    + intros t. specialize (Hov t). rewrite Hcons, H0 in Hov. case_bool; lia.
    + split_and!; [done..|]. intros t. rewrite Hta, Hcons, H0. case_bool; lia.
Qed.

(** The blocks of one raw task id, in tile order. *)
Definition blocks_of (l : list (Z * Z * Z)) (t : Z) : list (Z * Z) :=
  omap (λ b, if b.2 =? t then Some b.1 else None) l.

Lemma snapshot_tiles m want len ts acc :
  Forall (λ b, hdr_block_size m b.1.1 = b.1.2) (useds ts) → (length acc ≤ len)%nat →
  walk_tiles (λ acc _ _, Continue acc)
    (λ acc lo hi t,
      if t =? want then
        if (len <=? length acc)%nat then Return acc else Continue (acc ++ [(lo, hdr_block_size m lo)])
      else Continue acc)
    (λ acc, acc) acc ts = acc ++ take (len - length acc) (blocks_of (useds ts) want).
Proof.
  revert acc. induction ts as [|[a s [t|]] ts IH]; intros acc Hh Hlen;
    rewrite ?useds_cons in *; cbn -[take] in *.
  - unfold blocks_of. cbn. by rewrite take_nil, app_nil_r.
  - apply Forall_cons in Hh as [Hs Hh]. cbn in Hs. destruct (t =? want).
    + destruct (len <=? length acc)%nat eqn:E.
      * apply Nat.leb_le in E. replace (len - length acc)%nat with 0%nat by lia. by rewrite app_nil_r.
      * apply Nat.leb_gt in E. rewrite IH by (rewrite ?length_app; cbn; done || lia).
        rewrite Hs, length_app, <- app_assoc. cbn [length app]. do 2 f_equal.
        by replace (len - length acc)%nat with (S (len - (length acc + 1))) by lia.
    + by apply IH.
  - by apply IH.
Qed.

Lemma blocks_omap lo hi l t : blocks lo hi l.*1 → blocks lo hi (blocks_of l t).
Proof.
  revert lo. induction l as [|[[a s] t'] l IH]; cbn; intros lo; [done|].
  intros (? & ? & Hb). unfold blocks_of. cbn. destruct (t' =? t).
  - split_and!; [done..|]. by apply IH.
  - apply (blocks_weaken (a + s) lo hi hi); [unfold MIN_BLOCK_SIZE in *; lia|done|]. by apply IH.
Qed.

(** A concrete heap: 256 bytes at address 4096 with one block of task 1. *)
Definition demo_heap : LinkedListAllocator :=
  match init (new ∅) 4096 256 with
  | Ret h => match allocate h (Some 1) 20 8 with Ret (h', _) => h' | _ => h end
  | _ => new ∅
  end.

Lemma demo_heap_reachable : heap_reachable demo_heap [(4096, 40, 1)].
Proof.
  change [(4096, 40, 1)] with [(4112 - HEADER_SIZE, 40, encode_task_id (Some 1))].
  eapply (hr_alloc _ [] (Some 1) 20 8).
  - eapply (hr_init ∅ 4096 256); [lia|done|lia|reflexivity].
  - lia.
  - by intros id [= <-].
  - vm_compute. reflexivity.
  - done.
  - vm_compute. reflexivity.
Qed.

(** ** Properties *)

(** C20: in every reachable heap, an allocation through the global allocator, with
    the lock free, returns with the lock free again and the interrupt flag
    restored.  A non-null result is 8-aligned, its block lies in the heap, holds
    the requested bytes after the header, is disjoint from every allocated block
    and recorded for the current task; allocated blocks keep their contents.  A
    null result leaves the heap unchanged and happens only when there is no room. *)
Theorem global_alloc_spec self used interrupts ct size align :
  heap_reachable self used → align ≤ ALIGNMENT → 0 ≤ size < 9223372036854775808 → task_ok ct →
  ∃ self' p, global_alloc (mkSpinlock false self) interrupts ct size align =
      Ret (mkSpinlock false self', interrupts, p) ∧
    ((p = 0 ∧ self' = self ∧
      ∀ x, heap_start self ≤ x → x + total_size size ≤ heap_end self →
        no_room_at used (total_size size) x) ∨
     (p mod 8 = 0 ∧ ∃ s, heap_inv self' ((p - HEADER_SIZE, s, encode_task_id ct) :: used) ∧
        heap_start self ≤ p - HEADER_SIZE ∧ p + size ≤ p - HEADER_SIZE + s ≤ heap_end self ∧
        Forall (apart (p - HEADER_SIZE, s)) used.*1 ∧
        used_same used (mem self) (mem self'))).
Proof.
  intros Hinv%heap_reachable_inv Hal Hsize Hct.
  destruct (heap_allocate_ok self used ct size align Hinv Hal Hsize Hct) as (self' & p & Ha & Hp).
  exists self', p. split; [by apply with_lock_Ret|].
  destruct Hp as [?|(s & Hs & Hp8 & _ & Hinv' & Hst & Hen & _ & Hsame)]; [by left|right].
  split; [done|]. exists s. pose proof Hinv' as [ts Hti].
  destruct (heap_tiling_used _ _ _ (p - HEADER_SIZE) s (encode_task_id ct) Hti) as (Hge & _ & Hle & _).
  { apply elem_of_cons. by left. }
  destruct (total_size_spec size Hsize) as (_ & Htot & _). unfold HEADER_SIZE in *.
  rewrite Hst, Hen in *. split_and!; [done|done|lia|lia| |done].
  destruct Hti as (_ & _ & _ & Ht & _ & _ & Hperm & _).
  apply tiles_useds, blocks_pairwise in Ht. rewrite Hperm in Ht. apply Ht.
Qed.

(** C21: deallocating the user pointer of an allocated block returns with the lock
    and the interrupt flag restored, removes exactly that block, keeps the
    contents of the others, and makes its bytes available to the next request
    that fits in it; a pointer without an allocation header panics. *)
Theorem global_dealloc_spec self used interrupts a s t used' :
  heap_reachable self used → used ≡ₚ (a, s, t) :: used' →
  ∃ self', global_dealloc (mkSpinlock false self) interrupts (a + HEADER_SIZE) =
      Ret (mkSpinlock false self', interrupts, tt) ∧
    heap_inv self' used' ∧ used_same used' (mem self) (mem self') ∧
    (∀ ct size align, align ≤ ALIGNMENT → 0 ≤ size → total_size size ≤ s →
       size < 9223372036854775808 → task_ok ct →
       ∃ self'' p, allocate self' ct size align = Ret (self'', p) ∧ p ≠ 0) ∧
    (∀ ptr, hdr_magic (mem self) (u64 (ptr - HEADER_SIZE)) ≠ HEADER_MAGIC →
       global_dealloc (mkSpinlock false self) interrupts ptr = Panic).
Proof.
  intros Hinv%heap_reachable_inv Hu.
  destruct (heap_deallocate_ok self used a s t used' Hinv Hu) as (self' & Hd & Hinv' & Hst & Hen & _ & Hsame).
  exists self'. split; [apply with_lock_Ret; by rewrite Hd|]. split_and!; [done|done| |].
  - intros ct size align Hal Hs0 Hs Hmax Hct.
    destruct (heap_allocate_ok self' used' ct size align Hinv' Hal ltac:(lia) Hct) as (self'' & p & Ha & Hp).
    exists self'', p. split; [done|]. destruct Hp as [(-> & _ & Hno)|(k & _ & _ & Hp & _)].
    2:{ unfold HEADER_SIZE in Hp. lia. }
    exfalso. destruct Hinv as [ts Hti]. rewrite Hst, Hen in Hno.
    destruct (heap_tiling_used _ _ _ a s t Hti) as (Hge & Hs16 & Hle & _).
    { rewrite Hu. apply elem_of_cons. by left. }
    destruct (Hno a) as (b & Hb & Hnot); [lia|lia|].
    destruct Hti as (_ & _ & _ & Ht & _ & _ & Hperm & _).
    apply tiles_useds, blocks_pairwise in Ht. rewrite Hperm, Hu in Ht. destruct Ht as [Hap _].
    rewrite Forall_forall in Hap. apply Hap in Hb. unfold apart in *. cbn in *. lia.
  - intros ptr Hm. unfold global_dealloc, with_lock, lock. cbn. unfold deallocate. by rewrite (proj2 (Z.eqb_neq _ _) Hm).
Qed.

(** The allocated blocks are pairwise disjoint and [get_heap_stats] reports
    their total size, headers included, and the rest of the heap as free. *)
Lemma get_heap_stats_ok self used :
  heap_inv self used →
  pairwise apart used.*1 ∧
  get_heap_stats self =
    Ret (sumZ used.*1.*2, heap_end self - heap_start self - sumZ used.*1.*2).
Proof.
  intros [ts (Hlo & _ & Hhi & Ht & _ & Hl & Hp & _)].
  pose proof (tiles_frees _ _ _ _ Ht) as Hb. pose proof (tiles_useds _ _ _ _ Ht) as Hub.
  split; [rewrite <- Hp; by eapply blocks_pairwise|].
  unfold get_heap_stats. pose proof (tiles_le _ _ _ _ Ht) as Hle.
  pose proof (blocks_sum _ _ _ Hb). pose proof (blocks_sum _ _ _ Hub) as Hs.
  rewrite (sum_free_spec _ _ _ (frees ts) (heap_start self) (heap_end self)) by
    (done || lia || (apply blocks_fuel in Hb; unfold fuel; lia)).
  cbn. pose proof (tiles_sum _ _ _ _ Ht) as Hsum. rewrite Hp in Hsum, Hs.
  rewrite (u64_small (heap_end self - heap_start self)), u64_small by lia. do 2 f_equal; lia.
Qed.

(** The address queries name the block that holds the address: an allocated
    block with its bounds and owner, or the free block; outside the heap all
    three answer [None]. *)
Lemma heap_queries_ok self used addr :
  heap_inv self used →
  ∃ r1 r2 r3, find_allocation self addr = Ret r1 ∧ find_allocation_owner self addr = Ret r2 ∧
    find_free_region self addr = Ret r3 ∧
    ((∃ a s t, (a, s, t) ∈ used ∧ a ≤ addr < a + s ∧
        r1 = Some (a, a + s) ∧ r2 = Some (decode_task_id t) ∧ r3 = None) ∨
     (r1 = None ∧ r2 = None ∧ ¬ in_blocks used.*1 addr ∧
      match r3 with
      | Some (lo, hi) =>
          lo ≤ addr < hi ∧ heap_start self ≤ lo ∧ hi ≤ heap_end self ∧
          ∀ w, lo ≤ w < hi → ¬ in_blocks used.*1 w
      | None => addr < heap_start self ∨ heap_end self ≤ addr
      end)).
Proof.
  intros [ts Hti]. pose proof Hti as (Hlo & _ & Hhi & Ht & _ & _ & Hp & _).
  unfold find_allocation, find_allocation_owner, find_free_region.
  assert (Hlive : ∀ w, in_blocks used.*1 w → in_blocks (useds ts).*1 w).
  { intros w (a & s & Hin & ?). exists a, s. by rewrite Hp. }
  destruct (outside_heap self addr) eqn:Eo; unfold outside_heap in Eo; bool_to_prop.
  { exists None, None, None. split_and!; [done..|]. right. split_and!; [done..| |lia].
    intros (a & s & Hin & ?)%Hlive. apply tiles_useds in Ht.
    apply (blocks_elem _ _ _ _ _ Ht) in Hin. lia. }
  rewrite !(walk_spec self used ts) by done.
  destruct (walk_tiles_find addr _ _ ts (λ _ _, None) (λ lo hi _, Some (lo, hi)) None Ht ltac:(lia))
    as (a & s & u & Hin & Ha & ->).
  destruct (walk_tiles_find addr _ _ ts (λ _ _, None) (λ _ _ t, Some (decode_task_id t)) None Ht ltac:(lia))
    as (a2 & s2 & u2 & Hin2 & Ha2 & ->).
  destruct (walk_tiles_free addr _ _ ts Ht ltac:(lia)) as (a3 & s3 & u3 & Hin3 & Ha3 & ->).
  destruct (tile_unique _ _ _ _ _ _ _ _ _ _ addr Ht Hin Hin2 Ha Ha2) as (<- & <- & <-).
  destruct (tile_unique _ _ _ _ _ _ _ _ _ _ addr Ht Hin Hin3 Ha Ha3) as (<- & <- & <-).
  eexists _, _, _. split_and!; [done..|].
  apply list_elem_of_split in Hin as (ts1 & ts2 & ->). destruct u as [t|].
  - left. exists a, s, t. split_and!; [|lia|lia|done..].
    rewrite <- Hp, useds_app, useds_cons. apply elem_of_app. right. apply elem_of_cons. by left.
  - right. assert (Hfree : ∀ w, a ≤ w < a + s → ¬ in_blocks used.*1 w).
    { intros w Hw Hu%Hlive. eapply tiles_free_used; [exact Ht| |exact Hu].
      rewrite frees_app, frees_cons. apply in_blocks_app. right. by apply in_blocks_here. }
    apply tiles_frees in Ht. rewrite frees_app, frees_cons in Ht. cbn in Ht.
    destruct (blocks_elem _ _ _ a s Ht) as (? & _ & ?).
    { apply elem_of_app. right. apply elem_of_cons. by left. }
    split_and!; [done|done|by apply Hfree|lia|lia|lia|lia|done].
Qed.

Lemma find_majority_owner_ret self used rs re :
  heap_inv self used → ∃ r, find_majority_owner self rs re = Ret r.
Proof.
  intros [ts Hti]. unfold find_majority_owner. destruct (_ || _); [by exists None|].
  rewrite (walk_spec self used ts) by done. by eexists.
Qed.

(** Provided at most eight owners have allocations, [find_majority_owner]
    reports the owner with the most bytes in the range and that number of bytes,
    and [None] exactly when no allocated byte lies in the range. *)
Lemma find_majority_owner_spec self used rs re owners :
  heap_reachable self used → 0 ≤ rs ≤ re → (length owners ≤ MAX_TASKS)%nat →
  Forall (λ b, decode_task_id b.2 ∈ owners) used →
  ∃ r, find_majority_owner self rs re = Ret r ∧
    match r with
    | Some (t, n) => 0 < n ∧ owner_bytes rs re used t = n ∧
        ∀ t', owner_bytes rs re used t' ≤ n
    | None => ∀ t, owner_bytes rs re used t = 0
    end.
Proof.
  intros [ts Hti]%heap_reachable_inv Hrange Hlen Hown.
  pose proof Hti as (Hlo & _ & Hhi & Ht & _ & _ & Hp & _). pose proof (tiles_useds _ _ _ _ Ht) as Hub.
  assert (Hperm : ∀ t, owner_bytes rs re used t = owner_bytes rs re (useds ts) t).
  { intros t. unfold owner_bytes. by rewrite Hp. }
  rewrite <- Hp in Hown. unfold find_majority_owner.
  destruct ((heap_end self <=? rs) || (re <=? heap_start self)) eqn:Eo.
  { exists None. split; [done|]. intros t. rewrite Hperm. eapply owner_bytes_outside; [done|].
    bool_to_prop. lia. }
  rewrite (walk_spec self used ts), (walk_tiles_fold (count_block rs re)) by
    (done || by eapply count_block_visit). cbn [mbind outcome_bind].
  destruct (count_blocks_spec rs re owners (useds ts) []) as (Hnd & Hpos & Hta); [done|done|constructor|set_solver|constructor| |].
  { intros t. pose proof (owner_bytes_le rs re _ _ _ t Hub). pose proof (blocks_sum _ _ _ Hub).
    change (tally [] t) with 0. lia. }
  eexists. split; [done|]. pose proof (best_of_spec _ Hnd Hpos) as Hbest.
  destruct (best_of _) as [[t n]|].
  - destruct Hbest as [Hin Hmax]. rewrite Forall_forall in Hpos. specialize (Hpos _ Hin). cbn in Hpos.
    split_and!; [done| |].
    + rewrite Hperm. specialize (Hta t). rewrite (tally_in _ t n Hnd Hin) in Hta.
      change (tally [] t) with 0 in Hta. lia.
    + intros t'. rewrite Hperm. specialize (Hta t'). change (tally [] t') with 0 in Hta.
      assert (tally (foldl (count_block rs re) [] (useds ts)) t' ≤ n); [|lia].
      destruct (decide (t' ∈ (foldl (count_block rs re) [] (useds ts)).*1)) as [Hk|Hk].
      * apply list_elem_of_fmap in Hk as ([t2 n2] & -> & Hk). cbn [fst]. rewrite (tally_in _ _ n2 Hnd Hk).
        apply (Hmax _ Hk).
      * rewrite tally_notin by done. lia.
  - intros t. rewrite Hperm. specialize (Hta t). rewrite Hbest in Hta. change (tally [] t) with 0 in Hta. lia.
Qed.

(** [get_task_heap_allocations] lists, in address order, the first 256 blocks
    recorded for the task, with their sizes. *)
Lemma get_task_heap_allocations_ok self used task :
  heap_inv self used →
  ∃ all, get_task_heap_allocations self task = Ret (take MAX_SNAPSHOT_ALLOCS all) ∧
    all ≡ₚ blocks_of used (encode_task_id task) ∧
    blocks (heap_start self) (heap_end self) all.
Proof.
  intros [ts Hti]. pose proof Hti as (_ & _ & _ & Ht & _ & _ & Hp & Hh).
  exists (blocks_of (useds ts) (encode_task_id task)).
  unfold get_task_heap_allocations, snapshot_task_heap_allocations.
  rewrite (walk_spec self used ts) by done. rewrite snapshot_tiles.
  - split_and!; [done| |].
    + unfold blocks_of. by rewrite Hp.
    + apply blocks_omap. by eapply tiles_useds.
  - rewrite <- Hp in Hh. eapply Forall_impl; [exact Hh|]. intros [[a s] t] (_ & ? & _). done.
  - cbn. unfold MAX_SNAPSHOT_ALLOCS. lia.
Qed.

Lemma global_alloc_spec_witness :
  ∃ self' p, global_alloc (mkSpinlock false demo_heap) true None 30 8 =
    Ret (mkSpinlock false self', true, p).
Proof.
  destruct (global_alloc_spec demo_heap [(4096, 40, 1)] true None 30 8 demo_heap_reachable)
    as (self' & p & H & _); [done|lia|done|].
  by exists self', p.
Defined.

Lemma global_dealloc_spec_witness :
  ∃ self', global_dealloc (mkSpinlock false demo_heap) true (4096 + HEADER_SIZE) =
    Ret (mkSpinlock false self', true, tt) ∧ heap_inv self' [].
Proof.
  destruct (global_dealloc_spec demo_heap [(4096, 40, 1)] true 4096 40 1 [] demo_heap_reachable)
    as (self' & H & Hinv & _); [reflexivity|].
  exists self'. split; [exact H|exact Hinv].
Defined.

