(* ===== verification/Timer.v ===== *)
(** The PIT timer ([src/timer.rs]): configuration, tick counter, conversions. *)

From S2P Require Import Prelude.

Definition PIT_CHANNEL0 : Z := 0x40.
Definition PIT_COMMAND : Z := 0x43.
Definition PIT_FREQUENCY : Z := 1193182.
Definition TARGET_HZ : Z := 100.
Definition DIVISOR : Z := u16 (PIT_FREQUENCY / TARGET_HZ).

(** [init]: the port writes, in order. *)
Definition timer_init : list (Z * Z) :=
  [(PIT_COMMAND, 0x34);
   (PIT_CHANNEL0, u8 (Z.land DIVISOR 0xFF));
   (PIT_CHANNEL0, u8 (Z.land (Z.shiftr DIVISOR 8) 0xFF))].

(** [tick] on the counter *)
Definition tick (count : Z) : Z := u64 (count + 1).

Definition ticks_per_second : Z := TARGET_HZ.
Definition ms_to_ticks (ms : Z) : Z := u64 (ms + 9) / 10.
Definition ticks_to_ms (t : Z) : Z := u64 (t * 10).

(** Rounding up: the ticks cover the requested time and one tick less does not. *)
Lemma ms_to_ticks_bounds ms :
  0 ≤ ms → ms + 9 < 18446744073709551616 →
  ms ≤ 10 * ms_to_ticks ms < ms + 10.
Proof.
  intros ? ?. unfold ms_to_ticks. rewrite u64_small by lia.
  pose proof (div_mul_bounds (ms + 9) 10 ltac:(lia)). lia.
Qed.

(** A request within 9 ms of the largest [u64] wraps to no delay at all. *)
Lemma ms_to_ticks_wraps : ms_to_ticks u64_max = 0.
Proof. reflexivity. Qed.
