(* ===== verification/Task.v ===== *)
(** Tasks ([src/task.rs]) and the register switch ([src/context_switch.rs]). *)

From S2P Require Import Prelude ByteMem RegionAllocator Executable.

Definition STACK_SIZE : Z := 16 * 1024.

Inductive TaskState : Type := Ready | Running | Sleeping | Finished.
#[export] Instance TaskState_eq_dec : EqDecision TaskState.
Proof. solve_decision. Defined.

(** [struct Context]: the callee-saved registers. *)
Record Context : Type := mkContext {
  r15 : Z; r14 : Z; r13 : Z; r12 : Z; rbx : Z; rbp : Z; rsp : Z;
}.
Definition Context_default : Context := mkContext 0 0 0 0 0 0 0.

(** [switch_context]: save the processor's registers in [*current], then load
    them from [*next]; [save] and [load] are the two slots.  [ContextSwitch] has the
    instructions and shows that they implement it. *)
Definition switch_context {T} (save : T → Context → T) (load : T → Context)
    (slots : T) (cpu : Context) : T * Context :=
  let slots' := save slots cpu in (slots', load slots').

(** [struct Task] *)
Record Task : Type := mkTask {
  id : Z;
  tname : list Z;
  state : TaskState;
  context : Context;
  stack_base : Z;
  stack_size : Z;
  wake_at : Z;
}.
Definition set_state (t : Task) (s : TaskState) : Task :=
  mkTask (id t) (tname t) s (context t) (stack_base t) (stack_size t) (wake_at t).
Definition set_context (t : Task) (c : Context) : Task :=
  mkTask (id t) (tname t) (state t) c (stack_base t) (stack_size t) (wake_at t).
Definition set_wake_at (t : Task) (w : Z) : Task :=
  mkTask (id t) (tname t) (state t) (context t) (stack_base t) (stack_size t) w.

Section task.
Context {St : Type} `{RegionAllocator St}.
(** The address of [task_entry_trampoline], chosen by the linker. *)
Context (trampoline : Z).

(** [Task::new_with_arg_raw]; [Task::new] passes the argument 0. *)
Definition new_with_arg_raw (w : exec_state St) (i : Z) (nm : list Z) (entry arg : Z) :
    outcome (exec_state St * option Task) :=
  '(s, a) ← ra_allocate (region w) STACK_SIZE;
  match a with
  | None => Ret (set_region w s, None)
  | Some base =>
      let m1 := write_bytes (memory w) base 0 STACK_SIZE in
      w1 ← register_task_stack (mkExec (cell w) s m1) i base STACK_SIZE;
      let stack_top := u64 (base + STACK_SIZE) in
      let stack_aligned := u64 (Z.land stack_top (not64 0xF) - 8) in
      let w2 := mkExec (cell w1) (region w1) (poke_u64 (memory w1) stack_aligned trampoline) in
      let c := mkContext 0 0 arg entry 0 0 stack_aligned in
      Ret (w2, Some (mkTask i nm Ready c base STACK_SIZE 0))
  end.
Definition Task_new (w : exec_state St) (i : Z) (nm : list Z) (entry : Z) :
    outcome (exec_state St * option Task) :=
  new_with_arg_raw w i nm entry 0.
End task.
