(* ===== verification/ContextSwitch.v ===== *)
(** The register switch as the processor executes it ([src/context_switch.rs]): the
    instructions of [switch_context] on memory, and that they implement the
    [switch_context] of [Task] on the scheduler's list of tasks.  The vector
    registers are not saved by this code and are not modelled here. *)

From S2P Require Import Prelude ByteMem RegionAllocator Executable Task.

(** ** The code *)

Inductive reg : Type := R15 | R14 | R13 | R12 | RBX | RBP | RSP.
Definition get_reg (r : reg) (c : Context) : Z :=
  match r with
  | R15 => r15 c | R14 => r14 c | R13 => r13 c | R12 => r12 c | RBX => rbx c | RBP => rbp c | RSP => rsp c
  end.
Definition set_reg (r : reg) (v : Z) (c : Context) : Context :=
  match r with
  | R15 => mkContext v (r14 c) (r13 c) (r12 c) (rbx c) (rbp c) (rsp c)
  | R14 => mkContext (r15 c) v (r13 c) (r12 c) (rbx c) (rbp c) (rsp c)
  | R13 => mkContext (r15 c) (r14 c) v (r12 c) (rbx c) (rbp c) (rsp c)
  | R12 => mkContext (r15 c) (r14 c) (r13 c) v (rbx c) (rbp c) (rsp c)
  | RBX => mkContext (r15 c) (r14 c) (r13 c) (r12 c) v (rbp c) (rsp c)
  | RBP => mkContext (r15 c) (r14 c) (r13 c) (r12 c) (rbx c) v (rsp c)
  | RSP => mkContext (r15 c) (r14 c) (r13 c) (r12 c) (rbx c) (rbp c) v
  end.

(** [mov [rdi + off], r] and [mov r, [rsi + off]] *)
Inductive instr : Type := Save (off : Z) (r : reg) | Restore (r : reg) (off : Z).
Definition switch_code : list instr :=
  [Save 0 R15; Save 8 R14; Save 16 R13; Save 24 R12; Save 32 RBX; Save 40 RBP; Save 48 RSP;
   Restore R15 0; Restore R14 8; Restore R13 16; Restore R12 24; Restore RBX 32; Restore RBP 40;
   Restore RSP 48].
Definition exec_instr (rdi rsi : Z) (s : ram * Context) (i : instr) : ram * Context :=
  match i with
  | Save off r => (poke_u64 s.1 (rdi + off) (get_reg r s.2), s.2)
  | Restore r off => (s.1, set_reg r (peek_u64 s.1 (rsi + off)) s.2)
  end.
Definition run_switch (m : ram) (rdi rsi : Z) (c : Context) : ram * Context :=
  foldl (exec_instr rdi rsi) (m, c) switch_code.
(** [ret]: the address popped from the new stack. *)
Definition switch_target (m : ram) (rdi rsi : Z) (c : Context) : Z :=
  let '(m, c) := run_switch m rdi rsi c in peek_u64 m (rsp c).

(** ** The memory layout of [#[repr(C)] struct Context] *)

Definition CONTEXT_SIZE : Z := 56.
Definition context_at (m : ram) (p : Z) : Context :=
  mkContext (peek_u64 m (p + 0)) (peek_u64 m (p + 8)) (peek_u64 m (p + 16)) (peek_u64 m (p + 24))
    (peek_u64 m (p + 32)) (peek_u64 m (p + 40)) (peek_u64 m (p + 48)).

Definition word (v : Z) : Prop := 0 ≤ v < 18446744073709551616.
Definition context_ok (c : Context) : Prop := ∀ r, word (get_reg r c).
Definition slot_ok (p : Z) : Prop := 0 ≤ p ∧ p + CONTEXT_SIZE ≤ 18446744073709551616.
Definition slots_apart (p q : Z) : Prop := p = q ∨ p + CONTEXT_SIZE ≤ q ∨ q + CONTEXT_SIZE ≤ p.

Lemma peek_same m m' a n :
  0 ≤ a → a + Z.of_nat n ≤ 18446744073709551616 →
  (∀ x, a ≤ x < a + Z.of_nat n → m' x = m x) → peek m' a n = peek m a n.
Proof.
  revert a. induction n as [|n IH]; intros a H0 Ha Hm; [done|]. cbn [peek].
  rewrite u64_small by lia. f_equal; [apply Hm; lia|]. apply IH; [lia..|]. intros. apply Hm. lia.
Qed.
Lemma peek_u64_same m m' a :
  0 ≤ a → a + 8 ≤ 18446744073709551616 → (∀ x, a ≤ x < a + 8 → m' x = m x) → peek_u64 m' a = peek_u64 m a.
Proof. intros. unfold peek_u64. f_equal. apply peek_same; lia || done. Qed.
Lemma context_at_same m m' p :
  slot_ok p → (∀ x, p ≤ x < p + CONTEXT_SIZE → m' x = m x) → context_at m' p = context_at m p.
Proof.
  unfold slot_ok, CONTEXT_SIZE. intros Hp Hm. unfold context_at.
  f_equal; (apply peek_u64_same; [lia..|intros; apply Hm; lia]).
Qed.

(** The first half of the code stores the registers in [*current]. *)
Definition saved (m : ram) (p : Z) (c : Context) : ram :=
  (foldl (exec_instr p 0) (m, c) (take 7 switch_code)).1.

Lemma saved_out m p c x :
  slot_ok p → word x → x < p ∨ p + CONTEXT_SIZE ≤ x → saved m p c x = m x.
Proof.
  unfold slot_ok, word, CONTEXT_SIZE. intros Hp Hx Hout. cbn. by rewrite !poke_u64_out by lia.
Qed.
Lemma saved_at m p c : slot_ok p → context_ok c → context_at (saved m p c) p = c.
Proof.
  unfold slot_ok, CONTEXT_SIZE. intros Hp Hc.
  pose proof (Hc R15) as H1. pose proof (Hc R14) as H2. pose proof (Hc R13) as H3. pose proof (Hc R12) as H4.
  pose proof (Hc RBX) as H5. pose proof (Hc RBP) as H6. pose proof (Hc RSP) as H7.
  unfold word in *. destruct c as [v1 v2 v3 v4 v5 v6 v7]. cbn in *. unfold context_at.
  f_equal;
    (repeat match goal with
     | |- peek_u64 (poke_u64 _ ?p ?v) ?p = ?v => apply peek_u64_poke; lia
     | |- peek_u64 (poke_u64 ?m ?p ?v) ?q = _ =>
         rewrite (peek_u64_same m (poke_u64 m p v) q) by (try lia; intros; apply poke_u64_out; lia)
     end).
Qed.

(** The code saves the registers in [*current] and nothing else, then loads those of
    [*next]; the two slots are the same or do not overlap. *)
Lemma run_switch_spec m rdi rsi c :
  slot_ok rdi → slot_ok rsi → context_ok c →
  let '(m', c') := run_switch m rdi rsi c in
  context_at m' rdi = c ∧ c' = context_at m' rsi ∧
  ∀ x, word x → x < rdi ∨ rdi + CONTEXT_SIZE ≤ x → m' x = m x.
Proof.
  intros Hd Hs Hc. change (run_switch m rdi rsi c) with (saved m rdi c, context_at (saved m rdi c) rsi).
  split_and!; [by apply saved_at|done|]. intros x Hx Hout. by apply saved_out.
Qed.

(** ** The scheduler's tasks in memory

    [addr i] is the address of the context of the task at index [i]. *)
Section refinement.
Context (addr : nat → Z).

Definition contexts_in (m : ram) (l : list Task) : Prop :=
  ∀ i t, l !! i = Some t → context_at m (addr i) = context t.
Definition layout_ok (n : nat) : Prop :=
  (∀ i, (i < n)%nat → slot_ok (addr i)) ∧
  ∀ i j, (i < n)%nat → (j < n)%nat → i ≠ j → slots_apart (addr i) (addr j) ∧ addr i ≠ addr j.

(** The instructions implement the model's [switch_context]: the list of tasks in
    memory and the registers are the ones it computes. *)
Lemma switch_context_refines m l cur next cpu :
  layout_ok (length l) → (cur < length l)%nat → (next < length l)%nat → context_ok cpu → contexts_in m l →
  let '(m', c') := run_switch m (addr cur) (addr next) cpu in
  let '(l', cpu') := switch_context (λ l c, alter (λ t, set_context t c) cur l)
                       (λ l, default Context_default (context <$> l !! next)) l cpu in
  contexts_in m' l' ∧ c' = cpu'.
Proof.
  intros [Hok Hap] Hcur Hnext Hcpu Hm. unfold switch_context.
  pose proof (run_switch_spec m (addr cur) (addr next) cpu (Hok _ Hcur) (Hok _ Hnext) Hcpu) as Hrun.
  destruct (run_switch _ _ _ _) as [m' c']. destruct Hrun as (Hsave & Hload & Hout).
  assert (Hin : contexts_in m' (alter (λ t, set_context t cpu) cur l)).
  { intros i t. destruct (decide (i = cur)) as [->|Hne].
    - rewrite list_lookup_alter_eq. destruct (l !! cur); [|done]. cbn. intros [= <-]. done.
    - rewrite list_lookup_alter_ne by done. intros Hi. pose proof (lookup_lt_Some _ _ _ Hi) as Hlt.
      rewrite <- (Hm i t Hi). destruct (Hap i cur Hlt Hcur Hne) as [Ha Hb]. pose proof (Hok i Hlt) as Hoi.
      apply context_at_same; [done|]. intros x Hx. unfold slot_ok, slots_apart, CONTEXT_SIZE in *.
      apply Hout; unfold word; lia. }
  split; [done|]. rewrite Hload.
  destruct (lookup_lt_is_Some_2 (alter (λ t, set_context t cpu) cur l) next) as [t Ht]; [by rewrite length_alter|].
  rewrite Ht. cbn. by apply Hin.
Qed.
End refinement.
