(* ===== verification/Scheduler.v ===== *)
(** The cooperative round-robin scheduler ([src/scheduler.rs]).

    Time enters through [timer::ticks]: [now] is the value read at the start of
    [schedule] and [readings] are the values read after each [hlt]. *)

From S2P Require Import Prelude FreeList Tiling BTreeMap ByteMem RegionAllocator Executable Timer Task.

(** [struct Scheduler] *)
Record Scheduler : Type := mkScheduler {
  tasks : list Task;
  current : nat;
  next_id : Z;
  idle_context : Context;
}.
Definition Scheduler_new : Scheduler := mkScheduler [] 0 0 Context_default.
Definition set_tasks (s : Scheduler) (l : list Task) : Scheduler :=
  mkScheduler l (current s) (next_id s) (idle_context s).
Definition set_current (s : Scheduler) (c : nat) : Scheduler :=
  mkScheduler (tasks s) c (next_id s) (idle_context s).

Definition is_state (st : TaskState) (t : Task) : bool := bool_decide (state t = st).

(** [wake_sleeping_tasks], with the tick count [now] *)
Definition wake_task (now : Z) (t : Task) : Task :=
  if is_state Sleeping t && (wake_at t <=? now) then set_state t Ready else t.
Definition wake_sleeping_tasks (s : Scheduler) (now : Z) : Scheduler :=
  set_tasks s (wake_task now <$> tasks s).

(** [find_next_ready]: [n] candidates remain, the next one at distance [i]. *)
Fixpoint find_ready_from (l : list Task) (cur i n : nat) : option nat :=
  match n with
  | O => None
  | S n =>
      let idx := ((cur + i) mod length l)%nat in
      match l !! idx with
      | Some t => if is_state Ready t then Some idx else find_ready_from l cur (S i) n
      | None => None
      end
  end.
Definition find_next_ready (s : Scheduler) : option nat :=
  if (length (tasks s) =? 0)%nat then None
  else find_ready_from (tasks s) (current s) 1 (length (tasks s)).

(** [has_sleeping_tasks], [has_living_tasks] *)
Definition has_sleeping_tasks (s : Scheduler) : bool := existsb (is_state Sleeping) (tasks s).
Definition has_living_tasks (s : Scheduler) : bool :=
  existsb (λ t, negb (is_state Finished t)) (tasks s).

Section scheduler.
Context {St : Type} `{RegionAllocator St}.
Implicit Types w : exec_state St.

(** [for task_id in finished_ids { executable::unload_task(task_id) }] *)
Fixpoint unload_all w (ids : list Z) : outcome (exec_state St) :=
  match ids with
  | [] => Ret w
  | i :: ids => w' ← unload_task w i; unload_all w' ids
  end.

(** [reap_finished_tasks] *)
Definition reap_finished_tasks (s : Scheduler) w : outcome (Scheduler * exec_state St) :=
  let finished_ids := id <$> filter (λ t, state t = Finished) (tasks s) in
  w' ← unload_all w finished_ids;
  _ ← rust_assert (current s <=? length (tasks s))%nat;
  let finished_before_current :=
    length (filter (λ t, state t = Finished) (take (current s) (tasks s))) in
  let l := filter (λ t, state t ≠ Finished) (tasks s) in
  let c1 := if (finished_before_current <=? current s)%nat
            then (current s - finished_before_current)%nat else current s in
  let c2 := if (length l <=? c1)%nat && negb (length l =? 0)%nat then 0%nat else c1 in
  Ret (mkScheduler l c2 (next_id s) (idle_context s), w').

(** How a call of [schedule] ends: it switched to a task, all tasks are
    finished, it is still halted after the given readings, or it spins. *)
Inductive schedule_end : Type := Switched | AllFinished | Halted | Spinning.

(** Switching to the task at [next_idx]. *)
Definition switch_to (s : Scheduler) (cpu : Context) (next_idx : nat) :
    outcome (Scheduler * Context) :=
  let current_idx := current s in
  match tasks s !! next_idx with
  | None => Panic
  | Some t =>
      let l := <[next_idx := set_state t Running]> (tasks s) in
      match l !! current_idx, l !! next_idx with
      | Some _, Some t' =>
          let '(l', cpu') :=
            switch_context
              (λ l c, alter (λ t, set_context t c) current_idx l)
              (λ l, default Context_default (context <$> l !! next_idx)) l cpu in
          Ret (mkScheduler l' next_idx (next_id s) (idle_context s), cpu')
      | _, _ => Panic
      end
  end.

(** The selection loop of [schedule]. *)
Fixpoint schedule_loop (s : Scheduler) (cpu : Context) (readings : list Z) :
    outcome (Scheduler * Context * schedule_end) :=
  match find_next_ready s with
  | Some next_idx =>
      '(s', cpu') ← switch_to s cpu next_idx;
      Ret (s', cpu', Switched)
  | None =>
      if has_sleeping_tasks s then
        match readings with
        | [] => Ret (s, cpu, Halted)
        | now :: readings => schedule_loop (wake_sleeping_tasks s now) cpu readings
        end
      else if negb (has_living_tasks s) then Ret (s, cpu, AllFinished)
      else Ret (s, cpu, Spinning)
  end.

(** The part of [schedule] before the loop: wake and reap. *)
Definition schedule_prepare (s : Scheduler) w (now : Z) : outcome (Scheduler * exec_state St) :=
  let s1 := wake_sleeping_tasks s now in
  let current_is_finished :=
    match tasks s1 !! current s1 with Some t => is_state Finished t | None => false end in
  if negb current_is_finished && existsb (is_state Finished) (tasks s1)
  then reap_finished_tasks s1 w
  else Ret (s1, w).

(** [schedule] *)
Definition schedule (s : Scheduler) w (cpu : Context) (now : Z) (readings : list Z) :
    outcome (Scheduler * exec_state St * Context * schedule_end) :=
  '(s1, w1) ← schedule_prepare s w now;
  '(s2, cpu', e) ← schedule_loop s1 cpu readings;
  Ret (s2, w1, cpu', e).

(** [Scheduler::spawn] and [spawn_with_arg] *)
Definition spawn_raw (trampoline : Z) (s : Scheduler) w (nm : list Z) (entry arg : Z) :
    outcome (Scheduler * exec_state St * option Z) :=
  let i := next_id s in
  let s1 := mkScheduler (tasks s) (current s) (u32 (next_id s + 1)) (idle_context s) in
  '(w', t) ← new_with_arg_raw trampoline w i nm entry arg;
  match t with
  | None => Ret (s1, w', None)
  | Some t => Ret (set_tasks s1 (tasks s1 ++ [t]), w', Some i)
  end.
Definition spawn (trampoline : Z) (s : Scheduler) w (nm : list Z) (entry : Z) :
    outcome (Scheduler * exec_state St * option Z) :=
  spawn_raw trampoline s w nm entry 0.

(** [run] up to the first switch: [None] if there is no task and it halts. *)
Definition run (s : Scheduler) (cpu : Context) : option (Scheduler * Context) :=
  match tasks s with
  | [] => None
  | t :: l =>
      let t' := set_state t Running in
      Some (mkScheduler (t' :: l) 0 (next_id s) cpu, context t')
  end.

(** ** The public functions on the scheduler cell *)
Definition sched_with {R} (cell : option Scheduler) (f : Scheduler → outcome R) : outcome R :=
  match cell with None => Panic | Some s => f s end.
Definition sched_init (cell : option Scheduler) : outcome (option Scheduler) :=
  match cell with Some _ => Panic | None => Ret (Some Scheduler_new) end.

(** Set the current task's state (if the index is valid), as the three
    functions below do before they call [schedule]. *)
Definition update_current (s : Scheduler) (f : Task → Task) : Scheduler :=
  set_tasks s (alter f (current s) (tasks s)).

(** [yield_now] *)
Definition yield_now (cell : option Scheduler) w (cpu : Context) (now : Z) (readings : list Z) :
    outcome (Scheduler * exec_state St * Context * schedule_end) :=
  sched_with cell (λ s,
    schedule (update_current s (λ t, set_state t Ready)) w cpu now readings).

(** [sleep_ticks]: [t0] is the tick count it reads. *)
Definition sleep_ticks (cell : option Scheduler) w (cpu : Context) (t0 ticks now : Z)
    (readings : list Z) : outcome (Scheduler * exec_state St * Context * schedule_end) :=
  sched_with cell (λ s,
    let wake := u64 (t0 + ticks) in
    schedule (update_current s (λ t, set_state (set_wake_at t wake) Sleeping)) w cpu now readings).

(** [sleep_ms] *)
Definition sleep_ms (cell : option Scheduler) w (cpu : Context) (t0 ms now : Z)
    (readings : list Z) : outcome (Scheduler * exec_state St * Context * schedule_end) :=
  sleep_ticks cell w cpu t0 (ms_to_ticks ms) now readings.

(** [exit_task], up to its final halt *)
Definition exit_task (cell : option Scheduler) w (cpu : Context) (now : Z) (readings : list Z) :
    outcome (Scheduler * exec_state St * Context * schedule_end) :=
  sched_with cell (λ s,
    schedule (update_current s (λ t, set_state t Finished)) w cpu now readings).

(** [task_count], [current_task_id], [get_all_tasks] *)
Definition task_count (cell : option Scheduler) : outcome nat :=
  sched_with cell (λ s, Ret (length (tasks s))).
Definition current_task_id (cell : option Scheduler) : outcome (option Z) :=
  sched_with cell (λ s, Ret (id <$> tasks s !! current s)).
Definition get_all_tasks (cell : option Scheduler) : outcome (list (Z * list Z * TaskState)) :=
  sched_with cell (λ s, Ret ((λ t, (id t, tname t, state t)) <$> tasks s)).
End scheduler.

(** ** The next ready task *)

(** Cyclic distance from [cur] to [j] in a list of [n] tasks, between 1 and [n]. *)
Definition dist (n cur j : nat) : nat := if (cur <? j)%nat then (j - cur)%nat else (j + n - cur)%nat.

Lemma dist_range n cur j : (cur < n)%nat → (j < n)%nat → (1 ≤ dist n cur j ≤ n)%nat.
Proof. intros. unfold dist. destruct (Nat.ltb_spec cur j); lia. Qed.

Lemma dist_index n cur j :
  (cur < n)%nat → (j < n)%nat → ((cur + dist n cur j) mod n)%nat = j.
Proof.
  intros. unfold dist. destruct (Nat.ltb_spec cur j).
  - replace (cur + (j - cur))%nat with j by lia. by apply Nat.mod_small.
  - replace (cur + (j + n - cur))%nat with (j + 1 * n)%nat by lia.
    rewrite Nat.Div0.mod_add. by apply Nat.mod_small.
Qed.

Lemma index_dist n cur i :
  (cur < n)%nat → (1 ≤ i ≤ n)%nat → dist n cur ((cur + i) mod n) = i.
Proof.
  intros Hc Hi. unfold dist. destruct (decide (cur + i < n)%nat).
  - rewrite Nat.mod_small by lia. rewrite (proj2 (Nat.ltb_lt _ _)); lia.
  - replace (cur + i)%nat with (cur + i - n + 1 * n)%nat by lia.
    rewrite Nat.Div0.mod_add, Nat.mod_small by lia. rewrite (proj2 (Nat.ltb_ge _ _)); lia.
Qed.

Lemma find_ready_from_spec l cur i n :
  (cur < length l)%nat → (1 ≤ i)%nat → (i + n = length l + 1)%nat →
  match find_ready_from l cur i n with
  | Some idx => ∃ t, l !! idx = Some t ∧ state t = Ready ∧ (i ≤ dist (length l) cur idx)%nat ∧
      ∀ j u, l !! j = Some u → (i ≤ dist (length l) cur j < dist (length l) cur idx)%nat →
        state u ≠ Ready
  | None => ∀ j u, l !! j = Some u → (i ≤ dist (length l) cur j)%nat → state u ≠ Ready
  end.
Proof.
  intros Hc. revert i. induction n as [|n IH]; intros i Hi Hn; cbn [find_ready_from].
  { intros j u Hj%lookup_lt_Some Hd. pose proof (dist_range _ _ _ Hc Hj). lia. }
  set (idx := ((cur + i) mod length l)%nat).
  assert (Hidx : (idx < length l)%nat) by (apply Nat.mod_upper_bound; lia).
  assert (Hdist : dist (length l) cur idx = i) by (apply index_dist; lia).
  apply lookup_lt_is_Some in Hidx as [t Ht]. rewrite Ht. unfold is_state.
  assert (Hsame : ∀ j u, l !! j = Some u → dist (length l) cur j = i → u = t).
  { intros j u Hj Hd. assert (j = idx) as ->; [|congruence].
    apply lookup_lt_Some in Hj. by rewrite <- (dist_index (length l) cur j), Hd. }
  case_bool_decide as Hr.
  - exists t. split_and!; [done..|lia|]. intros j u Hj Hd. lia.
  - specialize (IH (S i) ltac:(lia) ltac:(lia)).
    destruct (find_ready_from l cur (S i) n) as [idx2|].
    + destruct IH as (t2 & ? & ? & ? & Hno). exists t2. split_and!; [done..|lia|].
      intros j u Hj Hd. destruct (decide (dist (length l) cur j = i)).
      * by rewrite (Hsame j u).
      * apply (Hno j u Hj). lia.
    + intros j u Hj Hd. destruct (decide (dist (length l) cur j = i)).
      * by rewrite (Hsame j u).
      * apply (IH j u Hj). lia.
Qed.

Lemma find_next_ready_spec s :
  (current s < length (tasks s))%nat →
  match find_next_ready s with
  | Some idx => ∃ t, tasks s !! idx = Some t ∧ state t = Ready ∧
      ∀ j u, tasks s !! j = Some u →
        (dist (length (tasks s)) (current s) j < dist (length (tasks s)) (current s) idx)%nat →
        state u ≠ Ready
  | None => ∀ t, t ∈ tasks s → state t ≠ Ready
  end.
Proof.
  intros Hc. unfold find_next_ready. rewrite (proj2 (Nat.eqb_neq _ _)) by lia.
  pose proof (find_ready_from_spec (tasks s) (current s) 1 (length (tasks s)) Hc ltac:(lia) ltac:(lia)) as Hf.
  destruct (find_ready_from _ _ _ _) as [idx|].
  - destruct Hf as (t & ? & ? & _ & Hno). exists t. split_and!; [done..|].
    intros j u Hj Hd. apply (Hno j u Hj). split; [|done].
    apply lookup_lt_Some in Hj. pose proof (dist_range _ _ _ Hc Hj). lia.
  - intros t [j Hj]%list_elem_of_lookup. apply (Hf j t Hj).
    apply lookup_lt_Some in Hj. pose proof (dist_range _ _ _ Hc Hj). lia.
Qed.

(** ** Reaping *)

Lemma filter_lookup_count (P : Task → Prop) `{∀ t, Decision (P t)} l n t :
  l !! n = Some t → P t → filter P l !! length (filter P (take n l)) = Some t.
Proof.
  revert n. induction l as [|u l IH]; intros [|n] Hn HP; try done.
  - cbn in Hn. simplify_eq. by rewrite filter_cons_True.
  - cbn in Hn. cbn [take]. rewrite !filter_cons. destruct (decide (P u)); by apply IH.
Qed.

Lemma filter_count_split (P : Task → Prop) `{∀ t, Decision (P t)} l :
  (length (filter P l) + length (filter (λ t, ¬ P t) l) = length l)%nat.
Proof.
  induction l as [|u l IH]; [done|]. rewrite !filter_cons.
  destruct (decide (P u)), (decide (¬ P u)); cbn; lia || done.
Qed.

Section reap.
Context {St : Type} `{RegionAllocator St}.
Implicit Types w : exec_state St.

Lemma unload_all_ok w others ids :
  exec_inv w others →
  ∃ w', unload_all w ids = Ret w' ∧ exec_inv w' others ∧
    ∀ t, bt_get (allocs_of w') t = if decide (t ∈ ids) then None else bt_get (allocs_of w) t.
Proof.
  revert w. induction ids as [|i ids IH]; intros w Hinv; cbn [unload_all].
  { exists w. split_and!; [done..|]. intros t. by rewrite decide_False by apply not_elem_of_nil. }
  destruct (unload_task_ok w others i Hinv) as (w1 & -> & Hinv1 & Hg1 & _). cbn.
  destruct (IH w1 Hinv1) as (w' & -> & Hinv' & Hg'). exists w'. split_and!; [done..|].
  intros t. rewrite Hg', Hg1. destruct (decide (t ∈ ids)), (decide (t ∈ i :: ids)), (t =? i) eqn:E;
    bool_to_prop; subst; try done; set_solver.
Qed.

(** Reaping keeps every unfinished task and the current index on its task. *)
Lemma reap_spec s w others r :
  exec_inv w others → tasks s !! current s = Some r → state r ≠ Finished →
  ∃ s' w', reap_finished_tasks s w = Ret (s', w') ∧ exec_inv w' others ∧
    tasks s' = filter (λ t, state t ≠ Finished) (tasks s) ∧
    tasks s' !! current s' = Some r ∧ next_id s' = next_id s ∧
    current s' = length (filter (λ t, state t ≠ Finished) (take (current s) (tasks s))) ∧
    (∀ t, bt_get (allocs_of w') t =
       if decide (t ∈ id <$> filter (λ t, state t = Finished) (tasks s)) then None
       else bt_get (allocs_of w) t).
Proof.
  intros Hinv Hr Hst. unfold reap_finished_tasks.
  destruct (unload_all_ok w others (id <$> filter (λ t, state t = Finished) (tasks s)) Hinv)
    as (w' & -> & Hinv' & Hg'). cbn [mbind outcome_bind].
  pose proof (lookup_lt_Some _ _ _ Hr) as Hlt. unfold rust_assert.
  rewrite (proj2 (Nat.leb_le (current s) (length (tasks s)))) by lia. cbn [mbind outcome_bind].
  pose proof (filter_count_split (λ t, state t = Finished) (take (current s) (tasks s))) as Hsplit.
  rewrite length_take_le in Hsplit by lia.
  rewrite (proj2 (Nat.leb_le (length (filter (λ t, state t = Finished) (take (current s) (tasks s))))
             (current s))) by lia.
  pose proof (filter_lookup_count (λ t, state t ≠ Finished) (tasks s) (current s) r Hr Hst) as Hcur.
  assert (Hidx : (current s - length (filter (λ t, state t = Finished) (take (current s) (tasks s))))%nat
    = length (filter (λ t, state t ≠ Finished) (take (current s) (tasks s)))) by lia.
  rewrite Hidx. pose proof (lookup_lt_Some _ _ _ Hcur).
  rewrite (proj2 (Nat.leb_gt _ _)) by done. cbn [andb].
  eexists _, _. split; [done|]. by split_and!.
Qed.
End reap.

(** ** Invariants and what a scheduling step keeps *)

(** A task is executing: it alone is [Running]. *)
Definition active (s : Scheduler) (r : Task) : Prop :=
  tasks s !! current s = Some r ∧ state r = Running ∧ NoDup (id <$> tasks s) ∧
  ∀ j t, tasks s !! j = Some t → state t = Running → j = current s.

(** The executing task has given up the processor: no task is [Running]. *)
Definition parked (s : Scheduler) (r : Task) : Prop :=
  tasks s !! current s = Some r ∧ NoDup (id <$> tasks s) ∧
  Forall (λ t, state t ≠ Running) (tasks s).

(** From [l] to [l']: every task of [l'] is one of [l] with its identity, context
    and wake time, in the same state or woken by one of the tick readings [xs];
    no unfinished task disappears. *)
Definition keeps (xs : list Z) (l l' : list Task) : Prop :=
  (∀ t', t' ∈ l' → ∃ t, t ∈ l ∧ id t' = id t ∧ context t' = context t ∧ wake_at t' = wake_at t ∧
     (state t' = state t ∨
      state t = Sleeping ∧ state t' = Ready ∧ ∃ x, x ∈ xs ∧ wake_at t ≤ x)) ∧
  (∀ t, t ∈ l → state t ≠ Finished → ∃ t', t' ∈ l' ∧ id t' = id t).

Lemma keeps_refl xs l : keeps xs l l.
Proof. split; eauto 10. Qed.

Lemma keeps_weaken xs ys l l' : xs ⊆ ys → keeps xs l l' → keeps ys l l'.
Proof.
  intros Hsub [H1 H2]. split; [|done]. intros t' Ht'.
  destruct (H1 t' Ht') as (t & ? & ? & ? & ? & Hs). exists t. split_and!; [done..|].
  destruct Hs as [?|(? & ? & x & ? & ?)]; [by left|right]. eauto 10.
Qed.

Lemma keeps_unfinished xs l l' t t' :
  NoDup (id <$> l) → keeps xs l l' → t ∈ l → t' ∈ l' → id t' = id t → state t ≠ Finished →
  state t' ≠ Finished.
Proof.
  intros Hnd [H1 _] Ht Ht' Hid Hf. destruct (H1 t' Ht') as (u & Hu & Hidu & _ & _ & Hs).
  assert (u = t) as ->; [|destruct Hs as [->|(_ & -> & _)]; done].
  apply (NoDup_fmap_fst_inj ((λ t, (id t, t)) <$> l) (id t)).
  - rewrite <- list_fmap_compose. exact Hnd.
  - apply list_elem_of_fmap. exists u. split; [by rewrite <- Hidu, Hid|done].
  - apply list_elem_of_fmap. by exists t.
Qed.

Lemma keeps_trans xs l1 l2 l3 :
  NoDup (id <$> l1) → keeps xs l1 l2 → keeps xs l2 l3 → keeps xs l1 l3.
Proof.
  intros Hnd K1 K2. pose proof K1 as [H1 H2]. pose proof K2 as [H3 H4]. split.
  - intros t3 Ht3. destruct (H3 t3 Ht3) as (t2 & Ht2 & ? & ? & ? & Hs2).
    destruct (H1 t2 Ht2) as (t1 & Ht1 & ? & ? & ? & Hs1). exists t1.
    split_and!; [done|congruence..|]. destruct Hs2 as [->|(Hs2 & Hs3 & x & ? & ?)]; [done|].
    destruct Hs1 as [Hs1|(? & ? & _)]; [|congruence].
    right. split_and!; [congruence|done|]. exists x. split; [done|]. congruence.
  - intros t1 Ht1 Hf. destruct (H2 t1 Ht1 Hf) as (t2 & Ht2 & Hid).
    destruct (H4 t2 Ht2) as (t3 & ? & ?); [by eapply keeps_unfinished|].
    exists t3. split; [done|congruence].
Qed.

Lemma wake_task_id now t : id (wake_task now t) = id t.
Proof. unfold wake_task. by case_bool. Qed.

Lemma wake_ids now (l : list Task) : id <$> (wake_task now <$> l) = id <$> l.
Proof. rewrite <- list_fmap_compose. apply list_fmap_ext. intros i t _. apply wake_task_id. Qed.

Lemma keeps_wake now (l : list Task) : keeps [now] l (wake_task now <$> l).
Proof.
  split.
  - intros t' (t & -> & Ht)%list_elem_of_fmap. exists t. unfold wake_task, is_state.
    destruct (bool_decide (state t = Sleeping) && (wake_at t <=? now)) eqn:E; [|auto 10].
    apply andb_true_iff in E as [E1%bool_decide_eq_true E2%Z.leb_le]. cbn.
    split_and!; [done..|]. right. split_and!; [done..|]. exists now. split; [|done].
    by apply list_elem_of_singleton.
  - intros t Ht _. exists (wake_task now t). split; [by apply list_elem_of_fmap_2|apply wake_task_id].
Qed.

Lemma wake_not_running now l :
  Forall (λ t, state t ≠ Running) l → Forall (λ t, state t ≠ Running) (wake_task now <$> l).
Proof.
  intros HF. apply Forall_fmap. eapply Forall_impl; [exact HF|].
  intros t Ht. unfold wake_task, compose. by case_bool.
Qed.

Lemma wake_parked s r now :
  parked s r → parked (wake_sleeping_tasks s now) (wake_task now r).
Proof.
  intros (Hr & Hnd & Hnr). unfold wake_sleeping_tasks, parked. cbn.
  rewrite list_lookup_fmap, Hr, wake_ids. split_and!; [done..|]. by apply wake_not_running.
Qed.

Lemma keeps_reap xs l : keeps xs l (filter (λ t, state t ≠ Finished) l).
Proof.
  split.
  - intros t [_ Ht]%list_elem_of_filter. eauto 10.
  - intros t Ht Hf. exists t. split; [by apply list_elem_of_filter|done].
Qed.

(** Same tasks at the same indices, and the same ones finished. *)
Definition same_life (l l' : list Task) : Prop :=
  Forall2 (λ t t', id t' = id t ∧ (state t' = Finished ↔ state t = Finished)) l l'.
Lemma same_life_filter l l' :
  same_life l l' →
  id <$> filter (λ t, state t ≠ Finished) l' = id <$> filter (λ t, state t ≠ Finished) l ∧
  id <$> filter (λ t, state t = Finished) l' = id <$> filter (λ t, state t = Finished) l.
Proof.
  induction 1 as [|t t' l l' [Hid Hst] _ [IH1 IH2]]; [done|]. rewrite !filter_cons.
  split; repeat destruct (decide _); try tauto; cbn; congruence.
Qed.
Lemma same_life_wake now l : same_life l (wake_task now <$> l).
Proof.
  unfold same_life. rewrite Forall2_fmap_r. apply Forall_Forall2_diag, Forall_forall. intros t _.
  split; [apply wake_task_id|]. unfold wake_task, is_state.
  destruct (bool_decide_reflect (state t = Sleeping)) as [Hs|]; [|done].
  destruct (wake_at t <=? now); cbn; [rewrite Hs|]; done.
Qed.
Lemma filter_all_eq (P : Task → Prop) `{∀ t, Decision (P t)} l : Forall P l → filter P l = l.
Proof. induction 1 as [|t l Ht _ IH]; [done|]. by rewrite filter_cons_True, IH. Qed.

(** A task that sleeps after waking at [now] has a wake time after it. *)
Lemma wake_late now l : Forall (λ t, state t = Sleeping → now < wake_at t) (wake_task now <$> l).
Proof.
  apply Forall_fmap, Forall_forall. intros t _. unfold compose, wake_task, is_state.
  destruct (bool_decide_reflect (state t = Sleeping)), (Z.leb_spec (wake_at t) now); cbn; try done; lia.
Qed.

(** ** Switching *)

(** The list after switching from [cur] to [idx] with registers [cpu] saved. *)
Definition switched_list (l : list Task) (cur idx : nat) (cpu : Context) : list Task :=
  alter (λ t, set_context t cpu) cur (alter (λ t, set_state t Running) idx l).

Lemma switched_lookup l cur idx cpu j :
  switched_list l cur idx cpu !! j =
    (λ t, let t1 := if decide (j = idx) then set_state t Running else t in
          if decide (j = cur) then set_context t1 cpu else t1) <$> l !! j.
Proof.
  unfold switched_list. destruct (decide (j = cur)) as [->|Hc].
  - rewrite list_lookup_alter_eq. destruct (decide (cur = idx)) as [->|].
    + rewrite list_lookup_alter_eq. by destruct (l !! idx).
    + rewrite list_lookup_alter_ne by done. by destruct (l !! cur).
  - rewrite list_lookup_alter_ne by done. destruct (decide (j = idx)) as [->|].
    + rewrite list_lookup_alter_eq. by destruct (l !! idx).
    + rewrite list_lookup_alter_ne by done. by destruct (l !! j).
Qed.

Lemma switched_ids l cur idx cpu : id <$> switched_list l cur idx cpu = id <$> l.
Proof.
  apply list_eq. intros j. rewrite !list_lookup_fmap, switched_lookup.
  destruct (l !! j); cbn; [|done]. by repeat destruct (decide _).
Qed.

(** The next task's registers: what was saved for it, or [cpu] for a task that
    switches to itself. *)
Lemma switch_to_spec s cpu idx r t :
  parked s r → tasks s !! idx = Some t →
  ∃ cpu', switch_to s cpu idx =
      Ret (mkScheduler (switched_list (tasks s) (current s) idx cpu) idx (next_id s) (idle_context s), cpu') ∧
    cpu' = if decide (idx = current s) then cpu else context t.
Proof.
  intros (Hr & _ & _) Ht. unfold switch_to. rewrite Ht.
  assert (Hins : <[idx := set_state t Running]> (tasks s) = alter (λ t, set_state t Running) idx (tasks s)).
  { apply list_eq. intros j. destruct (decide (j = idx)) as [->|].
    - rewrite list_lookup_insert_eq, list_lookup_alter_eq, Ht by (by eapply lookup_lt_Some). done.
    - by rewrite list_lookup_insert_ne, list_lookup_alter_ne. }
  rewrite Hins. set (l := alter _ idx (tasks s)).
  assert (is_Some (l !! current s)) as [r' Hr'].
  { unfold l. destruct (decide (current s = idx)) as [->|].
    - rewrite list_lookup_alter_eq, Ht. by eexists.
    - rewrite list_lookup_alter_ne by done. by exists r. }
  assert (l !! idx = Some (set_state t Running)) as Hidx.
  { unfold l. by rewrite list_lookup_alter_eq, Ht. }
  rewrite Hr', Hidx. unfold switch_context. eexists. split; [reflexivity|].
  change (alter (λ t, set_context t cpu) (current s) l)
    with (switched_list (tasks s) (current s) idx cpu).
  rewrite switched_lookup, Ht. cbn. repeat destruct (decide _); done.
Qed.

Definition is_sleeping (t : Task) : Prop := state t = Sleeping.

(** With no task ready, either some task sleeps or all are finished. *)
Lemma stuck_cases s r :
  parked s r → (∀ t, t ∈ tasks s → state t ≠ Ready) →
  has_sleeping_tasks s = true ∧ Exists is_sleeping (tasks s) ∧
    Forall (λ t, state t = Sleeping ∨ state t = Finished) (tasks s) ∨
  has_sleeping_tasks s = false ∧ has_living_tasks s = false ∧
    Forall (λ t, state t = Finished) (tasks s).
Proof.
  intros (_ & _ & Hnr) Hf. rewrite Forall_forall in Hnr.
  assert (HF : Forall (λ t, state t = Sleeping ∨ state t = Finished) (tasks s)).
  { apply Forall_forall. intros t Ht. specialize (Hf t Ht). specialize (Hnr t Ht).
    destruct (state t); auto; done. }
  unfold has_sleeping_tasks, has_living_tasks.
  destruct (existsb (is_state Sleeping) (tasks s)) eqn:Hs; [left|right]; split_and!; try done.
  - apply existsb_exists in Hs as (t & Ht%list_elem_of_In & Hst%bool_decide_eq_true).
    apply Exists_exists. by exists t.
  - apply not_true_is_false. intros (t & Ht & Hl)%existsb_exists.
    apply negb_true_iff, bool_decide_eq_false in Hl. rewrite Forall_forall in HF.
    destruct (HF t) as [Hsl|]; [by apply list_elem_of_In| |done].
    assert (existsb (is_state Sleeping) (tasks s) = true); [|congruence].
    apply existsb_exists. exists t. split; [done|by apply bool_decide_eq_true].
  - apply Forall_forall. intros t Ht. rewrite Forall_forall in HF.
    destruct (HF t Ht) as [Hsl|]; [|done]. assert (existsb (is_state Sleeping) (tasks s) = true); [|congruence].
    apply existsb_exists. exists t. split; [by apply list_elem_of_In|by apply bool_decide_eq_true].
Qed.

(** Same tasks at the same indices, and ready tasks stay ready. *)
Definition aligned (l l' : list Task) : Prop :=
  Forall2 (λ t t', id t' = id t ∧ (state t = Ready → state t' = Ready)) l l'.

Lemma aligned_refl l : aligned l l.
Proof. apply Forall_Forall2_diag, Forall_forall. done. Qed.
Lemma aligned_trans l1 l2 l3 : aligned l1 l2 → aligned l2 l3 → aligned l1 l3.
Proof.
  unfold aligned. intros H1. revert l3. induction H1 as [|t t' l1 l2 [? ?] _ IH]; intros l3 H2.
  - by inversion H2.
  - inversion H2 as [|? t'' ? l3' [? ?]]; subst. constructor; [|by apply IH].
    split; [congruence|auto].
Qed.
Lemma aligned_wake now l : aligned l (wake_task now <$> l).
Proof.
  unfold aligned. rewrite Forall2_fmap_r. apply Forall_Forall2_diag, Forall_forall. intros t _.
  split; [apply wake_task_id|]. unfold wake_task. by case_bool.
Qed.

(** How a call of the selection loop on [s] may end. *)
Definition loop_post (s : Scheduler) (cpu : Context) (readings : list Z) (r : Task)
    (s' : Scheduler) (cpu' : Context) (e : schedule_end) : Prop :=
  match e with
  | Switched =>
      ∃ s1 r1 t, parked s1 r1 ∧ id r1 = id r ∧ current s1 = current s ∧
        aligned (tasks s) (tasks s1) ∧
        keeps readings (tasks s) (tasks s1) ∧ find_next_ready s1 = Some (current s') ∧
        tasks s1 !! current s' = Some t ∧ state t = Ready ∧
        tasks s' = switched_list (tasks s1) (current s) (current s') cpu ∧
        cpu' = if decide (current s' = current s) then cpu else context t
  | AllFinished => s' = s ∧ Forall (λ t, state t = Finished) (tasks s')
  | Halted => keeps readings (tasks s) (tasks s') ∧ id <$> tasks s' = id <$> tasks s ∧
      Forall (λ t, state t = Sleeping ∨ state t = Finished) (tasks s') ∧
      Exists is_sleeping (tasks s') ∧
      Forall (λ t, state t = Sleeping → Forall (λ x, x < wake_at t) readings) (tasks s')
  | Spinning => False
  end.

(** Waking at [now] first and looping over the other readings. *)
Lemma loop_post_wake s cpu now readings r s' cpu' e :
  NoDup (id <$> tasks s) → Exists is_sleeping (tasks s) →
  loop_post (wake_sleeping_tasks s now) cpu readings (wake_task now r) s' cpu' e →
  loop_post s cpu (now :: readings) r s' cpu' e.
Proof.
  intros Hnd Hs He.
  assert (Hk : ∀ l, keeps readings (wake_task now <$> tasks s) l → keeps (now :: readings) (tasks s) l).
  { intros l Hk. eapply (keeps_trans _ _ (wake_task now <$> tasks s)); [done| |].
    - eapply keeps_weaken; [|apply keeps_wake]. intros x ->%list_elem_of_singleton.
      apply elem_of_cons. by left.
    - eapply keeps_weaken; [|exact Hk]. intros x ?. apply elem_of_cons. by right. }
  destruct e; [| | |done]; cbn in He |- *.
  - destruct He as (s1 & r1 & t & ? & Hid & ? & Hal & ? & ? & ? & ? & ? & ?).
    exists s1, r1, t. rewrite wake_task_id in Hid.
    split_and!; try done; [|by apply Hk]. eapply aligned_trans; [apply aligned_wake|exact Hal].
  - exfalso. destruct He as [-> He]. apply Exists_exists in Hs as (t & Ht & Hst).
    rewrite Forall_forall in He. specialize (He (wake_task now t) ltac:(by apply list_elem_of_fmap_2)).
    unfold wake_task, is_state in He. rewrite bool_decide_eq_true_2 in He by done. cbn in He.
    destruct (wake_at t <=? now); cbn in He; unfold is_sleeping in *; congruence.
  - destruct He as (Hke & Hids & ? & ? & Hlate). rewrite wake_ids in Hids.
    split_and!; [by apply Hk|done..|]. rewrite Forall_forall in *. intros t Ht Hst. constructor; [|by apply Hlate].
    destruct Hke as [Hback _]. destruct (Hback t Ht) as (u & Hu & _ & _ & Hwa & Hsu).
    destruct Hsu as [Hsu|(_ & ? & _)]; [|congruence].
    apply list_elem_of_fmap in Hu as (v & -> & Hv). rewrite Hwa.
    rewrite Hst in Hsu. clear -Hsu. unfold wake_task, is_state in *.
    destruct (bool_decide (state v = Sleeping) && (wake_at v <=? now)) eqn:E; cbn in *; [done|].
    rewrite bool_decide_eq_true_2 in E by done. cbn in E. blia.
Qed.

(** The selection loop from a parked state. *)
Lemma schedule_loop_spec s cpu readings r :
  parked s r →
  ∃ s' cpu' e, schedule_loop s cpu readings = Ret (s', cpu', e) ∧
    loop_post s cpu readings r s' cpu' e.
Proof.
  revert s r. induction readings as [|now readings IH]; intros s r Hp; pose proof Hp as (Hr & Hnd & Hnr);
    cbn [schedule_loop]; pose proof (find_next_ready_spec s (lookup_lt_Some _ _ _ Hr)) as Hf;
    destruct (find_next_ready s) as [idx|] eqn:Hfind.
  1, 3: destruct Hf as (t & Ht & Hrd & _);
    destruct (switch_to_spec s cpu idx r t Hp Ht) as (cpu' & -> & Hcpu); cbn;
    eexists _, _, Switched; (split; [done|]); exists s, r, t; cbn; subst;
    split_and!; try done; [apply aligned_refl|apply keeps_refl].
  - destruct (stuck_cases s r Hp Hf) as [(-> & Hex & HF)|(-> & -> & HF)].
    + exists s, cpu, Halted. split; [done|]. split_and!; [apply keeps_refl|done..|].
      apply Forall_forall. intros t _ _. constructor.
    + by exists s, cpu, AllFinished.
  - destruct (stuck_cases s r Hp Hf) as [(-> & Hex & HF)|(-> & -> & HF)].
    + destruct (IH (wake_sleeping_tasks s now) (wake_task now r)) as (s' & cpu' & e & -> & He).
      { by apply wake_parked. }
      exists s', cpu', e. split; [done|]. by apply loop_post_wake.
    + by exists s, cpu, AllFinished.
Qed.

(** ** Giving up the processor *)

(** The three ways in which the running task calls [schedule]. *)
Inductive op : Type := OYield | OSleep (ticks : Z) | OExit.
#[export] Instance op_eq_dec : EqDecision op.
Proof. solve_decision. Defined.

Definition apply_op (t0 : Z) (o : op) (t : Task) : Task :=
  match o with
  | OYield => set_state t Ready
  | OSleep ticks => set_state (set_wake_at t (u64 (t0 + ticks))) Sleeping
  | OExit => set_state t Finished
  end.

(** Context bookkeeping from [l] to [l']: the task [rid] has [cpu] saved, every
    other task its old context, and no unfinished task is lost. *)
Definition carried (cpu : Context) (rid : Z) (l l' : list Task) : Prop :=
  (∀ t', t' ∈ l' → ∃ t, t ∈ l ∧ id t' = id t ∧
     context t' = if id t =? rid then cpu else context t) ∧
  (∀ t, t ∈ l → state t ≠ Finished → ∃ t', t' ∈ l' ∧ id t' = id t).

Section ops.
Context {St : Type} `{RegionAllocator St}.
Implicit Types w : exec_state St.

Definition do_op (o : op) (cell : option Scheduler) w (cpu : Context) (t0 now : Z)
    (readings : list Z) : outcome (Scheduler * exec_state St * Context * schedule_end) :=
  match o with
  | OYield => yield_now cell w cpu now readings
  | OSleep ticks => sleep_ticks cell w cpu t0 ticks now readings
  | OExit => exit_task cell w cpu now readings
  end.

Lemma do_op_eq o s w cpu t0 now readings :
  do_op o (Some s) w cpu t0 now readings =
    schedule (update_current s (apply_op t0 o)) w cpu now readings.
Proof. by destruct o. Qed.

Lemma apply_op_id t0 o t : id (apply_op t0 o t) = id t ∧ context (apply_op t0 o t) = context t ∧
  state (apply_op t0 o t) ≠ Running.
Proof. by destruct o. Qed.

Lemma update_lookup s f j :
  tasks (update_current s f) !! j =
    (λ t, if decide (j = current s) then f t else t) <$> tasks s !! j.
Proof.
  unfold update_current. cbn. destruct (decide (j = current s)) as [->|].
  - rewrite list_lookup_alter_eq. done.
  - rewrite list_lookup_alter_ne by done. by destruct (tasks s !! j).
Qed.

Lemma update_parked s r t0 o :
  active s r → parked (update_current s (apply_op t0 o)) (apply_op t0 o r).
Proof.
  intros (Hr & Hst & Hnd & Huniq). destruct (apply_op_id t0 o r) as (Hid & _ & Hnr).
  split_and!.
  - rewrite update_lookup. cbn [current update_current set_tasks]. rewrite Hr. cbn.
    by rewrite decide_True.
  - replace (id <$> tasks (update_current s (apply_op t0 o))) with (id <$> tasks s); [done|].
    apply list_eq. intros j. rewrite !list_lookup_fmap, update_lookup.
    destruct (tasks s !! j) as [t|]; [|done]. cbn. destruct (decide (j = current s)); [|done].
    by rewrite (proj1 (apply_op_id t0 o t)).
  - apply Forall_lookup. intros j t. rewrite update_lookup.
    destruct (tasks s !! j) as [u|] eqn:Hj; cbn; [|done]. intros [= <-].
    destruct (decide (j = current s)) as [->|Hne]; [apply apply_op_id|].
    intros Hrun. by destruct (Hne (Huniq j u Hj Hrun)).
Qed.

Lemma prepare_spec s r w others now :
  parked s r → exec_inv w others →
  ∃ s1 w1 r1, schedule_prepare s w now = Ret (s1, w1) ∧ exec_inv w1 others ∧
    parked s1 r1 ∧ id r1 = id r ∧ keeps [now] (tasks s) (tasks s1) ∧
    if decide (state r = Finished) then s1 = wake_sleeping_tasks s now ∧ w1 = w
    else
      tasks s1 = filter (λ t, state t ≠ Finished) (wake_task now <$> tasks s) ∧
      current s1 = length (filter (λ t, state t ≠ Finished) (take (current s) (wake_task now <$> tasks s))) ∧
      ∀ i, bt_get (allocs_of w1) i =
        if decide (i ∈ id <$> filter (λ t, state t = Finished) (tasks s)) then None
        else bt_get (allocs_of w) i.
Proof.
  intros Hp Hinv. pose proof (wake_parked s r now Hp) as Hp1. pose proof Hp as (Hr & Hnd & _).
  pose proof Hp1 as (Hr1 & Hnd1 & Hnr1). unfold schedule_prepare. rewrite Hr1.
  assert (Hk1 : keeps [now] (tasks s) (tasks (wake_sleeping_tasks s now))) by apply keeps_wake.
  destruct (same_life_filter _ _ (same_life_wake now (tasks s))) as [_ Hfin].
  assert (Hrf : state (wake_task now r) = Finished ↔ state r = Finished).
  { unfold wake_task, is_state. destruct (bool_decide_reflect (state r = Sleeping)) as [E|]; [|done].
    destruct (wake_at r <=? now); cbn; rewrite ?E; done. }
  unfold is_state at 1. destruct (bool_decide_reflect (state (wake_task now r) = Finished)) as [Hf|Hf]; cbn [negb andb].
  { exists (wake_sleeping_tasks s now), w, (wake_task now r). rewrite decide_True by tauto.
    split_and!; try done. apply wake_task_id. }
  assert (HnF : state r ≠ Finished) by tauto.
  destruct (existsb (is_state Finished) _) eqn:E.
  - destruct (reap_spec _ w others _ Hinv Hr1 Hf) as (s' & w' & -> & Hinv' & Hl & Hr' & _ & Hc & Hal).
    exists s', w', (wake_task now r). rewrite decide_False by done. rewrite Hl.
    split_and!; try done.
    + split; [done|]. rewrite Hl. split.
      * eapply sublist_NoDup; [exact Hnd1|]. apply fmap_sublist, sublist_filter.
      * rewrite Forall_forall in *. intros t [_ Ht]%list_elem_of_filter. by apply Hnr1.
    + apply wake_task_id.
    + eapply keeps_trans; [done|exact Hk1|apply keeps_reap].
    + intros i. rewrite Hal. cbn [tasks wake_sleeping_tasks set_tasks]. by rewrite Hfin.
  - assert (HF : Forall (λ t, state t ≠ Finished) (wake_task now <$> tasks s)).
    { apply Forall_forall. intros t Ht Hst. apply not_true_iff_false in E. apply E, existsb_exists.
      exists t. split; [by apply list_elem_of_In|by apply bool_decide_eq_true]. }
    exists (wake_sleeping_tasks s now), w, (wake_task now r). rewrite decide_False by done.
    rewrite !filter_all_eq by (done || by apply Forall_take). split_and!; try done; [apply wake_task_id|..].
    + cbn. rewrite length_take, length_fmap. apply lookup_lt_Some in Hr. lia.
    + intros i. rewrite <- Hfin, decide_False; [done|]. intros (t & _ & [Hst Ht]%list_elem_of_filter)%list_elem_of_fmap.
      rewrite Forall_forall in HF. by apply (HF t).
Qed.

(** What a scheduling step leaves behind; [xs] are the readings of the timer.  Every
    task that does not run is in the state it was in, or woken because its time has
    come; no sleeper whose time had come sleeps on.  Unless the caller exits,
    exactly the finished tasks are gone, with all their memory. *)
Definition reschedule_post (s : Scheduler) (r : Task) w (cpu : Context) (t0 : Z) (o : op)
    (xs : list Z) (s' : Scheduler) w' (cpu' : Context) (e : schedule_end) : Prop :=
  let before := tasks (update_current s (apply_op t0 o)) in
  (∀ t', t' ∈ tasks s' → state t' ≠ Running →
     ∃ t, t ∈ before ∧ id t' = id t ∧ wake_at t' = wake_at t ∧
       (state t' = state t ∨ state t = Sleeping ∧ state t' = Ready ∧ ∃ x, x ∈ xs ∧ wake_at t ≤ x)) ∧
  Forall (λ t, state t = Sleeping → hd 0 xs < wake_at t) (tasks s') ∧
  (if decide (o = OExit) then id <$> tasks s' = id <$> tasks s ∧ w' = w
   else id <$> tasks s' = id <$> filter (λ t, state t ≠ Finished) (tasks s) ∧
     ∀ i, bt_get (allocs_of w') i =
       if decide (i ∈ id <$> filter (λ t, state t = Finished) (tasks s)) then None
       else bt_get (allocs_of w) i) ∧
  match e with
  | Switched =>
      ∃ r', active s' r' ∧ cpu' = context r' ∧ carried cpu (id r) (tasks s) (tasks s') ∧
        ∃ t, t ∈ before ∧ id t = id r' ∧
          (state t = Ready ∨ state t = Sleeping ∧ ∃ x, x ∈ xs ∧ wake_at t ≤ x)
  | AllFinished => Forall (λ t, state t = Finished) (tasks s')
  | Halted => Forall (λ t, state t = Sleeping ∨ state t = Finished) (tasks s') ∧
      Exists is_sleeping (tasks s') ∧
      Forall (λ t, state t = Sleeping → Forall (λ x, x < wake_at t) (tail xs)) (tasks s')
  | Spinning => False
  end.

Lemma switched_active s1 r1 cur idx cpu t s' :
  parked s1 r1 → tasks s1 !! idx = Some t →
  tasks s' = switched_list (tasks s1) cur idx cpu → current s' = idx →
  ∃ r', active s' r' ∧ id r' = id t ∧ context r' = if decide (idx = cur) then cpu else context t.
Proof.
  intros (Hr1 & Hnd & Hnr) Ht Hl Hc. subst idx.
  eexists. split; [|split].
  - split_and!.
    + rewrite Hl, switched_lookup, Ht. cbn. by rewrite (decide_True (P := current s' = current s')).
    + by destruct (decide (current s' = cur)).
    + by rewrite Hl, switched_ids.
    + intros j u. rewrite Hl, switched_lookup. destruct (tasks s1 !! j) as [v|] eqn:Hj; cbn; [|done].
      intros [= <-] Hrun. destruct (decide (j = current s')) as [|Hne]; [done|exfalso].
      rewrite Forall_lookup in Hnr. apply (Hnr j v Hj). by destruct (decide (j = cur)).
  - by destruct (decide (current s' = cur)).
  - by destruct (decide (current s' = cur)).
Qed.

Lemma switched_carried s r t0 o s1 r1 idx cpu xs :
  active s r → parked s1 r1 → id r1 = id r →
  keeps xs (tasks (update_current s (apply_op t0 o))) (tasks s1) →
  carried cpu (id r) (tasks s) (switched_list (tasks s1) (current s1) idx cpu).
Proof.
  intros (Hr & Hst & Hnd & Huniq) (Hr1 & Hnd1 & Hnr) Hid [Hback Hfwd].
  assert (Hmem : ∀ u, u ∈ tasks (update_current s (apply_op t0 o)) →
            ∃ t, t ∈ tasks s ∧ id u = id t ∧ context u = context t).
  { intros u [j Hj]%list_elem_of_lookup. rewrite update_lookup in Hj.
    destruct (tasks s !! j) as [t|] eqn:Ht; cbn in Hj; simplify_eq.
    exists t. split; [by eapply list_elem_of_lookup_2|].
    destruct (decide (j = current s)); [|done]. by destruct (apply_op_id t0 o t) as (? & ? & _). }
  split.
  - intros t' [j Hj]%list_elem_of_lookup. rewrite switched_lookup in Hj.
    destruct (tasks s1 !! j) as [u|] eqn:Hu; cbn in Hj; simplify_eq.
    destruct (Hback u) as (v & Hv & Hidv & Hcv & _); [by eapply list_elem_of_lookup_2|].
    destruct (Hmem v Hv) as (t & Ht & Hidt & Hct). exists t. split; [done|].
    assert (Hidu : id u = id t) by congruence.
    assert (Hjr : j = current s1 ↔ id t = id r).
    { split; [intros ->; congruence|]. intros Heq.
      apply (NoDup_lookup (id <$> tasks s1) j (current s1) (id r) Hnd1);
        rewrite list_lookup_fmap, ?Hu, ?Hr1; cbn; congruence. }
    destruct (id t =? id r) eqn:E; bool_to_prop.
    + rewrite (decide_True (P := j = current s1)) by tauto. cbn. by destruct (decide (j = idx)).
    + rewrite (decide_False (P := j = current s1)) by tauto.
      destruct (decide (j = idx)); cbn; split; congruence.
  - intros t [j Hj]%list_elem_of_lookup Hf.
    assert (Hin : id t ∈ id <$> tasks s1).
    { destruct (decide (j = current s)) as [->|Hne].
      - assert (t = r) as -> by congruence. rewrite <- Hid. apply list_elem_of_fmap_2.
        by eapply list_elem_of_lookup_2.
      - destruct (Hfwd t) as (t' & Ht' & <-); [|done|by apply list_elem_of_fmap_2].
        apply (list_elem_of_lookup_2 _ j). rewrite update_lookup, Hj. cbn. by rewrite decide_False. }
    rewrite <- (switched_ids _ (current s1) idx cpu) in Hin.
    apply list_elem_of_fmap in Hin as (t' & ? & ?). by exists t'.
Qed.

(** What the selection loop does to the tasks that do not run. *)
Lemma loop_frame s cpu readings r s' cpu' e :
  loop_post s cpu readings r s' cpu' e →
  id <$> tasks s' = id <$> tasks s ∧
  ∀ t', t' ∈ tasks s' → state t' ≠ Running →
    ∃ t, t ∈ tasks s ∧ id t' = id t ∧ wake_at t' = wake_at t ∧
      (state t' = state t ∨ state t = Sleeping ∧ state t' = Ready ∧ ∃ x, x ∈ readings ∧ wake_at t ≤ x).
Proof.
  destruct e; cbn; [| | |done].
  - intros (s1 & r1 & t & _ & _ & _ & Hal & [Hback _] & _ & _ & _ & -> & _). split.
    + rewrite switched_ids. clear -Hal. induction Hal as [|u u' l l' [? _] _ IH]; [done|]. cbn. congruence.
    + intros t' [j Hj]%list_elem_of_lookup Hnr. rewrite switched_lookup in Hj.
      destruct (tasks s1 !! j) as [u|] eqn:Hu; cbn in Hj; simplify_eq.
      destruct (Hback u) as (v & Hv & ? & _ & ? & Hs); [by eapply list_elem_of_lookup_2|]. exists v.
      destruct (decide (j = current s')); [by destruct (decide (j = current s))|].
      destruct (decide (j = current s)); by split_and!.
  - intros [-> _]. split; [done|]. intros t' Ht' _. exists t'. auto.
  - intros ([Hback _] & ? & _). split; [done|]. intros t' Ht' _.
    destruct (Hback t' Ht') as (v & ? & ? & _ & ? & ?). by exists v.
Qed.

Lemma same_life_update s r t0 o :
  active s r → o ≠ OExit → same_life (tasks s) (tasks (update_current s (apply_op t0 o))).
Proof.
  intros (Hr & Hst & _ & _) Ho. apply Forall2_same_length_lookup_2.
  { cbn. by rewrite length_alter. }
  intros j t t' Hj. rewrite update_lookup, Hj. cbn. intros [= <-].
  destruct (decide (j = current s)) as [->|]; [|done]. rewrite Hr in Hj. injection Hj as <-.
  split; [apply apply_op_id|]. rewrite Hst. by destruct o.
Qed.

Lemma update_ids s t0 o : id <$> tasks (update_current s (apply_op t0 o)) = id <$> tasks s.
Proof.
  apply list_eq. intros j. rewrite !list_lookup_fmap, update_lookup.
  destruct (tasks s !! j) as [t|]; [|done]. cbn. destruct (decide (j = current s)); [|done].
  by rewrite (proj1 (apply_op_id t0 o t)).
Qed.

(** Two steps in a row: preparing, then the selection loop. *)
Lemma frame_trans now readings l l1 t1 t' :
  keeps [now] l l1 → t1 ∈ l1 → id t' = id t1 → wake_at t' = wake_at t1 →
  (state t' = state t1 ∨ state t1 = Sleeping ∧ state t' = Ready ∧ ∃ x, x ∈ readings ∧ wake_at t1 ≤ x) →
  ∃ t, t ∈ l ∧ id t' = id t ∧ wake_at t' = wake_at t ∧
    (state t' = state t ∨ state t = Sleeping ∧ state t' = Ready ∧ ∃ x, x ∈ now :: readings ∧ wake_at t ≤ x).
Proof.
  intros [Hback _] Ht1 Hi1 Hw1 Hs1. destruct (Hback t1 Ht1) as (t & Ht & Hi & _ & Hw & Hs). exists t.
  split_and!; [done|congruence..|]. destruct Hs1 as [Hs1|(Hs1 & Hs1' & x & Hx & Hle)].
  - destruct Hs as [Hs|(Hs & Hs' & x & ->%list_elem_of_singleton & Hle)]; [left; congruence|right].
    split_and!; [done|congruence|]. exists now. split; [by apply elem_of_cons; left|done].
  - destruct Hs as [Hs|(_ & ? & _)]; [|congruence]. right. split_and!; [congruence|done|].
    exists x. split; [by apply elem_of_cons; right|congruence].
Qed.

Lemma loop_ended s r t0 o s1 cpu now readings r1 s' cpu' e :
  active s r → id r1 = id r →
  keeps [now] (tasks (update_current s (apply_op t0 o))) (tasks s1) →
  NoDup (id <$> tasks (update_current s (apply_op t0 o))) →
  loop_post s1 cpu readings r1 s' cpu' e →
  match e with
  | Switched =>
      ∃ r', active s' r' ∧ cpu' = context r' ∧ carried cpu (id r) (tasks s) (tasks s') ∧
        ∃ t, t ∈ tasks (update_current s (apply_op t0 o)) ∧ id t = id r' ∧
          (state t = Ready ∨ state t = Sleeping ∧ ∃ x, x ∈ now :: readings ∧ wake_at t ≤ x)
  | AllFinished => Forall (λ t, state t = Finished) (tasks s')
  | Halted => Forall (λ t, state t = Sleeping ∨ state t = Finished) (tasks s') ∧
      Exists is_sleeping (tasks s') ∧
      Forall (λ t, state t = Sleeping → Forall (λ x, x < wake_at t) readings) (tasks s')
  | Spinning => False
  end.
Proof.
  intros Hact Hid1 Hk1 Hnd He.
  assert (Hk : ∀ l, keeps readings (tasks s1) l →
             keeps (now :: readings) (tasks (update_current s (apply_op t0 o))) l).
  { intros l Hk. eapply keeps_trans; [done| |].
    - eapply keeps_weaken; [|exact Hk1]. intros x ->%list_elem_of_singleton. apply elem_of_cons. by left.
    - eapply keeps_weaken; [|exact Hk]. intros x ?. apply elem_of_cons. by right. }
  destruct e; cbn in He |- *.
  - destruct He as (s2 & r2 & t & Hp2 & Hid2 & Hc2 & _ & Hk2 & _ & Ht & Hrd & Hl & Hcpu).
    rewrite <- Hc2 in Hl, Hcpu. rewrite Hid1 in Hid2. specialize (Hk _ Hk2).
    destruct (switched_active s2 r2 _ _ cpu t s' Hp2 Ht Hl eq_refl) as (r' & Hact' & Hid' & Hctx).
    exists r'. split_and!; [done|by rewrite Hcpu, Hctx| |].
    + rewrite Hl. eapply switched_carried; [done|exact Hp2|done|exact Hk].
    + destruct Hk as [Hback _]. destruct (Hback t) as (u & Hu & Hidu & _ & _ & Hsu).
      { by eapply list_elem_of_lookup_2. }
      exists u. split_and!; [done|congruence|]. destruct Hsu as [?|(? & _ & ?)]; [left; congruence|by right].
  - destruct He as [-> ?]. done.
  - by destruct He as (_ & _ & ? & ? & ?).
  - done.
Qed.

Lemma reschedule_ok o s r w others cpu t0 now readings :
  active s r → exec_inv w others →
  ∃ s' w' cpu' e, do_op o (Some s) w cpu t0 now readings = Ret (s', w', cpu', e) ∧
    exec_inv w' others ∧ reschedule_post s r w cpu t0 o (now :: readings) s' w' cpu' e.
Proof.
  intros Hact Hinv. rewrite do_op_eq. unfold schedule.
  pose proof (update_parked s r t0 o Hact) as Hp. pose proof Hp as (_ & Hnd & _).
  destruct (prepare_spec _ _ w others now Hp Hinv) as (s1 & w1 & r1 & -> & Hinv1 & Hp1 & Hid1 & Hk1 & Hreap).
  cbn [mbind outcome_bind].
  destruct (schedule_loop_spec s1 cpu readings r1 Hp1) as (s' & cpu' & e & -> & He).
  cbn [mbind outcome_bind]. exists s', w1, cpu', e. split; [done|]. split; [done|].
  destruct (loop_frame _ _ _ _ _ _ _ He) as [Hids Hframe].
  rewrite (proj1 (apply_op_id t0 o r)) in Hid1. unfold reschedule_post. split_and!.
  - intros t' Ht' Hnr. destruct (Hframe t' Ht' Hnr) as (t1 & Ht1 & Hi1 & Hw1 & Hs1).
    by eapply frame_trans.
  - apply Forall_forall. intros t' Ht' Hst. destruct (Hframe t' Ht') as (t1 & Ht1 & _ & -> & Hs1); [congruence|].
    destruct Hs1 as [Hs1|(_ & ? & _)]; [|congruence]. cbn [hd].
    pose proof (wake_late now (tasks (update_current s (apply_op t0 o)))) as HL. rewrite Forall_forall in HL.
    apply HL; [|congruence]. destruct (decide _); [by destruct Hreap as [-> _]|]. destruct Hreap as (E & _).
    rewrite E in Ht1. by apply list_elem_of_filter in Ht1 as [_ ?].
  - rewrite Hids. assert (Hof : state (apply_op t0 o r) = Finished ↔ o = OExit) by by destruct o.
    destruct (decide (o = OExit)) as [E|E].
    + rewrite decide_True in Hreap by tauto. destruct Hreap as [-> ->]. cbn.
      rewrite wake_ids. split; [apply (update_ids s t0)|done].
    + rewrite decide_False in Hreap by tauto. destruct Hreap as (-> & _ & Hal).
      destruct (same_life_filter _ _ (same_life_update s r t0 o Hact E)) as [HN HF].
      destruct (same_life_filter _ _ (same_life_wake now (tasks (update_current s (apply_op t0 o))))) as [HN' _].
      split; [by rewrite HN', HN|]. intros i. by rewrite Hal, HF.
  - by eapply loop_ended.
Qed.

Lemma reschedule_active o s r w others cpu t0 now readings s' w' cpu' :
  active s r → exec_inv w others →
  do_op o (Some s) w cpu t0 now readings = Ret (s', w', cpu', Switched) → ∃ r', active s' r'.
Proof.
  intros Ha Hi Hdo. destruct (reschedule_ok o s r w others cpu t0 now readings Ha Hi)
    as (s2 & w2 & cpu2 & e & Hdo2 & _ & Hpost).
  rewrite Hdo in Hdo2. simplify_eq. destruct Hpost as (_ & _ & _ & r' & ? & _). by exists r'.
Qed.

(** C7: when the running task yields, sleeps or exits, the scheduler saves the
    processor's registers in that task's own slot, even if finished tasks are
    reaped and indices shift in the same call, leaves every other saved context
    alone, and resumes a task that was ready or whose wake time has come, with
    exactly its saved registers; that task is then the only running one.  Every
    other task keeps its state, except that a sleeper whose wake time has come is
    ready; none wakes before.  Unless the caller exits, exactly the finished tasks
    are removed, with all memory recorded for them, and no other; when it exits,
    nothing is removed in this call.  It stays halted only while no reading of the
    timer has reached a wake time, never spins, and never panics. *)
Theorem reschedule_spec o s r w others cpu t0 now readings :
  active s r → exec_inv w others →
  ∃ s' w' cpu' e, do_op o (Some s) w cpu t0 now readings = Ret (s', w', cpu', e) ∧
    exec_inv w' others ∧ reschedule_post s r w cpu t0 o (now :: readings) s' w' cpu' e.
Proof.
  apply reschedule_ok.
Qed.

Lemma dist_closer n cur idx j :
  (cur < n)%nat → (idx < n)%nat → (j < n)%nat → (dist n cur idx < dist n cur j)%nat →
  (dist n idx j < dist n cur j)%nat ∧ j ≠ idx.
Proof.
  unfold dist. intros. destruct (Nat.ltb_spec cur idx), (Nat.ltb_spec cur j), (Nat.ltb_spec idx j); lia.
Qed.

Lemma dist_inj n cur i j :
  (cur < n)%nat → (i < n)%nat → (j < n)%nat → dist n cur i = dist n cur j → i = j.
Proof. intros Hc Hi Hj Heq. by rewrite <- (dist_index n cur i), Heq, dist_index. Qed.

(** Removing tasks brings those that stay no further apart. *)
Lemma filter_take_step (P : Task → Prop) `{∀ t, Decision (P t)} l a b t :
  (a < b)%nat → l !! a = Some t → P t →
  (length (filter P (take a l)) < length (filter P (take b l)) ≤ length (filter P (take a l)) + (b - a))%nat.
Proof.
  intros Hab Ha HP. pose proof (lookup_lt_Some _ _ _ Ha).
  replace b with (a + (b - a))%nat at 1 2 by lia.
  rewrite <- take_take_drop, filter_app, length_app, (drop_S _ _ _ Ha).
  destruct (b - a)%nat as [|k] eqn:E; [lia|]. cbn [take]. rewrite filter_cons_True by done. cbn [length].
  pose proof (length_filter P (take k (drop (S a) l))). rewrite length_take in *. lia.
Qed.
Lemma filter_dist (P : Task → Prop) `{∀ t, Decision (P t)} l c j r t :
  l !! c = Some r → P r → l !! j = Some t → P t → j ≠ c →
  let f n := length (filter P (take n l)) in
  f j ≠ f c ∧ (dist (length (filter P l)) (f c) (f j) ≤ dist (length l) c j)%nat.
Proof.
  intros Hc Hr Hj Ht Hne f. pose proof (lookup_lt_Some _ _ _ Hc) as Hcl. unfold dist.
  destruct (Nat.ltb_spec c j) as [Hlt|Hge].
  - pose proof (filter_take_step P l c j r Hlt Hc Hr) as Hs. fold (f c) (f j) in Hs.
    rewrite (proj2 (Nat.ltb_lt _ _)) by lia. lia.
  - pose proof (filter_take_step P l j c t ltac:(lia) Hj Ht) as Hs. fold (f c) (f j) in Hs.
    pose proof (filter_take_step P l c (length l) r Hcl Hc Hr) as Hn. rewrite firstn_all in Hn. fold (f c) in Hn.
    assert (f j ≤ j)%nat by (unfold f; etrans; [apply length_filter|rewrite length_take; lia]).
    rewrite (proj2 (Nat.ltb_ge _ _)) by lia. lia.
Qed.

(** Preparing keeps a ready task ready, and no further away than it was. *)
Lemma prepare_progress s r w others now j t :
  parked s r → exec_inv w others → tasks s !! j = Some t → state t = Ready → j ≠ current s →
  ∃ s1 w1 r1 j1 t1, schedule_prepare s w now = Ret (s1, w1) ∧ parked s1 r1 ∧
    tasks s1 !! j1 = Some t1 ∧ id t1 = id t ∧ state t1 = Ready ∧ j1 ≠ current s1 ∧
    (dist (length (tasks s1)) (current s1) j1 ≤ dist (length (tasks s)) (current s) j)%nat.
Proof.
  intros Hp Hinv Hj Hst Hne. pose proof Hp as (Hr & _).
  assert (Hw : wake_task now t = t) by (unfold wake_task, is_state; by rewrite Hst).
  assert (Hj1 : (wake_task now <$> tasks s) !! j = Some t) by (rewrite list_lookup_fmap, Hj; cbn; by rewrite Hw).
  assert (Hr1 : (wake_task now <$> tasks s) !! current s = Some (wake_task now r)) by by rewrite list_lookup_fmap, Hr.
  destruct (prepare_spec s r w others now Hp Hinv) as (s1 & w1 & r1 & Hprep & _ & Hp1 & _ & _ & Hreap).
  destruct (decide (state r = Finished)) as [Hf|Hf].
  - destruct Hreap as [-> _]. exists (wake_sleeping_tasks s now), w1, r1, j, t. cbn. rewrite length_fmap. by split_and!.
  - destruct Hreap as (Hl & Hc & _). set (P := λ t, state t ≠ Finished) in *.
    assert (P t) as HPt by (unfold P; by rewrite Hst).
    assert (P (wake_task now r)) as HPr.
    { unfold P, wake_task. by case_bool. }
    destruct (filter_dist P _ _ _ _ _ Hr1 HPr Hj1 HPt Hne) as [Hne' Hd]. rewrite length_fmap in Hd.
    exists s1, w1, r1, (length (filter P (take j (wake_task now <$> tasks s)))), t. rewrite Hl, Hc.
    split_and!; try done. by apply filter_lookup_count.
Qed.

(** The selection loop resumes a ready task or brings it strictly closer. *)
Lemma loop_progress s cpu readings r s' cpu' j t :
  parked s r → tasks s !! j = Some t → state t = Ready → j ≠ current s →
  schedule_loop s cpu readings = Ret (s', cpu', Switched) →
  length (tasks s') = length (tasks s) ∧
  ∃ t', tasks s' !! j = Some t' ∧ id t' = id t ∧
    (current s' = j ∧ state t' = Running ∨
     (dist (length (tasks s)) (current s') j < dist (length (tasks s)) (current s) j)%nat ∧ state t' = Ready).
Proof.
  intros Hp Hj Hst Hjc Hdo. destruct (schedule_loop_spec s cpu readings r Hp) as (s2 & cpu2 & e & Hloop & He).
  rewrite Hloop in Hdo. simplify_eq. cbn in He.
  destruct He as (s3 & r3 & u & Hp3 & _ & Hc3 & Hal & _ & Hfind & Hu & Hrd & Hl & _).
  pose proof (Forall2_length _ _ _ Hal) as Hlen.
  destruct (Forall2_lookup_l _ _ _ _ _ Hal Hj) as (t3 & Hj3 & Hid3 & Hst3). specialize (Hst3 Hst).
  assert (Hlt3 : (current s3 < length (tasks s3))%nat) by (destruct Hp3 as (? & _); by eapply lookup_lt_Some).
  pose proof (find_next_ready_spec s3 Hlt3) as Hf. rewrite Hfind in Hf. destruct Hf as (_ & _ & _ & Hnear).
  split; [rewrite Hl; unfold switched_list; by rewrite !length_alter|].
  pose proof (switched_lookup (tasks s3) (current s) (current s') cpu j) as Hlook.
  rewrite Hj3 in Hlook. cbn in Hlook. rewrite (decide_False (P := j = current s)) in Hlook by done.
  eexists. split; [rewrite Hl; exact Hlook|].
  rewrite Hc3 in *. rewrite <- Hlen in *.
  destruct (decide (j = current s')) as [->|Hne]; cbn.
  { split; [done|]. by left. }
  split; [done|]. right. split; [|done].
  pose proof (lookup_lt_Some _ _ _ Hu) as Hlu. pose proof (lookup_lt_Some _ _ _ Hj3) as Hlj.
  rewrite <- Hlen in *. apply dist_closer; [done..|].
  destruct (Nat.lt_trichotomy (dist (length (tasks s)) (current s) (current s'))
              (dist (length (tasks s)) (current s) j)) as [?|[Heq|Hgt]]; [done| |].
  - apply dist_inj in Heq; [congruence|done..].
  - by destruct (Hnear j t3 Hj3 Hgt).
Qed.

(** One step of the running task: it yields, sleeps or exits, and finished tasks may
    be reaped; a ready task is resumed or gets strictly closer, and stays ready. *)
Lemma round_robin_progress o s r w others cpu t0 now readings s' w' cpu' j t :
  active s r → exec_inv w others → tasks s !! j = Some t → state t = Ready →
  do_op o (Some s) w cpu t0 now readings = Ret (s', w', cpu', Switched) →
  ∃ j' t', tasks s' !! j' = Some t' ∧ id t' = id t ∧
    (current s' = j' ∧ state t' = Running ∨
     (dist (length (tasks s')) (current s') j' < dist (length (tasks s)) (current s) j)%nat ∧ state t' = Ready).
Proof.
  intros Hact Hinv Hj Hst Hdo. rewrite do_op_eq in Hdo. unfold schedule in Hdo.
  pose proof (update_parked s r t0 o Hact) as Hp. pose proof Hact as (Hr & Hrun & _ & _).
  assert (Hjc : j ≠ current s) by (intros ->; congruence).
  destruct (prepare_progress _ _ w others now j t Hp Hinv) as (s1 & w1 & r1 & j1 & t1 & Hprep & Hp1 & Hj1 & Hid1 & Hst1 & Hne1 & Hd1);
    [|done|done|].
  { rewrite update_lookup, Hj. cbn. by rewrite decide_False. }
  rewrite Hprep in Hdo. cbn [mbind outcome_bind] in Hdo. unfold update_current in Hd1 at 1 2. cbn in Hd1.
  rewrite length_alter in Hd1.
  destruct (schedule_loop s1 cpu readings) as [[[s2 cpu2] e]| |] eqn:Hloop; cbn in Hdo; simplify_eq.
  destruct (loop_progress _ _ _ _ _ _ _ _ Hp1 Hj1 Hst1 Hne1 Hloop) as (Hlen & t' & Hj' & Hid' & Hpr).
  exists j1, t'. rewrite Hlen. split_and!; [done|congruence|]. destruct Hpr as [?|[? ?]]; [by left|right]. split; [lia|done].
Qed.

(** Tasks the running task spawns before it gives up the processor; the number
    counts those that were created. *)
Inductive spawns : nat → Scheduler → Scheduler → Prop :=
| spawns_none s : spawns 0 s s
| spawns_one tr s w nm entry arg s1 w1 res n s2 :
    spawn_raw tr s w nm entry arg = Ret (s1, w1, res) → spawns n s1 s2 →
    spawns ((if res is Some _ then 1 else 0) + n) s s2.

Lemma spawns_tasks n s s1 :
  spawns n s s1 → current s1 = current s ∧ ∃ new, tasks s1 = tasks s ++ new ∧ length new = n.
Proof.
  induction 1 as [s|tr s w nm entry arg s1 w1 res n s2 Hsp _ (Hc & new & Hl & Hn)].
  { split; [done|]. exists []. by rewrite app_nil_r. }
  unfold spawn_raw in Hsp. destruct (new_with_arg_raw _ _ _ _ _ _) as [[w' [t|]]| |]; cbn in Hsp; simplify_eq;
    cbn in Hc, Hl; (split; [done|]).
  - exists (t :: new). rewrite Hl, <- app_assoc. by split.
  - by exists new.
Qed.

(** A turn: the running task spawns [m] tasks, then yields, sleeps or exits, and
    another task (or itself) is resumed. *)
Definition turn (m : nat) (s s' : Scheduler) : Prop :=
  ∃ s1 o r r1 w others cpu t0 now readings w' cpu',
    active s r ∧ spawns m s s1 ∧ active s1 r1 ∧ exec_inv w others ∧
    do_op o (Some s1) w cpu t0 now readings = Ret (s', w', cpu', Switched).
Fixpoint turns (s : Scheduler) (l : list Scheduler) (m : nat) : Prop :=
  match l with
  | [] => m = 0%nat
  | s' :: l => ∃ a b, m = (a + b)%nat ∧ turn a s s' ∧ turns s' l b
  end.

Lemma turns_reach n : ∀ s l m j t,
  turns s l m → tasks s !! j = Some t → state t = Ready →
  (dist (length (tasks s)) (current s) j + m ≤ n)%nat → (n ≤ length l)%nat → (0 < n)%nat →
  ∃ k s' t', (k < n)%nat ∧ l !! k = Some s' ∧
    tasks s' !! current s' = Some t' ∧ id t' = id t ∧ state t' = Running.
Proof.
  induction n as [|n IH]; intros s l m j t Ht Hj Hst Hd Hn Hpos; [lia|].
  destruct l as [|s1 l]; [cbn in Hn; lia|]. destruct Ht as (a & b & -> & Hturn & Hts).
  destruct Hturn as (s0 & o & r & r1 & w & others & cpu & t0 & now & readings & w' & cpu' & Ha & Hsp & Ha1 & Hi & Hdo).
  destruct (spawns_tasks _ _ _ Hsp) as (Hc & new & Hl & Hnew).
  assert (Hd0 : (dist (length (tasks s0)) (current s0) j ≤ dist (length (tasks s)) (current s) j + a)%nat).
  { rewrite Hc, Hl, length_app. unfold dist. destruct (_ <? _)%nat; lia. }
  destruct (round_robin_progress o s0 r1 w others cpu t0 now readings s1 w' cpu' j t Ha1 Hi) as (j1 & t1 & Hj1 & Hid & Hpr);
    [by rewrite Hl; apply lookup_app_l_Some|done|done|].
  destruct Hpr as [[Hc1 Hrun]|[Hcl Hrd]].
  - exists 0%nat, s1, t1. rewrite Hc1. by split_and!; [lia|..].
  - destruct (reschedule_active _ _ _ _ _ _ _ _ _ _ _ _ Ha1 Hi Hdo) as (r2 & Hr2 & _).
    pose proof (dist_range _ _ _ (lookup_lt_Some _ _ _ Hr2) (lookup_lt_Some _ _ _ Hj1)).
    destruct (IH s1 l b j1 t1 Hts Hj1 Hrd) as (k & s' & t' & ? & ? & ? & ? & ?); [lia|cbn in Hn; lia|lia|].
    exists (S k), s', t'. split_and!; [lia|done..|congruence|done].
Qed.

(** C13: bounded waiting: with [n] tasks in the list, a ready task is resumed within
    [n + m] turns, where [m] is the number of tasks spawned in these turns; in
    each turn the task that runs may spawn tasks and then yields, sleeps or exits,
    and finished tasks may be reaped. *)
Theorem bounded_waiting s l m j t :
  turns s l m → tasks s !! j = Some t → state t = Ready → (length (tasks s) + m ≤ length l)%nat →
  ∃ k s' t', (k < length (tasks s) + m)%nat ∧ l !! k = Some s' ∧
    tasks s' !! current s' = Some t' ∧ id t' = id t ∧ state t' = Running.
Proof.
  intros Ht Hj Hst Hlen. pose proof (lookup_lt_Some _ _ _ Hj) as Hlt.
  destruct l as [|s1 l]; [cbn in Hlen; lia|]. pose proof Ht as (a & b & -> & Hturn & _).
  destruct Hturn as (s0 & o & r & r1 & w & others & cpu & t0 & now & readings & w' & cpu' & (Hr & _) & _).
  pose proof (dist_range _ _ _ (lookup_lt_Some _ _ _ Hr) Hlt).
  eapply (turns_reach (length (tasks s) + (a + b))); [exact Ht|done|done|lia|done|lia].
Qed.

(** ** Spawning *)

(** The registers and the stack a task starts with: [ret] pops the trampoline,
    which finds the entry point in r12 and the argument in r13; the stack is
    otherwise zero. *)
Definition fresh_task (trampoline i : Z) (nm : list Z) (entry arg : Z) (m m' : ram) (t : Task) : Prop :=
  id t = i ∧ tname t = nm ∧ state t = Ready ∧
  r12 (context t) = entry ∧ r13 (context t) = arg ∧
  rsp (context t) = stack_base t + STACK_SIZE - 8 ∧ (rsp (context t) + 8) mod 16 = 0 ∧
  peek_u64 m' (rsp (context t)) = trampoline ∧
  (∀ x, stack_base t ≤ x < rsp (context t) → m' x = 0) ∧
  (∀ x, 0 ≤ x < 18446744073709551616 →
     x < stack_base t ∨ stack_base t + STACK_SIZE ≤ x → m' x = m x).

Lemma new_with_arg_raw_ok trampoline w others i nm entry arg :
  exec_inv w others → bt_get (allocs_of w) i = None → 0 ≤ trampoline < 18446744073709551616 →
  ∃ w' r, new_with_arg_raw trampoline w i nm entry arg = Ret (w', r) ∧ exec_inv w' others ∧
    match r with
    | Some t =>
        fresh_task trampoline i nm entry arg (memory w) (memory w') t ∧
        bt_get (allocs_of w') i = Some (TaskAllocations_new (stack_base t) STACK_SIZE) ∧
        (∀ i', i' ≠ i → bt_get (allocs_of w') i' = bt_get (allocs_of w) i') ∧
        Forall (apart (reserve (stack_base t, STACK_SIZE))) (owned (allocs_of w) ++ others)
    | None => allocs_of w' = allocs_of w ∧ memory w' = memory w
    end.
Proof.
  intros (Hi & Hs & Hinv) Hnew Htr. unfold new_with_arg_raw.
  destruct (ra_allocate_ok (region w) _ STACK_SIZE Hinv) as (s' & r & -> & Hr). cbn [mbind outcome_bind].
  destruct r as [base|].
  2:{ subst. exists (set_region w (region w)), None. by split_and!. }
  destruct Hr as [Hinv' _]. unfold register_task_stack, registry_with. cbn [cell]. rewrite Hi.
  cbn [mbind outcome_bind rust_assert]. eexists _, (Some _). split; [done|].
  destruct (ra_live_pos _ _ base (ra_rounded STACK_SIZE) Hinv') as (? & ? & ? & Ha16).
  { apply elem_of_cons. by left. }
  pose proof (ra_rounded_ge STACK_SIZE ltac:(done)) as Hge. unfold STACK_SIZE in *.
  assert (Hsp : u64 (Z.land (u64 (base + 16 * 1024)) (not64 15) - 8) = base + 16 * 1024 - 8).
  { rewrite (u64_small (base + _)) by lia. change 15 with (Z.ones 4).
    rewrite land_not64_ones by lia. change (2 ^ 4) with 16.
    apply Z.mod_divide in Ha16 as [k ->]; [|lia].
    replace (k * 16 + 16 * 1024) with ((k + 1024) * 16) by lia. rewrite Z.div_mul by lia.
    rewrite u64_small; lia. }
  cbn [memory cell region]. split.
  - split_and!; [done|by apply bt_insert_sorted|]. cbn.
    eapply ra_inv_perm; [|exact Hinv']. unfold owned, allocs_of. cbn.
    rewrite (bt_insert_perm_new _ i) by done. done.
  - split_and!.
    + rewrite Hsp. split_and!; try done; cbn.
      * apply Z.mod_divide in Ha16 as [k ->]; [|lia].
        replace (k * 16 + 16 * 1024 - 8 + 8) with ((k + 1024) * 16) by lia. apply Z.mod_mul. lia.
      * apply peek_u64_poke; lia.
      * intros x Hx. rewrite poke_u64_out by lia. apply write_bytes_in; lia.
      * intros x Hx Hout. unfold STACK_SIZE in Hout. rewrite poke_u64_out by lia. apply write_bytes_out; lia.
    + cbn. unfold allocs_of in *. cbn. rewrite bt_get_insert by done. by rewrite Z.eqb_refl.
    + intros i' Hi'. unfold allocs_of in *. cbn. rewrite bt_get_insert by done.
      by rewrite (proj2 (Z.eqb_neq _ _)).
    + apply ra_live_apart in Hinv'. apply Hinv'.
Qed.

(** Spawning returns a fresh task identifier and appends one ready task whose
    first switch enters the trampoline with the entry point and argument, on a
    zeroed stack of its own, disjoint from every other block; or, without memory,
    adds no task. *)
Lemma spawn_spec trampoline s w others nm entry arg :
  exec_inv w others → 0 ≤ trampoline < 18446744073709551616 →
  NoDup (id <$> tasks s) → Forall (λ t, 0 ≤ id t < next_id s) (tasks s) →
  0 ≤ next_id s < 4294967295 → bt_get (allocs_of w) (next_id s) = None →
  ∃ s' w' r, spawn_raw trampoline s w nm entry arg = Ret (s', w', r) ∧ exec_inv w' others ∧
    NoDup (id <$> tasks s') ∧ Forall (λ t, 0 ≤ id t < next_id s') (tasks s') ∧
    current s' = current s ∧
    match r with
    | Some i => i = next_id s ∧ ∃ t, tasks s' = tasks s ++ [t] ∧
        fresh_task trampoline i nm entry arg (memory w) (memory w') t ∧
        Forall (apart (reserve (stack_base t, STACK_SIZE))) (owned (allocs_of w) ++ others)
    | None => tasks s' = tasks s
    end.
Proof.
  intros Hinv Htr Hnd HF Hn Hnew. unfold spawn_raw.
  destruct (new_with_arg_raw_ok trampoline w others (next_id s) nm entry arg Hinv Hnew Htr)
    as (w' & r & -> & Hinv' & Hr). cbn [mbind outcome_bind].
  assert (HF' : Forall (λ t, 0 ≤ id t < u32 (next_id s + 1)) (tasks s)).
  { eapply Forall_impl; [exact HF|]. cbn. intros t Ht. rewrite u32_small; lia. }
  destruct r as [t|]; (eexists _, w', _; split; [reflexivity|]; split; [done|]).
  - destruct Hr as (Hfresh & _ & _ & Hap). pose proof Hfresh as (Hid & _). cbn [tasks set_tasks next_id].
    split_and!; [| |done|done|by exists t].
    + rewrite fmap_app. apply NoDup_app. split_and!; [done| |apply NoDup_singleton].
      intros x (u & -> & Hu)%list_elem_of_fmap Hin%list_elem_of_singleton.
      rewrite Forall_forall in HF. specialize (HF _ Hu). lia.
    + apply Forall_app. split; [done|]. constructor; [|done]. rewrite Hid, u32_small by lia. lia.
  - by split_and!.
Qed.
End ops.

(** A concrete scheduler: task 1 is running, task 2 ready. *)
Definition demo_task (i : Z) (st : TaskState) : Task :=
  mkTask i [] st (mkContext 0 0 0 0 0 0 (1000 * i)) 0 STACK_SIZE 0.
Definition demo_sched : Scheduler :=
  mkScheduler [demo_task 1 Running; demo_task 2 Ready] 0 3 Context_default.
(** The same after task 1 yielded with the registers [Context_default]. *)
Definition demo_sched_2 : Scheduler :=
  mkScheduler [set_context (demo_task 1 Ready) Context_default; demo_task 2 Running] 1 3
    Context_default.

Lemma demo_sched_active : active demo_sched (demo_task 1 Running).
Proof.
  split_and!; [done|done|repeat constructor; set_solver|].
  intros [|[|j]] t Ht Hst; cbn in Ht; simplify_eq; done.
Qed.
Lemma demo_sched_2_active : active demo_sched_2 (demo_task 2 Running).
Proof.
  split_and!; [done|done|repeat constructor; set_solver|].
  intros [|[|j]] t Ht Hst; cbn in Ht; simplify_eq; done.
Qed.

Lemma reschedule_spec_witness :
  ∃ sp s' w' cpu' e, do_op (OSleep 5) (Some demo_sched) (demo_state sp) Context_default 10 10 [] =
    Ret (s', w', cpu', e) ∧ exec_inv w' [].
Proof.
  destruct demo_state_inv as [sp Hsp].
  destruct (reschedule_spec (OSleep 5) demo_sched (demo_task 1 Running) (demo_state sp) []
              Context_default 10 10 [] demo_sched_active Hsp) as (s' & w' & cpu' & e & H1 & H2 & _).
  exists sp, s', w', cpu', e. split; [exact H1|exact H2].
Defined.

(** Task 3 runs and exits; then task 2 runs and yields, which reaps task 3. *)
Definition demo_exit (st3 st2 : TaskState) (cur : nat) : Scheduler :=
  mkScheduler [set_context (demo_task 3 st3) Context_default; demo_task 2 st2] cur 4 Context_default.
Lemma demo_exit_active :
  active (demo_exit Running Ready 0) (set_context (demo_task 3 Running) Context_default) ∧
  active (demo_exit Finished Running 1) (demo_task 2 Running).
Proof.
  split; (split_and!; [done|done|repeat constructor; set_solver|];
    intros [|[|j]] t Ht Hst; cbn in Ht; simplify_eq; done).
Qed.

Lemma bounded_waiting_witness :
  ∃ s l k s' t', turns s l 0 ∧ l !! k = Some s' ∧ tasks s' !! current s' = Some t' ∧ id t' = 2.
Proof.
  destruct demo_state_inv as [sp Hsp]. destruct demo_exit_active as [H1 H2].
  set (c2 := mkContext 0 0 0 0 0 0 2000).
  set (l := [demo_exit Finished Running 1; mkScheduler [set_context (demo_task 2 Running) c2] 0 4 Context_default]).
  assert (Hturns : turns (demo_exit Running Ready 0) l 0).
  { exists 0%nat, 0%nat. split; [done|]. split; [|exists 0%nat, 0%nat; split; [done|split; [|done]]].
    - exists (demo_exit Running Ready 0), OExit. eexists _, _, (demo_state sp), [], Context_default, 0, 0, [], (demo_state sp), c2.
      split_and!; [exact H1|constructor|exact H1|exact Hsp|reflexivity].
    - exists (demo_exit Finished Running 1), OYield. eexists _, _, (demo_state sp), [], c2, 0, 0, [], (demo_state sp), c2.
      split_and!; [exact H2|constructor|exact H2|exact Hsp|reflexivity]. }
  destruct (bounded_waiting _ l 0 1 (demo_task 2 Ready) Hturns) as (k & s' & t' & _ & H3 & H4 & H5 & _);
    [reflexivity|reflexivity|cbn; lia|].
  eexists _, l, k, s', t'. split; [exact Hturns|]. split; [exact H3|]. split; [exact H4|exact H5].
Defined.
