(* ===== verification/NetBase.v ===== *)
(** Network substrate: bytes on the wire, fixed arrays, the network
    configuration ([src/net/mod.rs]), the transmit path of the NIC driver
    ([send] of [src/net/ne2000.rs]), and the state and monad of the stack. *)

From S2P Require Import Prelude.

(** ** Bytes and big-endian fields *)

Definition is_byte (b : Z) : Prop := 0 ≤ b < 256.
Definition bytes (l : list Z) : Prop := Forall is_byte l.

(** [u16::from_be_bytes], [u32::from_be_bytes] and their inverses *)
Definition be16 (a b : Z) : Z := a * 256 + b.
Definition be32 (a b c d : Z) : Z := ((a * 256 + b) * 256 + c) * 256 + d.
Definition to_be16 (v : Z) : list Z := [v / 256 mod 256; v mod 256].
Definition to_be32 (v : Z) : list Z :=
  [v / 16777216 mod 256; v / 65536 mod 256; v / 256 mod 256; v mod 256].

(** Indexing and slicing panic out of range: [l[i]], [u16::from_be_bytes([l[i],
    l[i + 1]])], [u32::from_be_bytes(...)], [&l[a..b]] and [&l[a..]]. *)
Definition index (l : list Z) (i : nat) : outcome Z :=
  match l !! i with Some b => Ret b | None => Panic end.
Definition get_be16 (l : list Z) (i : nat) : outcome Z :=
  a ← index l i; b ← index l (i + 1); Ret (be16 a b).
Definition get_be32 (l : list Z) (i : nat) : outcome Z :=
  a ← index l i; b ← index l (i + 1); c ← index l (i + 2); d ← index l (i + 3);
  Ret (be32 a b c d).
Definition get_slice (l : list Z) (a b : nat) : outcome (list Z) :=
  if (a <=? b)%nat && (b <=? length l)%nat then Ret (take (b - a) (drop a l)) else Panic.
Definition get_slice_from (l : list Z) (a : nat) : outcome (list Z) := get_slice l a (length l).

(** [buf[i] = v] and [buf[a..b].copy_from_slice(bs)]: both panic out of range, the
    second one also when the lengths differ. *)
Definition set_at (buf : list Z) (i : nat) (v : Z) : outcome (list Z) :=
  if (i <? length buf)%nat then Ret (<[i := v]> buf) else Panic.
Definition copy_in (buf : list Z) (a b : nat) (bs : list Z) : outcome (list Z) :=
  if (a <=? b)%nat && (b <=? length buf)%nat && (length bs =? b - a)%nat
  then Ret (list_inserts a bs buf) else Panic.

(** Their values in range, for specifications; also what a constant index of a
    fixed-size array yields, which the compiler checks. *)
Definition at_ (l : list Z) (i : nat) : Z := l !!! i.
Definition be16_at (l : list Z) (i : nat) : Z := be16 (at_ l i) (at_ l (i + 1)).
Definition be32_at (l : list Z) (i : nat) : Z :=
  be32 (at_ l i) (at_ l (i + 1)) (at_ l (i + 2)) (at_ l (i + 3)).
Definition sub_slice (l : list Z) (a b : nat) : list Z := take (b - a) (drop a l).
Definition blit (buf : list Z) (off : nat) (bs : list Z) : list Z := list_inserts off bs buf.

(** ** The network configuration: [CONFIG] of [src/net/mod.rs] *)
Definition CONFIG_ip : list Z := [10; 0; 2; 15].
Definition CONFIG_netmask : list Z := [255; 255; 255; 0].
Definition CONFIG_gateway : list Z := [10; 0; 2; 2].

(** ** State of the stack below TCP

    [struct ArpEntry] of [src/net/arp.rs] *)
Record ArpEntry : Type := mkArpEntry {
  e_ip : list Z;
  e_mac : list Z;
  e_timestamp : Z;
  e_valid : bool;
}.

(** The environment is adversarial: [clock] gives the value of each successive
    reading of [timer::ticks] and [tx_ready] says, for each successive call of
    [ne2000::send], whether the transmitter becomes idle in time.  [sent] are
    the frames handed to the transmitter, oldest first. *)
Record Net : Type := mkNet {
  mac : list Z;
  clock : nat → Z;
  reads : nat;
  tx_ready : nat → bool;
  attempts : nat;
  sent : list (list Z);
  arp_cache : list ArpEntry;
  ip_id : Z;
}.
Definition set_clock_read (n : Net) : Net :=
  mkNet (mac n) (clock n) (S (reads n)) (tx_ready n) (attempts n) (sent n) (arp_cache n) (ip_id n).
Definition set_attempt (n : Net) : Net :=
  mkNet (mac n) (clock n) (reads n) (tx_ready n) (S (attempts n)) (sent n) (arp_cache n) (ip_id n).
Definition set_sent (n : Net) (l : list (list Z)) : Net :=
  mkNet (mac n) (clock n) (reads n) (tx_ready n) (attempts n) l (arp_cache n) (ip_id n).
Definition set_arp_cache (n : Net) (l : list ArpEntry) : Net :=
  mkNet (mac n) (clock n) (reads n) (tx_ready n) (attempts n) (sent n) l (ip_id n).
Definition set_ip_id (n : Net) (i : Z) : Net :=
  mkNet (mac n) (clock n) (reads n) (tx_ready n) (attempts n) (sent n) (arp_cache n) i.

(** ** The monad: state and panics *)
Definition netM (A : Type) : Type := Net → outcome (Net * A).
#[global] Instance netM_ret : MRet netM := λ A a n, Ret (n, a).
#[global] Instance netM_bind : MBind netM := λ A B f m n,
  match m n with
  | Ret (n', a) => f a n'
  | Panic => Panic
  | Diverge => Diverge
  end.
Definition gets {A} (f : Net → A) : netM A := λ n, Ret (n, f n).
Definition modify (f : Net → Net) : netM unit := λ n, Ret (f n, tt).
Definition lift_outcome {A} (o : outcome A) : netM A := λ n, a ← o; Ret (n, a).

(** [timer::ticks()] *)
Definition ticks : netM Z := λ n, Ret (set_clock_read n, clock n (reads n)).

(** [ne2000::send]: too long a frame is refused; otherwise, once the transmitter
    is idle, the frame is padded with zeros to 60 bytes and transmitted. *)
Definition nic_send (data : list Z) : netM bool := λ n,
  if (1500 <? length data)%nat then Ret (n, false)
  else
    let n1 := set_attempt n in
    if negb (tx_ready n (attempts n)) then Ret (n1, false)
    else
      let len := if (length data <? 60)%nat then 60%nat else length data in
      let frame := data ++ replicate (len - length data) 0 in
      Ret (set_sent n1 (sent n1 ++ [frame]), true).

(** ** Lemmas *)

(** Arithmetic on lengths of concatenations; the constants of the packet formats
    are registered for unfolding. *)
Create HintDb sizes.
Lemma length_CONFIG_ip : length CONFIG_ip = 4%nat.
Proof. done. Qed.
Ltac solve_len :=
  unfold blit; repeat rewrite ?length_app, ?length_replicate, ?length_inserts, ?length_drop, ?length_take,
    ?length_CONFIG_ip;
  cbn [length to_be16 to_be32]; autounfold with sizes in *; lia.

Lemma netM_bind_Ret {A B} (m : netM A) (f : A → netM B) n n1 a :
  m n = Ret (n1, a) → (m ≫= f) n = f a n1.
Proof. intros H. unfold mbind, netM_bind. by rewrite H. Qed.

Lemma lift_Ret {A B} (a : A) (f : A → netM B) : (lift_outcome (Ret a) ≫= f) = f a.
Proof. reflexivity. Qed.

(** Accesses in range. *)
Lemma index_eq l i : (i < length l)%nat → index l i = Ret (at_ l i).
Proof.
  intros Hi. unfold index, at_. destruct (lookup_lt_is_Some_2 l i Hi) as [b Hb].
  by rewrite Hb, (list_lookup_total_correct _ _ _ Hb).
Qed.
Lemma get_be16_eq l i : (i + 1 < length l)%nat → get_be16 l i = Ret (be16_at l i).
Proof. intros. unfold get_be16. by rewrite !index_eq by lia. Qed.
Lemma get_be32_eq l i : (i + 3 < length l)%nat → get_be32 l i = Ret (be32_at l i).
Proof. intros. unfold get_be32. by rewrite !index_eq by lia. Qed.
Lemma get_slice_eq l a b : (a ≤ b ≤ length l)%nat → get_slice l a b = Ret (sub_slice l a b).
Proof.
  intros. unfold get_slice. by rewrite (proj2 (Nat.leb_le a b)), (proj2 (Nat.leb_le b _)) by lia.
Qed.
Lemma get_slice_to_eq l b : (b ≤ length l)%nat → get_slice l 0 b = Ret (take b l).
Proof. intros. rewrite get_slice_eq by lia. unfold sub_slice. by rewrite Nat.sub_0_r. Qed.
Lemma get_slice_from_eq l a : (a ≤ length l)%nat → get_slice_from l a = Ret (drop a l).
Proof.
  intros. unfold get_slice_from. rewrite get_slice_eq by lia. unfold sub_slice.
  by rewrite take_ge by (rewrite length_drop; lia).
Qed.
Lemma set_at_eq buf i v : (i < length buf)%nat → set_at buf i v = Ret (blit buf i [v]).
Proof. intros. unfold set_at. by rewrite (proj2 (Nat.ltb_lt _ _)). Qed.
Lemma copy_in_eq buf a b bs :
  (a + length bs)%nat = b → (b ≤ length buf)%nat → copy_in buf a b bs = Ret (blit buf a bs).
Proof.
  intros <- Hb. unfold copy_in.
  by rewrite (proj2 (Nat.leb_le a _)), (proj2 (Nat.leb_le _ (length buf))), (proj2 (Nat.eqb_eq _ _)) by lia.
Qed.

(** One step of a sequence of reads, or of writes into a buffer. *)
Ltac step_read :=
  first [rewrite index_eq by solve_len | rewrite get_be16_eq by solve_len
        | rewrite get_be32_eq by solve_len | rewrite get_slice_eq by solve_len];
  rewrite ?mbind_Ret.
Ltac step_write :=
  first [rewrite set_at_eq by solve_len | rewrite copy_in_eq by solve_len];
  first [rewrite mbind_Ret | rewrite lift_Ret].

Lemma be16_range a b : is_byte a → is_byte b → 0 ≤ be16 a b < 65536.
Proof. unfold is_byte, be16. lia. Qed.
Lemma be32_range a b c d :
  is_byte a → is_byte b → is_byte c → is_byte d → 0 ≤ be32 a b c d < 4294967296.
Proof. unfold is_byte, be32. lia. Qed.

Lemma to_be16_bytes v : bytes (to_be16 v).
Proof. repeat constructor; apply Z.mod_pos_bound; lia. Qed.
Lemma to_be32_bytes v : bytes (to_be32 v).
Proof. repeat constructor; apply Z.mod_pos_bound; lia. Qed.

Lemma to_be16_roundtrip v :
  0 ≤ v < 65536 → be16 (v / 256 mod 256) (v mod 256) = v.
Proof.
  intros. unfold be16.
  rewrite (Z.mod_small (v / 256)) by (split; [apply Z.div_pos|apply Z.div_lt_upper_bound]; lia).
  pose proof (Z.div_mod v 256). lia.
Qed.

Lemma to_be32_roundtrip v :
  0 ≤ v < 4294967296 →
  be32 (v / 16777216 mod 256) (v / 65536 mod 256) (v / 256 mod 256) (v mod 256) = v.
Proof.
  intros. unfold be32.
  replace 16777216 with (256 * 256 * 256) by done. replace 65536 with (256 * 256) by done.
  rewrite <- !Z.div_div by lia.
  assert (0 ≤ v / 256 < 16777216) by (split; [apply Z.div_pos|apply Z.div_lt_upper_bound]; lia).
  assert (0 ≤ v / 256 / 256 < 65536) by (split; [apply Z.div_pos|apply Z.div_lt_upper_bound]; lia).
  assert (0 ≤ v / 256 / 256 / 256 < 256) by (split; [apply Z.div_pos|apply Z.div_lt_upper_bound]; lia).
  rewrite (Z.mod_small (v / 256 / 256 / 256)) by lia.
  pose proof (Z.div_mod v 256). pose proof (Z.div_mod (v / 256) 256).
  pose proof (Z.div_mod (v / 256 / 256) 256). lia.
Qed.

Lemma bytes_app l1 l2 : bytes (l1 ++ l2) ↔ bytes l1 ∧ bytes l2.
Proof. apply Forall_app. Qed.
Lemma bytes_cons b l : bytes (b :: l) ↔ is_byte b ∧ bytes l.
Proof. apply Forall_cons. Qed.
Lemma bytes_nil : bytes [].
Proof. constructor. Qed.
Lemma bytes_take n l : bytes l → bytes (take n l).
Proof. apply Forall_take. Qed.
Lemma bytes_drop n l : bytes l → bytes (drop n l).
Proof. apply Forall_drop. Qed.
Lemma bytes_replicate n : bytes (replicate n 0).
Proof. apply Forall_replicate. unfold is_byte. lia. Qed.
Lemma bytes_at l i : bytes l → is_byte (at_ l i).
Proof.
  intros Hl. unfold at_. destruct (l !! i) as [b|] eqn:Hi.
  - rewrite (list_lookup_total_correct _ _ _ Hi). by eapply Forall_lookup_1.
  - rewrite list_lookup_total_alt, Hi. cbn. unfold is_byte. lia.
Qed.
Lemma be16_at_range l i : bytes l → 0 ≤ be16_at l i < 65536.
Proof. intros. apply be16_range; by apply bytes_at. Qed.
Lemma be32_at_range l i : bytes l → 0 ≤ be32_at l i < 4294967296.
Proof. intros. apply be32_range; by apply bytes_at. Qed.

(** A [copy_from_slice] into a buffer that is large enough. *)
Lemma blit_eq buf off bs :
  (off + length bs ≤ length buf)%nat →
  blit buf off bs = take off buf ++ bs ++ drop (off + length bs) buf.
Proof.
  intros Hlen. apply list_eq. intros i. unfold blit.
  destruct (decide (i < off)%nat).
  { rewrite list_lookup_inserts_lt by done. rewrite lookup_app_l by (rewrite length_take; lia).
    by rewrite lookup_take_lt by lia. }
  rewrite lookup_app_r, length_take_le by (rewrite ?length_take; lia).
  destruct (decide (i < off + length bs)%nat).
  - rewrite list_lookup_inserts by lia. by rewrite lookup_app_l by lia.
  - rewrite list_lookup_inserts_ge by lia. rewrite lookup_app_r, lookup_drop by lia.
    f_equal. lia.
Qed.
Lemma length_blit buf off bs : length (blit buf off bs) = length buf.
Proof. apply length_inserts. Qed.

(** Filling a zeroed array from the left, and overwriting a field. *)
Lemma blit_zeros pre n off bs :
  off = length pre → (length bs ≤ n)%nat →
  blit (pre ++ replicate n 0) off bs = (pre ++ bs) ++ replicate (n - length bs) 0.
Proof.
  intros -> Hn. rewrite blit_eq by (rewrite length_app, length_replicate; lia).
  rewrite take_app_length, drop_app_add, drop_replicate. by rewrite app_assoc.
Qed.
Lemma blit_field a b c off bs :
  off = length a → length bs = length b → blit (a ++ b ++ c) off bs = a ++ bs ++ c.
Proof.
  intros -> Hl. rewrite blit_eq by (rewrite !length_app; lia).
  rewrite take_app_length, drop_app_add. by rewrite drop_app_length'.
Qed.

(** Reads and slices of a concatenation. *)
Lemma sub_slice_app l1 l2 l3 a b :
  a = length l1 → b = (length l1 + length l2)%nat → sub_slice (l1 ++ l2 ++ l3) a b = l2.
Proof.
  intros -> ->. unfold sub_slice. rewrite drop_app_length.
  rewrite take_app_length' by lia. done.
Qed.
Lemma at_app_add l1 l2 k : at_ (l1 ++ l2) (length l1 + k) = at_ l2 k.
Proof.
  unfold at_. rewrite lookup_total_app_r by lia.
  by replace (length l1 + k - length l1)%nat with k by lia.
Qed.
Lemma at_app l1 b l2 i : i = length l1 → at_ (l1 ++ b :: l2) i = b.
Proof. intros ->. by rewrite <- (Nat.add_0_r (length l1)), at_app_add. Qed.
Lemma be16_at_app_add l1 l2 k : be16_at (l1 ++ l2) (length l1 + k) = be16_at l2 k.
Proof. unfold be16_at. by rewrite <- Nat.add_assoc, !at_app_add. Qed.
Lemma be16_at_app l1 v l2 i :
  i = length l1 → 0 ≤ v < 65536 → be16_at (l1 ++ to_be16 v ++ l2) i = v.
Proof.
  intros -> Hv. rewrite <- (Nat.add_0_r (length l1)), be16_at_app_add.
  by apply to_be16_roundtrip.
Qed.
Lemma be32_at_app l1 v l2 i :
  i = length l1 → 0 ≤ v < 4294967296 → be32_at (l1 ++ to_be32 v ++ l2) i = v.
Proof.
  intros -> Hv. unfold be32_at. rewrite !at_app_add, <- (Nat.add_0_r (length l1)), at_app_add.
  by apply to_be32_roundtrip.
Qed.

#[export] Hint Resolve bytes_nil to_be16_bytes to_be32_bytes bytes_take bytes_drop bytes_replicate
  bytes_at be16_at_range be32_at_range : ralph.
