(* ===== verification/Checksum.v ===== *)
(** The Internet checksum ([src/net/checksum.rs]).

    The folding loop runs with fuel 3: from a 32-bit accumulator its condition is
    false after at most two steps ([fold_loop_spec] shows that the result fits in
    16 bits, which is the loop's exit condition). *)

From S2P Require Import Prelude NetBase.

(** The summing loop of [internet_checksum] and [checksum_accumulate] *)
Fixpoint sum_loop (sum : Z) (data : list Z) : Z :=
  match data with
  | a :: b :: data => sum_loop (u32 (sum + be16 a b)) data
  | [a] => u32 (sum + Z.shiftl a 8)
  | [] => sum
  end.

(** [while sum >> 16 != 0 { sum = (sum & 0xFFFF) + (sum >> 16); }] *)
Fixpoint fold_loop (fuel : nat) (sum : Z) : Z :=
  match fuel with
  | O => sum
  | S fuel =>
      if Z.shiftr sum 16 =? 0 then sum
      else fold_loop fuel (u32 (Z.land sum 0xFFFF + Z.shiftr sum 16))
  end.

(** [!x] of a [u16] *)
Definition not16 (x : Z) : Z := 65535 - x.

Definition internet_checksum (data : list Z) : Z := not16 (u16 (fold_loop 3 (sum_loop 0 data))).
Definition checksum_accumulate (data : list Z) : Z := sum_loop 0 data.
Definition checksum_add_u16 (sum value : Z) : Z := u32 (sum + value).
Definition checksum_add_u32 (sum value : Z) : Z :=
  u32 (u32 (sum + Z.land (Z.shiftr value 16) 0xFFFF) + Z.land value 0xFFFF).
Definition fold_checksum (sum : Z) : Z := not16 (u16 (fold_loop 3 sum)).
Definition verify_checksum (data : list Z) : bool := fold_checksum (checksum_accumulate data) =? 0.

Definition tcp_udp_checksum (src_ip dst_ip : list Z) (protocol : Z) (data : list Z) : Z :=
  let sum := u32 (0 + be16_at src_ip 0) in
  let sum := u32 (sum + be16_at src_ip 2) in
  let sum := u32 (sum + be16_at dst_ip 0) in
  let sum := u32 (sum + be16_at dst_ip 2) in
  let sum := u32 (sum + protocol) in
  let sum := u32 (sum + u32 (Z.of_nat (length data))) in
  let sum := u32 (sum + checksum_accumulate data) in
  fold_checksum sum.

(** ** Reference: the plain sum of the 16-bit words, the last one padded *)
Fixpoint wsum (data : list Z) : Z :=
  match data with
  | a :: b :: data => be16 a b + wsum data
  | [a] => be16 a 0
  | [] => 0
  end.

(** Induction two elements at a time. *)
Lemma list_ind2 (P : list Z → Prop) :
  P [] → (∀ a, P [a]) → (∀ a b l, P l → P (a :: b :: l)) → ∀ l, P l.
Proof.
  intros H0 H1 H2. fix IH 1. intros [|a [|b l]]; [done|by apply H1|]. apply H2, IH.
Qed.

Lemma sum_loop_wsum data sum :
  0 ≤ sum < 4294967296 → sum_loop sum data = u32 (sum + wsum data).
Proof.
  revert sum. induction data as [|a|a b l IH] using list_ind2; intros sum Hs; cbn [sum_loop wsum].
  - by rewrite Z.add_0_r, u32_small.
  - unfold be16. by rewrite Z.shiftl_mul_pow2, Z.add_0_r by lia.
  - rewrite IH by apply u32_range. unfold u32.
    rewrite Zplus_mod_idemp_l. f_equal. lia.
Qed.

Lemma wsum_bounds data :
  bytes data → 0 ≤ wsum data ≤ 65535 * Z.of_nat (S (length data) / 2).
Proof.
  induction data as [|a|a b l IH] using list_ind2; intros Hb; cbn [wsum length].
  - cbn. lia.
  - apply Forall_cons in Hb as [Ha _]. unfold be16, is_byte in *. cbn. lia.
  - apply Forall_cons in Hb as [Ha [Hb Hl]%Forall_cons]. specialize (IH Hl).
    pose proof (be16_range a b Ha Hb).
    replace (S (S (S (length l)))) with (S (length l) + 1 * 2)%nat by lia.
    rewrite Nat.div_add by lia. lia.
Qed.

(** Up to 131070 bytes the accumulator does not overflow. *)
Lemma wsum_no_overflow data :
  bytes data → Z.of_nat (length data) ≤ 131070 → 0 ≤ wsum data ≤ 4294836225.
Proof.
  intros Hb Hl. pose proof (wsum_bounds data Hb) as Hw.
  rewrite Nat2Z.inj_div in Hw.
  assert (Z.of_nat (S (length data)) / 2 < 65536) by (apply Z.div_lt_upper_bound; lia).
  change (Z.of_nat 2) with 2 in Hw. lia.
Qed.

Lemma wsum_app l1 l2 : Nat.even (length l1) = true → wsum (l1 ++ l2) = wsum l1 + wsum l2.
Proof.
  induction l1 as [|a|a b l IH] using list_ind2; cbn; intros He; [lia|done|].
  rewrite IH by done. lia.
Qed.

Lemma bytes_wsum_zero data : bytes data → wsum data = 0 → Forall (λ b, b = 0) data.
Proof.
  induction data as [|a|a b l IH] using list_ind2; cbn [wsum]; intros Hb Hz; [done|..].
  - apply Forall_cons in Hb as [Ha _]. unfold be16, is_byte in *. repeat constructor. lia.
  - apply Forall_cons in Hb as [Ha [Hb Hl]%Forall_cons]. pose proof (wsum_bounds l Hl).
    unfold be16, is_byte in *. repeat constructor; [lia..|]. apply IH; [done|lia].
Qed.

(** One folding step keeps the residue modulo 65535. *)
Lemma fold_step_spec sum :
  0 ≤ sum < 4294967296 →
  let sum' := u32 (Z.land sum 0xFFFF + Z.shiftr sum 16) in
  sum' = sum - 65535 * (sum / 65536) ∧ 0 ≤ sum / 65536 < 65536.
Proof.
  intros Hs. cbn zeta. rewrite (Z.land_ones sum 16 ltac:(lia) : Z.land sum 0xFFFF = _).
  rewrite Z.shiftr_div_pow2 by lia.
  change (2 ^ 16) with 65536.
  pose proof (Z.div_mod sum 65536 ltac:(lia)). pose proof (Z.mod_pos_bound sum 65536 ltac:(lia)).
  assert (0 ≤ sum / 65536 < 65536) by (split; [apply Z.div_pos|apply Z.div_lt_upper_bound]; lia).
  rewrite u32_small by lia. lia.
Qed.

Lemma fold_loop_spec sum :
  0 ≤ sum < 4294967296 →
  ∃ k, 0 ≤ k ∧ fold_loop 3 sum = sum - 65535 * k ∧ 0 ≤ fold_loop 3 sum < 65536 ∧
    (fold_loop 3 sum = 0 → sum = 0).
Proof.
  intros Hs. cbn [fold_loop]. rewrite !Z.shiftr_div_pow2 by lia. change (2 ^ 16) with 65536.
  pose proof (fold_step_spec sum Hs) as [H1 Hd1]. cbn zeta in H1.
  rewrite Z.shiftr_div_pow2 in H1 by lia. change (2 ^ 16) with 65536 in H1.
  pose proof (Z.div_mod sum 65536 ltac:(lia)). pose proof (Z.mod_pos_bound sum 65536 ltac:(lia)).
  destruct (sum / 65536 =? 0) eqn:E; bool_to_prop.
  { exists 0. lia. }
  rewrite H1. set (s1 := sum - 65535 * (sum / 65536)) in *.
  pose proof (fold_step_spec s1 ltac:(lia)) as [H2 Hd2]. cbn zeta in H2.
  rewrite Z.shiftr_div_pow2 in H2 by lia. change (2 ^ 16) with 65536 in H2.
  pose proof (Z.div_mod s1 65536 ltac:(lia)). pose proof (Z.mod_pos_bound s1 65536 ltac:(lia)).
  destruct (s1 / 65536 =? 0) eqn:E2; bool_to_prop.
  { exists (sum / 65536). lia. }
  rewrite H2. set (s2 := s1 - 65535 * (s1 / 65536)) in *.
  assert (s1 / 65536 = 1) as E3 by lia.
  assert (s2 / 65536 = 0) as -> by (apply Z.div_small; lia). cbn [Z.eqb].
  exists (sum / 65536 + s1 / 65536). lia.
Qed.

Lemma fold_checksum_zero sum :
  0 ≤ sum < 4294967296 → fold_checksum sum = 0 ↔ sum mod 65535 = 0 ∧ sum ≠ 0.
Proof.
  intros Hs. unfold fold_checksum, not16.
  destruct (fold_loop_spec sum Hs) as (k & Hk & Heq & Hr & Hz).
  rewrite u16_small by lia. split.
  - intros H. split; [|lia]. rewrite <- (Z.mod_mul (k + 1) 65535) by lia. f_equal. lia.
  - intros [Hm Hne]. apply Z.mod_divide in Hm as [q Hq]; [|lia]. nia.
Qed.

Lemma fold_checksum_range sum : 0 ≤ sum < 4294967296 → 0 ≤ fold_checksum sum < 65536.
Proof.
  intros Hs. unfold fold_checksum, not16.
  destruct (fold_loop_spec sum Hs) as (k & Hk & Heq & Hr & Hz). rewrite u16_small by lia. lia.
Qed.

(** Adding the checksum of a sum to that sum gives a valid total. *)
Lemma fold_checksum_complement sum :
  0 ≤ sum < 4294967296 →
  (sum + fold_checksum sum) mod 65535 = 0 ∧ 0 < sum + fold_checksum sum.
Proof.
  intros Hs. unfold fold_checksum, not16.
  destruct (fold_loop_spec sum Hs) as (k & Hk & Heq & Hr & Hz). rewrite u16_small by lia.
  split; [|lia]. rewrite <- (Z.mod_mul (k + 1) 65535) by lia. f_equal. lia.
Qed.

(** ** Verification *)

Lemma verify_checksum_ok data :
  bytes data → Z.of_nat (length data) ≤ 131070 →
  verify_checksum data = true ↔ wsum data mod 65535 = 0 ∧ wsum data ≠ 0.
Proof.
  intros Hb Hl. pose proof (wsum_no_overflow data Hb Hl).
  unfold verify_checksum, checksum_accumulate.
  rewrite sum_loop_wsum, Z.add_0_l, u32_small, Z.eqb_eq by lia.
  apply fold_checksum_zero. lia.
Qed.

Lemma internet_checksum_eq data :
  bytes data → Z.of_nat (length data) ≤ 131070 →
  internet_checksum data = fold_checksum (wsum data).
Proof.
  intros Hb Hl. pose proof (wsum_no_overflow data Hb Hl). unfold internet_checksum, fold_checksum.
  by rewrite sum_loop_wsum, Z.add_0_l, u32_small by lia.
Qed.

(** Filling a zero checksum field at an even offset adds it to the sum. *)
Lemma wsum_fill l1 l2 v :
  Nat.even (length l1) = true → 0 ≤ v < 65536 →
  wsum (l1 ++ to_be16 v ++ l2) = wsum (l1 ++ [0; 0] ++ l2) + v.
Proof.
  intros He Hv. rewrite !wsum_app by done. cbn [to_be16 app wsum].
  rewrite to_be16_roundtrip by done. unfold be16. lia.
Qed.

Lemma checksum_fill_ok l1 l2 :
  bytes l1 → bytes l2 → Nat.even (length l1) = true → Z.of_nat (length l1 + length l2) ≤ 131068 →
  verify_checksum (l1 ++ to_be16 (internet_checksum (l1 ++ [0; 0] ++ l2)) ++ l2) = true.
Proof.
  intros H1 H2 He Hl.
  assert (Hb : bytes (l1 ++ [0; 0] ++ l2)).
  { rewrite !bytes_app. repeat split; try done. repeat constructor; unfold is_byte; lia. }
  pose proof (wsum_no_overflow _ Hb ltac:(rewrite !length_app; cbn; lia)) as Hw.
  rewrite internet_checksum_eq by (done || rewrite !length_app; cbn; lia).
  set (s := wsum (l1 ++ [0; 0] ++ l2)) in *.
  pose proof (fold_checksum_range s ltac:(lia)). pose proof (fold_checksum_complement s ltac:(lia)).
  apply verify_checksum_ok.
  - rewrite !bytes_app. repeat split; [done| |done]. apply to_be16_bytes.
  - rewrite !length_app. cbn. lia.
  - rewrite wsum_fill by done. fold s. lia.
Qed.

(** C33: a message whose 16-bit checksum field, at an even offset, is filled with
    the Internet checksum of the message with the field zero is accepted by
    [verify_checksum]; and a message so accepted is rejected after any change of
    one aligned 16-bit word to a value different modulo 65535. *)
Theorem checksum_detects l1 l2 :
  bytes l1 → bytes l2 → Nat.even (length l1) = true →
  Z.of_nat (length l1 + length l2) ≤ 131068 →
  let filled := l1 ++ to_be16 (internet_checksum (l1 ++ [0; 0] ++ l2)) ++ l2 in
  verify_checksum filled = true ∧
  ∀ m1 a b a' b' m2, filled = m1 ++ [a; b] ++ m2 → Nat.even (length m1) = true →
    is_byte a' → is_byte b' → be16 a b mod 65535 ≠ be16 a' b' mod 65535 →
    verify_checksum (m1 ++ [a'; b'] ++ m2) = false.
Proof.
  intros H1 H2 He Hl filled.
  assert (Hv : verify_checksum filled = true).
  { by apply checksum_fill_ok. }
  split; [done|]. intros m1 a b a' b' m2 Hf He' Ha Hb Hne.
  assert (Hbf : bytes filled).
  { unfold filled. rewrite !bytes_app. split_and!; [done|apply to_be16_bytes|done]. }
  assert (Hlf : Z.of_nat (length filled) ≤ 131070) by (unfold filled; rewrite !length_app; cbn; lia).
  apply verify_checksum_ok in Hv as [Hm _]; [|done..].
  rewrite Hf, !bytes_app in Hbf. destruct Hbf as (Hm1 & _ & Hm2).
  rewrite Hf, !length_app in Hlf. cbn in Hlf.
  apply not_true_iff_false. rewrite verify_checksum_ok.
  - intros [Hm' _]. rewrite Hf in Hm. rewrite !wsum_app in Hm, Hm' by done. cbn [wsum app] in Hm, Hm'.
    apply Hne. apply Z.mod_divide in Hm as [q Hq], Hm' as [q' Hq']; [|lia..].
    replace (be16 a b) with (be16 a' b' + (q - q') * 65535) by lia. by apply Z.mod_add.
  - rewrite !bytes_app. rewrite !bytes_cons. auto with ralph.
  - rewrite !length_app. cbn. lia.
Qed.

Lemma checksum_detects_witness :
  verify_checksum [0x45; 0; 0; 0x1c; 0xba; 0xe3] = true ∧
  verify_checksum [0x45; 0; 0; 0x1d; 0xba; 0xe3] = false.
Proof.
  split; [reflexivity|].
  destruct (checksum_detects [0x45; 0; 0; 0x1c] []) as [_ H];
    [repeat constructor; unfold is_byte; lia..|reflexivity|cbn; lia|].
  apply (H [0x45; 0] 0 0x1c 0 0x1d [0xba; 0xe3]); [reflexivity..| | |by vm_compute];
    unfold is_byte; lia.
Defined.

(** ** The TCP checksum with its pseudo-header *)

Definition pseudo_sum (src dst : list Z) (proto : Z) (n : nat) : Z :=
  be16_at src 0 + be16_at src 2 + be16_at dst 0 + be16_at dst 2 + proto + Z.of_nat n.

Lemma tcp_udp_checksum_eq src dst proto data :
  bytes src → bytes dst → is_byte proto → bytes data → Z.of_nat (length data) ≤ 65535 →
  0 ≤ pseudo_sum src dst proto (length data) + wsum data < 4294967296 ∧
  tcp_udp_checksum src dst proto data = fold_checksum (pseudo_sum src dst proto (length data) + wsum data).
Proof.
  intros Hs Hd Hp Hb Hl. unfold tcp_udp_checksum, pseudo_sum, checksum_accumulate.
  pose proof (be16_at_range src 0 Hs). pose proof (be16_at_range src 2 Hs).
  pose proof (be16_at_range dst 0 Hd). pose proof (be16_at_range dst 2 Hd). unfold is_byte in Hp.
  pose proof (wsum_bounds data Hb) as Hw. rewrite Nat2Z.inj_div in Hw. change (Z.of_nat 2) with 2 in Hw.
  assert (Z.of_nat (S (length data)) / 2 < 32769) by (apply Z.div_lt_upper_bound; lia).
  split; [lia|]. rewrite sum_loop_wsum by lia.
  repeat match goal with |- context [u32 ?x] =>
    lazymatch x with context [u32 _] => fail | _ => rewrite (u32_small x) by lia end end.
  by rewrite !Z.add_0_l.
Qed.

(** A segment whose checksum field is filled with its checksum verifies to 0. *)
Lemma tcp_checksum_fill src dst proto l1 l2 :
  bytes src → bytes dst → is_byte proto → bytes l1 → bytes l2 → Nat.even (length l1) = true →
  Z.of_nat (length l1 + length l2) ≤ 65533 →
  let ck := tcp_udp_checksum src dst proto (l1 ++ [0; 0] ++ l2) in
  0 ≤ ck < 65536 ∧ tcp_udp_checksum src dst proto (l1 ++ to_be16 ck ++ l2) = 0.
Proof.
  intros Hs Hd Hp H1 H2 He Hl ck.
  assert (Hb0 : bytes (l1 ++ [0; 0] ++ l2)).
  { rewrite !bytes_app, !bytes_cons. unfold is_byte. repeat split; auto with ralph; lia. }
  assert (Hb1 : bytes (l1 ++ to_be16 ck ++ l2)) by (rewrite !bytes_app; auto with ralph).
  destruct (tcp_udp_checksum_eq src dst proto _ Hs Hd Hp Hb0) as [Hr0 E0];
    [rewrite !length_app; cbn; lia|]. fold ck in E0.
  pose proof (fold_checksum_range _ Hr0) as Hck. rewrite <- E0 in Hck. split; [done|].
  destruct (tcp_udp_checksum_eq src dst proto _ Hs Hd Hp Hb1) as [Hr1 E1];
    [rewrite !length_app; cbn; lia|].
  rewrite E1. pose proof (fold_checksum_complement _ Hr0) as [Hm Hpos]. rewrite <- E0 in Hm, Hpos.
  apply fold_checksum_zero; [done|].
  replace (length (l1 ++ to_be16 ck ++ l2)) with (length (l1 ++ [0; 0] ++ l2)) by (rewrite !length_app; done).
  rewrite wsum_fill, Z.add_assoc by done. lia.
Qed.

(** ** Equivalence with RFC 1071

    The RFC's definition: the words added in ones' complement, each carry added back at
    once, and the sum complemented. *)
Definition oc_add (a b : Z) : Z := if 65535 <? a + b then a + b - 65535 else a + b.
Fixpoint words (data : list Z) : list Z :=
  match data with
  | a :: b :: data => be16 a b :: words data
  | [a] => [be16 a 0]
  | [] => []
  end.
Definition oc_sum (l : list Z) : Z := foldr oc_add 0 l.
Definition rfc1071 (data : list Z) : Z := 65535 - oc_sum (words data).
Definition pseudo_header (src dst : list Z) (proto : Z) (n : nat) : list Z :=
  src ++ dst ++ [0; proto] ++ to_be16 (Z.of_nat n).

Definition sumw (l : list Z) : Z := foldr Z.add 0 l.

Lemma oc_sum_spec l : Forall (λ w, 0 ≤ w < 65536) l →
  0 ≤ oc_sum l < 65536 ∧ oc_sum l mod 65535 = sumw l mod 65535 ∧ 0 ≤ sumw l ∧ (oc_sum l = 0 ↔ sumw l = 0).
Proof.
  induction 1 as [|w l Hw _ (IH1 & IH2 & IH3 & IH4)]; [cbn; lia|].
  cbn [oc_sum sumw foldr]. fold (oc_sum l) (sumw l). unfold oc_add.
  assert ((w + oc_sum l) mod 65535 = (w + sumw l) mod 65535) as Hm by (rewrite Z.add_mod, IH2, <- Z.add_mod; lia).
  destruct (Z.ltb_spec 65535 (w + oc_sum l)).
  - split; [lia|]. split; [|split; [lia|split; lia]].
    rewrite <- Hm. replace (w + oc_sum l - 65535) with (w + oc_sum l + -1 * 65535) by lia. by apply Z.mod_add.
  - split; [lia|]. split; [done|]. split; [lia|]. split; lia.
Qed.

(** A number below 2^16 is determined by its residue and by whether it is zero. *)
Lemma residue_unique a b : 0 ≤ a < 65536 → 0 ≤ b < 65536 → a mod 65535 = b mod 65535 → (a = 0 ↔ b = 0) → a = b.
Proof.
  intros Ha Hb Hm Hz. pose proof (Z.div_mod a 65535 ltac:(lia)). pose proof (Z.div_mod b 65535 ltac:(lia)).
  pose proof (Z.mod_pos_bound a 65535 ltac:(lia)). pose proof (Z.mod_pos_bound b 65535 ltac:(lia)). lia.
Qed.

Lemma fold_checksum_oc l : Forall (λ w, 0 ≤ w < 65536) l → sumw l < 4294967296 →
  fold_checksum (sumw l) = 65535 - oc_sum l.
Proof.
  intros Hl Hlt. destruct (oc_sum_spec l Hl) as (Hr & Hm & Hpos & Hz). unfold fold_checksum, not16.
  destruct (fold_loop_spec (sumw l) ltac:(lia)) as (k & Hk & Heq & Hfr & Hf0). rewrite u16_small by lia.
  f_equal. apply residue_unique; [done|done| |].
  - rewrite Hm, Heq. replace (sumw l - 65535 * k) with (sumw l + - k * 65535) by lia. by apply Z.mod_add.
  - split; [intros H; apply Hz, Hf0, H|intros H; apply Hz in H; lia].
Qed.

Lemma words_range data : bytes data → Forall (λ w, 0 ≤ w < 65536) (words data).
Proof.
  induction data as [|a|a b l IH] using list_ind2; cbn [words]; intros Hb; [constructor|..].
  - apply Forall_cons in Hb as [Ha _]. unfold be16, is_byte in *. repeat constructor; lia.
  - apply Forall_cons in Hb as [Ha [Hb Hl]%Forall_cons]. constructor; [unfold be16, is_byte in *; lia|auto].
Qed.
Lemma sumw_words data : sumw (words data) = wsum data.
Proof.
  induction data as [|a|a b l IH] using list_ind2; cbn [words wsum sumw foldr]; [done|lia|].
  fold (sumw (words l)). lia.
Qed.

(** C32: the checksums are those of RFC 1071.  Adding the words as 32-bit numbers and folding the
    carries at the end gives the same result as adding in ones' complement, for the
    Internet checksum and, with the addresses, protocol and length as a header in front of the
    data, for the checksum of TCP. *)
Theorem checksum_rfc1071 data :
  bytes data → Z.of_nat (length data) ≤ 65535 →
  internet_checksum data = rfc1071 data ∧
  ∀ src dst proto, bytes src → bytes dst → length src = 4%nat → length dst = 4%nat → is_byte proto →
    tcp_udp_checksum src dst proto data = rfc1071 (pseudo_header src dst proto (length data) ++ data).
Proof.
  intros Hb Hl. split.
  - rewrite internet_checksum_eq by (done || lia). unfold rfc1071. rewrite <- sumw_words.
    apply fold_checksum_oc; [by apply words_range|]. rewrite sumw_words. pose proof (wsum_no_overflow data Hb ltac:(lia)). lia.
  - intros src dst proto Hs Hd Hls Hld Hp.
    destruct (tcp_udp_checksum_eq src dst proto data Hs Hd Hp Hb Hl) as [Hr ->].
    destruct src as [|s0 [|s1 [|s2 [|s3 [|]]]]], dst as [|d0 [|d1 [|d2 [|d3 [|]]]]]; try done.
    assert (sumw (words (pseudo_header [s0; s1; s2; s3] [d0; d1; d2; d3] proto (length data) ++ data)) =
      pseudo_sum [s0; s1; s2; s3] [d0; d1; d2; d3] proto (length data) + wsum data) as E.
    { rewrite sumw_words. unfold pseudo_header, to_be16, pseudo_sum. cbn [app wsum].
      rewrite (to_be16_roundtrip (Z.of_nat (length data))) by lia.
      change (be16_at [s0; s1; s2; s3] 0) with (be16 s0 s1). change (be16_at [s0; s1; s2; s3] 2) with (be16 s2 s3).
      change (be16_at [d0; d1; d2; d3] 0) with (be16 d0 d1). change (be16_at [d0; d1; d2; d3] 2) with (be16 d2 d3).
      unfold be16. lia. }
    rewrite <- E in Hr |- *. unfold rfc1071. apply fold_checksum_oc; [|lia]. apply words_range.
    unfold pseudo_header. rewrite !bytes_app. split_and!; [done|done| |apply to_be16_bytes|done].
    apply Forall_cons. split; [unfold is_byte; lia|]. by apply Forall_singleton.
Qed.

Lemma checksum_rfc1071_witness :
  internet_checksum [0x45; 0; 0xFF; 0xFF; 7] = rfc1071 [0x45; 0; 0xFF; 0xFF; 7] ∧ rfc1071 [0x45; 0; 0xFF; 0xFF; 7] = 0xB3FF.
Proof.
  destruct (checksum_rfc1071 [0x45; 0; 0xFF; 0xFF; 7]) as [E _]; [repeat constructor; unfold is_byte; lia|cbn; lia|].
  split; [exact E|reflexivity].
Defined.
