(* ===== verification/Ethernet.v ===== *)
(** Ethernet II frames ([src/net/ethernet.rs]). *)

From S2P Require Import Prelude NetBase.

Definition HEADER_SIZE : nat := 14.
Definition MIN_FRAME_SIZE : nat := 60.
Definition MAX_FRAME_SIZE : nat := 1514.
Definition ETHERTYPE_IPV4 : Z := 0x0800.
Definition ETHERTYPE_ARP : Z := 0x0806.
#[export] Hint Unfold HEADER_SIZE MIN_FRAME_SIZE MAX_FRAME_SIZE : sizes.
Definition BROADCAST_MAC : list Z := [0xFF; 0xFF; 0xFF; 0xFF; 0xFF; 0xFF].

Record EthernetHeader : Type := mkEthernetHeader {
  dst_mac : list Z;
  src_mac : list Z;
  ethertype : Z;
}.

(** [EthernetHeader::parse] and [EthernetHeader::payload] *)
Definition parse (data : list Z) : outcome (option EthernetHeader) :=
  if (length data <? HEADER_SIZE)%nat then Ret None
  else
    dst_mac ← get_slice data 0 6;
    src_mac ← get_slice data 6 12;
    ethertype ← get_be16 data 12;
    Ret (Some (mkEthernetHeader dst_mac src_mac ethertype)).
Definition payload (data : list Z) : outcome (list Z) :=
  if (HEADER_SIZE <? length data)%nat then get_slice_from data HEADER_SIZE else Ret [].

Definition is_broadcast (h : EthernetHeader) : bool := bool_decide (dst_mac h = BROADCAST_MAC).
Definition is_for_us (our_mac : list Z) (h : EthernetHeader) : bool :=
  bool_decide (dst_mac h = our_mac) || bool_decide (dst_mac h = BROADCAST_MAC).

(** [build_frame], with the result of [ne2000::mac_address] *)
Definition build_frame (our_mac buffer dst : list Z) (ty : Z) : outcome (list Z * nat) :=
  if (length buffer <? HEADER_SIZE)%nat then Ret (buffer, 0%nat)
  else
    buffer ← copy_in buffer 0 6 dst;
    buffer ← copy_in buffer 6 12 our_mac;
    buffer ← copy_in buffer 12 14 (to_be16 ty);
    Ret (buffer, HEADER_SIZE).

Definition send_frame (dst : list Z) (ty : Z) (pl : list Z) : netM bool :=
  let frame_len := (HEADER_SIZE + length pl)%nat in
  if (MAX_FRAME_SIZE <? frame_len)%nat then mret false
  else
    our_mac ← gets mac;
    '(buffer, header_len) ← lift_outcome (build_frame our_mac (replicate MAX_FRAME_SIZE 0) dst ty);
    buffer ← lift_outcome (copy_in buffer header_len (header_len + length pl) pl);
    let send_len := Nat.max frame_len MIN_FRAME_SIZE in
    frame ← lift_outcome (get_slice buffer 0 send_len);
    nic_send frame.

(** ** What a frame says: the reads are all in range *)

Definition parsed (data : list Z) : option EthernetHeader :=
  if (length data <? HEADER_SIZE)%nat then None
  else Some (mkEthernetHeader (sub_slice data 0 6) (sub_slice data 6 12) (be16_at data 12)).
Definition payload_of (data : list Z) : list Z :=
  if (HEADER_SIZE <? length data)%nat then drop HEADER_SIZE data else [].
Lemma eth_parse_eq data : parse data = Ret (parsed data).
Proof.
  unfold parse, parsed. destruct (Nat.ltb_spec (length data) HEADER_SIZE); [done|]. by repeat step_read.
Qed.
Lemma eth_payload_eq data : payload data = Ret (payload_of data).
Proof.
  unfold payload, payload_of. destruct (Nat.ltb_spec HEADER_SIZE (length data)); [|done].
  apply get_slice_from_eq. lia.
Qed.

(** ** The frame on the wire *)

Definition frame_of (src dst : list Z) (ty : Z) (pl : list Z) : list Z :=
  (dst ++ src ++ to_be16 ty ++ pl) ++ replicate (MIN_FRAME_SIZE - (HEADER_SIZE + length pl)) 0.

(** Hand one frame to the transmitter. *)
Definition transmit (n : Net) (frame : list Z) : Net :=
  set_sent (set_attempt n) (sent n ++ [frame]).

Lemma nic_send_eq data n :
  (60 ≤ length data ≤ 1500)%nat →
  nic_send data n =
    Ret (if tx_ready n (attempts n) then (transmit n data, true) else (set_attempt n, false)).
Proof.
  intros Hl. unfold nic_send. rewrite (proj2 (Nat.ltb_ge 1500 _)), (proj2 (Nat.ltb_ge _ 60)) by lia.
  destruct (tx_ready n (attempts n)); cbn [negb]; [|done].
  by rewrite Nat.sub_diag, app_nil_r.
Qed.

(** [send_frame] on every branch. *)
Lemma send_frame_eq dst ty pl n :
  length (mac n) = 6%nat → length dst = 6%nat →
  send_frame dst ty pl n =
    Ret (if (1486 <? length pl)%nat then (n, false)
         else if tx_ready n (attempts n) then (transmit n (frame_of (mac n) dst ty pl), true)
         else (set_attempt n, false)).
Proof.
  intros Hm Hd. unfold send_frame.
  change HEADER_SIZE with 14%nat. destruct (Nat.ltb_spec MAX_FRAME_SIZE (14 + length pl)) as [Hl|Hl];
    unfold MAX_FRAME_SIZE in Hl.
  { by rewrite (proj2 (Nat.ltb_lt 1486 _)) by lia. }
  rewrite (netM_bind_Ret _ _ _ n (mac n)) by done. unfold build_frame.
  rewrite length_replicate, (proj2 (Nat.ltb_ge MAX_FRAME_SIZE HEADER_SIZE)) by solve_len.
  cbn beta iota zeta. change (replicate MAX_FRAME_SIZE 0) with ([] ++ replicate MAX_FRAME_SIZE 0).
  do 3 (step_write; rewrite blit_zeros by solve_len). rewrite lift_Ret.
  step_write; rewrite blit_zeros by solve_len. cbn [app].
  rewrite get_slice_to_eq, lift_Ret by solve_len.
  set (body := ((dst ++ mac n) ++ to_be16 ty) ++ pl).
  assert (Hb : length body = (14 + length pl)%nat) by (unfold body; solve_len).
  assert (Ht : take (Nat.max (14 + length pl) MIN_FRAME_SIZE)
      (body ++ replicate (MAX_FRAME_SIZE - length dst - length (mac n) - length (to_be16 ty) - length pl) 0)
    = frame_of (mac n) dst ty pl).
  { rewrite take_app_ge by lia. rewrite take_replicate. unfold frame_of, body.
    rewrite <- !app_assoc. do 5 f_equal. solve_len. }
  rewrite Ht. destruct (Nat.ltb_spec 1486 (length pl)).
  - unfold nic_send. rewrite (proj2 (Nat.ltb_lt 1500 _)); [done|]. unfold frame_of. solve_len.
  - apply nic_send_eq. unfold frame_of. solve_len.
Qed.

Lemma parse_frame_of src dst ty pl :
  length src = 6%nat → length dst = 6%nat → 0 ≤ ty < 65536 →
  parsed (frame_of src dst ty pl) = Some (mkEthernetHeader dst src ty).
Proof.
  intros Hs Hd Ht. unfold parsed, frame_of.
  rewrite (proj2 (Nat.ltb_ge _ HEADER_SIZE)) by solve_len. rewrite <- !app_assoc.
  do 2 f_equal.
  - apply (sub_slice_app []); done.
  - apply sub_slice_app; lia.
  - rewrite app_assoc. apply be16_at_app; [solve_len|done].
Qed.

Lemma payload_frame_of src dst ty pl :
  length src = 6%nat → length dst = 6%nat →
  payload_of (frame_of src dst ty pl) = pl ++ replicate (46 - length pl) 0.
Proof.
  intros Hs Hd. unfold payload_of, frame_of.
  rewrite (proj2 (Nat.ltb_lt HEADER_SIZE _)) by solve_len. rewrite <- !app_assoc.
  rewrite !(app_assoc _ _ (_ ++ _)). rewrite drop_app_length' by solve_len. done.
Qed.

Lemma frame_of_bytes src dst ty pl : bytes src → bytes dst → bytes pl → bytes (frame_of src dst ty pl).
Proof. intros. unfold frame_of. rewrite !bytes_app. auto with ralph. Qed.

(** [send_frame] transmits at most one frame.  It transmits one exactly when
    the payload has at most 1486 bytes and the transmitter is free, and reports
    this; the frame has between 60 and 1500 bytes, and parsing it gives the
    destination, our address, the EtherType and the payload, padded with zeros. *)
Lemma send_frame_spec dst ty pl n :
  length (mac n) = 6%nat → length dst = 6%nat → 0 ≤ ty < 65536 →
  ∃ n' ok, send_frame dst ty pl n = Ret (n', ok) ∧
    ok = (length pl <=? 1486)%nat && tx_ready n (attempts n) ∧
    arp_cache n' = arp_cache n ∧ ip_id n' = ip_id n ∧ mac n' = mac n ∧
    if ok then ∃ f, sent n' = sent n ++ [f] ∧ (60 ≤ length f ≤ 1500)%nat ∧
                 parse f = Ret (Some (mkEthernetHeader dst (mac n) ty)) ∧
                 payload f = Ret (pl ++ replicate (46 - length pl) 0)
    else sent n' = sent n.
Proof.
  intros Hm Hd Ht. rewrite send_frame_eq by done.
  destruct (Nat.ltb_spec 1486 (length pl)).
  { exists n, false. rewrite (proj2 (Nat.leb_gt _ _)) by lia. done. }
  rewrite (proj2 (Nat.leb_le (length pl) 1486)) by lia.
  destruct (tx_ready n (attempts n)) eqn:Hr; [|by exists (set_attempt n), false].
  eexists _, true. split_and!; [done..|]. exists (frame_of (mac n) dst ty pl).
  rewrite eth_parse_eq, eth_payload_eq, parse_frame_of, payload_frame_of by done.
  split_and!; try done; unfold frame_of; solve_len.
Qed.

(** A machine with the given readings of the clock, a transmitter that is always
    free, and an empty cache. *)
Definition demo_net (now : Z) : Net :=
  mkNet [0x52; 0x54; 0; 0x12; 0x34; 0x56] (λ _, now) 0 (λ _, true) 0 []
    (replicate 16 (mkArpEntry [0; 0; 0; 0] [0; 0; 0; 0; 0; 0] 0 false)) 0.

