(* ===== verification/Arp.v ===== *)
(** Address resolution ([src/net/arp.rs]): packets, the 16-entry cache with
    five-minute entries, and the resolver. *)

From S2P Require Import Prelude NetBase Ethernet.

Definition HEADER_SIZE : nat := 28.
#[export] Hint Unfold HEADER_SIZE : sizes.
Definition ARP_REQUEST : Z := 1.
Definition ARP_REPLY : Z := 2.
Definition HTYPE_ETHERNET : Z := 1.
Definition PTYPE_IPV4 : Z := 0x0800.
Definition HLEN_ETHERNET : Z := 6.
Definition PLEN_IPV4 : Z := 4.
Definition ARP_CACHE_SIZE : nat := 16.
Definition ARP_TIMEOUT_TICKS : Z := 5 * 60 * 100.

Definition ArpEntry_empty : ArpEntry := mkArpEntry [0; 0; 0; 0] [0; 0; 0; 0; 0; 0] 0 false.
Definition ARP_CACHE_initial : list ArpEntry := replicate ARP_CACHE_SIZE ArpEntry_empty.

Record ArpPacket : Type := mkArpPacket {
  htype : Z; ptype : Z; hlen : Z; plen : Z; operation : Z;
  sha : list Z; spa : list Z; tha : list Z; tpa : list Z;
}.

(** [ArpPacket::parse] *)
Definition parse (data : list Z) : outcome (option ArpPacket) :=
  if (length data <? HEADER_SIZE)%nat then Ret None
  else
    htype ← get_be16 data 0;
    ptype ← get_be16 data 2;
    hlen ← index data 4;
    plen ← index data 5;
    operation ← get_be16 data 6;
    if negb (htype =? HTYPE_ETHERNET) || negb (ptype =? PTYPE_IPV4) then Ret None
    else if negb (hlen =? HLEN_ETHERNET) || negb (plen =? PLEN_IPV4) then Ret None
    else
      sha ← get_slice data 8 14;
      spa ← get_slice data 14 18;
      tha ← get_slice data 18 24;
      tpa ← get_slice data 24 28;
      Ret (Some (mkArpPacket htype ptype hlen plen operation sha spa tha tpa)).

Definition is_for_our_ip (p : ArpPacket) : bool := bool_decide (tpa p = CONFIG_ip).

Definition build_packet (our_mac buffer : list Z) (op : Z) (target_mac target_ip : list Z) :
    outcome (list Z * nat) :=
  if (length buffer <? HEADER_SIZE)%nat then Ret (buffer, 0%nat)
  else
    buffer ← copy_in buffer 0 2 (to_be16 HTYPE_ETHERNET);
    buffer ← copy_in buffer 2 4 (to_be16 PTYPE_IPV4);
    buffer ← set_at buffer 4 HLEN_ETHERNET;
    buffer ← set_at buffer 5 PLEN_IPV4;
    buffer ← copy_in buffer 6 8 (to_be16 op);
    buffer ← copy_in buffer 8 14 our_mac;
    buffer ← copy_in buffer 14 18 CONFIG_ip;
    buffer ← copy_in buffer 18 24 target_mac;
    buffer ← copy_in buffer 24 28 target_ip;
    Ret (buffer, HEADER_SIZE).

(** [send_reply] and [send_request]; their log messages are not modelled. *)
Definition send_reply (dst_mac dst_ip : list Z) : netM unit :=
  our_mac ← gets mac;
  '(arp_data, _) ← lift_outcome (build_packet our_mac (replicate HEADER_SIZE 0) ARP_REPLY dst_mac dst_ip);
  _ ← send_frame dst_mac ETHERTYPE_ARP arp_data;
  mret tt.
Definition send_request (target_ip : list Z) : netM unit :=
  our_mac ← gets mac;
  let zero_mac := replicate 6 0 in
  '(arp_data, _) ← lift_outcome (build_packet our_mac (replicate HEADER_SIZE 0) ARP_REQUEST zero_mac target_ip);
  _ ← send_frame BROADCAST_MAC ETHERTYPE_ARP arp_data;
  mret tt.

(** ** The cache *)

(** [now.wrapping_sub(entry.timestamp) < ARP_TIMEOUT_TICKS] *)
Definition fresh (now : Z) (e : ArpEntry) : bool := u64 (now - e_timestamp e) <? ARP_TIMEOUT_TICKS.
Definition matches (ip : list Z) (e : ArpEntry) : Prop := e_valid e = true ∧ e_ip e = ip.

(** The loop of [lookup]: the first valid, unexpired entry for [ip]. *)
Definition lookup_entries (now : Z) (ip : list Z) (cache : list ArpEntry) : option (list Z) :=
  (λ x, e_mac (snd x)) <$> list_find (λ e, matches ip e ∧ fresh now e = true) cache.
Definition lookup (ip : list Z) : netM (option (list Z)) :=
  now ← ticks;
  gets (λ n, lookup_entries now ip (arp_cache n)).

(** The second loop of [update_cache]: the first empty slot or the oldest entry. *)
Fixpoint pick_slot (i oldest_idx : nat) (oldest_time : Z) (cache : list ArpEntry) : nat :=
  match cache with
  | [] => oldest_idx
  | e :: cache =>
      if negb (e_valid e) then i
      else if e_timestamp e <? oldest_time then pick_slot (S i) i (e_timestamp e) cache
      else pick_slot (S i) oldest_idx oldest_time cache
  end.

Definition update_entries (now : Z) (ip m : list Z) (cache : list ArpEntry) : list ArpEntry :=
  match list_find (matches ip) cache with
  | Some (i, e) => <[i := mkArpEntry (e_ip e) m now (e_valid e)]> cache
  | None => <[pick_slot 0 0 u64_max cache := mkArpEntry ip m now true]> cache
  end.
Definition update_cache (ip m : list Z) : netM unit :=
  now ← ticks;
  modify (λ n, set_arp_cache n (update_entries now ip m (arp_cache n))).

Definition expire_entry (now : Z) (e : ArpEntry) : ArpEntry :=
  if e_valid e && (ARP_TIMEOUT_TICKS <=? u64 (now - e_timestamp e))
  then mkArpEntry (e_ip e) (e_mac e) (e_timestamp e) false else e.
Definition expire_old_entries : netM unit :=
  now ← ticks;
  modify (λ n, set_arp_cache n (expire_entry now <$> arp_cache n)).

(** ** Receiving and resolving *)

Definition process_packet (data : list Z) : netM unit :=
  header ← lift_outcome (parse data);
  match header with
  | None => mret tt
  | Some arp =>
      _ ← update_cache (spa arp) (sha arp);
      if operation arp =? ARP_REQUEST then
        if is_for_our_ip arp then send_reply (sha arp) (spa arp) else mret tt
      else mret tt
  end.

Definition same_masked (ip : list Z) (i : nat) : bool :=
  Z.land (at_ ip i) (at_ CONFIG_netmask i) =? Z.land (at_ CONFIG_ip i) (at_ CONFIG_netmask i).
Definition on_local_network (ip : list Z) : bool :=
  same_masked ip 0 && same_masked ip 1 && same_masked ip 2 && same_masked ip 3.
Definition next_hop (ip : list Z) : list Z := if on_local_network ip then ip else CONFIG_gateway.

Definition resolve (ip : list Z) : netM (option (list Z)) :=
  let target_ip := next_hop ip in
  found ← lookup target_ip;
  match found with
  | Some m => mret (Some m)
  | None => _ ← send_request target_ip; mret None
  end.

(** ** Invariant of the cache: at most one entry per address *)

Definition entry_wf (e : ArpEntry) : Prop :=
  length (e_ip e) = 4%nat ∧ bytes (e_ip e) ∧ length (e_mac e) = 6%nat ∧ bytes (e_mac e) ∧
  0 ≤ e_timestamp e < 18446744073709551616.
Definition unique (cache : list ArpEntry) : Prop :=
  ∀ i j e f, cache !! i = Some e → cache !! j = Some f → e_valid e = true → e_valid f = true →
    e_ip e = e_ip f → i = j.
Definition arp_inv (cache : list ArpEntry) : Prop :=
  length cache = ARP_CACHE_SIZE ∧ Forall entry_wf cache ∧ unique cache.

Lemma lookup_entries_Some now ip cache m :
  unique cache →
  lookup_entries now ip cache = Some m ↔
  ∃ i e, cache !! i = Some e ∧ matches ip e ∧ fresh now e = true ∧ e_mac e = m.
Proof.
  intros Hu. unfold lookup_entries. rewrite fmap_Some. split.
  - intros ([i e] & Hf & ->). apply list_find_Some in Hf as (? & [??] & _). by exists i, e.
  - intros (i & e & Hi & [Hv Hip] & Hfr & Hm). exists (i, e). split; [|done].
    apply list_find_Some. split_and!; [done..|].
    intros j f Hj Hlt [[Hv' Hip'] _]. pose proof (Hu j i f e Hj Hi Hv' Hv ltac:(congruence)). lia.
Qed.

(** Equality of two lookups from equality of the entries they can find. *)
Lemma lookup_entries_ext now ip now' ip' c c' :
  unique c → unique c' →
  (∀ m, (∃ i e, c !! i = Some e ∧ matches ip e ∧ fresh now e = true ∧ e_mac e = m) ↔
        (∃ i e, c' !! i = Some e ∧ matches ip' e ∧ fresh now' e = true ∧ e_mac e = m)) →
  lookup_entries now ip c = lookup_entries now' ip' c'.
Proof.
  intros Hu Hu' H. apply option_eq. intros m.
  by rewrite !lookup_entries_Some.
Qed.

(** The slot chosen for a new entry: an empty one, or the oldest of a full cache. *)
Lemma pick_slot_spec cache i idx t :
  Forall entry_wf cache →
  (∃ k e, cache !! k = Some e ∧ pick_slot i idx t cache = (i + k)%nat ∧
     (e_valid e = false ∨
      (e_timestamp e < t ∧ (∀ f, f ∈ cache → e_valid f = true ∧ e_timestamp e ≤ e_timestamp f)))) ∨
  (pick_slot i idx t cache = idx ∧ ∀ f, f ∈ cache → e_valid f = true ∧ t ≤ e_timestamp f).
Proof.
  revert i idx t. induction cache as [|e cache IH]; intros i idx t Hwf; cbn [pick_slot].
  { right. split; [done|]. intros f Hf. by apply not_elem_of_nil in Hf. }
  apply Forall_cons in Hwf as [He Hwf].
  destruct (e_valid e) eqn:Hv; cbn [negb].
  2: { left. exists 0%nat, e. rewrite Nat.add_0_r. auto. }
  destruct (e_timestamp e <? t) eqn:Ht; bool_to_prop.
  - destruct (IH (S i) i (e_timestamp e) Hwf) as [(k & f & Hk & Hp & Hc)|[Hp Hall]].
    + left. exists (S k), f. rewrite Hp. split_and!; [done|lia|].
      destruct Hc as [|[Hlt Hall]]; [by left|right]. split; [lia|].
      intros g [->|Hg]%elem_of_cons; [split; [done|lia]|by apply Hall].
    + left. exists 0%nat, e. rewrite Nat.add_0_r. split_and!; [done..|]. right. split; [done|].
      intros g [->|Hg]%elem_of_cons; [split; [done|lia]|by apply Hall].
  - destruct (IH (S i) idx t Hwf) as [(k & f & Hk & Hp & Hc)|[Hp Hall]].
    + left. exists (S k), f. rewrite Hp. split_and!; [done|lia|].
      destruct Hc as [|[Hlt Hall]]; [by left|right]. split; [lia|].
      intros g [->|Hg]%elem_of_cons; [split; [done|lia]|by apply Hall].
    + right. split; [done|]. intros g [->|Hg]%elem_of_cons; [split; [done|lia]|by apply Hall].
Qed.

(** Updating the cache overwrites one slot: the address's own entry, an empty one,
    or the oldest of a full cache. *)
Lemma update_entries_slot now ip m c :
  arp_inv c →
  ∃ k e, c !! k = Some e ∧ update_entries now ip m c = <[k := mkArpEntry ip m now true]> c ∧
    (∀ j f, c !! j = Some f → matches ip f → j = k) ∧
    (matches ip e ∨ e_valid e = false ∨
     ∀ f, f ∈ c → e_valid f = true ∧ e_timestamp e ≤ e_timestamp f ∧ e_ip f ≠ ip).
Proof.
  intros (Hlen & Hwf & Hu). unfold update_entries.
  destruct (list_find (matches ip) c) as [[k e]|] eqn:Hf.
  - apply list_find_Some in Hf as (Hk & [Hv <-] & _). exists k, e. rewrite Hv.
    split_and!; [done..| |by left; split].
    intros j f Hj [Hv' Hip']. by eapply (Hu j k f e).
  - apply list_find_None in Hf. rewrite Forall_forall in Hf.
    assert (Hno : ∀ j f, c !! j = Some f → ¬ matches ip f)
      by (intros j f Hj; eapply Hf, list_elem_of_lookup_2, Hj).
    destruct (pick_slot_spec c 0 0 u64_max Hwf) as [(k & e & Hk & -> & Hc)|[-> Hall]].
    + exists k, e. split_and!; [done..| |].
      * intros j f Hj Hm. by destruct (Hno j f Hj).
      * right. destruct Hc as [|[_ Hall]]; [by left|right]. intros f Hin.
        destruct (Hall f Hin) as [Hv ?]. split_and!; [done..|]. intros <-. by destruct (Hf f Hin).
    + destruct c as [|e c]; [done|]. exists 0%nat, e. split_and!; [done..| |].
      * intros j f Hj Hm. by destruct (Hno j f Hj).
      * right. right. intros f Hin. destruct (Hall f Hin) as [Hv ?].
        destruct (Hall e ltac:(left)) as [? _]. apply Forall_cons in Hwf as [(_ & _ & _ & _ & He) _].
        unfold u64_max in *. split_and!; [done|lia|]. intros <-. by destruct (Hf f Hin).
Qed.

Lemma update_entries_inv now ip m c :
  arp_inv c → length ip = 4%nat → bytes ip → length m = 6%nat → bytes m →
  0 ≤ now < 18446744073709551616 → arp_inv (update_entries now ip m c).
Proof.
  intros Hinv Hip Hipb Hm Hmb Hnow.
  destruct (update_entries_slot now ip m c Hinv) as (k & e & Hk & -> & Hown & _).
  destruct Hinv as (Hlen & Hwf & Hu). split_and!.
  - by rewrite length_insert.
  - apply Forall_insert; [done|]. unfold entry_wf; cbn; tauto.
  - intros i j f g Hi Hj Hvf Hvg Heq.
    apply list_lookup_insert_Some in Hi as [(<- & <- & _)|[Hik Hi]],
      Hj as [(<- & <- & _)|[Hjk Hj]]; [done| | |by eapply (Hu i j f g)].
    + symmetry. by apply (Hown j g).
    + by apply (Hown i f).
Qed.

Lemma expire_inv now c : arp_inv c → arp_inv (expire_entry now <$> c).
Proof.
  intros (Hlen & Hwf & Hu).
  assert (He : ∀ e, e_ip (expire_entry now e) = e_ip e ∧
    (e_valid (expire_entry now e) = true → expire_entry now e = e)).
  { intros e. unfold expire_entry. by destruct (_ && _). }
  split_and!.
  - by rewrite length_fmap.
  - apply Forall_fmap. eapply Forall_impl; [exact Hwf|]. intros e Hw. unfold expire_entry, compose.
    by destruct (_ && _).
  - intros i j f g Hi Hj Hvf Hvg Heq. rewrite list_lookup_fmap in Hi, Hj.
    apply fmap_Some in Hi as (f' & Hi & ->), Hj as (g' & Hj & ->).
    pose proof (proj2 (He f') Hvf) as Ef. pose proof (proj2 (He g') Hvg) as Eg.
    rewrite Ef in *. rewrite Eg in *. by eapply (Hu i j f' g').
Qed.

(** The cache keeps at most one entry per address.  Learning a mapping makes
    lookups of that address return it for five minutes and nothing afterwards; a
    lookup of another address is unaffected unless its entry is the oldest of a
    cache full of unrelated entries.  Expiry changes no lookup. *)
Lemma arp_cache_spec now ip m c :
  arp_inv c → length ip = 4%nat → bytes ip → length m = 6%nat → bytes m →
  0 ≤ now < 18446744073709551616 →
  let c' := update_entries now ip m c in
  arp_inv c' ∧
  (∀ t, lookup_entries t ip c' = if u64 (t - now) <? ARP_TIMEOUT_TICKS then Some m else None) ∧
  (∀ ip', ip' ≠ ip →
     (∀ t, lookup_entries t ip' c' = lookup_entries t ip' c) ∨
     ∃ old, old ∈ c ∧ e_ip old = ip' ∧
       ∀ e, e ∈ c → e_valid e = true ∧ e_ip e ≠ ip ∧ e_timestamp old ≤ e_timestamp e) ∧
  ∀ t, arp_inv (expire_entry t <$> c') ∧
    ∀ ip', lookup_entries t ip' (expire_entry t <$> c') = lookup_entries t ip' c'.
Proof.
  intros Hinv Hip Hipb Hm Hmb Hnow c'.
  pose proof (update_entries_inv now ip m c Hinv Hip Hipb Hm Hmb Hnow) as Hinv'.
  pose proof Hinv as (_ & _ & Hu). pose proof Hinv' as (_ & _ & Hu'). fold c' in Hinv', Hu'.
  destruct (update_entries_slot now ip m c Hinv) as (k & e & Hk & Hc' & Hown & Hold). fold c' in Hc'.
  pose proof (lookup_lt_Some _ _ _ Hk) as Hlt.
  assert (Hnew : c' !! k = Some (mkArpEntry ip m now true)) by (rewrite Hc'; by apply list_lookup_insert_eq).
  assert (Hother : ∀ j, j ≠ k → c' !! j = c !! j) by (intros; rewrite Hc'; by apply list_lookup_insert_ne).
  split_and!; [done|..].
  - intros t. destruct (u64 (t - now) <? ARP_TIMEOUT_TICKS) eqn:Hf.
    + apply lookup_entries_Some; [done|]. by exists k, (mkArpEntry ip m now true).
    + apply eq_None_not_Some. intros [m' (i & f & Hi & Hmt & Hfr & _)%lookup_entries_Some]; [|done].
      assert (i = k) as ->. { destruct (decide (i = k)); [done|]. rewrite Hother in Hi by done. by eapply Hown. }
      rewrite Hnew in Hi. simplify_eq. unfold fresh in Hfr. cbn in Hfr. congruence.
  - intros ip' Hne. destruct (decide (e_valid e = true ∧ e_ip e = ip')) as [[Hv He]|Hno].
    + right. exists e. split_and!; [by eapply list_elem_of_lookup_2|done|].
      destruct Hold as [[_ ?]|[?|Hall]]; [congruence..|]. intros f Hf. destruct (Hall f Hf) as (? & ? & ?).
      done.
    + left. intros t. apply lookup_entries_ext; [done..|]. intros m'.
      split; intros (i & f & Hi & Hmt & Hrest); exists i, f; split_and!; try apply Hrest; try apply Hmt.
      * destruct (decide (i = k)) as [->|]; [|by rewrite <- Hother].
        rewrite Hnew in Hi. simplify_eq. by destruct Hmt.
      * destruct (decide (i = k)) as [->|]; [|by rewrite Hother]. naive_solver.
  - intros t. pose proof (expire_inv t c' Hinv') as Hexp. split; [done|]. intros ip'.
    apply lookup_entries_ext; [apply Hexp|done|]. intros m'.
    split.
    + intros (i & f & Hi & Hmt & Hfr & He). rewrite list_lookup_fmap in Hi.
      apply fmap_Some in Hi as (g & Hi & ->). exists i, g. unfold expire_entry in *.
      destruct (_ && _); [by destruct Hmt|done].
    + intros (i & f & Hi & Hmt & Hfr & He). exists i, f. rewrite list_lookup_fmap, Hi. split; [|done].
      cbn. f_equal. unfold expire_entry. destruct Hmt as [-> _]. unfold fresh in Hfr. bool_to_prop.
      by rewrite (proj2 (Z.leb_gt _ _)).
Qed.

(** ** Packets *)

(** What a packet says; the reads of [parse] are all in range. *)
Definition parsed (data : list Z) : option ArpPacket :=
  if (length data <? HEADER_SIZE)%nat then None
  else
    let htype := be16_at data 0 in
    let ptype := be16_at data 2 in
    let hlen := at_ data 4 in
    let plen := at_ data 5 in
    let operation := be16_at data 6 in
    if negb (htype =? HTYPE_ETHERNET) || negb (ptype =? PTYPE_IPV4) then None
    else if negb (hlen =? HLEN_ETHERNET) || negb (plen =? PLEN_IPV4) then None
    else Some (mkArpPacket htype ptype hlen plen operation
                 (sub_slice data 8 14) (sub_slice data 14 18)
                 (sub_slice data 18 24) (sub_slice data 24 28)).
Lemma arp_parse_eq data : parse data = Ret (parsed data).
Proof.
  unfold parse, parsed. destruct (Nat.ltb_spec (length data) HEADER_SIZE); [done|].
  repeat step_read. destruct (_ || _); [done|]. by destruct (_ || _).
Qed.

Definition packet_of (our_mac : list Z) (op : Z) (target_mac target_ip : list Z) : list Z :=
  to_be16 HTYPE_ETHERNET ++ to_be16 PTYPE_IPV4 ++ [HLEN_ETHERNET] ++ [PLEN_IPV4] ++ to_be16 op ++
  our_mac ++ CONFIG_ip ++ target_mac ++ target_ip.

Lemma build_packet_eq our_mac op tm ti :
  length our_mac = 6%nat → length tm = 6%nat → length ti = 4%nat →
  build_packet our_mac (replicate HEADER_SIZE 0) op tm ti =
    Ret (packet_of our_mac op tm ti, HEADER_SIZE).
Proof.
  intros Hm Ht Hi. unfold build_packet. rewrite length_replicate, Nat.ltb_irrefl.
  change (replicate HEADER_SIZE 0) with ([] ++ replicate HEADER_SIZE 0).
  do 9 (step_write; rewrite blit_zeros by solve_len).
  unfold packet_of. rewrite <- !app_assoc. cbn [app].
  match goal with |- context [replicate ?k 0] => replace k with 0%nat by solve_len end.
  cbn [replicate]. by rewrite !app_nil_r.
Qed.

Lemma parse_packet_of our_mac op tm ti rest :
  length our_mac = 6%nat → length tm = 6%nat → length ti = 4%nat → 0 ≤ op < 65536 →
  parsed (packet_of our_mac op tm ti ++ rest) =
    Some (mkArpPacket HTYPE_ETHERNET PTYPE_IPV4 HLEN_ETHERNET PLEN_IPV4 op our_mac CONFIG_ip tm ti).
Proof.
  intros Hm Ht Hi Hop. unfold packet_of, parsed. rewrite <- !app_assoc.
  set (d := to_be16 HTYPE_ETHERNET ++ _).
  assert (Hl : (HEADER_SIZE ≤ length d)%nat) by (unfold d; solve_len).
  rewrite (proj2 (Nat.ltb_ge _ _)) by done.
  assert (be16_at d 0 = HTYPE_ETHERNET) as -> by done.
  assert (be16_at d 2 = PTYPE_IPV4) as -> by done.
  assert (at_ d 4 = HLEN_ETHERNET) as -> by done.
  assert (at_ d 5 = PLEN_IPV4) as -> by done.
  assert (be16_at d 6 = op) as ->.
  { apply (be16_at_app (to_be16 HTYPE_ETHERNET ++ to_be16 PTYPE_IPV4 ++ [HLEN_ETHERNET; PLEN_IPV4])); done. }
  rewrite !Z.eqb_refl. cbn [negb orb].
  set (h := to_be16 HTYPE_ETHERNET ++ to_be16 PTYPE_IPV4 ++ [HLEN_ETHERNET] ++ [PLEN_IPV4] ++ to_be16 op).
  assert (length h = 8%nat) by done.
  assert (d = h ++ our_mac ++ CONFIG_ip ++ tm ++ ti ++ rest) as -> by done.
  do 2 f_equal.
  - apply sub_slice_app; solve_len.
  - rewrite (app_assoc h). apply sub_slice_app; solve_len.
  - rewrite (app_assoc h), (app_assoc (h ++ _)). apply sub_slice_app; solve_len.
  - rewrite (app_assoc h), (app_assoc (h ++ _)), (app_assoc ((h ++ _) ++ _)).
    apply sub_slice_app; solve_len.
Qed.

Lemma packet_of_length our_mac op tm ti :
  length our_mac = 6%nat → length tm = 6%nat → length ti = 4%nat →
  length (packet_of our_mac op tm ti) = 28%nat.
Proof. intros. unfold packet_of. solve_len. Qed.
Lemma packet_of_bytes our_mac op tm ti :
  bytes our_mac → bytes tm → bytes ti → bytes (packet_of our_mac op tm ti).
Proof.
  intros. unfold packet_of, CONFIG_ip. rewrite !bytes_app, !bytes_cons.
  unfold is_byte, HLEN_ETHERNET, PLEN_IPV4. repeat split; auto with ralph; lia.
Qed.

(** The frame a request or a reply is sent in, and the state after sending it. *)
Definition arp_frame (n : Net) (op : Z) (dst tm ti : list Z) : list Z :=
  frame_of (mac n) dst ETHERTYPE_ARP (packet_of (mac n) op tm ti).
Definition after_send (n : Net) (frame : list Z) : Net :=
  if tx_ready n (attempts n) then transmit n frame else set_attempt n.

Lemma send_reply_eq n dm di :
  length (mac n) = 6%nat → length dm = 6%nat → length di = 4%nat →
  send_reply dm di n = Ret (after_send n (arp_frame n ARP_REPLY dm dm di), tt).
Proof.
  intros Hm Hd Hi. unfold send_reply. rewrite (netM_bind_Ret _ _ _ n (mac n)) by done.
  rewrite build_packet_eq, lift_Ret by done. unfold mbind at 1, netM_bind.
  rewrite send_frame_eq, packet_of_length by done. unfold after_send.
  by destruct (tx_ready n (attempts n)).
Qed.
Lemma send_request_eq n ti :
  length (mac n) = 6%nat → length ti = 4%nat →
  send_request ti n =
    Ret (after_send n (arp_frame n ARP_REQUEST BROADCAST_MAC (replicate 6 0) ti), tt).
Proof.
  intros Hm Hi. unfold send_request. rewrite (netM_bind_Ret _ _ _ n (mac n)) by done.
  rewrite build_packet_eq, lift_Ret by done. unfold mbind at 1, netM_bind.
  rewrite send_frame_eq, packet_of_length by done. unfold after_send.
  by destruct (tx_ready n (attempts n)).
Qed.

(** ** Invariant of the stack below TCP

    Among others: everything transmitted so far is a legal Ethernet frame. *)
Definition frame_ok (f : list Z) : Prop := bytes f ∧ (60 ≤ length f ≤ 1500)%nat.
Record net_inv (n : Net) : Prop := mkNetInv {
  ni_mac : length (mac n) = 6%nat;
  ni_mac_bytes : bytes (mac n);
  ni_clock : ∀ k, 0 ≤ clock n k < 18446744073709551616;
  ni_arp : arp_inv (arp_cache n);
  ni_id : 0 ≤ ip_id n < 65536;
  ni_sent : Forall frame_ok (sent n);
}.

(** Every operation keeps the environment and only appends transmitted frames. *)
Record net_ext (n n' : Net) : Prop := mkNetExt {
  ne_mac : mac n' = mac n;
  ne_clock : clock n' = clock n;
  ne_ready : tx_ready n' = tx_ready n;
  ne_sent : sent n `prefix_of` sent n';
}.
#[export] Instance net_ext_preorder : PreOrder net_ext.
Proof.
  split.
  - intros n. by split.
  - intros n1 n2 n3 [?? ??] [????]. split; [congruence..|]. by etrans.
Qed.

Lemma frame_of_ok src dst ty pl :
  length src = 6%nat → length dst = 6%nat → bytes src → bytes dst → bytes pl →
  (length pl ≤ 1486)%nat → frame_ok (frame_of src dst ty pl).
Proof.
  intros. split; [by apply frame_of_bytes|]. unfold frame_of. solve_len.
Qed.

Lemma after_send_inv n f : net_inv n → frame_ok f → net_inv (after_send n f).
Proof.
  intros [] Hf. unfold after_send. destruct (tx_ready n (attempts n)); split; try done.
  cbn. by apply Forall_app, conj, Forall_singleton.
Qed.
Lemma after_send_ext n f : net_ext n (after_send n f).
Proof.
  unfold after_send. destruct (tx_ready n (attempts n)); split; try done. cbn. by apply prefix_app_r.
Qed.

Lemma arp_frame_ok n op dst tm ti :
  net_inv n → length dst = 6%nat → bytes dst → length tm = 6%nat → bytes tm →
  length ti = 4%nat → bytes ti → frame_ok (arp_frame n op dst tm ti).
Proof.
  intros [] ??????. apply frame_of_ok; try done; [by apply packet_of_bytes|].
  rewrite packet_of_length by done. lia.
Qed.

Lemma parse_wf data arp :
  bytes data → parsed data = Some arp →
  length (sha arp) = 6%nat ∧ bytes (sha arp) ∧ length (spa arp) = 4%nat ∧ bytes (spa arp) ∧
  length (tpa arp) = 4%nat ∧ 0 ≤ operation arp < 65536.
Proof.
  intros Hb. unfold parsed. destruct (Nat.ltb_spec (length data) HEADER_SIZE) as [|Hl]; [done|].
  destruct (_ || _); [done|]. destruct (_ || _); [done|]. intros [= <-]. cbn [sha spa tpa operation].
  unfold sub_slice. rewrite !length_take, !length_drop. unfold HEADER_SIZE in Hl.
  split_and!; auto with ralph; try lia; apply be16_at_range; done.
Qed.

(** Time passing in the reading of the clock. *)
Lemma clock_read_inv n : net_inv n → net_inv (set_clock_read n).
Proof. intros []. by split. Qed.
Lemma clock_read_ext n : net_ext n (set_clock_read n).
Proof. by split. Qed.

Lemma update_cache_ok n ip m :
  net_inv n → length ip = 4%nat → bytes ip → length m = 6%nat → bytes m →
  ∃ n', update_cache ip m n = Ret (n', tt) ∧ net_inv n' ∧ net_ext n n' ∧ sent n' = sent n ∧
    attempts n' = attempts n ∧
    arp_cache n' = update_entries (clock n (reads n)) ip m (arp_cache n).
Proof.
  intros Hinv ????. eexists. split; [reflexivity|]. split_and!; try done.
  pose proof Hinv as []. split; try done. cbn. apply update_entries_inv; auto.
Qed.

(** The entry just learnt is found. *)
Lemma lookup_learnt now ip m c :
  arp_inv c → length ip = 4%nat → bytes ip → length m = 6%nat → bytes m →
  0 ≤ now < 18446744073709551616 →
  lookup_entries now ip (update_entries now ip m c) = Some m.
Proof.
  intros Hinv ?????. apply lookup_entries_Some; [by apply update_entries_inv|].
  destruct (update_entries_slot now ip m c Hinv) as (k & e & Hk & -> & _).
  exists k, (mkArpEntry ip m now true). rewrite list_lookup_insert_eq by by eapply lookup_lt_Some.
  split_and!; [done..| |done]. unfold fresh, e_timestamp. by rewrite Z.sub_diag.
Qed.

(** What processing an ARP packet does to the stack. *)
Definition arp_post (data : list Z) (n n' : Net) : Prop :=
  match parse data with
  | Ret None => n' = n
  | Ret (Some arp) =>
      lookup_entries (clock n (reads n)) (spa arp) (arp_cache n') = Some (sha arp) ∧
      if (operation arp =? ARP_REQUEST) && bool_decide (tpa arp = CONFIG_ip) && tx_ready n (attempts n)
      then ∃ f p, sent n' = sent n ++ [f] ∧
             Ethernet.parse f = Ret (Some (mkEthernetHeader (sha arp) (mac n) ETHERTYPE_ARP)) ∧
             payload f = Ret p ∧
             parse p = Ret (Some (mkArpPacket 1 0x0800 6 4 ARP_REPLY (mac n) CONFIG_ip (sha arp) (spa arp)))
      else sent n' = sent n
  | _ => False
  end.

Lemma arp_process_packet_ok data n :
  net_inv n → bytes data →
  ∃ n', process_packet data n = Ret (n', tt) ∧ net_inv n' ∧ net_ext n n' ∧ arp_post data n n'.
Proof.
  intros Hinv Hb. unfold process_packet, arp_post. rewrite arp_parse_eq, lift_Ret.
  destruct (parsed data) as [arp|] eqn:Hp.
  2: { exists n. by split_and!. }
  destruct (parse_wf data arp Hb Hp) as (Hsl & Hsb & Hpl & Hpb & _ & _).
  destruct (update_cache_ok n (spa arp) (sha arp)) as (n1 & Hu & Hinv1 & Hext1 & Hs1 & Ha1 & Hc1); try done.
  rewrite (netM_bind_Ret _ _ _ _ _ Hu).
  assert (Hl : lookup_entries (clock n (reads n)) (spa arp) (arp_cache n1) = Some (sha arp)).
  { rewrite Hc1. apply lookup_learnt; try done; apply Hinv. }
  destruct (operation arp =? ARP_REQUEST); cbn [andb]; [|exists n1; by split_and!].
  unfold is_for_our_ip. case_bool_decide as Ht; cbn [andb]; [|exists n1; by split_and!].
  rewrite send_reply_eq by (done || apply Hinv1).
  set (f := arp_frame n1 ARP_REPLY (sha arp) (sha arp) (spa arp)).
  assert (Hf : frame_ok f) by by apply arp_frame_ok.
  exists (after_send n1 f). split_and!; [done|by apply after_send_inv|..].
  - by transitivity n1; [|apply after_send_ext].
  - unfold after_send. by destruct (tx_ready n1 (attempts n1)).
  - rewrite <- Ha1, <- (ne_ready _ _ Hext1). unfold after_send.
    destruct (tx_ready n1 (attempts n1)); [|done]. exists f. eexists. cbn. rewrite Hs1.
    pose proof (ni_mac _ Hinv1). rewrite <- (ne_mac _ _ Hext1). unfold f, arp_frame.
    rewrite eth_parse_eq, eth_payload_eq, parse_frame_of, payload_frame_of
      by (done || unfold ETHERTYPE_ARP; lia).
    split_and!; [done..|]. by rewrite arp_parse_eq, parse_packet_of by (done || unfold ARP_REPLY; lia).
Qed.

(** C35: an incoming ARP packet teaches its sender's address; a request for our
    address is answered with one frame to the sender that parses as the reply
    binding our IP address to our MAC address; nothing else is ever sent, and a
    malformed packet changes nothing. *)
Theorem arp_process_packet_spec data n :
  net_inv n → bytes data →
  ∃ n', process_packet data n = Ret (n', tt) ∧ net_inv n' ∧ net_ext n n' ∧ arp_post data n n'.
Proof. apply arp_process_packet_ok. Qed.

Lemma ARP_CACHE_initial_inv : arp_inv ARP_CACHE_initial.
Proof.
  split_and!; [done|..].
  - apply Forall_replicate. split_and!; try done; [apply (bytes_replicate 4)|apply (bytes_replicate 6)].
  - intros i j e f [-> _]%lookup_replicate. done.
Qed.

Lemma demo_net_inv now : 0 ≤ now < 18446744073709551616 → net_inv (demo_net now).
Proof.
  intros Hn. split; try done.
  - repeat constructor; unfold is_byte; lia.
  - apply ARP_CACHE_initial_inv.
Qed.

(** 10.0.2.2 asks for 10.0.2.15. *)
Definition demo_request : list Z :=
  [0; 1; 8; 0; 6; 4; 0; 1; 0x52; 0x55; 10; 0; 2; 2; 10; 0; 2; 2; 0; 0; 0; 0; 0; 0; 10; 0; 2; 15].

Lemma arp_process_packet_spec_witness :
  ∃ n', process_packet demo_request (demo_net 7) = Ret (n', tt) ∧ length (sent n') = 1%nat.
Proof.
  destruct (arp_process_packet_spec demo_request (demo_net 7)) as (n' & H & _ & _ & Hp).
  - apply demo_net_inv. lia.
  - repeat constructor; unfold is_byte; lia.
  - exists n'. split; [exact H|]. destruct Hp as [_ (f & p & Hs & _)]. rewrite Hs. reflexivity.
Defined.

