(* ===== verification/Ipv4.v ===== *)
(** IPv4 ([src/net/ipv4.rs]): headers, validation and sending.  The receive
    dispatcher [process_packet] calls TCP and is in [NetTask]. *)

From S2P Require Import Prelude NetBase Checksum Ethernet Arp.

Definition HEADER_SIZE : nat := 20.
Definition MAX_PACKET_SIZE : nat := 1500.
#[export] Hint Unfold HEADER_SIZE MAX_PACKET_SIZE : sizes.
Definition PROTO_ICMP : Z := 1.
Definition PROTO_TCP : Z := 6.
Definition PROTO_UDP : Z := 17.

Record Ipv4Header : Type := mkIpv4Header {
  version : Z; ihl : Z; tos : Z; total_length : Z; identification : Z;
  flags_fragment : Z; ttl : Z; protocol : Z; checksum : Z;
  src_ip : list Z; dst_ip : list Z;
}.

(** [Ipv4Header::parse] *)
Definition parse (data : list Z) : outcome (option Ipv4Header) :=
  if (length data <? HEADER_SIZE)%nat then Ret None
  else
    version_ihl ← index data 0;
    let version := Z.land (Z.shiftr version_ihl 4) 0x0F in
    let ihl := Z.land version_ihl 0x0F in
    if negb (version =? 4) then Ret None
    else if ihl <? 5 then Ret None
    else
      let header_len := (Z.to_nat ihl * 4)%nat in
      if (length data <? header_len)%nat then Ret None
      else
        tos ← index data 1;
        total_length ← get_be16 data 2;
        identification ← get_be16 data 4;
        flags_fragment ← get_be16 data 6;
        ttl ← index data 8;
        protocol ← index data 9;
        checksum ← get_be16 data 10;
        src_ip ← get_slice data 12 16;
        dst_ip ← get_slice data 16 20;
        Ret (Some (mkIpv4Header version ihl tos total_length identification flags_fragment ttl
                     protocol checksum src_ip dst_ip)).

Definition header_length (h : Ipv4Header) : nat := (Z.to_nat (ihl h) * 4)%nat.

(** [Ipv4Header::payload] *)
Definition payload (h : Ipv4Header) (data : list Z) : outcome (list Z) :=
  let header_len := header_length h in
  let total := Z.to_nat (total_length h) in
  if (total <=? length data)%nat && (header_len <? total)%nat then get_slice data header_len total
  else if (header_len <? length data)%nat then get_slice_from data header_len
  else Ret [].

Definition is_for_us (h : Ipv4Header) : bool := bool_decide (dst_ip h = CONFIG_ip).

(** [Ipv4Header::verify_checksum] *)
Definition verify_header (h : Ipv4Header) (data : list Z) : outcome bool :=
  let header_len := header_length h in
  if (length data <? header_len)%nat then Ret false
  else
    header ← get_slice data 0 header_len;
    Ret (verify_checksum header).

Definition is_fragmented (h : Ipv4Header) : bool :=
  let mf := negb (Z.land (flags_fragment h) 0x2000 =? 0) in
  let offset := Z.land (flags_fragment h) 0x1FFF in
  mf || negb (offset =? 0).

(** [identification()] *)
Definition next_identification : netM Z := λ n,
  let i := u16 (ip_id n + 1) in Ret (set_ip_id n i, i).

Definition build_header (buffer : list Z) (proto : Z) (dst : list Z) (payload_len : nat) :
    netM (list Z * nat) :=
  if (length buffer <? HEADER_SIZE)%nat then mret (buffer, 0%nat)
  else
    let total_length := u16 (Z.of_nat (HEADER_SIZE + payload_len)) in
    buffer ← lift_outcome (set_at buffer 0 0x45);
    buffer ← lift_outcome (set_at buffer 1 0);
    buffer ← lift_outcome (copy_in buffer 2 4 (to_be16 total_length));
    i ← next_identification;
    buffer ← lift_outcome (copy_in buffer 4 6 (to_be16 i));
    buffer ← lift_outcome (copy_in buffer 6 8 (to_be16 0x4000));
    buffer ← lift_outcome (set_at buffer 8 64);
    buffer ← lift_outcome (set_at buffer 9 proto);
    buffer ← lift_outcome (set_at buffer 10 0);
    buffer ← lift_outcome (set_at buffer 11 0);
    buffer ← lift_outcome (copy_in buffer 12 16 CONFIG_ip);
    buffer ← lift_outcome (copy_in buffer 16 20 dst);
    header ← lift_outcome (get_slice buffer 0 HEADER_SIZE);
    let cksum := internet_checksum header in
    buffer ← lift_outcome (copy_in buffer 10 12 (to_be16 cksum));
    mret (buffer, HEADER_SIZE).

Definition send_packet (dst : list Z) (proto : Z) (pl : list Z) : netM bool :=
  r ← resolve dst;
  match r with
  | None => mret false
  | Some dst_mac =>
      '(packet, header_len) ← build_header (replicate MAX_PACKET_SIZE 0) proto dst (length pl);
      if (header_len =? 0)%nat || (MAX_PACKET_SIZE <? header_len + length pl)%nat then mret false
      else
        packet ← lift_outcome (copy_in packet header_len (header_len + length pl) pl);
        data ← lift_outcome (get_slice packet 0 (header_len + length pl));
        send_frame dst_mac ETHERTYPE_IPV4 data
  end.

(** ** What a packet says: the reads are all in range *)

Definition parsed (data : list Z) : option Ipv4Header :=
  if (length data <? HEADER_SIZE)%nat then None
  else
    let version := Z.land (Z.shiftr (at_ data 0) 4) 0x0F in
    let ihl := Z.land (at_ data 0) 0x0F in
    if negb (version =? 4) then None
    else if ihl <? 5 then None
    else
      let header_len := (Z.to_nat ihl * 4)%nat in
      if (length data <? header_len)%nat then None
      else Some (mkIpv4Header version ihl (at_ data 1) (be16_at data 2) (be16_at data 4)
                   (be16_at data 6) (at_ data 8) (at_ data 9) (be16_at data 10)
                   (sub_slice data 12 16) (sub_slice data 16 20)).

Definition payload_of (h : Ipv4Header) (data : list Z) : list Z :=
  let header_len := header_length h in
  let total := Z.to_nat (total_length h) in
  if (total <=? length data)%nat && (header_len <? total)%nat then sub_slice data header_len total
  else if (header_len <? length data)%nat then drop header_len data
  else [].
Definition header_valid (h : Ipv4Header) (data : list Z) : bool :=
  let header_len := header_length h in
  if (length data <? header_len)%nat then false
  else verify_checksum (take header_len data).

Lemma ip_parse_eq data : parse data = Ret (parsed data).
Proof.
  unfold parse, parsed. destruct (Nat.ltb_spec (length data) HEADER_SIZE); [done|].
  repeat step_read. by repeat (destruct (_ : bool); [done|]).
Qed.
Lemma ip_payload_eq h data : payload h data = Ret (payload_of h data).
Proof.
  unfold payload, payload_of.
  destruct (Nat.leb_spec (Z.to_nat (total_length h)) (length data)),
    (Nat.ltb_spec (header_length h) (Z.to_nat (total_length h))),
    (Nat.ltb_spec (header_length h) (length data)); cbn [andb]; try done;
    first [apply get_slice_eq; lia | apply get_slice_from_eq; lia].
Qed.
Lemma verify_header_eq h data : verify_header h data = Ret (header_valid h data).
Proof.
  unfold verify_header, header_valid. destruct (Nat.ltb_spec (length data) (header_length h)); [done|].
  by rewrite get_slice_to_eq.
Qed.

(** ** The header on the wire *)

(** The header before and after the checksum field. *)
Definition header_front (i : Z) (proto : Z) (len : nat) : list Z :=
  [0x45] ++ [0] ++ to_be16 (u16 (Z.of_nat (HEADER_SIZE + len))) ++ to_be16 i ++ to_be16 0x4000 ++
  [64] ++ [proto].
Definition header_of (i : Z) (proto : Z) (dst : list Z) (len : nat) : list Z :=
  header_front i proto len ++
  to_be16 (internet_checksum (header_front i proto len ++ [0; 0] ++ CONFIG_ip ++ dst)) ++
  CONFIG_ip ++ dst.

Lemma length_header_front i proto len : length (header_front i proto len) = 10%nat.
Proof. done. Qed.
Lemma length_header_of i proto dst len :
  length dst = 4%nat → length (header_of i proto dst len) = 20%nat.
Proof. intros. unfold header_of. rewrite !length_app, length_header_front. solve_len. Qed.

Lemma build_header_eq proto dst len n :
  length dst = 4%nat →
  build_header (replicate MAX_PACKET_SIZE 0) proto dst len n =
    Ret (set_ip_id n (u16 (ip_id n + 1)),
      (header_of (u16 (ip_id n + 1)) proto dst len ++ replicate 1480 0, HEADER_SIZE)).
Proof.
  intros Hd. unfold build_header. rewrite length_replicate.
  rewrite (proj2 (Nat.ltb_ge MAX_PACKET_SIZE HEADER_SIZE)) by solve_len. cbn zeta.
  change (replicate MAX_PACKET_SIZE 0) with ([] ++ replicate MAX_PACKET_SIZE 0).
  do 3 (step_write; rewrite blit_zeros by solve_len).
  rewrite (netM_bind_Ret _ _ _ (set_ip_id n (u16 (ip_id n + 1))) (u16 (ip_id n + 1))) by done.
  do 8 (step_write; rewrite blit_zeros by solve_len).
  rewrite get_slice_to_eq, lift_Ret by solve_len. step_write.
  unfold mret, netM_ret. do 3 f_equal.
  set (i := u16 (ip_id n + 1)).
  match goal with |- context [replicate ?k 0] => replace k with 1480%nat by solve_len end.
  match goal with |- blit (?h ++ _) _ _ = _ =>
    assert (Hh : h = header_front i proto len ++ [0; 0] ++ CONFIG_ip ++ dst)
      by (unfold header_front; rewrite <- !app_assoc; done) end.
  rewrite Hh, take_app_length' by (rewrite !length_app, length_header_front; solve_len).
  rewrite <- !app_assoc. rewrite blit_field by done. unfold header_of. by rewrite <- !app_assoc.
Qed.

(** ** What the receiver of such a packet sees *)

Definition header_fields (i : Z) (proto : Z) (dst : list Z) (len : nat) : Ipv4Header :=
  mkIpv4Header 4 5 0 (Z.of_nat (20 + len)) i 0x4000 64 proto
    (internet_checksum (header_front i proto len ++ [0; 0] ++ CONFIG_ip ++ dst)) CONFIG_ip dst.

Lemma header_front_bytes i proto len : is_byte proto → bytes (header_front i proto len).
Proof.
  intros. unfold header_front. rewrite !bytes_app, !bytes_cons.
  repeat split; auto with ralph; unfold is_byte in *; lia.
Qed.
Lemma CONFIG_ip_bytes : bytes CONFIG_ip.
Proof. repeat constructor; unfold is_byte; lia. Qed.
#[local] Hint Resolve header_front_bytes CONFIG_ip_bytes : ralph.

Lemma header_checksum_range i proto dst len :
  is_byte proto → length dst = 4%nat → bytes dst →
  0 ≤ internet_checksum (header_front i proto len ++ [0; 0] ++ CONFIG_ip ++ dst) < 65536.
Proof.
  intros Hp Hd Hb.
  assert (bytes (header_front i proto len ++ [0; 0] ++ CONFIG_ip ++ dst)).
  { rewrite !bytes_app, !bytes_cons. repeat split; auto with ralph; lia. }
  assert (length (header_front i proto len ++ [0; 0] ++ CONFIG_ip ++ dst) = 20%nat).
  { rewrite !length_app, length_header_front. solve_len. }
  rewrite internet_checksum_eq by (done || lia). apply fold_checksum_range.
  pose proof (wsum_no_overflow _ ltac:(eassumption) ltac:(lia)). lia.
Qed.

Lemma parse_header_of i proto dst len rest :
  length dst = 4%nat → bytes dst → is_byte proto → 0 ≤ i < 65536 → (20 + len ≤ 1500)%nat →
  parsed (header_of i proto dst len ++ rest) = Some (header_fields i proto dst len).
Proof.
  intros Hd Hb Hp Hi Hl. pose proof (header_checksum_range i proto dst len Hp Hd Hb) as Hck.
  unfold parsed. pose proof (length_header_of i proto dst len Hd) as Hh.
  rewrite (proj2 (Nat.ltb_ge _ HEADER_SIZE)) by solve_len.
  assert (at_ (header_of i proto dst len ++ rest) 0 = 0x45) as -> by done.
  change (Z.land (Z.shiftr 0x45 4) 0x0F) with 4. change (Z.land 0x45 0x0F) with 5.
  cbn [Z.eqb Z.ltb negb Pos.eqb Z.compare Pos.compare Pos.compare_cont]. cbn zeta.
  change (Z.to_nat 5 * 4)%nat with 20%nat.
  rewrite (proj2 (Nat.ltb_ge _ 20)) by solve_len. unfold header_fields.
  set (ck := internet_checksum _) in *.
  assert (He : header_of i proto dst len ++ rest =
    header_front i proto len ++ to_be16 ck ++ CONFIG_ip ++ dst ++ rest).
  { unfold header_of. fold ck. by rewrite <- !app_assoc. }
  do 2 f_equal.
  - unfold header_of, header_front. rewrite <- !app_assoc.
    rewrite (app_assoc [0x45]). rewrite be16_at_app by (done || apply u16_range).
    rewrite u16_small; unfold HEADER_SIZE; lia.
  - unfold header_of, header_front. rewrite <- !app_assoc.
    rewrite (app_assoc [0x45]), (app_assoc ([0x45] ++ _)). by apply be16_at_app.
  - rewrite He. by apply be16_at_app.
  - rewrite He, (app_assoc (header_front _ _ _)), (app_assoc (header_front _ _ _ ++ _)).
    pose proof (length_header_front i proto len). apply sub_slice_app; solve_len.
Qed.

Lemma verify_header_of i proto dst len rest :
  length dst = 4%nat → bytes dst → is_byte proto →
  header_valid (header_fields i proto dst len) (header_of i proto dst len ++ rest) = true.
Proof.
  intros Hd Hb Hp. unfold header_valid. change (header_length (header_fields i proto dst len)) with 20%nat.
  pose proof (length_header_of i proto dst len Hd).
  rewrite (proj2 (Nat.ltb_ge _ 20)) by solve_len. rewrite take_app_length' by done.
  apply checksum_fill_ok; [auto with ralph| |done|].
  - rewrite bytes_app. auto with ralph.
  - rewrite length_header_front. solve_len.
Qed.

Lemma payload_header_of i proto dst pl rest :
  length dst = 4%nat → pl ≠ [] →
  payload_of (header_fields i proto dst (length pl)) (header_of i proto dst (length pl) ++ pl ++ rest) = pl.
Proof.
  intros Hd Hne. unfold payload_of.
  change (header_length (header_fields i proto dst (length pl))) with 20%nat.
  cbn [total_length header_fields]. rewrite Nat2Z.id. pose proof (length_header_of i proto dst (length pl) Hd).
  assert (0 < length pl)%nat by (destruct pl; [done|cbn; lia]).
  rewrite (proj2 (Nat.leb_le _ _)), (proj2 (Nat.ltb_lt 20 _)) by solve_len. cbn [andb].
  apply sub_slice_app; lia.
Qed.

Lemma header_of_bytes i proto dst len :
  bytes dst → is_byte proto → bytes (header_of i proto dst len).
Proof. intros. unfold header_of. rewrite !bytes_app. auto 7 with ralph. Qed.

(** ** Sending *)

Lemma next_hop_wf ip : length ip = 4%nat → bytes ip → length (next_hop ip) = 4%nat ∧ bytes (next_hop ip).
Proof.
  intros. unfold next_hop. destruct (on_local_network ip); [done|]. split; [done|].
  repeat constructor; unfold is_byte; lia.
Qed.

(** The next hop is the destination on 10.0.2.0/24 and the gateway otherwise. *)
Lemma next_hop_local a b c d :
  next_hop [a; b; c; d] = if (Z.land a 255 =? 10) && (Z.land b 255 =? 0) && (Z.land c 255 =? 2)
                          then [a; b; c; d] else CONFIG_gateway.
Proof.
  unfold next_hop, on_local_network, same_masked, at_. cbn.
  by rewrite (Z.land_0_r d), andb_true_r.
Qed.

Lemma resolve_eq ip n :
  net_inv n → length ip = 4%nat → bytes ip →
  let n1 := set_clock_read n in
  resolve ip n =
    match lookup_entries (clock n (reads n)) (next_hop ip) (arp_cache n) with
    | Some m => Ret (n1, Some m)
    | None => Ret (after_send n1 (arp_frame n1 ARP_REQUEST BROADCAST_MAC (replicate 6 0) (next_hop ip)), None)
    end.
Proof.
  intros Hinv Hl Hb n1. destruct (next_hop_wf ip Hl Hb) as [Hl' Hb']. unfold resolve.
  rewrite (netM_bind_Ret _ _ _ n1 (lookup_entries (clock n (reads n)) (next_hop ip) (arp_cache n))) by done.
  destruct (lookup_entries _ _ _); [done|].
  by rewrite (netM_bind_Ret _ _ _ _ _ (send_request_eq n1 (next_hop ip) (ni_mac _ Hinv) Hl')).
Qed.

Lemma lookup_entries_wf now ip c m :
  arp_inv c → lookup_entries now ip c = Some m → length m = 6%nat ∧ bytes m.
Proof.
  intros (_ & Hwf & Hu) (i & e & Hi & _ & _ & <-)%lookup_entries_Some; [|done].
  eapply Forall_lookup_1 in Hwf as (_ & _ & ? & ? & _); done.
Qed.

(** The frame that carries a packet, and what its receiver reads off it. *)
Definition ip_frame (our_mac m : list Z) (i proto : Z) (dst pl : list Z) : list Z :=
  frame_of our_mac m ETHERTYPE_IPV4 (header_of i proto dst (length pl) ++ pl).
Definition carries (f our_mac m : list Z) (proto : Z) (dst pl : list Z) : Prop :=
  Ethernet.parse f = Ret (Some (mkEthernetHeader m our_mac ETHERTYPE_IPV4)) ∧
  ∃ p h, Ethernet.payload f = Ret p ∧ parse p = Ret (Some h) ∧ src_ip h = CONFIG_ip ∧ dst_ip h = dst ∧
    protocol h = proto ∧ verify_header h p = Ret true ∧ is_fragmented h = false ∧
    (pl ≠ [] → payload h p = Ret pl).

Lemma ip_frame_carries our_mac m i proto dst pl :
  length our_mac = 6%nat → length m = 6%nat → length dst = 4%nat → bytes dst → is_byte proto →
  0 ≤ i < 65536 → (length pl ≤ 1466)%nat → carries (ip_frame our_mac m i proto dst pl) our_mac m proto dst pl.
Proof.
  intros Ho Hm Hd Hb Hp Hi Hl. unfold carries, ip_frame.
  rewrite eth_parse_eq, eth_payload_eq, parse_frame_of, payload_frame_of
    by (done || unfold ETHERTYPE_IPV4; lia).
  split; [done|]. eexists _, (header_fields i proto dst (length pl)). split; [done|].
  rewrite <- !app_assoc, ip_parse_eq, verify_header_eq, ip_payload_eq, parse_header_of, verify_header_of
    by (done || lia).
  split_and!; [done..|]. intros. by rewrite payload_header_of.
Qed.

Lemma ip_frame_ok our_mac m i proto dst pl :
  length our_mac = 6%nat → bytes our_mac → length m = 6%nat → bytes m → length dst = 4%nat →
  bytes dst → is_byte proto → bytes pl → (length pl ≤ 1466)%nat →
  frame_ok (ip_frame our_mac m i proto dst pl).
Proof.
  intros. apply frame_of_ok; try done.
  - rewrite bytes_app. split; [by apply header_of_bytes|done].
  - rewrite length_app, length_header_of by done. lia.
Qed.

Lemma send_packet_eq dst proto pl n :
  net_inv n → length dst = 4%nat → bytes dst →
  let n1 := set_clock_read n in
  let i := u16 (ip_id n + 1) in
  send_packet dst proto pl n = Ret
    match lookup_entries (clock n (reads n)) (next_hop dst) (arp_cache n) with
    | None => (after_send n1 (arp_frame n1 ARP_REQUEST BROADCAST_MAC (replicate 6 0) (next_hop dst)), false)
    | Some m =>
        let n2 := set_ip_id n1 i in
        if (1466 <? length pl)%nat then (n2, false)
        else (after_send n2 (ip_frame (mac n) m i proto dst pl), tx_ready n (attempts n))
    end.
Proof.
  intros Hinv Hl Hb n1 i. unfold send_packet, mbind at 1, netM_bind at 1.
  rewrite resolve_eq by done. fold n1.
  destruct (lookup_entries _ _ _) as [m|] eqn:Hlk; [|done].
  destruct (lookup_entries_wf _ _ _ _ (ni_arp _ Hinv) Hlk) as [Hm Hmb].
  rewrite (netM_bind_Ret _ _ _ _ _ (build_header_eq proto dst (length pl) n1 Hl)).
  change (u16 (ip_id n1 + 1)) with i.
  change (HEADER_SIZE =? 0)%nat with false. cbn [orb].
  destruct (Nat.ltb_spec MAX_PACKET_SIZE (HEADER_SIZE + length pl)) as [Hlong|Hshort];
    autounfold with sizes in *.
  { by rewrite (proj2 (Nat.ltb_lt 1466 _)) by lia. }
  pose proof (length_header_of i proto dst (length pl) Hl) as Hh.
  step_write. rewrite blit_zeros, get_slice_to_eq, lift_Ret, take_app_length' by solve_len.
  rewrite send_frame_eq by (done || apply Hinv). rewrite length_app, Hh.
  destruct (Nat.ltb_spec 1486 (20 + length pl)), (Nat.ltb_spec 1466 (length pl)); try lia; [done|].
  unfold after_send. by destruct (tx_ready n (attempts n)) eqn:Hr; cbn; rewrite Hr.
Qed.

Lemma send_packet_ok dst proto pl n :
  net_inv n → length dst = 4%nat → bytes dst → is_byte proto → bytes pl →
  ∃ n' ok, send_packet dst proto pl n = Ret (n', ok) ∧ net_inv n' ∧ net_ext n n' ∧
    arp_cache n' = arp_cache n ∧
    match lookup_entries (clock n (reads n)) (next_hop dst) (arp_cache n) with
    | Some m =>
        ok = (length pl <=? 1466)%nat && tx_ready n (attempts n) ∧
        if ok then ∃ f, sent n' = sent n ++ [f] ∧ carries f (mac n) m proto dst pl
        else sent n' = sent n
    | None =>
        ok = false ∧
        if tx_ready n (attempts n)
        then ∃ f p, sent n' = sent n ++ [f] ∧
               Ethernet.parse f = Ret (Some (mkEthernetHeader BROADCAST_MAC (mac n) ETHERTYPE_ARP)) ∧
               Ethernet.payload f = Ret p ∧
               Arp.parse p = Ret (Some (mkArpPacket 1 0x0800 6 4 ARP_REQUEST (mac n)
                 CONFIG_ip (replicate 6 0) (next_hop dst)))
        else sent n' = sent n
    end.
Proof.
  intros Hinv Hl Hb Hp Hpl. rewrite send_packet_eq by done.
  pose proof Hinv as [Hmac Hmb _ Harp _ _]. set (n1 := set_clock_read n).
  assert (Hinv1 : net_inv n1) by by apply clock_read_inv.
  destruct (lookup_entries _ _ _) as [m|] eqn:Hlk.
  - destruct (lookup_entries_wf _ _ _ _ Harp Hlk) as [Hm Hmby].
    set (i := u16 (ip_id n + 1)). pose proof (u16_range (ip_id n + 1)) as Hi. fold i in Hi.
    set (n2 := set_ip_id n1 i).
    assert (Hinv2 : net_inv n2) by (destruct Hinv1; by split).
    assert (Hext2 : net_ext n n2) by by split.
    destruct (Nat.ltb_spec 1466 (length pl)).
    { exists n2, false. rewrite (proj2 (Nat.leb_gt _ _)) by lia. by split_and!. }
    rewrite (proj2 (Nat.leb_le (length pl) 1466)) by lia.
    set (f := ip_frame (mac n) m i proto dst pl).
    eexists (after_send n2 f), _. split_and!; [done|..|done|].
    + apply after_send_inv, ip_frame_ok; done.
    + transitivity n2; [done|apply after_send_ext].
    + unfold after_send. by destruct (tx_ready n2 (attempts n2)).
    + unfold after_send. cbn. destruct (tx_ready n (attempts n)); [|done].
      exists f. split; [done|]. by apply ip_frame_carries.
  - destruct (next_hop_wf dst Hl Hb) as [Hl' Hb'].
    set (f := arp_frame n1 ARP_REQUEST BROADCAST_MAC (replicate 6 0) (next_hop dst)).
    eexists (after_send n1 f), _. split_and!; [done|..|done|].
    + apply after_send_inv; [done|]. apply arp_frame_ok; try done; [|apply bytes_replicate].
      repeat constructor; unfold is_byte; lia.
    + transitivity n1; [by apply clock_read_ext|apply after_send_ext].
    + unfold after_send. by destruct (tx_ready n1 (attempts n1)).
    + unfold after_send. cbn. destruct (tx_ready n (attempts n)); [|done].
      exists f. eexists. split; [done|]. unfold f, arp_frame.
      rewrite eth_parse_eq, eth_payload_eq, parse_frame_of, payload_frame_of
        by (done || unfold ETHERTYPE_ARP; lia).
      split_and!; [done..|]. by rewrite arp_parse_eq, parse_packet_of by (done || unfold ARP_REQUEST; lia).
Qed.

(** C34: [send_packet] never panics and transmits at most one frame.  When the
    next hop (the destination on our subnet, else the gateway) is cached, it
    succeeds exactly if the payload has at most 1466 bytes and the transmitter is
    free: one frame goes to that hop, which a receiver parses as an unfragmented
    IPv4 packet from us with a valid header checksum, the given protocol and
    destination and, when not empty, exactly the payload; otherwise it fails and
    sends nothing at all.  When the next hop is not cached it fails, and broadcasts
    an ARP request for it if the transmitter is free.  Every frame sent is legal
    and the cache is unchanged. *)
Theorem send_packet_spec dst proto pl n :
  net_inv n → length dst = 4%nat → bytes dst → is_byte proto → bytes pl →
  ∃ n' ok, send_packet dst proto pl n = Ret (n', ok) ∧ net_inv n' ∧ net_ext n n' ∧
    arp_cache n' = arp_cache n ∧
    match lookup_entries (clock n (reads n)) (next_hop dst) (arp_cache n) with
    | Some m =>
        ok = (length pl <=? 1466)%nat && tx_ready n (attempts n) ∧
        if ok then ∃ f, sent n' = sent n ++ [f] ∧ carries f (mac n) m proto dst pl
        else sent n' = sent n
    | None =>
        ok = false ∧
        if tx_ready n (attempts n)
        then ∃ f p, sent n' = sent n ++ [f] ∧
               Ethernet.parse f = Ret (Some (mkEthernetHeader BROADCAST_MAC (mac n) ETHERTYPE_ARP)) ∧
               Ethernet.payload f = Ret p ∧
               Arp.parse p = Ret (Some (mkArpPacket 1 0x0800 6 4 ARP_REQUEST (mac n)
                 CONFIG_ip (replicate 6 0) (next_hop dst)))
        else sent n' = sent n
    end.
Proof. apply send_packet_ok. Qed.

(** A machine that knows the gateway's address. *)
Definition gateway_net (now : Z) : Net :=
  set_arp_cache (demo_net now)
    (update_entries now CONFIG_gateway [0x52; 0x55; 10; 0; 2; 2] ARP_CACHE_initial).
Lemma gateway_net_inv now : 0 ≤ now < 18446744073709551616 → net_inv (gateway_net now).
Proof.
  intros Hn. destruct (demo_net_inv now Hn). split; try done. cbn [arp_cache gateway_net set_arp_cache].
  apply update_entries_inv; try done; repeat constructor; unfold is_byte; lia.
Qed.

Lemma send_packet_spec_witness :
  ∃ n' ok, send_packet [93; 184; 216; 34] PROTO_TCP [1; 2; 3] (gateway_net 5) = Ret (n', ok) ∧ ok = true.
Proof.
  destruct (send_packet_spec [93; 184; 216; 34] PROTO_TCP [1; 2; 3] (gateway_net 5))
    as (n' & ok & H & _ & _ & _ & Hok & _).
  - apply gateway_net_inv. lia.
  - reflexivity.
  - repeat constructor; unfold is_byte; lia.
  - unfold is_byte, PROTO_TCP. lia.
  - repeat constructor; unfold is_byte; lia.
  - exists n', ok. split; [exact H|]. rewrite Hok. reflexivity.
Defined.

(** A packet without payload in a minimum-size frame: the padding is taken for
    its payload, although the header's total length excludes it. *)
Lemma payload_of_empty_packet :
  payload_of (header_fields 1 PROTO_TCP CONFIG_gateway 0)
    (header_of 1 PROTO_TCP CONFIG_gateway 0 ++ replicate 26 0) = replicate 26 0.
Proof. reflexivity. Qed.
