(* ===== verification/Icmp.v ===== *)
(** ICMP echo ([src/net/icmp.rs]). *)

From S2P Require Import Prelude NetBase Checksum Ethernet Arp Ipv4.

Definition HEADER_SIZE : nat := 8.
#[export] Hint Unfold HEADER_SIZE : sizes.
Definition TYPE_ECHO_REPLY : Z := 0.
Definition TYPE_ECHO_REQUEST : Z := 8.

Record IcmpHeader : Type := mkIcmpHeader {
  icmp_type : Z; code : Z; icmp_checksum : Z; identifier : Z; sequence : Z;
}.

(** [IcmpHeader::parse], [payload] and [verify_checksum] *)
Definition parse (data : list Z) : outcome (option IcmpHeader) :=
  if (length data <? HEADER_SIZE)%nat then Ret None
  else
    icmp_type ← index data 0;
    code ← index data 1;
    checksum ← get_be16 data 2;
    identifier ← get_be16 data 4;
    sequence ← get_be16 data 6;
    Ret (Some (mkIcmpHeader icmp_type code checksum identifier sequence)).
Definition payload (data : list Z) : outcome (list Z) :=
  if (HEADER_SIZE <? length data)%nat then get_slice_from data HEADER_SIZE else Ret [].
Definition verify_icmp (data : list Z) : bool := verify_checksum data.

Definition build_echo_reply (buffer : list Z) (identifier sequence : Z) (pl : list Z) :
    outcome (list Z * nat) :=
  if (length buffer <? HEADER_SIZE + length pl)%nat then Ret (buffer, 0%nat)
  else
    buffer ← set_at buffer 0 TYPE_ECHO_REPLY;
    buffer ← set_at buffer 1 0;
    buffer ← set_at buffer 2 0;
    buffer ← set_at buffer 3 0;
    buffer ← copy_in buffer 4 6 (to_be16 identifier);
    buffer ← copy_in buffer 6 8 (to_be16 sequence);
    buffer ← copy_in buffer HEADER_SIZE (HEADER_SIZE + length pl) pl;
    let total_len := (HEADER_SIZE + length pl)%nat in
    message ← get_slice buffer 0 total_len;
    let cksum := internet_checksum message in
    buffer ← copy_in buffer 2 4 (to_be16 cksum);
    Ret (buffer, total_len).

Definition send_echo_reply (dst : list Z) (identifier sequence : Z) (pl : list Z) : netM unit :=
  '(icmp_buffer, icmp_len) ← lift_outcome (build_echo_reply (replicate 1500 0) identifier sequence pl);
  if (icmp_len =? 0)%nat then mret tt
  else
    message ← lift_outcome (get_slice icmp_buffer 0 icmp_len);
    _ ← send_packet dst PROTO_ICMP message;
    mret tt.

Definition process_packet (ip_header : Ipv4Header) (data : list Z) : netM unit :=
  header ← lift_outcome (parse data);
  match header with
  | None => mret tt
  | Some icmp =>
      if negb (verify_icmp data) then mret tt
      else if icmp_type icmp =? TYPE_ECHO_REQUEST then
        pl ← lift_outcome (payload data);
        send_echo_reply (src_ip ip_header) (identifier icmp) (sequence icmp) pl
      else mret tt
  end.

(** ** What a message says: the reads are all in range *)

Definition parsed (data : list Z) : option IcmpHeader :=
  if (length data <? HEADER_SIZE)%nat then None
  else Some (mkIcmpHeader (at_ data 0) (at_ data 1) (be16_at data 2) (be16_at data 4) (be16_at data 6)).
Definition payload_of (data : list Z) : list Z :=
  if (HEADER_SIZE <? length data)%nat then drop HEADER_SIZE data else [].
Lemma icmp_parse_eq data : parse data = Ret (parsed data).
Proof.
  unfold parse, parsed. destruct (Nat.ltb_spec (length data) HEADER_SIZE); [done|]. by repeat step_read.
Qed.
Lemma icmp_payload_eq data : payload data = Ret (payload_of data).
Proof.
  unfold payload, payload_of. destruct (Nat.ltb_spec HEADER_SIZE (length data)); [|done].
  apply get_slice_from_eq. lia.
Qed.

(** ** The reply on the wire *)

Definition reply_of (i s : Z) (pl : list Z) : list Z :=
  [TYPE_ECHO_REPLY; 0] ++
  to_be16 (internet_checksum ([TYPE_ECHO_REPLY; 0] ++ [0; 0] ++ to_be16 i ++ to_be16 s ++ pl)) ++
  to_be16 i ++ to_be16 s ++ pl.

Lemma build_echo_reply_eq i s pl :
  (length pl ≤ 1492)%nat →
  build_echo_reply (replicate 1500 0) i s pl =
    Ret (reply_of i s pl ++ replicate (1492 - length pl) 0, (8 + length pl)%nat).
Proof.
  intros Hl. unfold build_echo_reply. rewrite length_replicate.
  rewrite (proj2 (Nat.ltb_ge 1500 _)) by solve_len.
  change (replicate 1500 0) with ([] ++ replicate 1500 0).
  do 7 (step_write; rewrite blit_zeros by solve_len).
  rewrite get_slice_to_eq, mbind_Ret by solve_len. step_write. do 2 f_equal.
  match goal with |- context [replicate ?k 0] => replace k with (1492 - length pl)%nat by solve_len end.
  rewrite take_app_length' by solve_len. rewrite <- !app_assoc. cbn [app].
  apply (blit_field [TYPE_ECHO_REPLY; 0] [0; 0]); done.
Qed.

Lemma length_reply_of i s pl : length (reply_of i s pl) = (8 + length pl)%nat.
Proof. unfold reply_of. solve_len. Qed.

Lemma reply_of_bytes i s pl : bytes pl → bytes (reply_of i s pl).
Proof.
  intros. unfold reply_of. rewrite !bytes_app, !bytes_cons. unfold is_byte, TYPE_ECHO_REPLY.
  repeat split; auto with ralph; lia.
Qed.

Lemma reply_of_verify i s pl :
  bytes pl → (length pl ≤ 1492)%nat → verify_icmp (reply_of i s pl) = true.
Proof.
  intros Hb Hl. apply checksum_fill_ok; [| |done|].
  - rewrite !bytes_cons. unfold is_byte, TYPE_ECHO_REPLY. repeat split; auto with ralph; lia.
  - rewrite !bytes_app. auto with ralph.
  - solve_len.
Qed.

Lemma parse_reply_of i s pl :
  0 ≤ i < 65536 → 0 ≤ s < 65536 →
  ∃ ck, parsed (reply_of i s pl) = Some (mkIcmpHeader TYPE_ECHO_REPLY 0 ck i s).
Proof.
  intros Hi Hs. unfold parsed. rewrite (proj2 (Nat.ltb_ge _ HEADER_SIZE)) by (rewrite length_reply_of; solve_len).
  eexists. do 2 f_equal; unfold reply_of.
  - rewrite (app_assoc [TYPE_ECHO_REPLY; 0]). by apply be16_at_app.
  - rewrite (app_assoc [TYPE_ECHO_REPLY; 0]), (app_assoc ([TYPE_ECHO_REPLY; 0] ++ _)). by apply be16_at_app.
Qed.

Lemma payload_reply_of i s pl : payload_of (reply_of i s pl) = pl.
Proof.
  unfold payload_of. rewrite length_reply_of. destruct pl; [done|].
  rewrite (proj2 (Nat.ltb_lt HEADER_SIZE _)) by solve_len. done.
Qed.

Lemma parse_ranges data h :
  bytes data → parsed data = Some h → 0 ≤ identifier h < 65536 ∧ 0 ≤ sequence h < 65536.
Proof.
  intros Hb. unfold parsed. destruct (_ <? _)%nat; [done|]. intros [= <-]. cbn.
  split; by apply be16_at_range.
Qed.

Lemma length_payload data h :
  parsed data = Some h → length (payload_of data) = (length data - 8)%nat.
Proof.
  unfold parsed, payload_of. destruct (Nat.ltb_spec (length data) HEADER_SIZE); [done|]. intros _.
  destruct (Nat.ltb_spec HEADER_SIZE (length data)); [by rewrite length_drop|]. cbn.
  autounfold with sizes in *. lia.
Qed.

(** Is [data] an echo request that must be answered? *)
Definition echo_request (data : list Z) (h : IcmpHeader) : Prop :=
  parse data = Ret (Some h) ∧ verify_icmp data = true ∧ icmp_type h = TYPE_ECHO_REQUEST.

(** What processing an ICMP message does to the stack. *)
Definition icmp_post (iph : Ipv4Header) (data : list Z) (n n' : Net) : Prop :=
  (∀ h m, echo_request data h → (length data ≤ 1466)%nat → tx_ready n (attempts n) = true →
     lookup_entries (clock n (reads n)) (next_hop (src_ip iph)) (arp_cache n) = Some m →
     ∃ f reply ck, sent n' = sent n ++ [f] ∧ carries f (mac n) m PROTO_ICMP (src_ip iph) reply ∧
       verify_icmp reply = true ∧
       parse reply = Ret (Some (mkIcmpHeader TYPE_ECHO_REPLY 0 ck (identifier h) (sequence h))) ∧
       payload reply = payload data) ∧
  ((¬ ∃ h, echo_request data h) → n' = n).

Lemma echo_request_iff data h :
  echo_request data h ↔
  parsed data = Some h ∧ verify_icmp data = true ∧ icmp_type h = TYPE_ECHO_REQUEST.
Proof. unfold echo_request. rewrite icmp_parse_eq. split; intros (Hp & ?); split; congruence. Qed.

Lemma icmp_process_packet_ok iph data n :
  net_inv n → bytes data → length (src_ip iph) = 4%nat → bytes (src_ip iph) →
  ∃ n', process_packet iph data n = Ret (n', tt) ∧ net_inv n' ∧ net_ext n n' ∧ icmp_post iph data n n'.
Proof.
  intros Hinv Hb Hl Hs. unfold process_packet.
  assert (Hno : (∀ h, ¬ echo_request data h) →
    ∃ n', Ret (n, tt) = Ret (n', tt) ∧ net_inv n' ∧ net_ext n n' ∧ icmp_post iph data n n').
  { intros H. exists n. split_and!; try done. split; [|done]. intros h m He. by destruct (H h). }
  rewrite icmp_parse_eq, lift_Ret. setoid_rewrite echo_request_iff in Hno.
  destruct (parsed data) as [h|] eqn:Hp; [|apply Hno; intros h (? & _); congruence].
  destruct (verify_icmp data) eqn:Hv; cbn [negb]; [|apply Hno; intros h' (_ & ? & _); congruence].
  destruct (icmp_type h =? TYPE_ECHO_REQUEST) eqn:Ht; bool_to_prop;
    [|apply Hno; intros h' (? & _ & ?); congruence].
  assert (Hreq : echo_request data h) by by apply echo_request_iff.
  destruct (parse_ranges data h Hb Hp) as [Hi Hsq]. pose proof (length_payload data h Hp) as Hlen.
  assert (Hpb : bytes (payload_of data)) by (unfold payload_of; destruct (_ <? _)%nat; auto with ralph).
  rewrite icmp_payload_eq, lift_Ret. unfold send_echo_reply.
  destruct (decide (length (payload_of data) ≤ 1492)%nat) as [Hle|Hgt].
  2: { unfold build_echo_reply. rewrite length_replicate, (proj2 (Nat.ltb_lt 1500 _)) by solve_len.
       exists n. split_and!; try done. split; [intros; lia|]. intros Hn. destruct Hn. eauto. }
  rewrite build_echo_reply_eq, lift_Ret by done. cbn [Nat.eqb Nat.add].
  set (r := reply_of (identifier h) (sequence h) (payload_of data)).
  change (S (S (S (S (S (S (S (S (length (payload_of data)))))))))) with (8 + length (payload_of data))%nat.
  pose proof (length_reply_of (identifier h) (sequence h) (payload_of data)) as Hr. fold r in Hr.
  rewrite get_slice_to_eq, lift_Ret, take_app_length' by solve_len.
  destruct (send_packet_ok (src_ip iph) PROTO_ICMP r n) as (n' & ok & He & Hinv' & Hext & _ & Hres);
    [done..|unfold is_byte, PROTO_ICMP; lia|by apply reply_of_bytes|].
  exists n'. rewrite (netM_bind_Ret _ _ _ _ _ He). split_and!; [done..|]. split.
  - intros h' m (Hp' & _)%echo_request_iff Hl' Hrdy Hlk. rewrite Hp in Hp'. injection Hp' as <-.
    rewrite Hlk, Hrdy in Hres. destruct Hres as [-> Hf]. rewrite Hr in Hf.
    assert (8 ≤ length data)%nat.
    { unfold parsed in Hp. destruct (Nat.ltb_spec (length data) HEADER_SIZE); [done|].
      autounfold with sizes in *. lia. }
    rewrite (proj2 (Nat.leb_le _ _)) in Hf by lia. destruct Hf as (f & Hf & Hc).
    destruct (parse_reply_of (identifier h) (sequence h) (payload_of data) Hi Hsq) as [ck Hck].
    exists f, r, ck. rewrite icmp_parse_eq, !icmp_payload_eq. unfold r. rewrite payload_reply_of, Hck.
    split_and!; try done. by apply reply_of_verify.
  - intros Hn. destruct Hn. eauto.
Qed.

(** Ping: a valid echo request of at most 1466 bytes whose sender's next hop
    is known is answered with exactly one frame, carrying an ICMP echo reply with a
    valid checksum, the same identifier, sequence number and payload, to the
    request's source; any other message, including one with a bad checksum,
    changes nothing. *)
Lemma icmp_process_packet_spec iph data n :
  net_inv n → bytes data → length (src_ip iph) = 4%nat → bytes (src_ip iph) →
  ∃ n', process_packet iph data n = Ret (n', tt) ∧ net_inv n' ∧ net_ext n n' ∧ icmp_post iph data n n'.
Proof. apply icmp_process_packet_ok. Qed.

(** A ping from the gateway. *)
Definition demo_ip_header : Ipv4Header :=
  mkIpv4Header 4 5 0 28 1 0x4000 64 PROTO_ICMP 0 CONFIG_gateway CONFIG_ip.
Definition demo_ping : list Z := [8; 0; 0xf7; 0xf4; 0; 3; 0; 8].

