(* ===== verification/Packet.v ===== *)
(** The packet buffer pool ([src/net/packet.rs]): two rings of fixed buffers
    between the interrupt handler, the network task and the driver.

    The slices the functions hand out are modelled by buffer indices; the copy of
    a received frame into its buffer (the receive loop of [src/net/ne2000.rs]) is
    [receive_frame]. *)

From S2P Require Import Prelude NetBase.

Definition PACKET_SIZE : nat := 1536.
Definition RX_BUFFER_COUNT : nat := 16.
Definition TX_BUFFER_COUNT : nat := 8.
#[export] Hint Unfold PACKET_SIZE RX_BUFFER_COUNT TX_BUFFER_COUNT : sizes.
Definition BUFFER_EMPTY : Z := 0.
Definition BUFFER_FULL : Z := 1.

Record PacketBuffer : Type := mkPacketBuffer { data : list Z; len : Z; flags : Z }.
Definition PacketBuffer_new : PacketBuffer := mkPacketBuffer (replicate PACKET_SIZE 0) 0 BUFFER_EMPTY.

(** One direction of the pool: [xx_buffers], [xx_head], [xx_tail]. *)
Record ring : Type := mkRing { buffers : list PacketBuffer; head : nat; tail : nat }.
Record PacketPool : Type := mkPacketPool {
  rx : ring; tx : ring; rx_count : Z; tx_count : Z; rx_dropped : Z;
}.
Definition PacketPool_new : PacketPool :=
  mkPacketPool (mkRing (replicate RX_BUFFER_COUNT PacketBuffer_new) 0 0)
    (mkRing (replicate TX_BUFFER_COUNT PacketBuffer_new) 0 0) 0 0 0.

(** [init]: the buffers keep their contents. *)
Definition init (p : PacketPool) : PacketPool :=
  mkPacketPool (mkRing (buffers (rx p)) 0 0) (mkRing (buffers (tx p)) 0 0) 0 0 0.

Definition set_rx (p : PacketPool) (r : ring) : PacketPool :=
  mkPacketPool r (tx p) (rx_count p) (tx_count p) (rx_dropped p).
Definition set_tx (p : PacketPool) (r : ring) : PacketPool :=
  mkPacketPool (rx p) r (rx_count p) (tx_count p) (rx_dropped p).

(** ** The operations both directions share, for a ring of [n] buffers *)
Section ring.
Context (n : nat).

Definition next (i : nat) : nat := ((i + 1) mod n)%nat.

(** The buffer at [head], unless the ring is full. *)
Definition ring_reserve (r : ring) : option nat :=
  if (next (head r) =? tail r)%nat then None else Some (head r).

(** Set the length and the flag of the buffer at [head] and advance [head]. *)
Definition ring_publish (r : ring) (l : Z) : ring :=
  mkRing (alter (λ b, mkPacketBuffer (data b) (u16 l) BUFFER_FULL) (head r) (buffers r))
    (next (head r)) (tail r).

(** The buffer at [tail] if the ring is not empty and the buffer is ready. *)
Definition ring_front (r : ring) : outcome (option (list Z)) :=
  if (head r =? tail r)%nat then Ret None
  else
    match buffers r !! tail r with
    | None => Panic
    | Some b =>
        if negb (flags b =? BUFFER_FULL) then Ret None
        else if (length (data b) <? Z.to_nat (len b))%nat then Panic
        else Ret (Some (take (Z.to_nat (len b)) (data b)))
    end.

Definition ring_release (r : ring) : ring :=
  mkRing (alter (λ b, mkPacketBuffer (data b) (len b) BUFFER_EMPTY) (tail r) (buffers r))
    (head r) (next (tail r)).

(** Writing into a buffer that was handed out. *)
Definition ring_fill (r : ring) (i : nat) (bs : list Z) : ring :=
  mkRing (alter (λ b, mkPacketBuffer (blit (data b) 0 bs) (len b) (flags b)) i (buffers r))
    (head r) (tail r).
End ring.

(** ** Receive side *)
Definition get_rx_buffer_for_write (p : PacketPool) : PacketPool * option nat :=
  match ring_reserve RX_BUFFER_COUNT (rx p) with
  | None => (mkPacketPool (rx p) (tx p) (rx_count p) (tx_count p) (u64 (rx_dropped p + 1)), None)
  | Some i => (p, Some i)
  end.
Definition rx_buffer_ready (p : PacketPool) (l : Z) : PacketPool :=
  mkPacketPool (ring_publish RX_BUFFER_COUNT (rx p) l) (tx p) (u64 (rx_count p + 1)) (tx_count p) (rx_dropped p).
Definition get_rx_packet (p : PacketPool) : outcome (option (list Z)) := ring_front (rx p).
Definition release_rx_buffer (p : PacketPool) : PacketPool :=
  set_rx p (ring_release RX_BUFFER_COUNT (rx p)).

(** The interrupt handler on a frame [bs] read from the card. *)
Definition receive_frame (p : PacketPool) (bs : list Z) : PacketPool :=
  match get_rx_buffer_for_write p with
  | (p, None) => p
  | (p, Some i) => rx_buffer_ready (set_rx p (ring_fill (rx p) i bs)) (Z.of_nat (length bs))
  end.

(** ** Transmit side *)
Definition get_tx_buffer (p : PacketPool) : option nat := ring_reserve TX_BUFFER_COUNT (tx p).
Definition tx_buffer_ready (p : PacketPool) (l : Z) : PacketPool * nat :=
  (mkPacketPool (rx p) (ring_publish TX_BUFFER_COUNT (tx p) l) (rx_count p) (u64 (tx_count p + 1)) (rx_dropped p),
   head (tx p)).
Definition get_tx_packet (p : PacketPool) : outcome (option (list Z * nat)) :=
  o ← ring_front (tx p); Ret (option_map (λ d, (d, tail (tx p))) o).
Definition tx_complete (p : PacketPool) : PacketPool :=
  set_tx p (ring_release TX_BUFFER_COUNT (tx p)).

Definition stats (p : PacketPool) : Z * Z * Z := (rx_count p, tx_count p, rx_dropped p).
Definition has_rx_pending (p : PacketPool) : bool := negb (head (rx p) =? tail (rx p))%nat.
Definition has_tx_pending (p : PacketPool) : bool := negb (head (tx p) =? tail (tx p))%nat.

(** ** A ring is a bounded queue of packets *)
Section queue.
Context (n : nat) (Hn : (2 ≤ n)%nat).

Definition slot (r : ring) (i : nat) : nat := ((tail r + i) mod n)%nat.
Definition holds (b : PacketBuffer) (x : list Z) : Prop :=
  flags b = BUFFER_FULL ∧ (length x ≤ PACKET_SIZE)%nat ∧ len b = Z.of_nat (length x) ∧
  take (length x) (data b) = x.

(** [q] are the packets from [tail] to [head], oldest first. *)
Record ring_inv (r : ring) (q : list (list Z)) : Prop := mkRingInv {
  ri_count : length (buffers r) = n;
  ri_size : Forall (λ b, length (data b) = PACKET_SIZE) (buffers r);
  ri_tail : (tail r < n)%nat;
  ri_head : head r = slot r (length q);
  ri_room : (length q < n)%nat;
  ri_holds : ∀ i x, q !! i = Some x → ∃ b, buffers r !! slot r i = Some b ∧ holds b x;
}.

(** Different positions of the queue are different buffers. *)
Lemma packet_slot_inj r i j : (i < n)%nat → (j < n)%nat → slot r i = slot r j → i = j.
Proof.
  intros Hi Hj. unfold slot. intros E.
  pose proof (Nat.div_mod (tail r + i) n ltac:(lia)) as D1.
  pose proof (Nat.div_mod (tail r + j) n ltac:(lia)) as D2. rewrite E in D1.
  destruct (Nat.lt_trichotomy ((tail r + i) / n) ((tail r + j) / n)) as [|[|]]; nia.
Qed.
Lemma packet_slot_lt r i : (slot r i < n)%nat.
Proof. apply Nat.mod_upper_bound. lia. Qed.
Lemma next_slot r i : next n (slot r i) = slot r (S i).
Proof. unfold next, slot. rewrite Nat.Div0.add_mod_idemp_l. f_equal. lia. Qed.
Lemma packet_slot_0 r : (tail r < n)%nat → slot r 0 = tail r.
Proof. intros. unfold slot. rewrite Nat.add_0_r. by apply Nat.mod_small. Qed.

Lemma ring_reserve_spec r q :
  ring_inv r q → ring_reserve n r = if (length q <? n - 1)%nat then Some (slot r (length q)) else None.
Proof.
  intros [_ _ Ht Hh Hr _]. unfold ring_reserve. rewrite Hh, next_slot.
  destruct (Nat.ltb_spec (length q) (n - 1)) as [Hl|Hl].
  - rewrite (proj2 (Nat.eqb_neq _ _)); [done|]. intros E. rewrite <- packet_slot_0 in E by done.
    apply packet_slot_inj in E; lia.
  - replace (S (length q)) with n by lia. unfold slot at 1.
    rewrite <- (Nat.mul_1_l n) at 1. rewrite Nat.Div0.mod_add, Nat.mod_small by done.
    by rewrite Nat.eqb_refl.
Qed.

Lemma ring_enqueue_inv r q bs :
  ring_inv r q → (length q < n - 1)%nat → (length bs ≤ PACKET_SIZE)%nat →
  ring_inv (ring_publish n (ring_fill r (slot r (length q)) bs) (Z.of_nat (length bs))) (q ++ [bs]).
Proof.
  intros [Hc Hs Ht Hh Hr Hq] Hl Hb. split; cbn.
  - by rewrite !length_alter.
  - apply Forall_alter; [|intros b _ Hsz; by cbn].
    apply Forall_alter; [done|]. intros b _ Hsz. cbn. by rewrite length_blit.
  - done.
  - rewrite Hh, next_slot, length_app. cbn. f_equal. lia.
  - rewrite length_app. cbn. lia.
  - intros i x Hi. rewrite Hh. unfold slot at 3. cbn [tail]. fold (slot r i).
    destruct (decide (i = length q)) as [->|Hne].
    + rewrite lookup_app_r, Nat.sub_diag in Hi by lia. cbn in Hi. injection Hi as <-.
      assert (is_Some (buffers r !! slot r (length q))) as [b Hbb].
      { apply lookup_lt_is_Some. rewrite Hc. apply packet_slot_lt. }
      eexists. split; [by rewrite !list_lookup_alter_eq, Hbb|]. split_and!; try done; cbn.
      * apply u16_small. unfold PACKET_SIZE in Hb. lia.
      * eapply Forall_lookup_1 in Hs; [|done]. cbn in Hs. unfold PACKET_SIZE in *. rewrite blit_eq by lia.
        by rewrite take_0, app_nil_l, take_app_length.
    + assert (i < length q)%nat.
      { apply lookup_lt_Some in Hi. rewrite length_app in Hi. cbn in Hi. lia. }
      rewrite lookup_app_l in Hi by done. destruct (Hq i x Hi) as (b & Hb1 & Hb2). exists b.
      rewrite !list_lookup_alter_ne; [done|..]; intros E; apply (packet_slot_inj r (length q) i) in E; lia.
Qed.

Lemma ring_front_spec r q : ring_inv r q → ring_front r = Ret (hd_error q).
Proof.
  intros [Hc Hs Ht Hh Hr Hq]. unfold ring_front. rewrite Hh. destruct q as [|x q].
  { cbn [length]. by rewrite packet_slot_0, Nat.eqb_refl by done. }
  rewrite (proj2 (Nat.eqb_neq _ _)).
  2: { intros E. rewrite <- (packet_slot_0 r Ht) in E. apply packet_slot_inj in E; cbn in *; lia. }
  destruct (Hq 0%nat x eq_refl) as (b & Hb & Hf & Hl & Hlen & Htk). rewrite packet_slot_0 in Hb by done.
  rewrite Hb, Hf, Z.eqb_refl. cbn [negb]. eapply Forall_lookup_1 in Hs; [|done]. cbn in Hs.
  rewrite Hlen, Nat2Z.id, (proj2 (Nat.ltb_ge _ _)) by lia. by rewrite Htk.
Qed.

Lemma ring_release_inv r x q : ring_inv r (x :: q) → ring_inv (ring_release n r) q.
Proof.
  intros [Hc Hs Ht Hh Hr Hq]. cbn in Hr.
  assert (Hnt : next n (tail r) = slot r 1) by (rewrite <- (packet_slot_0 r) at 1 by done; apply next_slot).
  assert (Hsl : ∀ i, slot (ring_release n r) i = slot r (S i)).
  { intros i. unfold slot at 1. cbn [tail ring_release]. rewrite Hnt. unfold slot.
    rewrite Nat.Div0.add_mod_idemp_l. f_equal. lia. }
  split.
  - cbn. by rewrite length_alter.
  - cbn. apply Forall_alter; [done|]. by intros b _ ?.
  - cbn. rewrite Hnt. apply packet_slot_lt.
  - rewrite Hsl. done.
  - lia.
  - intros i y Hi. rewrite Hsl. destruct (Hq (S i) y Hi) as (b & Hb & Hh'). exists b. split; [|done].
    cbn. rewrite list_lookup_alter_ne; [done|]. intros E. rewrite <- (packet_slot_0 r) in E by done.
    apply lookup_lt_Some in Hi. apply packet_slot_inj in E; lia.
Qed.
End queue.

#[global] Arguments slot : simpl never.
#[global] Arguments next : simpl never.

(** ** The receive ring between the interrupt handler and the network task *)

(** [Irq bs]: the handler receives a frame; [Peek]: the task asks for the next
    packet; [Release]: the task has processed it.  Interrupts come anywhere. *)
Inductive rx_event : Type := Irq (bs : list Z) | Peek | Release.

Fixpoint rx_run (p : PacketPool) (es : list rx_event) : outcome (list (option (list Z)) * PacketPool) :=
  match es with
  | [] => Ret ([], p)
  | Irq bs :: es => rx_run (receive_frame p bs) es
  | Peek :: es =>
      o ← get_rx_packet p;
      '(os, p') ← rx_run p es;
      Ret (o :: os, p')
  | Release :: es => rx_run (release_rx_buffer p) es
  end.

(** The specification: a queue of capacity 15, with the number of accepted and of
    dropped frames.  [Release] on an empty queue is a use outside the protocol. *)
Record rx_spec : Type := mkSpec { queue : list (list Z); accepted : Z; dropped : Z }.
Fixpoint spec_run (s : rx_spec) (es : list rx_event) : option (list (option (list Z)) * rx_spec) :=
  match es with
  | [] => Some ([], s)
  | Irq bs :: es =>
      if (length (queue s) <? 15)%nat
      then spec_run (mkSpec (queue s ++ [bs]) (accepted s + 1) (dropped s)) es
      else spec_run (mkSpec (queue s) (accepted s) (dropped s + 1)) es
  | Peek :: es =>
      '(os, s') ← spec_run s es;
      Some (hd_error (queue s) :: os, s')
  | Release :: es =>
      match queue s with
      | [] => None
      | _ :: q => spec_run (mkSpec q (accepted s) (dropped s)) es
      end
  end.

Definition rx_inv (p : PacketPool) (s : rx_spec) : Prop :=
  ring_inv RX_BUFFER_COUNT (rx p) (queue s) ∧ rx_count p = u64 (accepted s) ∧ rx_dropped p = u64 (dropped s) ∧ tx_count p = 0.

Definition short_frames (es : list rx_event) : Prop :=
  ∀ bs, Irq bs ∈ es → (length bs ≤ PACKET_SIZE)%nat.

Lemma u64_succ z : u64 (u64 z + 1) = u64 (z + 1).
Proof. unfold u64. by rewrite Zplus_mod_idemp_l. Qed.

Lemma receive_frame_inv p s bs :
  rx_inv p s → (length bs ≤ PACKET_SIZE)%nat →
  rx_inv (receive_frame p bs)
    (if (length (queue s) <? 15)%nat then mkSpec (queue s ++ [bs]) (accepted s + 1) (dropped s)
     else mkSpec (queue s) (accepted s) (dropped s + 1)).
Proof.
  intros (Hr & Ha & Hd & Ht) Hb. unfold receive_frame, get_rx_buffer_for_write.
  rewrite (ring_reserve_spec RX_BUFFER_COUNT ltac:(solve_len) _ _ Hr).
  change (RX_BUFFER_COUNT - 1)%nat with 15%nat.
  destruct (Nat.ltb_spec (length (queue s)) 15); unfold rx_inv; cbn.
  - rewrite Ha, u64_succ. split_and!; try done. apply ring_enqueue_inv; try done; solve_len.
  - by rewrite Hd, u64_succ.
Qed.

Lemma release_inv p s x q :
  rx_inv p s → queue s = x :: q → rx_inv (release_rx_buffer p) (mkSpec q (accepted s) (dropped s)).
Proof.
  intros (Hr & Ha & Hd & Ht) Hq. rewrite Hq in Hr. split_and!; try done. cbn.
  eapply ring_release_inv; [solve_len|exact Hr].
Qed.

Lemma rx_refines p s es os s' :
  rx_inv p s → short_frames es → spec_run s es = Some (os, s') →
  ∃ p', rx_run p es = Ret (os, p') ∧ rx_inv p' s'.
Proof.
  revert p s os. induction es as [|e es IH]; intros p s os Hinv Hsh Hrun; cbn [spec_run] in Hrun.
  { simplify_eq. by exists p. }
  assert (Hsh' : short_frames es) by (intros bs Hin; apply Hsh; by right).
  destruct e as [bs| |]; cbn [rx_run].
  - pose proof (receive_frame_inv p s bs Hinv (Hsh bs ltac:(left))) as Hinv'.
    revert Hrun Hinv'. destruct (length (queue s) <? 15)%nat; intros Hrun Hinv';
      exact (IH _ _ _ Hinv' Hsh' Hrun).
  - unfold get_rx_packet. rewrite (ring_front_spec RX_BUFFER_COUNT ltac:(solve_len) _ _ (proj1 Hinv)).
    destruct (spec_run s es) as [[os1 s1]|] eqn:Hs; [|done]. cbn in Hrun. simplify_eq.
    destruct (IH p s os1 Hinv Hsh' Hs) as (p' & -> & Hinv'). by exists p'.
  - destruct (queue s) as [|x q] eqn:Hq; [done|]. eapply IH; [|done|exact Hrun].
    by eapply release_inv.
Qed.

Lemma init_inv p :
  length (buffers (rx p)) = RX_BUFFER_COUNT →
  Forall (λ b, length (data b) = PACKET_SIZE) (buffers (rx p)) →
  rx_inv (init p) (mkSpec [] 0 0).
Proof.
  intros Hl Hs. split_and!; try done. split; cbn; try done; solve_len.
Qed.

(** C30: under any interleaving of interrupts with the network task, the receive
    ring behaves as a first-in first-out queue of 15 packets: the task sees every
    accepted frame exactly once, unchanged and in order, however many frames
    arrive while it is processing one; a frame is dropped exactly when 15 are
    waiting, and the statistics count accepted and dropped frames. *)
Theorem rx_ring_fifo es os s' :
  short_frames es → spec_run (mkSpec [] 0 0) es = Some (os, s') →
  ∃ p', rx_run (init PacketPool_new) es = Ret (os, p') ∧
    stats p' = (u64 (accepted s'), 0, u64 (dropped s')) ∧
    has_rx_pending p' = negb (length (queue s') =? 0)%nat.
Proof.
  intros Hsh Hrun.
  destruct (rx_refines (init PacketPool_new) (mkSpec [] 0 0) es os s') as (p' & Hp & Hr & Ha & Hd & Ht); try done.
  { apply init_inv; [done|]. by apply Forall_replicate. }
  exists p'. split_and!; [done|unfold stats; congruence|]. unfold has_rx_pending. f_equal.
  destruct Hr as [_ _ Htl Hh Hroom _]. rewrite Hh. destruct (Nat.eqb_spec (length (queue s')) 0) as [->|Hne].
  - by rewrite packet_slot_0, Nat.eqb_refl.
  - rewrite <- (packet_slot_0 RX_BUFFER_COUNT (rx p') Htl). apply Nat.eqb_neq. intros E.
    apply packet_slot_inj in E; solve_len.
Qed.

Lemma rx_ring_fifo_witness :
  ∃ p', rx_run (init PacketPool_new) [Irq [1; 2]; Peek; Irq [3]; Peek; Release; Peek; Release; Peek]
    = Ret ([Some [1; 2]; Some [1; 2]; Some [3]; None], p') ∧ stats p' = (2, 0, 0).
Proof.
  destruct (rx_ring_fifo [Irq [1; 2]; Peek; Irq [3]; Peek; Release; Peek; Release; Peek]
    [Some [1; 2]; Some [1; 2]; Some [3]; None] (mkSpec [] 2 0)) as (p' & H & Hs & _); [|reflexivity|].
  - intros bs Hin. rewrite !elem_of_cons, elem_of_nil in Hin. unfold PACKET_SIZE.
    destruct Hin as [[= ->]|[?|[[= ->]|[?|[?|[?|[?|[?|?]]]]]]]]; try done; cbn; lia.
  - exists p'. split; [exact H|exact Hs].
Defined.
