(* ===== verification/RingBuffer.v ===== *)
(** The byte ring of a TCP connection ([RingBuffer] of [src/net/tcp.rs]): 1024
    bytes with head, tail and length, refined to a byte queue.  An access outside
    the array is a panic of the model. *)

From S2P Require Import Prelude NetBase.

Definition RX_BUFFER_SIZE : nat := 1024.
#[export] Hint Unfold RX_BUFFER_SIZE : sizes.

Record RingBuffer : Type := mkRingBuffer { data : list Z; head : nat; tail : nat; len : nat }.
Definition RingBuffer_new : RingBuffer := mkRingBuffer (replicate RX_BUFFER_SIZE 0) 0 0 0.

Definition available (r : RingBuffer) : nat := len r.
Definition free_space (r : RingBuffer) : nat := (RX_BUFFER_SIZE - len r)%nat.

(** The loop of [write]: store the bytes at [head], advancing it. *)
Fixpoint store (d : list Z) (h : nat) (bs : list Z) : outcome (list Z * nat) :=
  match bs with
  | [] => Ret (d, h)
  | b :: bs =>
      if (length d <=? h)%nat then Panic
      else store (<[h := b]> d) ((h + 1) mod RX_BUFFER_SIZE) bs
  end.
Definition write (r : RingBuffer) (bs : list Z) : outcome (RingBuffer * nat) :=
  let to_write := Nat.min (length bs) (free_space r) in
  '(d, h) ← store (data r) (head r) (take to_write bs);
  Ret (mkRingBuffer d h (tail r) (len r + to_write), to_write).

(** The loop of [read], [peek] and [peek_offset]: load [n] bytes from [pos]. *)
Fixpoint load (d : list Z) (pos n : nat) : outcome (list Z * nat) :=
  match n with
  | O => Ret ([], pos)
  | S n =>
      match d !! pos with
      | None => Panic
      | Some b =>
          '(bs, pos') ← load d ((pos + 1) mod RX_BUFFER_SIZE) n;
          Ret (b :: bs, pos')
      end
  end.

(** [read] into a buffer of [n] bytes: the bytes stored at its front. *)
Definition read (r : RingBuffer) (n : nat) : outcome (RingBuffer * list Z) :=
  let to_read := Nat.min n (len r) in
  '(bs, t) ← load (data r) (tail r) to_read;
  Ret (mkRingBuffer (data r) (head r) t (len r - to_read), bs).
Definition peek (r : RingBuffer) (n : nat) : outcome (list Z) :=
  let to_read := Nat.min n (len r) in
  '(bs, _) ← load (data r) (tail r) to_read; Ret bs.
Definition peek_offset (r : RingBuffer) (offset n : nat) : outcome (list Z) :=
  if (len r <=? offset)%nat then Ret []
  else
    let to_read := Nat.min n (len r - offset) in
    '(bs, _) ← load (data r) ((tail r + offset) mod RX_BUFFER_SIZE) to_read; Ret bs.
Definition consume (r : RingBuffer) (count : nat) : RingBuffer :=
  let to_consume := Nat.min count (len r) in
  mkRingBuffer (data r) (head r) ((tail r + to_consume) mod RX_BUFFER_SIZE) (len r - to_consume).
Definition clear (r : RingBuffer) : RingBuffer := mkRingBuffer (data r) 0 0 0.

(** ** The ring represents the queue [q] *)

Definition slot (t i : nat) : nat := ((t + i) mod RX_BUFFER_SIZE)%nat.
#[global] Arguments slot : simpl never.
Record ring_ok (r : RingBuffer) (q : list Z) : Prop := mkRingOk {
  ro_size : length (data r) = RX_BUFFER_SIZE;
  ro_tail : (tail r < RX_BUFFER_SIZE)%nat;
  ro_head : head r = slot (tail r) (len r);
  ro_len : len r = length q;
  ro_room : (length q ≤ RX_BUFFER_SIZE)%nat;
  ro_data : ∀ i x, q !! i = Some x → data r !! slot (tail r) i = Some x;
}.

Lemma slot_lt t i : (slot t i < RX_BUFFER_SIZE)%nat.
Proof. apply Nat.mod_upper_bound. solve_len. Qed.
Lemma slot_S t i : ((slot t i + 1) mod RX_BUFFER_SIZE)%nat = slot t (S i).
Proof. unfold slot. rewrite Nat.Div0.add_mod_idemp_l. f_equal. lia. Qed.
Lemma slot_0 t : (t < RX_BUFFER_SIZE)%nat → slot t 0 = t.
Proof. intros. unfold slot. rewrite Nat.add_0_r. by apply Nat.mod_small. Qed.
Lemma slot_slot t i j : slot (slot t i) j = slot t (i + j).
Proof. unfold slot. rewrite Nat.Div0.add_mod_idemp_l. f_equal. lia. Qed.
Lemma slot_inj t i j :
  (i < RX_BUFFER_SIZE)%nat → (j < RX_BUFFER_SIZE)%nat → slot t i = slot t j → i = j.
Proof.
  intros Hi Hj E. unfold slot in E. set (n := RX_BUFFER_SIZE) in *.
  pose proof (Nat.div_mod (t + i) n ltac:(lia)) as D1.
  pose proof (Nat.div_mod (t + j) n ltac:(lia)) as D2. rewrite E in D1.
  destruct (Nat.lt_trichotomy ((t + i) / n) ((t + j) / n)) as [|[|]]; nia.
Qed.

Lemma store_spec t k bs d :
  length d = RX_BUFFER_SIZE → (k + length bs ≤ RX_BUFFER_SIZE)%nat →
  ∃ d', store d (slot t k) bs = Ret (d', slot t (k + length bs)) ∧ length d' = RX_BUFFER_SIZE ∧
    (∀ i x, bs !! i = Some x → d' !! slot t (k + i) = Some x) ∧
    (∀ i, (i < k)%nat → d' !! slot t i = d !! slot t i).
Proof.
  revert k d. induction bs as [|b bs IH]; intros k d Hd Hk; cbn [store length] in *.
  { exists d. rewrite Nat.add_0_r. split_and!; done. }
  pose proof (slot_lt t k). rewrite (proj2 (Nat.leb_gt _ _)) by lia. rewrite slot_S.
  destruct (IH (S k) (<[slot t k := b]> d)) as (d' & -> & Hl & Hnew & Hold);
    [by rewrite length_insert|lia|].
  exists d'. split_and!; [do 3 f_equal; lia|done|..].
  - intros [|i] x Hi; cbn in Hi.
    + simplify_eq. rewrite Nat.add_0_r, Hold by lia. apply list_lookup_insert_eq. lia.
    + rewrite <- Nat.add_succ_comm. by apply Hnew.
  - intros i Hi. rewrite Hold by lia. apply list_lookup_insert_ne. intros E%slot_inj; lia.
Qed.

Lemma load_spec d t k n :
  (∀ i, (i < n)%nat → is_Some (d !! slot t (k + i))) →
  load d (slot t k) n = Ret ((λ i, d !!! slot t (k + i)) <$> seq 0 n, slot t (k + n)).
Proof.
  revert k. induction n as [|n IH]; intros k Hd; cbn [load].
  { by rewrite Nat.add_0_r. }
  destruct (Hd 0%nat ltac:(lia)) as [b Hb]. rewrite Nat.add_0_r in Hb. rewrite Hb, slot_S, IH.
  - cbn. rewrite Nat.add_0_r, (list_lookup_total_correct _ _ _ Hb). do 2 f_equal; [|f_equal; lia].
    f_equal. rewrite <- fmap_S_seq, <- list_fmap_compose. apply list_fmap_ext. intros i x _.
    cbn. do 2 f_equal. lia.
  - intros i Hi. replace (S k + i)%nat with (k + S i)%nat by lia. apply Hd. lia.
Qed.

(** The bytes from position [o] of the queue. *)
Lemma load_queue r q o n :
  ring_ok r q → (o + n ≤ length q)%nat →
  load (data r) (slot (tail r) o) n = Ret (take n (drop o q), slot (tail r) (o + n)).
Proof.
  intros [Hs Ht Hh Hl Hr Hd] Hn. rewrite load_spec.
  - do 2 f_equal. apply list_eq. intros i. rewrite list_lookup_fmap.
    destruct (decide (i < n)%nat) as [Hi|Hi].
    + rewrite lookup_seq_lt by done. cbn. rewrite lookup_take_lt, lookup_drop by done.
      destruct (lookup_lt_is_Some_2 q (o + i) ltac:(lia)) as [x Hx]. rewrite Hx. f_equal.
      by apply list_lookup_total_correct, Hd.
    + rewrite lookup_seq_ge by lia. rewrite lookup_take_ge by lia. done.
  - intros i Hi. destruct (lookup_lt_is_Some_2 q (o + i) ltac:(lia)) as [x Hx]. eauto.
Qed.

(** A ring represents one queue. *)
Lemma ring_ok_fun r q q' : ring_ok r q → ring_ok r q' → q = q'.
Proof.
  intros [_ _ _ Hl _ Hd] [_ _ _ Hl' _ Hd']. apply list_eq. intros i.
  destruct (decide (i < len r)%nat).
  - destruct (lookup_lt_is_Some_2 q i ltac:(lia)) as [x Hx], (lookup_lt_is_Some_2 q' i ltac:(lia)) as [y Hy].
    pose proof (Hd i x Hx). pose proof (Hd' i y Hy). congruence.
  - rewrite !lookup_ge_None_2 by lia. done.
Qed.

Lemma RingBuffer_new_ok : ring_ok RingBuffer_new [].
Proof. split; cbn; try done; solve_len. Qed.

Lemma write_ok r q bs :
  ring_ok r q →
  let k := Nat.min (length bs) (RX_BUFFER_SIZE - length q) in
  ∃ r', write r bs = Ret (r', k) ∧ ring_ok r' (q ++ take k bs).
Proof.
  intros [Hs Ht Hh Hl Hr Hd] k. unfold write, free_space. rewrite Hl. fold k. rewrite Hh, Hl.
  destruct (store_spec (tail r) (length q) (take k bs) (data r) Hs) as (d' & -> & Hs' & Hnew & Hold).
  { rewrite length_take. lia. }
  eexists. split; [reflexivity|]. rewrite length_take, Nat.min_l by lia. split; cbn; try done.
  - rewrite length_app, length_take. lia.
  - rewrite length_app, length_take. lia.
  - intros i x. destruct (decide (i < length q)%nat).
    + rewrite lookup_app_l by done. intros Hi. rewrite Hold by done. by apply Hd.
    + rewrite lookup_app_r by lia. intros Hi. replace i with (length q + (i - length q))%nat by lia.
      by apply Hnew.
Qed.

(** Dropping a prefix of the queue by moving the tail. *)
Lemma ring_ok_drop r q k :
  ring_ok r q → (k ≤ length q)%nat →
  ring_ok (mkRingBuffer (data r) (head r) (slot (tail r) k) (len r - k)) (drop k q).
Proof.
  intros [Hs Ht Hh Hl Hr Hd] Hk. split; cbn; try done.
  - apply slot_lt.
  - rewrite slot_slot, Hh. f_equal. lia.
  - rewrite length_drop. lia.
  - rewrite length_drop. lia.
  - intros i x Hi. rewrite lookup_drop in Hi. rewrite slot_slot. by apply Hd.
Qed.

Lemma read_ok r q n :
  ring_ok r q → ∃ r', read r n = Ret (r', take n q) ∧ ring_ok r' (drop n q).
Proof.
  intros Hok. unfold read. rewrite (ro_len _ _ Hok). set (k := Nat.min n (length q)).
  assert (Hl : load (data r) (tail r) k = Ret (take n q, slot (tail r) k)).
  { rewrite <- (slot_0 (tail r)) at 1 by apply Hok. rewrite (load_queue r q) by (done || lia).
    rewrite drop_0. do 2 f_equal. unfold k. destruct (Nat.min_spec n (length q)) as [[? ->]|[? ->]]; [done|].
    by rewrite !take_ge by lia. }
  rewrite Hl. cbn. eexists. split; [reflexivity|].
  replace (drop n q) with (drop k q).
  - rewrite <- (ro_len _ _ Hok). apply ring_ok_drop; [done|lia].
  - unfold k. destruct (Nat.min_spec n (length q)) as [[? ->]|[? ->]]; [done|]. by rewrite !drop_ge by lia.
Qed.

Lemma peek_offset_ok r q o n : ring_ok r q → peek_offset r o n = Ret (take n (drop o q)).
Proof.
  intros Hok. unfold peek_offset. rewrite (ro_len _ _ Hok).
  destruct (Nat.leb_spec (length q) o).
  { rewrite drop_ge by done. by rewrite take_nil. }
  change ((tail r + o) mod RX_BUFFER_SIZE)%nat with (slot (tail r) o).
  rewrite (load_queue r q) by (done || lia). cbn. f_equal.
  destruct (Nat.min_spec n (length q - o)) as [[? ->]|[? ->]]; [done|].
  by rewrite !take_ge by (rewrite length_drop; lia).
Qed.

Lemma consume_ok r q k : ring_ok r q → ring_ok (consume r k) (drop k q).
Proof.
  intros Hok. unfold consume. rewrite (ro_len _ _ Hok).
  replace (drop k q) with (drop (Nat.min k (length q)) q).
  - rewrite <- (ro_len _ _ Hok) at 2. apply ring_ok_drop; [done|lia].
  - destruct (Nat.min_spec k (length q)) as [[? ->]|[? ->]]; [done|]. by rewrite !drop_ge by lia.
Qed.

Lemma ring_peek_ok r q n : ring_ok r q → peek r n = Ret (take n q).
Proof.
  intros Hok. unfold peek. rewrite (ro_len _ _ Hok).
  rewrite <- (slot_0 (tail r)) by apply Hok. rewrite (load_queue r q) by (done || lia).
  cbn. f_equal. rewrite drop_0. destruct (Nat.min_spec n (length q)) as [[? ->]|[? ->]]; [done|].
  by rewrite !take_ge by lia.
Qed.

Lemma clear_ok r q : ring_ok r q → ring_ok (clear r) [].
Proof. intros []. split; cbn; try done; solve_len. Qed.

(** ** Refinement *)

Inductive ring_op : Type :=
| OWrite (bs : list Z) | ORead (n : nat) | OPeek (n : nat) | OPeekOffset (o n : nat)
| OConsume (n : nat) | OClear.

(** What the caller of an operation gets: bytes and a count. *)
Definition ring_step (r : RingBuffer) (o : ring_op) : outcome (RingBuffer * (list Z * nat)) :=
  match o with
  | OWrite bs => '(r', k) ← write r bs; Ret (r', ([], k))
  | ORead n => '(r', bs) ← read r n; Ret (r', (bs, length bs))
  | OPeek n => bs ← peek r n; Ret (r, (bs, length bs))
  | OPeekOffset o n => bs ← peek_offset r o n; Ret (r, (bs, length bs))
  | OConsume n => Ret (consume r n, ([], 0%nat))
  | OClear => Ret (clear r, ([], 0%nat))
  end.
Definition queue_step (q : list Z) (o : ring_op) : list Z * (list Z * nat) :=
  match o with
  | OWrite bs => let acc := take (1024 - length q) bs in (q ++ acc, ([], length acc))
  | ORead n => (drop n q, (take n q, length (take n q)))
  | OPeek n => (q, (take n q, length (take n q)))
  | OPeekOffset o n => (q, (take n (drop o q), length (take n (drop o q))))
  | OConsume n => (drop n q, ([], 0%nat))
  | OClear => ([], ([], 0%nat))
  end.

Lemma ring_step_ok r q o :
  ring_ok r q → ∃ r', ring_step r o = Ret (r', snd (queue_step q o)) ∧ ring_ok r' (fst (queue_step q o)).
Proof.
  intros Hok. destruct o as [bs|n|n|o n|n|]; cbn [ring_step queue_step fst snd].
  - destruct (write_ok r q bs Hok) as (r' & -> & Hok').
    replace (take (Nat.min (length bs) (RX_BUFFER_SIZE - length q)) bs)
      with (take (1024 - length q) bs) in Hok'.
    + exists r'. split; [|done]. change (mbind ?f (Ret ?x)) with (f x). cbn beta iota.
      rewrite length_take. change RX_BUFFER_SIZE with 1024%nat. by rewrite Nat.min_comm.
    + change RX_BUFFER_SIZE with 1024%nat.
      destruct (Nat.min_spec (length bs) (1024 - length q)) as [[? ->]|[? ->]]; [|done].
      by rewrite !take_ge by lia.
  - destruct (read_ok r q n Hok) as (r' & -> & Hok'). by exists r'.
  - rewrite (ring_peek_ok r q n Hok). by exists r.
  - rewrite (peek_offset_ok r q o n Hok). by exists r.
  - exists (consume r n). split; [done|]. by apply consume_ok.
  - exists (clear r). split; [done|]. by eapply clear_ok.
Qed.

Fixpoint ring_run (r : RingBuffer) (os : list ring_op) : outcome (RingBuffer * list (list Z * nat)) :=
  match os with
  | [] => Ret (r, [])
  | o :: os =>
      '(r1, out) ← ring_step r o;
      '(r2, outs) ← ring_run r1 os;
      Ret (r2, out :: outs)
  end.
Fixpoint queue_run (q : list Z) (os : list ring_op) : list Z * list (list Z * nat) :=
  match os with
  | [] => (q, [])
  | o :: os =>
      let '(q1, out) := queue_step q o in
      let '(q2, outs) := queue_run q1 os in
      (q2, out :: outs)
  end.

Lemma ring_run_ok r q os :
  ring_ok r q → ∃ r', ring_run r os = Ret (r', snd (queue_run q os)) ∧ ring_ok r' (fst (queue_run q os)).
Proof.
  revert r q. induction os as [|o os IH]; intros r q Hok; cbn [ring_run queue_run].
  { by exists r. }
  destruct (ring_step_ok r q o Hok) as (r1 & -> & Hok1).
  destruct (queue_step q o) as [q1 out]. cbn [fst snd] in *.
  destruct (IH r1 q1 Hok1) as (r2 & Hrun & Hok2). destruct (queue_run q1 os) as [q2 outs].
  exists r2. cbn. by rewrite Hrun.
Qed.

(** C25: any sequence of operations on a fresh ring never panics and returns what
    a byte queue of capacity 1024 returns: a write accepts as much as fits, and
    reads, peeks and consumption see the accepted bytes in order. *)
Theorem ring_refines_queue os :
  ∃ r', ring_run RingBuffer_new os = Ret (r', snd (queue_run [] os)) ∧
    available r' = length (fst (queue_run [] os)) ∧
    free_space r' = (1024 - length (fst (queue_run [] os)))%nat.
Proof.
  destruct (ring_run_ok RingBuffer_new [] os RingBuffer_new_ok) as (r' & Hr & Hok).
  exists r'. unfold available, free_space. by rewrite (ro_len _ _ Hok).
Qed.
