(* ===== verification/Tcp.v ===== *)
(** TCP ([src/net/tcp.rs]): segments, the control block, the segment state
    machine, retransmission, timers and the socket functions.

    [netM] computations may use the stack below; a function of the source that
    gets [&mut TcpControlBlock] takes and returns the block.  The functions that
    reach the connection table are in the monad [tcpM] over the whole state.
    Messages printed to the console are not modelled. *)

From S2P Require Import Prelude NetBase Checksum Ethernet Arp Ipv4 RingBuffer.

Definition HEADER_SIZE : nat := 20.
#[export] Hint Unfold HEADER_SIZE : sizes.
Definition MSS : Z := 1460.
Definition MAX_CONNECTIONS : nat := 8.
Definition OOO_BUFFER_SIZE : nat := 2.
Definition OOO_DATA_SIZE : nat := 512.
#[export] Hint Unfold MAX_CONNECTIONS OOO_BUFFER_SIZE OOO_DATA_SIZE : sizes.
Definition INITIAL_RTO : Z := 20.
Definition MIN_RTO : Z := 20.
Definition MAX_RTO : Z := 6000.
Definition TIME_WAIT_TIMEOUT : Z := 3000.
Definition FLAG_FIN : Z := 0x01.
Definition FLAG_SYN : Z := 0x02.
Definition FLAG_RST : Z := 0x04.
Definition FLAG_PSH : Z := 0x08.
Definition FLAG_ACK : Z := 0x10.

Inductive TcpState : Type :=
| Closed | Listen | SynSent | SynReceived | Established | FinWait1 | FinWait2
| CloseWait | Closing | LastAck | TimeWait.
#[export] Instance TcpState_eq_dec : EqDecision TcpState.
Proof. solve_decision. Defined.

Record TcpHeader : Type := mkTcpHeader {
  src_port : Z; dst_port : Z; seq_num : Z; ack_num : Z; data_offset : Z; flags : Z;
  window : Z; h_checksum : Z; urgent_ptr : Z;
}.

(** [TcpHeader::parse] *)
Definition parse (data : list Z) : outcome (option TcpHeader) :=
  if (length data <? HEADER_SIZE)%nat then Ret None
  else
    src_port ← get_be16 data 0;
    dst_port ← get_be16 data 2;
    seq_num ← get_be32 data 4;
    ack_num ← get_be32 data 8;
    offset_byte ← index data 12;
    let data_offset := Z.land (Z.shiftr offset_byte 4) 0x0F in
    flags_byte ← index data 13;
    let flags := Z.land flags_byte 0x3F in
    window ← get_be16 data 14;
    checksum ← get_be16 data 16;
    urgent_ptr ← get_be16 data 18;
    if data_offset <? 5 then Ret None
    else Ret (Some (mkTcpHeader src_port dst_port seq_num ack_num data_offset flags window checksum
                      urgent_ptr)).

Definition header_length (h : TcpHeader) : nat := (Z.to_nat (data_offset h) * 4)%nat.
Definition payload (h : TcpHeader) (data : list Z) : outcome (list Z) :=
  let header_len := header_length h in
  if (header_len <? length data)%nat then get_slice_from data header_len else Ret [].
Definition is_syn (h : TcpHeader) : bool := negb (Z.land (flags h) FLAG_SYN =? 0).
Definition is_ack (h : TcpHeader) : bool := negb (Z.land (flags h) FLAG_ACK =? 0).
Definition is_fin (h : TcpHeader) : bool := negb (Z.land (flags h) FLAG_FIN =? 0).
Definition is_rst (h : TcpHeader) : bool := negb (Z.land (flags h) FLAG_RST =? 0).

(** What a segment says; the reads of [parse] and [payload] are all in range. *)
Definition parsed (data : list Z) : option TcpHeader :=
  if (length data <? HEADER_SIZE)%nat then None
  else
    let data_offset := Z.land (Z.shiftr (at_ data 12) 4) 0x0F in
    let flags := Z.land (at_ data 13) 0x3F in
    if data_offset <? 5 then None
    else Some (mkTcpHeader (be16_at data 0) (be16_at data 2) (be32_at data 4) (be32_at data 8)
                 data_offset flags (be16_at data 14) (be16_at data 16) (be16_at data 18)).
Definition payload_of (h : TcpHeader) (data : list Z) : list Z :=
  let header_len := header_length h in
  if (header_len <? length data)%nat then drop header_len data else [].
Lemma tcp_parse_eq data : parse data = Ret (parsed data).
Proof.
  unfold parse, parsed. destruct (Nat.ltb_spec (length data) HEADER_SIZE); [done|].
  repeat step_read. by destruct (_ <? _).
Qed.
Lemma tcp_payload_eq h data : payload h data = Ret (payload_of h data).
Proof.
  unfold payload, payload_of. destruct (Nat.ltb_spec (header_length h) (length data)); [|done].
  apply get_slice_from_eq. lia.
Qed.

Record OooSegment : Type := mkOooSegment { seq : Z; seg_len : Z; seg_data : list Z; valid : bool }.
Definition OooSegment_empty : OooSegment := mkOooSegment 0 0 (replicate OOO_DATA_SIZE 0) false.

(** [struct TcpControlBlock] *)
Record Tcb : Type := mkTcb {
  state : TcpState;
  local_ip : list Z;
  local_port : Z;
  remote_ip : list Z;
  remote_port : Z;
  snd_una : Z;
  snd_nxt : Z;
  snd_wnd : Z;
  iss : Z;
  rcv_nxt : Z;
  rcv_wnd : Z;
  irs : Z;
  rto : Z;
  srtt : Z;
  rttvar : Z;
  last_send_time : Z;
  retransmit_timer : Z;
  retransmit_count : Z;
  cwnd : Z;
  ssthresh : Z;
  dup_ack_count : Z;
  last_ack : Z;
  ooo_segments : list OooSegment;
  rx_buffer : RingBuffer;
  tx_buffer : RingBuffer;
  time_wait_timer : Z;
  in_use : bool;
  has_data : bool;
  remote_closed : bool;
  accepted : bool;
}.

(** Assignments to the fields *)
Definition set_state (c : Tcb) (v : TcpState) : Tcb :=
  mkTcb v (local_ip c) (local_port c) (remote_ip c) (remote_port c) (snd_una c) (snd_nxt c)
    (snd_wnd c) (iss c) (rcv_nxt c) (rcv_wnd c) (irs c) (rto c) (srtt c) (rttvar c)
    (last_send_time c) (retransmit_timer c) (retransmit_count c) (cwnd c) (ssthresh c)
    (dup_ack_count c) (last_ack c) (ooo_segments c) (rx_buffer c) (tx_buffer c) (time_wait_timer
    c) (in_use c) (has_data c) (remote_closed c) (accepted c).
Definition set_local_ip (c : Tcb) (v : list Z) : Tcb :=
  mkTcb (state c) v (local_port c) (remote_ip c) (remote_port c) (snd_una c) (snd_nxt c)
    (snd_wnd c) (iss c) (rcv_nxt c) (rcv_wnd c) (irs c) (rto c) (srtt c) (rttvar c)
    (last_send_time c) (retransmit_timer c) (retransmit_count c) (cwnd c) (ssthresh c)
    (dup_ack_count c) (last_ack c) (ooo_segments c) (rx_buffer c) (tx_buffer c) (time_wait_timer
    c) (in_use c) (has_data c) (remote_closed c) (accepted c).
Definition set_local_port (c : Tcb) (v : Z) : Tcb :=
  mkTcb (state c) (local_ip c) v (remote_ip c) (remote_port c) (snd_una c) (snd_nxt c) (snd_wnd
    c) (iss c) (rcv_nxt c) (rcv_wnd c) (irs c) (rto c) (srtt c) (rttvar c) (last_send_time c)
    (retransmit_timer c) (retransmit_count c) (cwnd c) (ssthresh c) (dup_ack_count c) (last_ack
    c) (ooo_segments c) (rx_buffer c) (tx_buffer c) (time_wait_timer c) (in_use c) (has_data c)
    (remote_closed c) (accepted c).
Definition set_remote_ip (c : Tcb) (v : list Z) : Tcb :=
  mkTcb (state c) (local_ip c) (local_port c) v (remote_port c) (snd_una c) (snd_nxt c) (snd_wnd
    c) (iss c) (rcv_nxt c) (rcv_wnd c) (irs c) (rto c) (srtt c) (rttvar c) (last_send_time c)
    (retransmit_timer c) (retransmit_count c) (cwnd c) (ssthresh c) (dup_ack_count c) (last_ack
    c) (ooo_segments c) (rx_buffer c) (tx_buffer c) (time_wait_timer c) (in_use c) (has_data c)
    (remote_closed c) (accepted c).
Definition set_remote_port (c : Tcb) (v : Z) : Tcb :=
  mkTcb (state c) (local_ip c) (local_port c) (remote_ip c) v (snd_una c) (snd_nxt c) (snd_wnd
    c) (iss c) (rcv_nxt c) (rcv_wnd c) (irs c) (rto c) (srtt c) (rttvar c) (last_send_time c)
    (retransmit_timer c) (retransmit_count c) (cwnd c) (ssthresh c) (dup_ack_count c) (last_ack
    c) (ooo_segments c) (rx_buffer c) (tx_buffer c) (time_wait_timer c) (in_use c) (has_data c)
    (remote_closed c) (accepted c).
Definition set_snd_una (c : Tcb) (v : Z) : Tcb :=
  mkTcb (state c) (local_ip c) (local_port c) (remote_ip c) (remote_port c) v (snd_nxt c)
    (snd_wnd c) (iss c) (rcv_nxt c) (rcv_wnd c) (irs c) (rto c) (srtt c) (rttvar c)
    (last_send_time c) (retransmit_timer c) (retransmit_count c) (cwnd c) (ssthresh c)
    (dup_ack_count c) (last_ack c) (ooo_segments c) (rx_buffer c) (tx_buffer c) (time_wait_timer
    c) (in_use c) (has_data c) (remote_closed c) (accepted c).
Definition set_snd_nxt (c : Tcb) (v : Z) : Tcb :=
  mkTcb (state c) (local_ip c) (local_port c) (remote_ip c) (remote_port c) (snd_una c) v
    (snd_wnd c) (iss c) (rcv_nxt c) (rcv_wnd c) (irs c) (rto c) (srtt c) (rttvar c)
    (last_send_time c) (retransmit_timer c) (retransmit_count c) (cwnd c) (ssthresh c)
    (dup_ack_count c) (last_ack c) (ooo_segments c) (rx_buffer c) (tx_buffer c) (time_wait_timer
    c) (in_use c) (has_data c) (remote_closed c) (accepted c).
Definition set_snd_wnd (c : Tcb) (v : Z) : Tcb :=
  mkTcb (state c) (local_ip c) (local_port c) (remote_ip c) (remote_port c) (snd_una c) (snd_nxt
    c) v (iss c) (rcv_nxt c) (rcv_wnd c) (irs c) (rto c) (srtt c) (rttvar c) (last_send_time c)
    (retransmit_timer c) (retransmit_count c) (cwnd c) (ssthresh c) (dup_ack_count c) (last_ack
    c) (ooo_segments c) (rx_buffer c) (tx_buffer c) (time_wait_timer c) (in_use c) (has_data c)
    (remote_closed c) (accepted c).
Definition set_iss (c : Tcb) (v : Z) : Tcb :=
  mkTcb (state c) (local_ip c) (local_port c) (remote_ip c) (remote_port c) (snd_una c) (snd_nxt
    c) (snd_wnd c) v (rcv_nxt c) (rcv_wnd c) (irs c) (rto c) (srtt c) (rttvar c) (last_send_time
    c) (retransmit_timer c) (retransmit_count c) (cwnd c) (ssthresh c) (dup_ack_count c)
    (last_ack c) (ooo_segments c) (rx_buffer c) (tx_buffer c) (time_wait_timer c) (in_use c)
    (has_data c) (remote_closed c) (accepted c).
Definition set_rcv_nxt (c : Tcb) (v : Z) : Tcb :=
  mkTcb (state c) (local_ip c) (local_port c) (remote_ip c) (remote_port c) (snd_una c) (snd_nxt
    c) (snd_wnd c) (iss c) v (rcv_wnd c) (irs c) (rto c) (srtt c) (rttvar c) (last_send_time c)
    (retransmit_timer c) (retransmit_count c) (cwnd c) (ssthresh c) (dup_ack_count c) (last_ack
    c) (ooo_segments c) (rx_buffer c) (tx_buffer c) (time_wait_timer c) (in_use c) (has_data c)
    (remote_closed c) (accepted c).
Definition set_rcv_wnd (c : Tcb) (v : Z) : Tcb :=
  mkTcb (state c) (local_ip c) (local_port c) (remote_ip c) (remote_port c) (snd_una c) (snd_nxt
    c) (snd_wnd c) (iss c) (rcv_nxt c) v (irs c) (rto c) (srtt c) (rttvar c) (last_send_time c)
    (retransmit_timer c) (retransmit_count c) (cwnd c) (ssthresh c) (dup_ack_count c) (last_ack
    c) (ooo_segments c) (rx_buffer c) (tx_buffer c) (time_wait_timer c) (in_use c) (has_data c)
    (remote_closed c) (accepted c).
Definition set_irs (c : Tcb) (v : Z) : Tcb :=
  mkTcb (state c) (local_ip c) (local_port c) (remote_ip c) (remote_port c) (snd_una c) (snd_nxt
    c) (snd_wnd c) (iss c) (rcv_nxt c) (rcv_wnd c) v (rto c) (srtt c) (rttvar c) (last_send_time
    c) (retransmit_timer c) (retransmit_count c) (cwnd c) (ssthresh c) (dup_ack_count c)
    (last_ack c) (ooo_segments c) (rx_buffer c) (tx_buffer c) (time_wait_timer c) (in_use c)
    (has_data c) (remote_closed c) (accepted c).
Definition set_rto (c : Tcb) (v : Z) : Tcb :=
  mkTcb (state c) (local_ip c) (local_port c) (remote_ip c) (remote_port c) (snd_una c) (snd_nxt
    c) (snd_wnd c) (iss c) (rcv_nxt c) (rcv_wnd c) (irs c) v (srtt c) (rttvar c) (last_send_time
    c) (retransmit_timer c) (retransmit_count c) (cwnd c) (ssthresh c) (dup_ack_count c)
    (last_ack c) (ooo_segments c) (rx_buffer c) (tx_buffer c) (time_wait_timer c) (in_use c)
    (has_data c) (remote_closed c) (accepted c).
Definition set_srtt (c : Tcb) (v : Z) : Tcb :=
  mkTcb (state c) (local_ip c) (local_port c) (remote_ip c) (remote_port c) (snd_una c) (snd_nxt
    c) (snd_wnd c) (iss c) (rcv_nxt c) (rcv_wnd c) (irs c) (rto c) v (rttvar c) (last_send_time
    c) (retransmit_timer c) (retransmit_count c) (cwnd c) (ssthresh c) (dup_ack_count c)
    (last_ack c) (ooo_segments c) (rx_buffer c) (tx_buffer c) (time_wait_timer c) (in_use c)
    (has_data c) (remote_closed c) (accepted c).
Definition set_rttvar (c : Tcb) (v : Z) : Tcb :=
  mkTcb (state c) (local_ip c) (local_port c) (remote_ip c) (remote_port c) (snd_una c) (snd_nxt
    c) (snd_wnd c) (iss c) (rcv_nxt c) (rcv_wnd c) (irs c) (rto c) (srtt c) v (last_send_time c)
    (retransmit_timer c) (retransmit_count c) (cwnd c) (ssthresh c) (dup_ack_count c) (last_ack
    c) (ooo_segments c) (rx_buffer c) (tx_buffer c) (time_wait_timer c) (in_use c) (has_data c)
    (remote_closed c) (accepted c).
Definition set_last_send_time (c : Tcb) (v : Z) : Tcb :=
  mkTcb (state c) (local_ip c) (local_port c) (remote_ip c) (remote_port c) (snd_una c) (snd_nxt
    c) (snd_wnd c) (iss c) (rcv_nxt c) (rcv_wnd c) (irs c) (rto c) (srtt c) (rttvar c) v
    (retransmit_timer c) (retransmit_count c) (cwnd c) (ssthresh c) (dup_ack_count c) (last_ack
    c) (ooo_segments c) (rx_buffer c) (tx_buffer c) (time_wait_timer c) (in_use c) (has_data c)
    (remote_closed c) (accepted c).
Definition set_retransmit_timer (c : Tcb) (v : Z) : Tcb :=
  mkTcb (state c) (local_ip c) (local_port c) (remote_ip c) (remote_port c) (snd_una c) (snd_nxt
    c) (snd_wnd c) (iss c) (rcv_nxt c) (rcv_wnd c) (irs c) (rto c) (srtt c) (rttvar c)
    (last_send_time c) v (retransmit_count c) (cwnd c) (ssthresh c) (dup_ack_count c) (last_ack
    c) (ooo_segments c) (rx_buffer c) (tx_buffer c) (time_wait_timer c) (in_use c) (has_data c)
    (remote_closed c) (accepted c).
Definition set_retransmit_count (c : Tcb) (v : Z) : Tcb :=
  mkTcb (state c) (local_ip c) (local_port c) (remote_ip c) (remote_port c) (snd_una c) (snd_nxt
    c) (snd_wnd c) (iss c) (rcv_nxt c) (rcv_wnd c) (irs c) (rto c) (srtt c) (rttvar c)
    (last_send_time c) (retransmit_timer c) v (cwnd c) (ssthresh c) (dup_ack_count c) (last_ack
    c) (ooo_segments c) (rx_buffer c) (tx_buffer c) (time_wait_timer c) (in_use c) (has_data c)
    (remote_closed c) (accepted c).
Definition set_cwnd (c : Tcb) (v : Z) : Tcb :=
  mkTcb (state c) (local_ip c) (local_port c) (remote_ip c) (remote_port c) (snd_una c) (snd_nxt
    c) (snd_wnd c) (iss c) (rcv_nxt c) (rcv_wnd c) (irs c) (rto c) (srtt c) (rttvar c)
    (last_send_time c) (retransmit_timer c) (retransmit_count c) v (ssthresh c) (dup_ack_count
    c) (last_ack c) (ooo_segments c) (rx_buffer c) (tx_buffer c) (time_wait_timer c) (in_use c)
    (has_data c) (remote_closed c) (accepted c).
Definition set_ssthresh (c : Tcb) (v : Z) : Tcb :=
  mkTcb (state c) (local_ip c) (local_port c) (remote_ip c) (remote_port c) (snd_una c) (snd_nxt
    c) (snd_wnd c) (iss c) (rcv_nxt c) (rcv_wnd c) (irs c) (rto c) (srtt c) (rttvar c)
    (last_send_time c) (retransmit_timer c) (retransmit_count c) (cwnd c) v (dup_ack_count c)
    (last_ack c) (ooo_segments c) (rx_buffer c) (tx_buffer c) (time_wait_timer c) (in_use c)
    (has_data c) (remote_closed c) (accepted c).
Definition set_dup_ack_count (c : Tcb) (v : Z) : Tcb :=
  mkTcb (state c) (local_ip c) (local_port c) (remote_ip c) (remote_port c) (snd_una c) (snd_nxt
    c) (snd_wnd c) (iss c) (rcv_nxt c) (rcv_wnd c) (irs c) (rto c) (srtt c) (rttvar c)
    (last_send_time c) (retransmit_timer c) (retransmit_count c) (cwnd c) (ssthresh c) v
    (last_ack c) (ooo_segments c) (rx_buffer c) (tx_buffer c) (time_wait_timer c) (in_use c)
    (has_data c) (remote_closed c) (accepted c).
Definition set_last_ack (c : Tcb) (v : Z) : Tcb :=
  mkTcb (state c) (local_ip c) (local_port c) (remote_ip c) (remote_port c) (snd_una c) (snd_nxt
    c) (snd_wnd c) (iss c) (rcv_nxt c) (rcv_wnd c) (irs c) (rto c) (srtt c) (rttvar c)
    (last_send_time c) (retransmit_timer c) (retransmit_count c) (cwnd c) (ssthresh c)
    (dup_ack_count c) v (ooo_segments c) (rx_buffer c) (tx_buffer c) (time_wait_timer c) (in_use
    c) (has_data c) (remote_closed c) (accepted c).
Definition set_ooo_segments (c : Tcb) (v : list OooSegment) : Tcb :=
  mkTcb (state c) (local_ip c) (local_port c) (remote_ip c) (remote_port c) (snd_una c) (snd_nxt
    c) (snd_wnd c) (iss c) (rcv_nxt c) (rcv_wnd c) (irs c) (rto c) (srtt c) (rttvar c)
    (last_send_time c) (retransmit_timer c) (retransmit_count c) (cwnd c) (ssthresh c)
    (dup_ack_count c) (last_ack c) v (rx_buffer c) (tx_buffer c) (time_wait_timer c) (in_use c)
    (has_data c) (remote_closed c) (accepted c).
Definition set_rx_buffer (c : Tcb) (v : RingBuffer) : Tcb :=
  mkTcb (state c) (local_ip c) (local_port c) (remote_ip c) (remote_port c) (snd_una c) (snd_nxt
    c) (snd_wnd c) (iss c) (rcv_nxt c) (rcv_wnd c) (irs c) (rto c) (srtt c) (rttvar c)
    (last_send_time c) (retransmit_timer c) (retransmit_count c) (cwnd c) (ssthresh c)
    (dup_ack_count c) (last_ack c) (ooo_segments c) v (tx_buffer c) (time_wait_timer c) (in_use
    c) (has_data c) (remote_closed c) (accepted c).
Definition set_tx_buffer (c : Tcb) (v : RingBuffer) : Tcb :=
  mkTcb (state c) (local_ip c) (local_port c) (remote_ip c) (remote_port c) (snd_una c) (snd_nxt
    c) (snd_wnd c) (iss c) (rcv_nxt c) (rcv_wnd c) (irs c) (rto c) (srtt c) (rttvar c)
    (last_send_time c) (retransmit_timer c) (retransmit_count c) (cwnd c) (ssthresh c)
    (dup_ack_count c) (last_ack c) (ooo_segments c) (rx_buffer c) v (time_wait_timer c) (in_use
    c) (has_data c) (remote_closed c) (accepted c).
Definition set_time_wait_timer (c : Tcb) (v : Z) : Tcb :=
  mkTcb (state c) (local_ip c) (local_port c) (remote_ip c) (remote_port c) (snd_una c) (snd_nxt
    c) (snd_wnd c) (iss c) (rcv_nxt c) (rcv_wnd c) (irs c) (rto c) (srtt c) (rttvar c)
    (last_send_time c) (retransmit_timer c) (retransmit_count c) (cwnd c) (ssthresh c)
    (dup_ack_count c) (last_ack c) (ooo_segments c) (rx_buffer c) (tx_buffer c) v (in_use c)
    (has_data c) (remote_closed c) (accepted c).
Definition set_in_use (c : Tcb) (v : bool) : Tcb :=
  mkTcb (state c) (local_ip c) (local_port c) (remote_ip c) (remote_port c) (snd_una c) (snd_nxt
    c) (snd_wnd c) (iss c) (rcv_nxt c) (rcv_wnd c) (irs c) (rto c) (srtt c) (rttvar c)
    (last_send_time c) (retransmit_timer c) (retransmit_count c) (cwnd c) (ssthresh c)
    (dup_ack_count c) (last_ack c) (ooo_segments c) (rx_buffer c) (tx_buffer c) (time_wait_timer
    c) v (has_data c) (remote_closed c) (accepted c).
Definition set_has_data (c : Tcb) (v : bool) : Tcb :=
  mkTcb (state c) (local_ip c) (local_port c) (remote_ip c) (remote_port c) (snd_una c) (snd_nxt
    c) (snd_wnd c) (iss c) (rcv_nxt c) (rcv_wnd c) (irs c) (rto c) (srtt c) (rttvar c)
    (last_send_time c) (retransmit_timer c) (retransmit_count c) (cwnd c) (ssthresh c)
    (dup_ack_count c) (last_ack c) (ooo_segments c) (rx_buffer c) (tx_buffer c) (time_wait_timer
    c) (in_use c) v (remote_closed c) (accepted c).
Definition set_remote_closed (c : Tcb) (v : bool) : Tcb :=
  mkTcb (state c) (local_ip c) (local_port c) (remote_ip c) (remote_port c) (snd_una c) (snd_nxt
    c) (snd_wnd c) (iss c) (rcv_nxt c) (rcv_wnd c) (irs c) (rto c) (srtt c) (rttvar c)
    (last_send_time c) (retransmit_timer c) (retransmit_count c) (cwnd c) (ssthresh c)
    (dup_ack_count c) (last_ack c) (ooo_segments c) (rx_buffer c) (tx_buffer c) (time_wait_timer
    c) (in_use c) (has_data c) v (accepted c).
Definition set_accepted (c : Tcb) (v : bool) : Tcb :=
  mkTcb (state c) (local_ip c) (local_port c) (remote_ip c) (remote_port c) (snd_una c) (snd_nxt
    c) (snd_wnd c) (iss c) (rcv_nxt c) (rcv_wnd c) (irs c) (rto c) (srtt c) (rttvar c)
    (last_send_time c) (retransmit_timer c) (retransmit_count c) (cwnd c) (ssthresh c)
    (dup_ack_count c) (last_ack c) (ooo_segments c) (rx_buffer c) (tx_buffer c) (time_wait_timer
    c) (in_use c) (has_data c) (remote_closed c) v.

Definition Tcb_new : Tcb :=
  mkTcb Closed [0; 0; 0; 0] 0 [0; 0; 0; 0] 0 0 0 0 0 0 (Z.of_nat RX_BUFFER_SIZE) 0
    INITIAL_RTO 0 0 0 0 0 MSS 65535 0 0 (replicate OOO_BUFFER_SIZE OooSegment_empty)
    RingBuffer_new RingBuffer_new 0 false false false false.

(** [reset] *)
Definition reset (c : Tcb) : Tcb := Tcb_new.
Definition bytes_available (c : Tcb) : nat := available (rx_buffer c).
Definition bytes_pending (c : Tcb) : nat := available (tx_buffer c).
Definition update_rcv_wnd (c : Tcb) : Tcb := set_rcv_wnd c (u16 (Z.of_nat (free_space (rx_buffer c)))).

(** ** Lower-level operations *)

(** [generate_iss] *)
Definition generate_iss : netM Z :=
  t ← ticks;
  mret (u32 (u32 (u32 t * 0x41C64E6D) + 0x3039)).

(** Sequence number comparison *)
Definition seq_after (a b : Z) : bool := 0 <? i32 (u32 (a - b)).

Definition find_connection (conns : list Tcb) (lport : Z) (rip : list Z) (rport : Z) : option nat :=
  fst <$> list_find (λ c, in_use c = true ∧ local_port c = lport ∧ remote_ip c = rip ∧ remote_port c = rport) conns.
Definition find_listener (conns : list Tcb) (lport : Z) : option nat :=
  fst <$> list_find (λ c, in_use c = true ∧ state c = Listen ∧ local_port c = lport) conns.

Definition is_closing (s : TcpState) : bool :=
  match s with TimeWait | FinWait1 | FinWait2 | Closing | LastAck => true | _ => false end.
Definition alloc_connection (conns : list Tcb) : option (list Tcb * nat) :=
  match list_find (λ c, in_use c = false) conns with
  | Some (i, c) => Some (<[i := set_in_use (reset c) true]> conns, i)
  | None =>
      match list_find (λ c, in_use c = true ∧ is_closing (state c) = true) conns with
      | Some (i, c) => Some (<[i := set_in_use (reset c) true]> conns, i)
      | None => None
      end
  end.

Definition build_segment (buffer : list Z) (sport dport sq ack fl wnd : Z) (pl : list Z) :
    outcome (list Z * nat) :=
  if (length buffer <? HEADER_SIZE + length pl)%nat then Ret (buffer, 0%nat)
  else
    buffer ← copy_in buffer 0 2 (to_be16 sport);
    buffer ← copy_in buffer 2 4 (to_be16 dport);
    buffer ← copy_in buffer 4 8 (to_be32 sq);
    buffer ← copy_in buffer 8 12 (to_be32 ack);
    buffer ← set_at buffer 12 0x50;
    buffer ← set_at buffer 13 fl;
    buffer ← copy_in buffer 14 16 (to_be16 wnd);
    buffer ← copy_in buffer 16 18 [0; 0];
    buffer ← copy_in buffer 18 20 [0; 0];
    buffer ← copy_in buffer HEADER_SIZE (HEADER_SIZE + length pl) pl;
    Ret (buffer, (HEADER_SIZE + length pl)%nat).

(** The checksum over [&segment[..seg_len]], stored into the segment. *)
Definition fill_checksum (src dst segment : list Z) (seg_len : nat) : outcome (list Z) :=
  covered ← get_slice segment 0 seg_len;
  let cksum := tcp_udp_checksum src dst PROTO_TCP covered in
  segment ← copy_in segment 16 18 (to_be16 cksum);
  get_slice segment 0 seg_len.

Definition send_segment_seq (c : Tcb) (sq fl : Z) (pl : list Z) : netM bool :=
  '(segment, seg_len) ← lift_outcome
    (build_segment (replicate 1500 0) (local_port c) (remote_port c) sq (rcv_nxt c) fl (rcv_wnd c) pl);
  if (seg_len =? 0)%nat then mret false
  else
    segment ← lift_outcome (fill_checksum (local_ip c) (remote_ip c) segment seg_len);
    send_packet (remote_ip c) PROTO_TCP segment.
Definition send_segment (c : Tcb) (fl : Z) (pl : list Z) : netM bool :=
  send_segment_seq c (snd_nxt c) fl pl.

Definition send_rst (src dst : list Z) (h : TcpHeader) : netM unit :=
  let sq := if is_ack h then ack_num h else 0 in
  let ack := u32 (seq_num h + 1) in
  let fl := Z.lor FLAG_RST (if is_ack h then 0 else FLAG_ACK) in
  '(segment, seg_len) ← lift_outcome
    (build_segment (replicate 20 0) (dst_port h) (src_port h) sq ack fl 0 []);
  segment ← lift_outcome (fill_checksum src dst segment seg_len);
  _ ← send_packet dst PROTO_TCP segment;
  mret tt.

(** ** Round-trip time, retransmission and acknowledgements *)

(** [timer::ticks() + d] *)
Definition deadline (d : Z) : netM Z := t ← ticks; mret (u64 (t + d)).

Definition update_rtt (c : Tcb) : netM Tcb :=
  now ← ticks;
  let measured := sat_sub now (last_send_time c) in
  let c :=
    if srtt c =? 0 then set_rttvar (set_srtt c measured) (measured / 2)
    else
      let diff := if srtt c <? measured then u64 (measured - srtt c) else u64 (srtt c - measured) in
      let c := set_rttvar c (u64 (u64 (3 * rttvar c) + diff) / 4) in
      set_srtt c (u64 (u64 (7 * srtt c) + measured) / 8) in
  let c := set_rto c (u64 (srtt c + u64 (4 * rttvar c))) in
  let c := set_rto c (Z.max (rto c) MIN_RTO) in
  mret (set_rto c (Z.min (rto c) MAX_RTO)).

(** [let mut data = [0u8; MSS]; tx_buffer.peek_offset(offset, &mut data[..to_send])]
    and the slice [&data[..to_send]] that is sent. *)
Definition peek_array (r : RingBuffer) (offset to_send : nat) : outcome (list Z) :=
  let data := replicate (Z.to_nat MSS) 0 in
  window ← get_slice data 0 to_send;
  bs ← peek_offset r offset (length window);
  data ← copy_in data 0 (length bs) bs;
  get_slice data 0 to_send.

Definition retransmit (c : Tcb) : netM Tcb :=
  let in_flight := Z.to_nat (u32 (snd_nxt c - snd_una c)) in
  if (in_flight =? 0)%nat then mret c
  else
    let unacked := Nat.min (available (tx_buffer c)) in_flight in
    if (unacked =? 0)%nat then mret c
    else
      let to_send := Nat.min unacked (Z.to_nat MSS) in
      d ← lift_outcome (peek_array (tx_buffer c) 0 to_send);
      _ ← send_segment_seq c (snd_una c) (Z.lor FLAG_ACK FLAG_PSH) d;
      t ← deadline (rto c);
      let c := set_retransmit_timer c t in
      mret (set_retransmit_count c (u8 (retransmit_count c + 1))).

Definition rust_div (a b : Z) : outcome Z := if b =? 0 then Panic else Ret (a / b).

Definition process_ack (c : Tcb) (ack : Z) : netM Tcb :=
  if seq_after ack (snd_una c) && negb (seq_after ack (snd_nxt c)) then
    let bytes_acked := u32 (ack - snd_una c) in
    let c := set_snd_una c ack in
    let c := set_tx_buffer c (consume (tx_buffer c) (Z.to_nat bytes_acked)) in
    c ← update_rtt c;
    c ← (if cwnd c <? ssthresh c then mret (set_cwnd c (sat_add u32_max (cwnd c) bytes_acked))
         else
           q ← lift_outcome (rust_div (u32 (MSS * MSS)) (cwnd c));
           mret (set_cwnd c (sat_add u32_max (cwnd c) q)));
    let c := set_dup_ack_count c 0 in
    let c := set_last_ack c ack in
    if negb (snd_una c =? snd_nxt c) then
      t ← deadline (rto c);
      mret (set_retransmit_timer c t)
    else
      mret (set_retransmit_count (set_retransmit_timer c 0) 0)
  else if ack =? last_ack c then
    let c := set_dup_ack_count c (u8 (dup_ack_count c + 1)) in
    if dup_ack_count c =? 3 then
      let c := set_ssthresh c (Z.max (cwnd c / 2) (2 * MSS)) in
      let c := set_cwnd c (u32 (ssthresh c + 3 * MSS)) in
      retransmit c
    else if 3 <? dup_ack_count c then
      mret (set_cwnd c (sat_add u32_max (cwnd c) MSS))
    else mret c
  else mret c.

(** ** Incoming data *)

Definition buffer_ooo_segment (c : Tcb) (sq : Z) (d : list Z) : outcome Tcb :=
  match list_find (λ s, valid s = false) (ooo_segments c) with
  | None => Ret c
  | Some (i, s) =>
      let len := Nat.min (length d) OOO_DATA_SIZE in
      kept ← get_slice d 0 len;
      stored ← copy_in (seg_data s) 0 len kept;
      let s := mkOooSegment sq (u16 (Z.of_nat len)) stored true in
      Ret (set_ooo_segments c (<[i := s]> (ooo_segments c)))
  end.

(** The loop of [deliver_ooo_segments]; every delivery invalidates a segment, so
    fuel equal to the number of slots is enough ([deliver_loop_ok]). *)
Fixpoint deliver_loop (fuel : nat) (c : Tcb) : outcome Tcb :=
  match list_find (λ s, valid s = true ∧ seq s = rcv_nxt c) (ooo_segments c) with
  | None => Ret c
  | Some (i, s) =>
      match fuel with
      | O => Diverge
      | S fuel =>
          d ← get_slice (seg_data s) 0 (Z.to_nat (seg_len s));
          '(rx, written) ← write (rx_buffer c) d;
          let c := set_rx_buffer c rx in
          let c := set_rcv_nxt c (u32 (rcv_nxt c + Z.of_nat written)) in
          let s := mkOooSegment (seq s) (seg_len s) (seg_data s) false in
          deliver_loop fuel (set_ooo_segments c (<[i := s]> (ooo_segments c)))
      end
  end.
Definition deliver_ooo_segments (c : Tcb) : outcome Tcb := deliver_loop OOO_BUFFER_SIZE c.

Definition process_data (c : Tcb) (h : TcpHeader) (d : list Z) : netM Tcb :=
  pl ← lift_outcome (payload h d);
  if (length pl =? 0)%nat then mret c
  else
    let seg_seq := seq_num h in
    if seg_seq =? rcv_nxt c then
      '(rx, written) ← lift_outcome (write (rx_buffer c) pl);
      let c := set_rx_buffer c rx in
      let c := set_rcv_nxt c (u32 (rcv_nxt c + Z.of_nat written)) in
      let c := set_has_data c true in
      let c := update_rcv_wnd c in
      c ← lift_outcome (deliver_ooo_segments c);
      _ ← send_segment c FLAG_ACK [];
      mret c
    else if seq_after seg_seq (rcv_nxt c) then
      c ← lift_outcome (buffer_ooo_segment c seg_seq pl);
      _ ← send_segment c FLAG_ACK [];
      mret c
    else mret c.

(** ** The state machine: [process_segment] *)

Definition enter_time_wait (c : Tcb) : netM Tcb :=
  let c := set_state c TimeWait in
  t ← deadline TIME_WAIT_TIMEOUT;
  mret (set_time_wait_timer c t).

Definition process_segment (c : Tcb) (h : TcpHeader) (d : list Z) (iph : Ipv4Header) : netM Tcb :=
  if is_rst h then mret (reset c)
  else
    match state c with
    | Closed => mret c
    | Listen =>
        if is_syn h && negb (is_ack h) then
          let c := set_irs c (seq_num h) in
          let c := set_rcv_nxt c (u32 (seq_num h + 1)) in
          i ← generate_iss;
          let c := set_iss c i in
          let c := set_snd_nxt c (iss c) in
          let c := set_snd_una c (iss c) in
          let c := set_snd_wnd c (window h) in
          let c := set_remote_ip c (src_ip iph) in
          let c := set_remote_port c (src_port h) in
          ok ← send_segment c (Z.lor FLAG_SYN FLAG_ACK) [];
          if ok : bool then
            let c := set_snd_nxt c (u32 (snd_nxt c + 1)) in
            let c := set_state c SynReceived in
            t1 ← ticks;
            let c := set_last_send_time c t1 in
            t2 ← deadline (rto c);
            mret (set_retransmit_timer c t2)
          else mret c
        else mret c
    | SynSent =>
        if is_syn h && is_ack h then
          if ack_num h =? snd_nxt c then
            let c := set_irs c (seq_num h) in
            let c := set_rcv_nxt c (u32 (seq_num h + 1)) in
            let c := set_snd_una c (ack_num h) in
            let c := set_snd_wnd c (window h) in
            ok ← send_segment c FLAG_ACK [];
            if ok : bool then update_rtt (set_state c Established) else mret c
          else mret c
        else if is_syn h then
          let c := set_irs c (seq_num h) in
          let c := set_rcv_nxt c (u32 (seq_num h + 1)) in
          ok ← send_segment c (Z.lor FLAG_SYN FLAG_ACK) [];
          if ok : bool then mret (set_state c SynReceived) else mret c
        else mret c
    | SynReceived =>
        if is_ack h && (ack_num h =? snd_nxt c) then
          let c := set_snd_una c (ack_num h) in
          let c := set_snd_wnd c (window h) in
          let c := set_state c Established in
          c ← update_rtt c;
          process_data c h d
        else mret c
    | Established =>
        c ← (if is_ack h then process_ack c (ack_num h) else mret c);
        c ← process_data c h d;
        if is_fin h then
          let c := set_rcv_nxt c (u32 (rcv_nxt c + 1)) in
          let c := set_remote_closed c true in
          _ ← send_segment c FLAG_ACK [];
          mret (set_state c CloseWait)
        else mret c
    | FinWait1 =>
        if is_ack h && (ack_num h =? snd_nxt c) then
          let c := set_snd_una c (ack_num h) in
          if is_fin h then
            let c := set_rcv_nxt c (u32 (rcv_nxt c + 1)) in
            _ ← send_segment c FLAG_ACK [];
            enter_time_wait c
          else mret (set_state c FinWait2)
        else if is_fin h then
          let c := set_rcv_nxt c (u32 (rcv_nxt c + 1)) in
          _ ← send_segment c FLAG_ACK [];
          mret (set_state c Closing)
        else mret c
    | FinWait2 =>
        if is_fin h then
          let c := set_rcv_nxt c (u32 (rcv_nxt c + 1)) in
          _ ← send_segment c FLAG_ACK [];
          enter_time_wait c
        else mret c
    | CloseWait => if is_ack h then process_ack c (ack_num h) else mret c
    | Closing =>
        if is_ack h && (ack_num h =? snd_nxt c) then enter_time_wait c else mret c
    | LastAck =>
        if is_ack h && (ack_num h =? snd_nxt c) then mret (reset c) else mret c
    | TimeWait => mret c
    end.

(** ** Timers *)

Definition send_pending_data (c : Tcb) : netM Tcb :=
  let total_buffered := available (tx_buffer c) in
  if (total_buffered =? 0)%nat then mret c
  else
    let flight_size := Z.to_nat (u32 (snd_nxt c - snd_una c)) in
    let wnd := Nat.min (Z.to_nat (snd_wnd c)) (Z.to_nat (cwnd c)) in
    let can_send := (wnd - flight_size)%nat in
    if (can_send =? 0)%nat then mret c
    else
      let unsent := (total_buffered - flight_size)%nat in
      if (unsent =? 0)%nat then mret c
      else
        let to_send := Nat.min (Nat.min unsent can_send) (Z.to_nat MSS) in
        d ← lift_outcome (peek_array (tx_buffer c) flight_size to_send);
        ok ← send_segment c (Z.lor FLAG_ACK FLAG_PSH) d;
        if ok : bool then
          let c := set_snd_nxt c (u32 (snd_nxt c + Z.of_nat to_send)) in
          t ← ticks;
          let c := set_last_send_time c t in
          if retransmit_timer c =? 0 then
            t ← deadline (rto c);
            mret (set_retransmit_timer c t)
          else mret c
        else mret c.

(** The body of the loop of [process_timers]. *)
Definition process_timer (now : Z) (c : Tcb) : netM Tcb :=
  if negb (in_use c) then mret c
  else if bool_decide (state c = TimeWait) then
    mret (if time_wait_timer c <=? now then reset c else c)
  else
    c ← (if (0 <? retransmit_timer c) && (retransmit_timer c <=? now) then
           if 5 <=? retransmit_count c then mret (reset c)
           else
             let c := set_rto c (Z.min (u64 (rto c * 2)) MAX_RTO) in
             let c := set_ssthresh c (Z.max (cwnd c / 2) (2 * MSS)) in
             let c := set_cwnd c MSS in
             retransmit c
         else mret c);
    if bool_decide (state c = Established) then send_pending_data c else mret c.
Fixpoint timers_loop (now : Z) (conns : list Tcb) : netM (list Tcb) :=
  match conns with
  | [] => mret []
  | c :: conns =>
      c ← process_timer now c;
      conns ← timers_loop now conns;
      mret (c :: conns)
  end.

(** ** The state with the connection table *)

Record Tcp : Type := mkTcp { net : Net; conns : list Tcb; next_port : Z }.
Definition tcpM (A : Type) : Type := Tcp → outcome (Tcp * A).
#[global] Instance tcpM_ret : MRet tcpM := λ A a w, Ret (w, a).
#[global] Instance tcpM_bind : MBind tcpM := λ A B f m w,
  match m w with
  | Ret (w', a) => f a w'
  | Panic => Panic
  | Diverge => Diverge
  end.
Definition on_net {A} (m : netM A) : tcpM A := λ w,
  '(n, a) ← m (net w); Ret (mkTcp n (conns w) (next_port w), a).
Definition lift_tcp {A} (o : outcome A) : tcpM A := λ w, a ← o; Ret (w, a).
Lemma lift_tcp_Ret {A B} (a : A) (f : A → tcpM B) : (lift_tcp (Ret a) ≫= f) = f a.
Proof. reflexivity. Qed.
Definition get_conns : tcpM (list Tcb) := λ w, Ret (w, conns w).
Definition put_conns (l : list Tcb) : tcpM unit := λ w, Ret (mkTcp (net w) l (next_port w), tt).

(** [let conn = &mut CONNECTIONS[i]; ...] *)
Definition with_conn {A} (i : nat) (f : Tcb → netM (Tcb * A)) : tcpM A := λ w,
  match conns w !! i with
  | None => Panic
  | Some c =>
      '(n, (c', a)) ← f c (net w);
      Ret (mkTcp n (<[i := c']> (conns w)) (next_port w), a)
  end.
Definition update_conn (i : nat) (f : Tcb → netM Tcb) : tcpM unit :=
  with_conn i (λ c, c' ← f c; mret (c', tt)).

(** [alloc_port] *)
Definition alloc_port : tcpM Z := λ w,
  let port := next_port w in
  let np := if 65535 <=? next_port w then 49152 else u16 (next_port w + 1) in
  Ret (mkTcp (net w) (conns w) np, port).

Definition process_timers : tcpM unit :=
  now ← on_net ticks;
  l ← get_conns;
  l' ← on_net (timers_loop now l);
  put_conns l'.

Definition process_packet (iph : Ipv4Header) (d : list Z) : tcpM unit :=
  header ← lift_tcp (parse d);
  match header with
  | None => mret tt
  | Some h =>
      let cksum := tcp_udp_checksum (src_ip iph) (dst_ip iph) PROTO_TCP d in
      if negb (cksum =? 0) then mret tt
      else
        l ← get_conns;
        match find_connection l (dst_port h) (src_ip iph) (src_port h) with
        | Some idx => update_conn idx (λ c, process_segment c h d iph)
        | None =>
            match (if is_syn h && negb (is_ack h) then find_listener l (dst_port h) else None) with
            | Some _ =>
                match alloc_connection l with
                | Some (l', idx) =>
                    _ ← put_conns l';
                    update_conn idx (λ c,
                      let c := set_local_ip c (dst_ip iph) in
                      let c := set_local_port c (dst_port h) in
                      let c := set_remote_ip c (src_ip iph) in
                      let c := set_remote_port c (src_port h) in
                      let c := set_state c Listen in
                      process_segment c h d iph)
                | None => mret tt
                end
            | None =>
                if negb (is_rst h) then on_net (send_rst (dst_ip iph) (src_ip iph) h) else mret tt
            end
        end
  end.

(** ** Socket functions *)

(** The common guard: run [f] on the socket's block if it is in use. *)
Definition with_socket {A} (sock : nat) (dflt : A) (f : Tcb → tcpM A) : tcpM A :=
  if (MAX_CONNECTIONS <=? sock)%nat then mret dflt
  else
    l ← get_conns;
    match l !! sock with
    | None => λ _, Panic
    | Some c => if negb (in_use c) then mret dflt else f c
    end.

Definition socket : tcpM (option nat) :=
  l ← get_conns;
  match alloc_connection l with
  | Some (l', i) => _ ← put_conns l'; mret (Some i)
  | None => mret None
  end.

Definition connect (sock : nat) (rip : list Z) (rport : Z) : tcpM bool :=
  with_socket sock false (λ c,
    if negb (bool_decide (state c = Closed)) then mret false
    else
      port ← alloc_port;
      with_conn sock (λ c,
        let c := set_local_ip c CONFIG_ip in
        let c := set_local_port c port in
        let c := set_remote_ip c rip in
        let c := set_remote_port c rport in
        i ← generate_iss;
        let c := set_iss c i in
        let c := set_snd_nxt c (iss c) in
        let c := set_snd_una c (iss c) in
        ok ← send_segment c FLAG_SYN [];
        if ok : bool then
          let c := set_snd_nxt c (u32 (snd_nxt c + 1)) in
          let c := set_state c SynSent in
          t1 ← ticks;
          let c := set_last_send_time c t1 in
          t2 ← deadline (rto c);
          mret (set_retransmit_timer c t2, true)
        else mret (c, false))).

Definition listen (sock : nat) (port : Z) : tcpM bool :=
  with_socket sock false (λ c,
    if negb (bool_decide (state c = Closed)) then mret false
    else
      with_conn sock (λ c,
        let c := set_local_ip c CONFIG_ip in
        let c := set_local_port c port in
        mret (set_state c Listen, true))).

Definition get_state (sock : nat) : tcpM TcpState := with_socket sock Closed (λ c, mret (state c)).
Definition is_connected (sock : nat) : tcpM bool :=
  s ← get_state sock; mret (bool_decide (s = Established)).
Definition available_bytes (sock : nat) : tcpM nat :=
  with_socket sock 0%nat (λ c, mret (bytes_available c)).

(** [recv] into a buffer of [n] bytes: the result and the bytes stored. *)
Definition recv (sock : nat) (n : nat) : tcpM (Z * list Z) :=
  with_socket sock (-1, []) (λ c,
    if bool_decide (state c = Closed) then mret (-1, [])
    else
      with_conn sock (λ c,
        '(rx, bs) ← lift_outcome (read (rx_buffer c) n);
        let c := update_rcv_wnd (set_rx_buffer c rx) in
        mret (c, (if (0 <? length bs)%nat then Z.of_nat (length bs)
                  else if remote_closed c then -1 else 0, bs)))).

Definition send (sock : nat) (d : list Z) : tcpM Z :=
  with_socket sock (-1) (λ c,
    if negb (bool_decide (state c = Established)) && negb (bool_decide (state c = CloseWait)) then mret (-1)
    else
      with_conn sock (λ c,
        '(tx, k) ← lift_outcome (write (tx_buffer c) d);
        mret (set_tx_buffer c tx, Z.of_nat k))).

(** Send FIN and move to [s] if it was sent. *)
Definition send_fin (c : Tcb) (s : TcpState) : netM Tcb :=
  ok ← send_segment c (Z.lor FLAG_FIN FLAG_ACK) [];
  if ok : bool then
    let c := set_snd_nxt c (u32 (snd_nxt c + 1)) in
    let c := set_state c s in
    t ← deadline (rto c);
    mret (set_retransmit_timer c t)
  else mret c.
Definition close (sock : nat) : tcpM unit :=
  with_socket sock tt (λ c,
    update_conn sock (λ c,
      match state c with
      | Established => send_fin c FinWait1
      | CloseWait => send_fin c LastAck
      | SynSent | Listen => mret (reset c)
      | _ => mret c
      end)).

(** The first index from [i] on that satisfies [P]. *)
Fixpoint find_index (P : nat → Tcb → bool) (i : nat) (l : list Tcb) : option nat :=
  match l with
  | [] => None
  | c :: l => if P i c then Some i else find_index P (S i) l
  end.
Definition acceptable (c : Tcb) : bool :=
  bool_decide (state c = Established) || bool_decide (state c = CloseWait).
Definition accept (sock : nat) : tcpM (option nat) :=
  with_socket sock None (λ c0,
    let listener_port := local_port c0 in
    if negb (bool_decide (state c0 = Listen)) then mret None
    else
      l ← get_conns;
      let candidate i c :=
        negb (i =? sock)%nat && in_use c && (local_port c =? listener_port) && negb (accepted c) in
      let found :=
        match find_index (λ i c, candidate i c && acceptable c && (0 <? bytes_available c)%nat) 0 l with
        | Some i => Some i
        | None => find_index (λ i c, candidate i c && acceptable c) 0 l
        end in
      match found with
      | Some i => _ ← update_conn i (λ c, mret (set_accepted c true)); mret (Some i)
      | None => mret None
      end).

Definition Tcp_initial (n : Net) : Tcp := mkTcp n (replicate MAX_CONNECTIONS Tcb_new) 49152.
