(* ===== verification/TcpWire.v ===== *)
(** TCP segments on the wire: what [send_segment] transmits and what a receiver
    reads off it. *)

From S2P Require Import Prelude NetBase Checksum Ethernet Arp Ipv4 RingBuffer Tcp.

Definition seg_front (sport dport sq ack fl wnd : Z) : list Z :=
  to_be16 sport ++ to_be16 dport ++ to_be32 sq ++ to_be32 ack ++ [0x50] ++ [fl] ++ to_be16 wnd.
Definition segment_of (src dst : list Z) (sport dport sq ack fl wnd : Z) (pl : list Z) : list Z :=
  let front := seg_front sport dport sq ack fl wnd in
  front ++ to_be16 (tcp_udp_checksum src dst PROTO_TCP (front ++ [0; 0] ++ [0; 0] ++ pl)) ++ [0; 0] ++ pl.

Lemma length_seg_front sport dport sq ack fl wnd : length (seg_front sport dport sq ack fl wnd) = 16%nat.
Proof. done. Qed.
Lemma length_segment_of src dst sport dport sq ack fl wnd pl :
  length (segment_of src dst sport dport sq ack fl wnd pl) = (20 + length pl)%nat.
Proof. unfold segment_of. rewrite !length_app, length_seg_front. cbn. lia. Qed.

Lemma build_segment_eq n sport dport sq ack fl wnd pl :
  (20 + length pl ≤ n)%nat →
  build_segment (replicate n 0) sport dport sq ack fl wnd pl =
    Ret ((seg_front sport dport sq ack fl wnd ++ [0; 0] ++ [0; 0] ++ pl) ++ replicate (n - 20 - length pl) 0,
         (20 + length pl)%nat).
Proof.
  intros Hn. unfold build_segment. rewrite length_replicate, (proj2 (Nat.ltb_ge _ _)) by solve_len.
  change (replicate n 0) with ([] ++ replicate n 0).
  do 10 (step_write; rewrite blit_zeros by solve_len). do 2 f_equal.
  match goal with |- _ ++ replicate ?k 0 = _ => replace k with (n - 20 - length pl)%nat by solve_len end.
  unfold seg_front. by rewrite <- !app_assoc.
Qed.

Lemma seg_front_bytes sport dport sq ack fl wnd : is_byte fl → bytes (seg_front sport dport sq ack fl wnd).
Proof.
  intros. unfold seg_front. rewrite !bytes_app, !bytes_cons.
  unfold is_byte in *. repeat split; auto with ralph; lia.
Qed.

Lemma segment_of_bytes src dst sport dport sq ack fl wnd pl :
  is_byte fl → bytes pl → bytes (segment_of src dst sport dport sq ack fl wnd pl).
Proof.
  intros. unfold segment_of. rewrite !bytes_app, !bytes_cons. unfold is_byte in *.
  repeat split; auto using seg_front_bytes with ralph; try lia.
  all: by apply seg_front_bytes.
Qed.

(** The receiver's checksum test succeeds. *)
Lemma segment_of_checksum src dst sport dport sq ack fl wnd pl :
  bytes src → bytes dst → is_byte fl → bytes pl → (length pl ≤ 1480)%nat →
  tcp_udp_checksum src dst PROTO_TCP (segment_of src dst sport dport sq ack fl wnd pl) = 0.
Proof.
  intros Hs Hd Hf Hp Hl. unfold segment_of. apply tcp_checksum_fill; try done.
  - by apply seg_front_bytes.
  - rewrite bytes_app, !bytes_cons. unfold is_byte. repeat split; auto with ralph; lia.
  - rewrite length_app, length_seg_front. cbn. lia.
Qed.

Lemma parse_segment_of src dst sport dport sq ack fl wnd pl :
  bytes src → bytes dst → bytes pl → (length pl ≤ 1480)%nat →
  0 ≤ sport < 65536 → 0 ≤ dport < 65536 → 0 ≤ sq < 4294967296 → 0 ≤ ack < 4294967296 →
  0 ≤ fl < 64 → 0 ≤ wnd < 65536 →
  ∃ ck, parsed (segment_of src dst sport dport sq ack fl wnd pl) =
    Some (mkTcpHeader sport dport sq ack 5 fl wnd ck 0).
Proof.
  intros Hs Hd Hp Hl Hsp Hdp Hsq Ha Hf Hw.
  set (d := segment_of _ _ _ _ _ _ _ _ _). unfold parsed.
  rewrite (proj2 (Nat.ltb_ge _ HEADER_SIZE)) by (unfold d; rewrite length_segment_of; solve_len).
  set (ck := tcp_udp_checksum src dst PROTO_TCP (seg_front sport dport sq ack fl wnd ++ [0; 0] ++ [0; 0] ++ pl)).
  set (rest := to_be16 ck ++ [0; 0] ++ pl).
  assert (Ed : d = to_be16 sport ++ to_be16 dport ++ to_be32 sq ++ to_be32 ack ++ [0x50] ++ [fl] ++ to_be16 wnd ++ rest).
  { unfold d, segment_of, seg_front. rewrite <- !app_assoc. done. }
  assert (at_ d 12 = 0x50) as -> by (rewrite Ed; done).
  assert (at_ d 13 = fl) as -> by (rewrite Ed; done).
  change (Z.land (Z.shiftr 0x50 4) 0x0F) with 5. cbn [Z.ltb Z.compare Pos.compare Pos.compare_cont].
  exists (be16_at d 16). do 2 f_equal.
  - rewrite Ed. by apply (be16_at_app []).
  - rewrite Ed. by apply (be16_at_app (to_be16 sport)).
  - rewrite Ed. by apply (be32_at_app (to_be16 sport ++ to_be16 dport)).
  - rewrite Ed. by apply (be32_at_app (to_be16 sport ++ to_be16 dport ++ to_be32 sq)).
  - rewrite (Z.land_ones fl 6 ltac:(lia) : Z.land fl 0x3F = _). apply Z.mod_small. lia.
  - rewrite Ed. by apply (be16_at_app (to_be16 sport ++ to_be16 dport ++ to_be32 sq ++ to_be32 ack ++ [0x50] ++ [fl])).
Qed.

Lemma payload_segment_of h src dst sport dport sq ack fl wnd pl :
  data_offset h = 5 → payload_of h (segment_of src dst sport dport sq ack fl wnd pl) = pl.
Proof.
  intros Hh. unfold payload_of, header_length. rewrite Hh, length_segment_of.
  change (Z.to_nat 5 * 4)%nat with 20%nat. destruct pl as [|b pl]; [done|].
  rewrite (proj2 (Nat.ltb_lt 20 _)) by (cbn; lia). done.
Qed.

Lemma blit_checksum front ck pl rest :
  length front = 16%nat →
  blit ((front ++ [0; 0] ++ [0; 0] ++ pl) ++ rest) 16 (to_be16 ck) = (front ++ to_be16 ck ++ [0; 0] ++ pl) ++ rest.
Proof. intros Hf. rewrite <- !app_assoc. by apply blit_field. Qed.

Lemma fill_checksum_eq src dst sport dport sq ack fl wnd pl k :
  fill_checksum src dst ((seg_front sport dport sq ack fl wnd ++ [0; 0] ++ [0; 0] ++ pl) ++ replicate k 0)
    (20 + length pl) = Ret (segment_of src dst sport dport sq ack fl wnd pl).
Proof.
  pose proof (length_seg_front sport dport sq ack fl wnd) as Hf. unfold fill_checksum.
  rewrite get_slice_to_eq, mbind_Ret by solve_len. step_write. rewrite blit_checksum by done.
  rewrite get_slice_to_eq by solve_len. unfold segment_of. by rewrite !take_app_length' by solve_len.
Qed.

Lemma send_segment_seq_eq c sq fl pl n :
  (length pl ≤ 1480)%nat →
  send_segment_seq c sq fl pl n =
    send_packet (remote_ip c) PROTO_TCP
      (segment_of (local_ip c) (remote_ip c) (local_port c) (remote_port c) sq (rcv_nxt c) fl (rcv_wnd c) pl) n.
Proof.
  intros Hl. unfold send_segment_seq. rewrite build_segment_eq, lift_Ret by lia.
  change (20 + length pl =? 0)%nat with false. cbn beta iota zeta.
  by rewrite fill_checksum_eq, lift_Ret.
Qed.
