(* ===== verification/TcpInv.v ===== *)
(** The invariant of TCP connections and the specification of every internal
    operation on a control block.

    [safe m n Q]: from a well-formed stack [n] the computation [m] returns (no
    panic, no divergence), the stack stays well formed, only appends frames to
    those transmitted, and [Q] holds of the final stack and the result. *)

From S2P Require Import Prelude NetBase Checksum Ethernet Arp Ipv4 RingBuffer Tcp TcpWire.

(** ** A small program logic for the stack *)

Definition safe {A} (m : netM A) (n : Net) (Q : Net → A → Prop) : Prop :=
  net_inv n → ∃ n' a, m n = Ret (n', a) ∧ net_inv n' ∧ net_ext n n' ∧ Q n' a.

Lemma safe_ret {A} (a : A) n (Q : Net → A → Prop) : Q n a → safe (mret a) n Q.
Proof. intros HQ Hn. by exists n, a. Qed.

Lemma safe_bind {A B} (m : netM A) (f : A → netM B) n R (Q : Net → B → Prop) :
  safe m n R → (∀ n' a, net_ext n n' → R n' a → safe (f a) n' Q) → safe (m ≫= f) n Q.
Proof.
  intros Hm Hf Hn. destruct (Hm Hn) as (n1 & a & He & Hn1 & Hx & HR).
  destruct (Hf n1 a Hx HR Hn1) as (n2 & b & He2 & Hn2 & Hx2 & HQ).
  exists n2, b. rewrite (netM_bind_Ret _ _ _ _ _ He). split_and!; try done. by transitivity n1.
Qed.

Lemma safe_mono {A} (m : netM A) n (Q R : Net → A → Prop) :
  safe m n Q → (∀ n' a, net_ext n n' → Q n' a → R n' a) → safe m n R.
Proof.
  intros Hm Hi Hn. destruct (Hm Hn) as (n1 & a & He & Hn1 & Hx & HQ). exists n1, a. split_and!; auto.
Qed.

Lemma safe_inv {A} (m : netM A) n (Q : Net → A → Prop) : (net_inv n → safe m n Q) → safe m n Q.
Proof. intros H Hn. by apply H. Qed.

Lemma safe_lift_bind {A B} (o : outcome A) a (f : A → netM B) n (Q : Net → B → Prop) :
  o = Ret a → safe (f a) n Q → safe (lift_outcome o ≫= f) n Q.
Proof. intros -> Hf. exact Hf. Qed.

Lemma safe_ticks n : safe ticks n (λ n' t, 0 ≤ t < 18446744073709551616 ∧ sent n' = sent n).
Proof.
  intros Hn. exists (set_clock_read n), (clock n (reads n)).
  split_and!; try done; [by apply clock_read_inv|apply Hn..].
Qed.
Lemma safe_deadline d n : safe (deadline d) n (λ n' t, 0 ≤ t < 18446744073709551616 ∧ sent n' = sent n).
Proof.
  eapply safe_bind; [apply safe_ticks|]. intros n1 t _ [_ Hs]. apply safe_ret. split; [apply u64_range|done].
Qed.
Lemma safe_iss n : safe generate_iss n (λ n' i, 0 ≤ i < 4294967296 ∧ sent n' = sent n).
Proof.
  eapply safe_bind; [apply safe_ticks|]. intros n1 t _ [_ Hs]. apply safe_ret. split; [apply u32_range|done].
Qed.

(** ** The invariant of a connection *)

Definition ooo_wf (s : OooSegment) : Prop :=
  length (seg_data s) = OOO_DATA_SIZE ∧ bytes (seg_data s) ∧ 0 ≤ seg_len s ≤ 512.

(** Bytes in flight against the send queue, by phase of the connection: nothing
    is queued before it is established, then all bytes in flight are queued, and
    after closing the FIN may be in flight as well. *)
Definition flight (c : Tcb) : Z := u32 (snd_nxt c - snd_una c).
Definition tx_phase (s : TcpState) (fl : Z) (q : list Z) : Prop :=
  match s with
  | Closed | Listen | SynSent | SynReceived => q = []
  | Established | CloseWait => fl ≤ Z.of_nat (length q)
  | _ => fl ≤ Z.of_nat (length q) + 1
  end.

Definition ip_wf (ip : list Z) : Prop := length ip = 4%nat ∧ bytes ip.
Record tcb_wf (c : Tcb) : Prop := mkTcbWf {
  w_local_ip : ip_wf (local_ip c);
  w_remote_ip : ip_wf (remote_ip c);
  w_local_port : 0 ≤ local_port c < 65536;
  w_remote_port : 0 ≤ remote_port c < 65536;
  w_snd_una : 0 ≤ snd_una c < 4294967296;
  w_snd_nxt : 0 ≤ snd_nxt c < 4294967296;
  w_snd_wnd : 0 ≤ snd_wnd c < 65536;
  w_rcv_nxt : 0 ≤ rcv_nxt c < 4294967296;
  w_rcv_wnd : 0 ≤ rcv_wnd c ≤ 1024;
  w_rto : MIN_RTO ≤ rto c ≤ MAX_RTO;
  w_cwnd : MSS ≤ cwnd c ≤ u32_max;
  w_ooo : length (ooo_segments c) = OOO_BUFFER_SIZE;
  w_ooo_wf : Forall ooo_wf (ooo_segments c);
  w_rx : ∃ q, ring_ok (rx_buffer c) q ∧ bytes q;
  w_tx : ∃ q, ring_ok (tx_buffer c) q ∧ bytes q ∧ tx_phase (state c) (flight c) q;
}.

(** Close a goal [tcb_wf c'] where [c'] is [c] with some fields assigned, from
    [tcb_wf c]; the goals about assigned fields remain if not immediate. *)
Ltac wf_update H := destruct H; split; cbn; try done.

Lemma Tcb_new_wf : tcb_wf Tcb_new.
Proof.
  split; cbn; try done; try (unfold MIN_RTO, MAX_RTO, MSS, INITIAL_RTO, u32_max; lia).
  - split; [done|]. apply (bytes_replicate 4).
  - split; [done|]. apply (bytes_replicate 4).
  - do 2 (constructor; [split_and!; [done|apply (bytes_replicate 512)|cbn; lia..]|]). constructor.
  - exists []. split; [apply RingBuffer_new_ok|constructor].
  - exists []. split_and!; [apply RingBuffer_new_ok|constructor|done].
Qed.

(** A slot is either free, and then as initialised, or in use and well formed. *)
Definition conn_ok (c : Tcb) : Prop := c = Tcb_new ∨ (in_use c = true ∧ tcb_wf c).
Lemma conn_ok_wf c : conn_ok c → tcb_wf c.
Proof. intros [->|[_ ?]]; [apply Tcb_new_wf|done]. Qed.

(** ** Sequence numbers *)

Lemma seq_after_spec a b :
  seq_after a b = true ↔ 0 < u32 (a - b) < 2147483648.
Proof.
  unfold seq_after, i32. pose proof (u32_range (a - b)). rewrite Z.ltb_lt.
  destruct (decide (u32 (a - b) < 2147483648)).
  - rewrite Z.mod_small by lia. lia.
  - replace (u32 (a - b) + 2147483648) with (u32 (a - b) - 2147483648 + 1 * 4294967296) by lia.
    rewrite Z.mod_add, Z.mod_small by lia. lia.
Qed.

(** [u32] of a difference of differences. *)
Lemma u32_sub_sub a b c : u32 (u32 (a - b) - u32 (c - b)) = u32 (a - c).
Proof. unfold u32. rewrite Zminus_mod_idemp_l, Zminus_mod_idemp_r. f_equal. lia. Qed.
(** An acceptable acknowledgement acknowledges part of what is in flight. *)
Lemma ack_within una nxt ack :
  u32 (nxt - una) ≤ 1025 →
  seq_after ack una = true → seq_after ack nxt = false →
  0 < u32 (ack - una) ≤ u32 (nxt - una) ∧
  u32 (nxt - ack) = u32 (nxt - una) - u32 (ack - una).
Proof.
  intros Hf [Ha Ha2]%seq_after_spec Hn. pose proof (u32_range (nxt - una)).
  assert (Hle : u32 (ack - una) ≤ u32 (nxt - una)).
  { destruct (Z_le_gt_dec (u32 (ack - una)) (u32 (nxt - una))) as [|Hgt]; [done|exfalso].
    apply not_true_iff_false in Hn. apply Hn, seq_after_spec.
    rewrite <- (u32_sub_sub ack una nxt), u32_small by lia. lia. }
  split; [lia|]. rewrite <- (u32_sub_sub nxt una ack). apply u32_small. lia.
Qed.

(** The flags the code uses are six-bit constants. *)
Ltac solve_flags := split; by vm_compute.

(** ** Sending a segment *)

(** The segment of connection [c] with the given fields. *)
Definition segment (c : Tcb) (sq fl : Z) (pl : list Z) : list Z :=
  segment_of (local_ip c) (remote_ip c) (local_port c) (remote_port c) sq (rcv_nxt c) fl (rcv_wnd c) pl.

(** Between [n] and [n'] exactly the given segment, or at most an ARP frame, was
    transmitted. *)
Definition sent_segment (n n' : Net) (c : Tcb) (sq fl : Z) (pl : list Z) : Prop :=
  ∃ f m, sent n' = sent n ++ [f] ∧ carries f (mac n) m PROTO_TCP (remote_ip c) (segment c sq fl pl).
Definition is_arp (f : list Z) : Prop :=
  ∃ h, Ethernet.parse f = Ret (Some h) ∧ ethertype h = ETHERTYPE_ARP.
Definition sent_no_segment (n n' : Net) : Prop :=
  sent n' = sent n ∨ ∃ f, sent n' = sent n ++ [f] ∧ is_arp f.

(** Segments the code sends: at most 1446 bytes of payload. *)
Lemma safe_send_segment_seq c sq fl pl n :
  tcb_wf c → 0 ≤ fl < 64 → bytes pl → (length pl ≤ 1446)%nat →
  safe (send_segment_seq c sq fl pl) n (λ n' ok,
    if ok : bool then sent_segment n n' c sq fl pl else sent_no_segment n n').
Proof.
  intros Hwf Hf Hb Hl Hn. rewrite send_segment_seq_eq by lia.
  destruct (w_remote_ip _ Hwf) as [Hr1 Hr2].
  assert (Hfl : is_byte fl) by (unfold is_byte; lia).
  destruct (send_packet_ok (remote_ip c) PROTO_TCP (segment c sq fl pl) n) as (n' & ok & He & Hn' & Hx & _ & Hres);
    [done..|unfold is_byte, PROTO_TCP; lia|by apply segment_of_bytes|].
  exists n', ok. split_and!; [done..|].
  destruct (lookup_entries _ _ _) as [m|].
  - destruct Hres as [Hok Hs]. destruct ok; [|by left].
    destruct Hs as (f & Hs & Hc). by exists f, m.
  - destruct Hres as [-> Hs]. destruct (tx_ready n (attempts n)); [|by left].
    destruct Hs as (f & p & Hs & Hp & _). right. exists f. split; [done|]. eexists. by split.
Qed.
Lemma safe_send_segment c fl pl n :
  tcb_wf c → 0 ≤ fl < 64 → bytes pl → (length pl ≤ 1446)%nat →
  safe (send_segment c fl pl) n (λ n' ok,
    if ok : bool then sent_segment n n' c (snd_nxt c) fl pl else sent_no_segment n n').
Proof. apply safe_send_segment_seq. Qed.

(** Sending without looking at the result. *)
Lemma safe_send_ack c n :
  tcb_wf c → safe (send_segment c FLAG_ACK []) n (λ n' _,
    sent_segment n n' c (snd_nxt c) FLAG_ACK [] ∨ sent_no_segment n n').
Proof.
  intros Hwf. eapply safe_mono; [apply safe_send_segment; [done|solve_flags|constructor|cbn; lia]|].
  intros n' [] _ H; auto.
Qed.

(** ** Round-trip time and retransmission *)

Lemma safe_update_rtt c n :
  safe (update_rtt c) n (λ n' c', sent n' = sent n ∧
    ∃ a b r, c' = set_rto (set_rttvar (set_srtt c a) b) r ∧ MIN_RTO ≤ r ≤ MAX_RTO).
Proof.
  eapply safe_bind; [apply safe_ticks|]. intros n1 t _ [_ Hs]. apply safe_ret. split; [done|].
  destruct (srtt c =? 0); do 3 eexists; (split; [reflexivity|]); unfold MIN_RTO, MAX_RTO; cbn; lia.
Qed.

Lemma update_rtt_wf c a b r :
  tcb_wf c → MIN_RTO ≤ r ≤ MAX_RTO → tcb_wf (set_rto (set_rttvar (set_srtt c a) b) r).
Proof. intros H Hr. wf_update H. Qed.

(** The bytes of the send queue that are sent: an in-range slice of the array. *)
Lemma peek_array_ok r q offset k :
  ring_ok r q → (offset + k ≤ length q)%nat → (k ≤ Z.to_nat MSS)%nat →
  peek_array r offset k = Ret (take k (drop offset q)).
Proof.
  intros Hq Hk Hm. unfold peek_array. set (a := replicate (Z.to_nat MSS) 0).
  assert (Ha : length a = Z.to_nat MSS) by apply length_replicate.
  rewrite get_slice_to_eq, mbind_Ret, length_take, Nat.min_l by lia.
  rewrite (peek_offset_ok _ q), mbind_Ret by done.
  assert (Hl : length (take k (drop offset q)) = k) by (rewrite length_take, length_drop; lia).
  rewrite copy_in_eq, mbind_Ret by lia. rewrite get_slice_to_eq by (rewrite length_blit; lia).
  rewrite blit_eq by lia. rewrite take_0, app_nil_l. by rewrite take_app_length'.
Qed.

(** What a retransmission transmits: the first bytes of the send queue, at
    [snd_una], no more than are in flight. *)
Definition sent_retransmission (n n' : Net) (c : Tcb) (q : list Z) : Prop :=
  sent_no_segment n n' ∨
  ∃ k, (0 < k ≤ length q)%nat ∧ Z.of_nat k ≤ flight c ∧
    sent_segment n n' c (snd_una c) (Z.lor FLAG_ACK FLAG_PSH) (take k q).

Lemma safe_retransmit c q n :
  tcb_wf c → ring_ok (tx_buffer c) q → bytes q →
  safe (retransmit c) n (λ n' c', sent_retransmission n n' c q ∧
    ∃ t k, c' = set_retransmit_count (set_retransmit_timer c t) k).
Proof.
  intros Hwf Hq Hb. unfold retransmit.
  assert (Hid : c = set_retransmit_count (set_retransmit_timer c (retransmit_timer c)) (retransmit_count c))
    by by destruct c.
  assert (Hno : safe (mret c) n (λ n' c', sent_retransmission n n' c q ∧
    ∃ t k, c' = set_retransmit_count (set_retransmit_timer c t) k)).
  { apply safe_ret. split; [by left; left|eauto]. }
  destruct (Nat.eqb_spec (Z.to_nat (u32 (snd_nxt c - snd_una c))) 0) as [|Hfl]; [done|].
  unfold available. rewrite (ro_len _ _ Hq).
  set (fl := Z.to_nat (u32 (snd_nxt c - snd_una c))) in *.
  destruct (Nat.eqb_spec (Nat.min (length q) fl) 0) as [|Hun]; [done|].
  set (k := Nat.min (Nat.min (length q) fl) (Z.to_nat MSS)).
  pose proof (ro_room _ _ Hq) as Hroom. unfold RX_BUFFER_SIZE in Hroom.
  assert (Hk : (0 < k ≤ length q)%nat ∧ (k ≤ fl)%nat) by (unfold k, MSS in *; lia).
  eapply safe_lift_bind; [apply (peek_array_ok _ q); [done|lia|unfold k; lia]|]. rewrite drop_0.
  eapply safe_bind.
  { apply safe_send_segment_seq; [done|solve_flags|auto with ralph|].
    rewrite length_take. lia. }
  intros n1 ok _ Hok. eapply safe_bind; [apply safe_deadline|]. intros n2 t _ [_ Ht].
  apply safe_ret. split; [|eauto]. unfold sent_retransmission, sent_no_segment, sent_segment in *.
  rewrite Ht. destruct ok; [right|by left]. exists k. split_and!; [lia..| |done].
  unfold flight. pose proof (u32_range (snd_nxt c - snd_una c)). lia.
Qed.

(** ** Acknowledgements *)

(** The fields that acknowledgements do not touch. *)
Record tx_frame (c c' : Tcb) : Prop := mkTxFrame {
  tf_state : state c' = state c;
  tf_local : local_ip c' = local_ip c ∧ local_port c' = local_port c;
  tf_remote : remote_ip c' = remote_ip c ∧ remote_port c' = remote_port c;
  tf_snd_nxt : snd_nxt c' = snd_nxt c;
  tf_rcv : rcv_nxt c' = rcv_nxt c ∧ rcv_wnd c' = rcv_wnd c;
  tf_ooo : ooo_segments c' = ooo_segments c;
  tf_rx : rx_buffer c' = rx_buffer c;
  tf_in_use : in_use c' = in_use c;
  tf_closed : remote_closed c' = remote_closed c;
}.

(** Does [ack] acknowledge new data? *)
Definition new_ack (c : Tcb) (ack : Z) : bool :=
  seq_after ack (snd_una c) && negb (seq_after ack (snd_nxt c)).

Definition ack_post (c : Tcb) (ack : Z) (q : list Z) (n n' : Net) (c' : Tcb) : Prop :=
  tcb_wf c' ∧ tx_frame c c' ∧
  if new_ack c ack
  then snd_una c' = ack ∧ ring_ok (tx_buffer c') (drop (Z.to_nat (u32 (ack - snd_una c))) q) ∧ sent n' = sent n
  else snd_una c' = snd_una c ∧ tx_buffer c' = tx_buffer c ∧ sent_retransmission n n' c q.

Lemma sat_add_cwnd a b : MSS ≤ a ≤ u32_max → 0 ≤ b → MSS ≤ sat_add u32_max a b ≤ u32_max.
Proof. unfold sat_add, u32_max, MSS. lia. Qed.

Lemma fast_recovery_cwnd a :
  MSS ≤ a ≤ u32_max → MSS ≤ u32 (Z.max (a / 2) (2 * MSS) + 3 * MSS) ≤ u32_max.
Proof.
  unfold u32_max, MSS. intros Ha.
  assert (a / 2 ≤ 2147483647) by (apply Z.lt_succ_r, Z.div_lt_upper_bound; lia).
  rewrite u32_small; lia.
Qed.

(** The congestion window after a new acknowledgement. *)
Lemma safe_cwnd_update c b n :
  tcb_wf c → 0 ≤ b →
  safe (if cwnd c <? ssthresh c then mret (set_cwnd c (sat_add u32_max (cwnd c) b))
        else q ← lift_outcome (rust_div (u32 (MSS * MSS)) (cwnd c));
             mret (set_cwnd c (sat_add u32_max (cwnd c) q))) n
    (λ n' c', sent n' = sent n ∧ ∃ w, c' = set_cwnd c w ∧ MSS ≤ w ≤ u32_max).
Proof.
  intros Hwf Hb. pose proof (w_cwnd _ Hwf) as Hw. destruct (cwnd c <? ssthresh c).
  - apply safe_ret. split; [done|]. eexists. split; [reflexivity|]. by apply sat_add_cwnd.
  - eapply safe_lift_bind.
    { unfold rust_div. rewrite (proj2 (Z.eqb_neq _ _)); [reflexivity|]. unfold MSS in Hw. lia. }
    apply safe_ret. split; [done|]. eexists. split; [reflexivity|]. apply sat_add_cwnd; [done|].
    apply Z.div_pos; [apply u32_range|unfold MSS in Hw; lia].
Qed.

Lemma open_phase c q :
  tcb_wf c → state c = Established ∨ state c = CloseWait → ring_ok (tx_buffer c) q → flight c ≤ Z.of_nat (length q).
Proof.
  intros Hwf Hst Hq. destruct (w_tx _ Hwf) as (q' & Hq' & _ & Hph).
  rewrite <- (ro_len _ _ Hq), (ro_len _ _ Hq'). unfold tx_phase in Hph.
  by destruct Hst as [Hst|Hst]; rewrite Hst in Hph.
Qed.

(** Consuming acknowledged data keeps the invariant. *)
Lemma ack_wf c q ack :
  tcb_wf c → state c = Established ∨ state c = CloseWait → ring_ok (tx_buffer c) q → bytes q →
  0 ≤ ack < 4294967296 → new_ack c ack = true →
  tcb_wf (set_tx_buffer (set_snd_una c ack) (consume (tx_buffer c) (Z.to_nat (u32 (ack - snd_una c))))).
Proof.
  intros Hwf Hst Hq Hb Hack Hnew. pose proof (open_phase c q Hwf Hst Hq) as Hfl.
  pose proof (ro_room _ _ Hq) as Hroom. unfold RX_BUFFER_SIZE in Hroom.
  unfold new_ack in Hnew. bool_to_prop. destruct Hnew as [H1 H2].
  destruct (ack_within (snd_una c) (snd_nxt c) ack) as [Ha Hb']; [unfold flight in Hfl; lia|done..|].
  wf_update Hwf. eexists. split_and!; [by apply consume_ok|auto with ralph|].
  unfold flight, tx_phase in *. cbn. rewrite Hb'.
  destruct Hst as [Hst|Hst]; rewrite Hst, length_drop; lia.
Qed.

Lemma safe_process_ack c q ack n :
  tcb_wf c → state c = Established ∨ state c = CloseWait → ring_ok (tx_buffer c) q → bytes q →
  0 ≤ ack < 4294967296 → safe (process_ack c ack) n (ack_post c ack q n).
Proof.
  intros Hwf Hst Hq Hb Hack. unfold process_ack, ack_post. fold (new_ack c ack).
  destruct (new_ack c ack) eqn:Hnew.
  - pose proof (ack_wf c q ack Hwf Hst Hq Hb Hack Hnew) as Hwf1.
    pose proof (consume_ok _ _ (Z.to_nat (u32 (ack - snd_una c))) Hq) as Hq1.
    set (c1 := set_tx_buffer _ _) in *.
    eapply safe_bind; [apply safe_update_rtt|]. intros n1 c2 _ (Hs1 & x & y & r & -> & Hr).
    pose proof (update_rtt_wf c1 x y r Hwf1 Hr) as Hwf2.
    set (c2 := set_rto (set_rttvar (set_srtt c1 x) y) r) in *.
    eapply safe_bind; [apply safe_cwnd_update; [done|apply u32_range]|].
    intros n2 c3 _ (Hs2 & w & -> & Hw).
    destruct (negb _).
    + eapply safe_bind; [apply safe_deadline|]. intros n3 t _ [_ Hs3]. apply safe_ret.
      split_and!; [wf_update Hwf2|by split|done..|congruence].
    + apply safe_ret. split_and!; [wf_update Hwf2|by split|done..|congruence].
  - assert (Hno : ∀ c', tcb_wf c' → tx_frame c c' → snd_una c' = snd_una c → tx_buffer c' = tx_buffer c →
      safe (mret c') n (λ n' c', tcb_wf c' ∧ tx_frame c c' ∧ snd_una c' = snd_una c ∧
        tx_buffer c' = tx_buffer c ∧ sent_retransmission n n' c q)).
    { intros c' ????. apply safe_ret. split_and!; try done. by left; left. }
    destruct (ack =? last_ack c); [|by apply Hno].
    set (c1 := set_dup_ack_count c (u8 (dup_ack_count c + 1))).
    assert (Hwf1 : tcb_wf c1) by wf_update Hwf.
    pose proof (w_cwnd _ Hwf) as Hw.
    destruct (dup_ack_count c1 =? 3).
    + set (c2 := set_cwnd _ _).
      assert (Hwf2 : tcb_wf c2).
      { pose proof (fast_recovery_cwnd _ Hw). wf_update Hwf1. }
      eapply safe_mono; [by apply (safe_retransmit c2 q)|]. intros n' c' _ (Hs & t & k & ->).
      split_and!; [wf_update Hwf2|by split|done..].
    + destruct (3 <? dup_ack_count c1); [|by apply Hno].
      apply Hno; [wf_update Hwf1; by apply sat_add_cwnd|by split|done..].
Qed.

(** ** Incoming data *)

(** The sender's byte stream by sequence number: [k] bytes from [s] on. *)
Definition stream (S : Z → Z) (s : Z) (k : nat) : list Z :=
  (λ i, S (u32 (s + Z.of_nat i))) <$> List.seq 0 k.
Definition agrees (S : Z → Z) (s : Z) (bs : list Z) : Prop := bs = stream S s (length bs).

Lemma length_stream S s k : length (stream S s k) = k.
Proof. unfold stream. by rewrite length_fmap, length_seq. Qed.
Lemma stream_app S s a b : stream S s (a + b) = stream S s a ++ stream S (u32 (s + Z.of_nat a)) b.
Proof.
  unfold stream. rewrite seq_app, fmap_app. f_equal. cbn. rewrite <- (Nat.add_0_r a) at 1.
  rewrite <- fmap_add_seq, <- list_fmap_compose. apply list_fmap_ext. intros i x _. cbn. f_equal.
  unfold u32. rewrite Zplus_mod_idemp_l. f_equal. lia.
Qed.
Lemma agrees_take S s bs k : agrees S s bs → agrees S s (take k bs).
Proof.
  unfold agrees. intros H. destruct (decide (k ≤ length bs)%nat); [|by rewrite take_ge by lia].
  rewrite H at 1. replace (length bs) with (k + (length bs - k))%nat at 1 by lia.
  rewrite stream_app, take_app_length' by by rewrite length_stream.
  by rewrite length_take, Nat.min_l by lia.
Qed.

(** Every buffered segment holds bytes of the stream. *)
Definition ooo_agrees (S : Z → Z) (c : Tcb) : Prop :=
  Forall (λ s, valid s = true → agrees S (seq s) (take (Z.to_nat (seg_len s)) (seg_data s))) (ooo_segments c).

(** [c'] is [c] with some receive-side fields assigned. *)
Definition rx_frame (c c' : Tcb) : Prop :=
  ∃ r o b w a, c' = set_rcv_nxt (set_rcv_wnd (set_has_data (set_ooo_segments (set_rx_buffer c r) o) b) w) a.
#[export] Instance rx_frame_preorder : PreOrder rx_frame.
Proof.
  split.
  - intros c. exists (rx_buffer c), (ooo_segments c), (has_data c), (rcv_wnd c), (rcv_nxt c). by destruct c.
  - intros c1 c2 c3 (r & o & b & w & a & ->) (r' & o' & b' & w' & a' & ->). by exists r', o', b', w', a'.
Qed.

Definition count_valid (l : list OooSegment) : nat := length (filter (λ s, valid s = true) l).

Lemma count_valid_insert l i s d :
  l !! i = Some s → valid s = true →
  S (count_valid (<[i := mkOooSegment (seq s) (seg_len s) d false]> l)) = count_valid l.
Proof.
  unfold count_valid. revert i. induction l as [|x l IH]; intros [|i] Hi Hv; try done; cbn in Hi.
  - simplify_eq. cbn [insert list_insert]. rewrite filter_cons_False by done.
    by rewrite filter_cons_True.
  - change (<[S i := ?v]> (x :: l)) with (x :: <[i := v]> l).
    rewrite !filter_cons. specialize (IH i Hi Hv).
    destruct (decide (valid x = true)); cbn [length]; lia.
Qed.

(** Received bytes [bs] were appended to the receive queue [q] and the expected
    sequence number advanced past them; if every segment seen agrees with the
    sender's stream, [bs] is the next part of it. *)
Definition appended (c : Tcb) (q : list Z) (c' : Tcb) (P : (Z → Z) → Prop) (bs : list Z) : Prop :=
  tcb_wf c' ∧ rx_frame c c' ∧ bytes bs ∧ rcv_nxt c' = u32 (rcv_nxt c + Z.of_nat (length bs)) ∧
  ring_ok (rx_buffer c') (q ++ bs) ∧
  ∀ S, P S → ooo_agrees S c → agrees S (rcv_nxt c) bs ∧ ooo_agrees S c'.

Lemma appended_nil c q P : tcb_wf c → ring_ok (rx_buffer c) q → appended c q c P [].
Proof.
  intros Hwf Hq. unfold appended. rewrite app_nil_r. split_and!; try done; [constructor|].
  rewrite Z.add_0_r, u32_small; [done|apply Hwf].
Qed.

Lemma write_wf c rx k q bs o :
  tcb_wf c → ring_ok rx (q ++ bs) → bytes q → bytes bs → length o = OOO_BUFFER_SIZE → Forall ooo_wf o →
  tcb_wf (set_ooo_segments (set_rcv_nxt (set_rx_buffer c rx) (u32 k)) o).
Proof.
  intros Hwf Hr Hq Hb Ho Hf. wf_update Hwf.
  - apply u32_range.
  - exists (q ++ bs). split; [done|]. by apply bytes_app.
Qed.

Lemma deliver_loop_ok fuel c q :
  tcb_wf c → ring_ok (rx_buffer c) q → bytes q → (count_valid (ooo_segments c) ≤ fuel)%nat →
  ∃ c' bs, deliver_loop fuel c = Ret c' ∧ appended c q c' (λ _, True) bs.
Proof.
  revert c q. induction fuel as [|fuel IH]; intros c q Hwf Hq Hb Hc; cbn [deliver_loop];
    (destruct (list_find _ (ooo_segments c)) as [[i s]|] eqn:Hf;
     [apply list_find_Some in Hf as (Hi & [Hv Hseq] & _)|
      exists c, []; split; [done|]; by apply appended_nil]).
  { pose proof (count_valid_insert _ i s (seg_data s) Hi Hv). lia. }
  destruct (Forall_lookup_1 _ _ _ _ (w_ooo_wf _ Hwf) Hi) as (Hsd & Hsb & Hsl).
  rewrite get_slice_to_eq, mbind_Ret by (rewrite Hsd; solve_len).
  set (bs0 := take (Z.to_nat (seg_len s)) (seg_data s)).
  destruct (write_ok (rx_buffer c) q bs0 Hq) as (rx & -> & Hrx).
  set (k := Nat.min (length bs0) (RX_BUFFER_SIZE - length q)) in *. cbn [mbind outcome_bind].
  set (o := <[i := _]> _).
  assert (Hbs : bytes (take k bs0)) by (unfold bs0; auto with ralph).
  assert (Hwo : Forall ooo_wf o) by (apply Forall_insert; [apply Hwf|exact (conj Hsd (conj Hsb Hsl))]).
  assert (Hlo : length o = OOO_BUFFER_SIZE) by (unfold o; rewrite length_insert; apply Hwf).
  pose proof (write_wf c rx (rcv_nxt c + Z.of_nat k) q (take k bs0) o Hwf Hrx Hb Hbs Hlo Hwo) as Hwf1.
  set (c1 := set_ooo_segments _ o) in *.
  destruct (IH c1 (q ++ take k bs0) Hwf1 Hrx) as (c' & bs & He & Hwf' & Hfr & Hbb & Hn & Hr & Hag).
  { by apply bytes_app. }
  { assert (S (count_valid o) = count_valid (ooo_segments c)) by by apply count_valid_insert.
    change (count_valid o ≤ fuel)%nat. lia. }
  assert (Hlk : length (take k bs0) = k) by (rewrite length_take; lia).
  exists c', (take k bs0 ++ bs). split; [exact He|]. split_and!.
  - done.
  - transitivity c1; [|done]. exists rx, o, (has_data c), (rcv_wnd c). eexists. by destruct c.
  - by apply bytes_app.
  - rewrite Hn, length_app, Hlk. cbn. unfold u32. rewrite Zplus_mod_idemp_l. f_equal. lia.
  - by rewrite app_assoc.
  - intros S _ Hoo.
    assert (Hs : agrees S (rcv_nxt c) (take k bs0)).
    { rewrite <- Hseq. apply agrees_take. exact (Forall_lookup_1 _ _ _ _ Hoo Hi Hv). }
    destruct (Hag S I) as [Hb1 Hoo'].
    { apply Forall_insert; [done|]. by cbn. }
    split; [|done]. unfold agrees. rewrite length_app, stream_app. f_equal; [exact Hs|].
    rewrite Hlk. exact Hb1.
Qed.

Lemma buffer_ooo_ok c q sq pl :
  tcb_wf c → ring_ok (rx_buffer c) q → bytes pl →
  ∃ c', buffer_ooo_segment c sq pl = Ret c' ∧ appended c q c' (λ S, agrees S sq pl) [].
Proof.
  intros Hwf Hq Hb. unfold buffer_ooo_segment.
  destruct (list_find _ (ooo_segments c)) as [[i s]|] eqn:Hf;
    [|exists c; split; [done|by apply appended_nil]].
  apply list_find_Some in Hf as (Hi & Hv & _).
  destruct (Forall_lookup_1 _ _ _ _ (w_ooo_wf _ Hwf) Hi) as (Hsd & Hsb & Hsl).
  set (k := Nat.min (length pl) OOO_DATA_SIZE).
  assert (Hk : (k ≤ 512)%nat) by (unfold k, OOO_DATA_SIZE; lia).
  assert (Hlk : length (take k pl) = k) by (rewrite length_take; lia).
  rewrite get_slice_to_eq, mbind_Ret by lia.
  rewrite copy_in_eq, mbind_Ret by (unfold OOO_DATA_SIZE in *; lia).
  set (s' := mkOooSegment _ _ _ _). set (o := <[i := s']> _). eexists. split; [reflexivity|].
  assert (Hlen : seg_len s' = Z.of_nat k) by (apply u16_small; lia).
  assert (Hdata : seg_data s' = take k pl ++ drop k (seg_data s)).
  { cbn. rewrite blit_eq by (rewrite Hlk, Hsd; unfold OOO_DATA_SIZE; lia).
    by rewrite take_0, app_nil_l, Hlk. }
  assert (Hs' : ooo_wf s').
  { split_and!; [|rewrite Hdata; apply bytes_app; auto with ralph|lia..].
    cbn. by rewrite length_blit. }
  assert (Hwo : Forall ooo_wf o) by (apply Forall_insert; [apply Hwf|done]).
  assert (Hlo : length o = OOO_BUFFER_SIZE) by (unfold o; rewrite length_insert; apply Hwf).
  unfold appended. rewrite app_nil_r. split_and!.
  - wf_update Hwf.
  - exists (rx_buffer c), o, (has_data c), (rcv_wnd c), (rcv_nxt c). by destruct c.
  - constructor.
  - rewrite Z.add_0_r, u32_small; [done|apply Hwf].
  - done.
  - intros S Hag Hoo. split; [done|]. apply Forall_insert; [done|]. intros _.
    rewrite Hlen, Hdata, Nat2Z.id, take_app_length' by done. by apply agrees_take.
Qed.

Definition sent_ack (n n' : Net) (c : Tcb) : Prop :=
  sent_segment n n' c (snd_nxt c) FLAG_ACK [] ∨ sent_no_segment n n'.

Lemma payload_bytes h d : bytes d → bytes (payload_of h d).
Proof. intros. unfold payload_of. destruct (_ <? _)%nat; auto with ralph. Qed.

Lemma update_rcv_wnd_wf c : tcb_wf c → tcb_wf (update_rcv_wnd c).
Proof.
  intros Hwf. assert (0 ≤ u16 (Z.of_nat (free_space (rx_buffer c))) ≤ 1024).
  { unfold free_space, RX_BUFFER_SIZE. rewrite u16_small; lia. }
  wf_update Hwf.
Qed.

Lemma safe_process_data c q h d n :
  tcb_wf c → ring_ok (rx_buffer c) q → bytes q → bytes d →
  safe (process_data c h d) n (λ n' c',
    (∃ bs, appended c q c' (λ S, agrees S (seq_num h) (payload_of h d)) bs) ∧ sent_ack n n' c').
Proof.
  intros Hwf Hq Hb Hd. unfold process_data. pose proof (payload_bytes h d Hd) as Hpb.
  rewrite tcp_payload_eq, lift_Ret. set (pl := payload_of h d) in *.
  assert (Hno : safe (mret c) n (λ n' c', (∃ bs, appended c q c' (λ S, agrees S (seq_num h) pl) bs) ∧ sent_ack n n' c')).
  { apply safe_ret. split; [exists []; by apply appended_nil|by right; left]. }
  destruct (length pl =? 0)%nat; [done|].
  destruct (seq_num h =? rcv_nxt c) eqn:Hseq; bool_to_prop.
  - destruct (write_ok (rx_buffer c) q pl Hq) as (rx & Hw & Hrx).
    set (k := Nat.min (length pl) (RX_BUFFER_SIZE - length q)) in *.
    assert (Hlk : length (take k pl) = k) by (rewrite length_take; lia).
    eapply safe_lift_bind; [exact Hw|]. cbn beta iota zeta.
    set (c1 := set_has_data (set_rcv_nxt (set_rx_buffer c rx) _) true).
    assert (Hwf1 : tcb_wf (update_rcv_wnd c1)).
    { apply update_rcv_wnd_wf. wf_update Hwf; [apply u32_range|].
      exists (q ++ take k pl). split; [done|]. apply bytes_app. auto with ralph. }
    set (c2 := update_rcv_wnd c1) in *.
    destruct (deliver_loop_ok OOO_BUFFER_SIZE c2 (q ++ take k pl) Hwf1 Hrx)
      as (c3 & bs & He & Hwf3 & Hfr & Hbb & Hnx & Hr & Hag).
    { apply bytes_app. auto with ralph. }
    { rewrite <- (w_ooo _ Hwf). apply length_filter. }
    eapply safe_lift_bind; [exact He|]. eapply safe_bind; [by apply safe_send_ack|].
    intros n1 ok _ Hs. apply safe_ret. split; [|done].
    exists (take k pl ++ bs). split_and!.
    + done.
    + transitivity c2; [|done]. exists rx, (ooo_segments c), true. do 2 eexists. by destruct c.
    + apply bytes_app. auto with ralph.
    + rewrite Hnx, length_app, Hlk. cbn. unfold u32. rewrite Zplus_mod_idemp_l. f_equal. lia.
    + by rewrite app_assoc.
    + intros S Hp Hoo. destruct (Hag S I Hoo) as [Hb1 Hoo']. split; [|done].
      unfold agrees. rewrite length_app, stream_app. f_equal; [rewrite <- Hseq; by apply agrees_take|].
      rewrite Hlk. exact Hb1.
  - destruct (seq_after _ _); [|done].
    destruct (buffer_ooo_ok c q (seq_num h) pl Hwf Hq Hpb) as (c1 & He & Happ).
    eapply safe_lift_bind; [exact He|]. eapply safe_bind; [apply safe_send_ack, Happ|]. intros n1 ok _ Hs. apply safe_ret. split; [|done].
    by exists [].
Qed.

(** C17: a segment that [send_segment] reports as sent is on the wire in exactly
    one new frame; its receiver finds a valid TCP checksum for our addresses and
    reads off the ports, the given sequence number and flags, the next expected
    sequence number as acknowledgement, our window, and the payload.  If it reports
    failure, no segment was sent. *)
Theorem send_segment_spec c sq fl pl n :
  net_inv n → tcb_wf c → 0 ≤ sq < 4294967296 → 0 ≤ fl < 64 → bytes pl → (length pl ≤ 1446)%nat →
  ∃ n' ok, send_segment_seq c sq fl pl n = Ret (n', ok) ∧ net_inv n' ∧ net_ext n n' ∧
    if ok : bool then
      ∃ f m seg h, sent n' = sent n ++ [f] ∧ carries f (mac n) m PROTO_TCP (remote_ip c) seg ∧
        tcp_udp_checksum (local_ip c) (remote_ip c) PROTO_TCP seg = 0 ∧ parse seg = Ret (Some h) ∧
        src_port h = local_port c ∧ dst_port h = remote_port c ∧ seq_num h = sq ∧
        ack_num h = rcv_nxt c ∧ flags h = fl ∧ window h = rcv_wnd c ∧ payload h seg = Ret pl
    else sent_no_segment n n'.
Proof.
  intros Hn Hwf Hsq Hf Hb Hl.
  destruct (safe_send_segment_seq c sq fl pl n Hwf Hf Hb Hl Hn) as (n' & ok & He & Hn' & Hx & Hs).
  exists n', ok. split_and!; [done..|]. destruct ok; [|done]. destruct Hs as (f & m & Hs & Hc).
  pose proof Hwf as [[_ Hli] [_ Hri] Hlp Hrp _ _ _ Hrn Hrw _ _ _ _ _ _].
  destruct (parse_segment_of (local_ip c) (remote_ip c) (local_port c) (remote_port c) sq (rcv_nxt c) fl
    (rcv_wnd c) pl) as [ck Hp]; try done; try lia.
  exists f, m, (segment c sq fl pl). eexists. unfold segment in *. rewrite tcp_parse_eq, Hp.
  split_and!; [done|exact Hc| |reflexivity|try done..].
  - apply segment_of_checksum; try done; [unfold is_byte; lia|lia].
  - by rewrite tcp_payload_eq, payload_segment_of.
Qed.

(** An established connection to the gateway. *)
Definition demo_conn : Tcb :=
  set_rcv_nxt (set_snd_wnd (set_remote_port (set_remote_ip (set_local_port (set_local_ip
    (set_state (set_in_use Tcb_new true) Established) CONFIG_ip) 23) CONFIG_gateway) 40000) 8192) 1000.
Lemma demo_conn_wf : tcb_wf demo_conn.
Proof.
  pose proof Tcb_new_wf as Hwf. wf_update Hwf.
  - split; [done|]. repeat constructor; unfold is_byte; lia.
  - split; [done|]. repeat constructor; unfold is_byte; lia.
  - exists []. split_and!; [apply RingBuffer_new_ok|constructor|by vm_compute].
Qed.

Lemma send_segment_spec_witness :
  ∃ n' ok, send_segment_seq demo_conn 5 FLAG_ACK [104; 105] (gateway_net 9) = Ret (n', ok).
Proof.
  destruct (send_segment_spec demo_conn 5 FLAG_ACK [104; 105] (gateway_net 9)) as (n' & ok & H & _).
  - apply gateway_net_inv. lia.
  - apply demo_conn_wf.
  - lia.
  - unfold FLAG_ACK. lia.
  - repeat constructor; unfold is_byte; lia.
  - cbn. lia.
  - exists n', ok. exact H.
Defined.

(** C2: in-order delivery: processing the data of a segment appends to the receive
    queue exactly the next bytes of the sender's stream, possibly none, from the
    expected sequence number on, whatever order, duplication or overlap the
    segments arrive in; the expected sequence number advances by the number of
    bytes appended, and the acknowledgement sent, if any, carries it.  (The
    segments seen must be fragments of one stream.) *)
Theorem process_data_spec c q h d pl n S :
  net_inv n → tcb_wf c → ring_ok (rx_buffer c) q → bytes q → bytes d →
  payload h d = Ret pl → agrees S (seq_num h) pl → ooo_agrees S c →
  ∃ n' c' k, process_data c h d n = Ret (n', c') ∧ net_inv n' ∧ tcb_wf c' ∧
    ring_ok (rx_buffer c') (q ++ stream S (rcv_nxt c) k) ∧
    rcv_nxt c' = u32 (rcv_nxt c + Z.of_nat k) ∧ ooo_agrees S c' ∧
    (sent_segment n n' c' (snd_nxt c') FLAG_ACK [] ∨ sent_no_segment n n').
Proof.
  intros Hn Hwf Hq Hb Hd Hpl HS Hoo. rewrite tcp_payload_eq in Hpl. injection Hpl as <-.
  destruct (safe_process_data c q h d n Hwf Hq Hb Hd Hn) as (n' & c' & He & Hn' & _ & (bs & Happ) & Hs).
  destruct Happ as (Hw & _ & _ & Hnx & Hr & Hag). destruct (Hag S HS Hoo) as [Hbs Hoo'].
  exists n', c', (length bs). unfold agrees in Hbs. rewrite <- Hbs. by split_and!.
Qed.

(** A segment with the next two bytes. *)
Definition demo_header (sq : Z) : TcpHeader := mkTcpHeader 40000 23 sq 0 5 FLAG_ACK 8192 0 0.
Lemma process_data_spec_witness :
  ∃ n' c' k, process_data demo_conn (demo_header 1000) (replicate 20 0 ++ [232; 233]) (gateway_net 9) = Ret (n', c') ∧
    ring_ok (rx_buffer c') ([] ++ stream (λ s, s mod 256) 1000 k).
Proof.
  destruct (process_data_spec demo_conn [] (demo_header 1000) (replicate 20 0 ++ [232; 233]) [232; 233] (gateway_net 9)
    (λ s, s mod 256)) as (n' & c' & k & H & _ & _ & Hr & _).
  - apply gateway_net_inv. lia.
  - apply demo_conn_wf.
  - apply RingBuffer_new_ok.
  - constructor.
  - repeat constructor; unfold is_byte; lia.
  - reflexivity.
  - reflexivity.
  - repeat constructor; discriminate.
  - exists n', c', k. split; [exact H|exact Hr].
Defined.
