(* ===== verification/TcpMachine.v ===== *)
(** The TCP state machine: every segment moves a connection along an edge of the
    protocol's state diagram and keeps the connection well formed. *)

From S2P Require Import Prelude NetBase Checksum Ethernet Arp Ipv4 RingBuffer Tcp TcpWire TcpInv.

(** ** Headers *)

Record header_wf (h : TcpHeader) : Prop := mkHeaderWf {
  hw_src : 0 ≤ src_port h < 65536;
  hw_dst : 0 ≤ dst_port h < 65536;
  hw_seq : 0 ≤ seq_num h < 4294967296;
  hw_ack : 0 ≤ ack_num h < 4294967296;
  hw_window : 0 ≤ window h < 65536;
}.
Lemma parse_header_wf d h : bytes d → parsed d = Some h → header_wf h.
Proof.
  intros Hb. unfold parsed. destruct (_ <? _)%nat; [done|]. destruct (_ <? _); [done|].
  intros [= <-]. split; cbn; auto with ralph.
Qed.

(** ** The state diagram

    The edges a segment [h] can move connection [c] along, with the condition on
    the segment that the diagram attaches to the edge. *)
Inductive seg_edge (c : Tcb) (h : TcpHeader) : TcpState → TcpState → Prop :=
| E_stay s : seg_edge c h s s
| E_reset s : is_rst h = true → seg_edge c h s Closed
| E_listen : is_syn h = true → is_ack h = false → seg_edge c h Listen SynReceived
| E_connected : is_syn h = true → is_ack h = true → ack_num h = snd_nxt c → seg_edge c h SynSent Established
| E_simultaneous : is_syn h = true → is_ack h = false → seg_edge c h SynSent SynReceived
| E_established : is_ack h = true → ack_num h = snd_nxt c → seg_edge c h SynReceived Established
| E_remote_fin : is_fin h = true → seg_edge c h Established CloseWait
| E_fin_acked : is_ack h = true → ack_num h = snd_nxt c → seg_edge c h FinWait1 FinWait2
| E_fin_both : is_ack h = true → ack_num h = snd_nxt c → is_fin h = true → seg_edge c h FinWait1 TimeWait
| E_fin_crossed : is_fin h = true → seg_edge c h FinWait1 Closing
| E_fin_second : is_fin h = true → seg_edge c h FinWait2 TimeWait
| E_closing : is_ack h = true → ack_num h = snd_nxt c → seg_edge c h Closing TimeWait
| E_last_ack : is_ack h = true → ack_num h = snd_nxt c → seg_edge c h LastAck Closed.

(** What a segment does to the receive queue [q]: it appends bytes [bs], which
    are the next part of the sender's stream when the segments agree with it. *)
Definition delivers (c : Tcb) (q : list Z) (h : TcpHeader) (d : list Z) (c' : Tcb) : Prop :=
  ∃ bs, ring_ok (rx_buffer c') (q ++ bs) ∧ bytes bs ∧
    ∀ S, agrees S (seq_num h) (payload_of h d) → ooo_agrees S c → agrees S (rcv_nxt c) bs ∧ ooo_agrees S c'.

Definition seg_post (c : Tcb) (q : list Z) (h : TcpHeader) (d : list Z) (c' : Tcb) : Prop :=
  seg_edge c h (state c) (state c') ∧
  (c' = Tcb_new ∨ (in_use c' = true ∧ tcb_wf c' ∧ delivers c q h d c')).

Lemma delivers_nothing c q h d c' :
  ring_ok (rx_buffer c') q → ooo_segments c' = ooo_segments c → delivers c q h d c'.
Proof.
  intros Hq Ho. exists []. rewrite app_nil_r. split_and!; [done|constructor|].
  intros S _ Hoo. split; [done|]. unfold ooo_agrees. by rewrite Ho.
Qed.

(** A connection with no byte in flight. *)
Lemma flight_none c : snd_una c = snd_nxt c → flight c = 0.
Proof. intros H. unfold flight. by rewrite H, Z.sub_diag. Qed.

(** Changing the state keeps the invariant if the send queue fits the new phase. *)
Lemma set_state_wf c s :
  tcb_wf c → (∀ q, tx_phase (state c) (flight c) q → tx_phase s (flight c) q) → tcb_wf (set_state c s).
Proof.
  intros Hwf Hph. destruct (w_tx _ Hwf) as (q & Hq & Hb & Hp). wf_update Hwf.
  exists q. split_and!; [done..|]. by apply Hph.
Qed.

Lemma safe_enter_time_wait c n :
  safe (enter_time_wait c) n (λ n' c', ∃ t, c' = set_time_wait_timer (set_state c TimeWait) t).
Proof.
  eapply safe_bind; [apply safe_deadline|]. intros n1 t _ _. apply safe_ret. by eexists.
Qed.

Section segment.
Context (c : Tcb) (q : list Z) (h : TcpHeader) (d : list Z) (iph : Ipv4Header).
Hypothesis Hwf : tcb_wf c.
Hypothesis Huse : in_use c = true.
Hypothesis Hq : ring_ok (rx_buffer c) q.
Hypothesis Hqb : bytes q.
Hypothesis Hh : header_wf h.
Hypothesis Hd : bytes d.
Hypothesis Hip : ip_wf (src_ip iph).

Let post (n : Net) : Net → Tcb → Prop := λ _ c', seg_post c q h d c'.

(** The segment is ignored. *)
Lemma safe_ignored n : safe (mret c) n (post n).
Proof.
  apply safe_ret. split; [constructor|]. right. split_and!; try done. by apply delivers_nothing.
Qed.

(** The block [c'] is [c] with fields other than the receive queue assigned. *)
Lemma post_simple c' s :
  seg_edge c h (state c) s → state c' = s → in_use c' = in_use c → tcb_wf c' →
  rx_buffer c' = rx_buffer c → ooo_segments c' = ooo_segments c → seg_post c q h d c'.
Proof.
  intros He <- Hu Hw Hr Ho. split; [done|]. right. split_and!; [congruence|done|].
  apply delivers_nothing; congruence.
Qed.

Lemma safe_listen n : state c = Listen → is_rst h = false → safe (process_segment c h d iph) n (post n).
Proof.
  intros Hst Hr. unfold process_segment. rewrite Hr, Hst.
  destruct (is_syn h && negb (is_ack h)) eqn:Hf; [|apply safe_ignored].
  bool_to_prop. destruct Hf as [Hsyn Hack]. cbn zeta.
  eapply safe_bind; [apply safe_iss|]. intros n1 i _ [Hi _]. cbn beta.
  set (c1 := set_remote_port _ _).
  assert (Hwf1 : tcb_wf c1).
  { destruct (w_tx _ Hwf) as (tq & Ht1 & Ht2 & Ht3). rewrite Hst in Ht3. cbn in Ht3. subst tq.
    wf_update Hwf; try apply Hh; try apply u32_range. exists []. rewrite Hst. done. }
  eapply safe_bind; [apply safe_send_segment; [done|solve_flags|constructor|cbn; lia]|].
  intros n2 [] _ _.
  - eapply safe_bind; [apply safe_ticks|]. intros n3 t1 _ _. eapply safe_bind; [apply safe_deadline|].
    intros n4 t2 _ _. apply safe_ret. eapply post_simple; [rewrite Hst; by apply E_listen|try done..].
    destruct (w_tx _ Hwf1) as (tq & Ht1 & Ht2 & Ht3). cbn in Ht3. rewrite Hst in Ht3. cbn in Ht3. subst tq.
    wf_update Hwf1; [apply u32_range|]. by exists [].
  - apply safe_ret. eapply post_simple; [apply E_stay|done..].
Qed.

Lemma safe_syn_sent n : state c = SynSent → is_rst h = false → safe (process_segment c h d iph) n (post n).
Proof.
  intros Hst Hr. unfold process_segment. rewrite Hr, Hst.
  destruct (w_tx _ Hwf) as (tq & Ht1 & Ht2 & Ht3). rewrite Hst in Ht3. cbn in Ht3. subst tq.
  destruct (is_syn h) eqn:Hsyn; [|apply safe_ignored].
  destruct (is_ack h) eqn:Hack; cbn [andb].
  - destruct (ack_num h =? snd_nxt c) eqn:Ha; [|apply safe_ignored]. bool_to_prop. cbn zeta.
    set (c1 := set_snd_wnd _ _).
    assert (Hwf1 : tcb_wf c1).
    { wf_update Hwf; try apply Hh; try apply u32_range. exists []. by rewrite Hst. }
    eapply safe_bind; [apply safe_send_segment; [done|solve_flags|constructor|cbn; lia]|].
    intros n2 [] _ _; [|apply safe_ret; eapply post_simple; [apply E_stay|done..]].
    eapply safe_mono; [apply safe_update_rtt|]. intros n3 c2 _ (_ & x & y & r & -> & Hrr).
    eapply post_simple; [rewrite Hst; by apply E_connected|try done..].
    apply update_rtt_wf; [|done]. apply set_state_wf; [done|]. intros tq. cbn. rewrite Hst. intros ->.
    rewrite flight_none by done. cbn. lia.
  - cbn zeta. set (c1 := set_rcv_nxt _ _).
    assert (Hwf1 : tcb_wf c1) by (wf_update Hwf; apply u32_range).
    eapply safe_bind; [apply safe_send_segment; [done|solve_flags|constructor|cbn; lia]|].
    intros n2 [] _ _; apply safe_ret; [|eapply post_simple; [apply E_stay|done..]].
    eapply post_simple; [rewrite Hst; by apply E_simultaneous|try done..].
    apply set_state_wf; [done|]. intros tq. cbn. by rewrite Hst.
Qed.

(** Processing the data of a segment on a block [c1] that differs from [c] in
    neither the receive side nor the use flag. *)
Lemma safe_data c1 n :
  tcb_wf c1 → in_use c1 = true → rx_buffer c1 = rx_buffer c → ooo_segments c1 = ooo_segments c →
  rcv_nxt c1 = rcv_nxt c →
  safe (process_data c1 h d) n (λ _ c',
    in_use c' = true ∧ state c' = state c1 ∧ tcb_wf c' ∧ delivers c q h d c').
Proof.
  intros Hwf1 Hu Hrx Ho Hn.
  eapply safe_mono; [apply (safe_process_data c1 q h d); [done|by rewrite Hrx|done..]|].
  intros n' c' _ [(bs & Hw & Hfr & Hb & Hnx & Hr & Hag) _].
  destruct Hfr as (r & o & b & w & a & ->). split_and!; try done. exists bs. split_and!; try done.
  intros S HS Hoo. destruct (Hag S HS) as [Hag1 Hag2]; [by unfold ooo_agrees; rewrite Ho|].
  rewrite Hn in Hag1. done.
Qed.

Lemma safe_syn_received n :
  state c = SynReceived → is_rst h = false → safe (process_segment c h d iph) n (post n).
Proof.
  intros Hst Hr. unfold process_segment. rewrite Hr, Hst.
  destruct (is_ack h && (ack_num h =? snd_nxt c)) eqn:Hf; [|apply safe_ignored].
  apply andb_true_iff in Hf as [Hack Ha%Z.eqb_eq]. cbn zeta. set (c1 := set_snd_wnd _ _).
  destruct (w_tx _ Hwf) as (tq & Ht1 & Ht2 & Ht3). rewrite Hst in Ht3. cbn in Ht3. subst tq.
  assert (Hwf1 : tcb_wf c1).
  { wf_update Hwf; try apply Hh. exists []. by rewrite Hst. }
  assert (Hwf2 : tcb_wf (set_state c1 Established)).
  { apply set_state_wf; [done|]. intros tq. cbn. rewrite Hst. intros ->. rewrite (flight_none c1 Ha). cbn. lia. }
  eapply safe_bind; [apply safe_update_rtt|]. intros n2 c2 _ (_ & x & y & r & -> & Hrr).
  eapply safe_mono; [apply safe_data; [by apply update_rtt_wf|done..]|].
  intros n3 c3 _ (Hu & Hs & Hw & Hdl). split; [|auto]. rewrite Hst, Hs. by apply E_established.
Qed.

Lemma safe_established n :
  state c = Established → is_rst h = false → safe (process_segment c h d iph) n (post n).
Proof.
  intros Hst Hr. unfold process_segment. rewrite Hr, Hst.
  destruct (w_tx _ Hwf) as (tq & Ht1 & Ht2 & Ht3).
  eapply safe_bind with (R := λ _ c', tcb_wf c' ∧ tx_frame c c').
  { destruct (is_ack h).
    - eapply safe_mono; [apply (safe_process_ack c tq); [done|by left|done..|apply Hh]|].
      intros n1 c1 _ (Hw & Hfr & _). done.
    - apply safe_ret. split; [done|]. by split. }
  intros n1 c1 _ [Hwf1 Hfr]. destruct Hfr as [Fs _ _ _ [Fr _] Fo Fx Fu _].
  eapply safe_bind; [apply safe_data; [done|congruence|done..]|].
  intros n2 c2 _ (Hu2 & Hs2 & Hw2 & bs & Hbr & Hbb & Hag).
  assert (Hs : state c2 = Established) by congruence.
  destruct (is_fin h) eqn:Hfin.
  - cbn zeta. set (c3 := set_remote_closed _ _).
    assert (Hw3 : tcb_wf c3) by (wf_update Hw2; apply u32_range).
    eapply safe_bind; [by apply safe_send_ack|]. intros n3 ok _ _. apply safe_ret.
    split; [rewrite Hst; by apply E_remote_fin|]. right. split_and!; [done| |by exists bs].
    apply set_state_wf; [done|]. intros tq'. cbn. by rewrite Hs.
  - apply safe_ret. split; [rewrite Hst, Hs; apply E_stay|]. right. split_and!; [done..|]. by exists bs.
Qed.

(** Receiving the remote FIN in one of our closing states. *)
Lemma fin_wf c1 :
  tcb_wf c1 → tcb_wf (set_rcv_nxt c1 (u32 (rcv_nxt c1 + 1))).
Proof. intros Hw. wf_update Hw. apply u32_range. Qed.

Lemma safe_closing_states n :
  is_closing (state c) = true ∨ state c = CloseWait → is_rst h = false →
  safe (process_segment c h d iph) n (post n).
Proof.
  intros Hst Hr. unfold process_segment. rewrite Hr.
  destruct (w_tx _ Hwf) as (tq & Ht1 & Ht2 & Ht3).
  destruct (state c) eqn:Es; try (destruct Hst; done).
  - (* FinWait1 *)
    destruct (is_ack h && (ack_num h =? snd_nxt c)) eqn:Hf.
    + apply andb_true_iff in Hf as [Hack Ha%Z.eqb_eq]. set (c1 := set_snd_una c (ack_num h)).
      assert (Hwf1 : tcb_wf c1).
      { wf_update Hwf; try apply Hh. exists tq. split_and!; [done..|]. rewrite flight_none by done.
        rewrite Es. cbn. lia. }
      destruct (is_fin h) eqn:Hfin.
      * eapply safe_bind; [by apply safe_send_ack, fin_wf|]. intros n1 ok _ _.
        eapply safe_mono; [apply safe_enter_time_wait|]. intros n2 c2 _ [t ->].
        eapply post_simple; [rewrite Es; by apply E_fin_both|try done..].
        pose proof (fin_wf c1 Hwf1) as Hwf2. apply (set_state_wf _ TimeWait) in Hwf2; [by wf_update Hwf2|].
        intros tq'. cbn. by rewrite Es.
      * apply safe_ret. eapply post_simple; [rewrite Es; by apply E_fin_acked|try done..].
        apply set_state_wf; [done|]. intros tq'. cbn. by rewrite Es.
    + destruct (is_fin h) eqn:Hfin; [|apply safe_ignored].
      eapply safe_bind; [by apply safe_send_ack, fin_wf|]. intros n1 ok _ _. apply safe_ret.
      eapply post_simple; [rewrite Es; by apply E_fin_crossed|try done..].
      apply set_state_wf; [by apply fin_wf|]. intros tq'. cbn. by rewrite Es.
  - (* FinWait2 *)
    destruct (is_fin h) eqn:Hfin; [|apply safe_ignored].
    eapply safe_bind; [by apply safe_send_ack, fin_wf|]. intros n1 ok _ _.
    eapply safe_mono; [apply safe_enter_time_wait|]. intros n2 c2 _ [t ->].
    eapply post_simple; [rewrite Es; by apply E_fin_second|try done..].
    pose proof (fin_wf c Hwf) as Hwf2. apply (set_state_wf _ TimeWait) in Hwf2; [by wf_update Hwf2|].
    intros tq'. cbn. by rewrite Es.
  - (* CloseWait *)
    destruct (is_ack h); [|apply safe_ignored].
    eapply safe_mono; [apply (safe_process_ack c tq); [done|by right|done|done|apply Hh]|].
    intros n1 c1 _ (Hw & Hfr & _). destruct Hfr.
    eapply post_simple; [apply E_stay|congruence..].
  - (* Closing *)
    destruct (is_ack h && (ack_num h =? snd_nxt c)) eqn:Hf; [|apply safe_ignored].
    apply andb_true_iff in Hf as [Hack Ha%Z.eqb_eq].
    eapply safe_mono; [apply safe_enter_time_wait|]. intros n2 c2 _ [t ->].
    eapply post_simple; [rewrite Es; by apply E_closing|try done..].
    assert (Hwf2 : tcb_wf (set_state c TimeWait)) by (apply set_state_wf; [done|by rewrite Es]).
    by wf_update Hwf2.
  - (* LastAck *)
    destruct (is_ack h && (ack_num h =? snd_nxt c)) eqn:Hf; [|apply safe_ignored].
    apply andb_true_iff in Hf as [Hack Ha%Z.eqb_eq]. apply safe_ret. split; [rewrite Es; by apply E_last_ack|by left].
  - apply safe_ignored.
Qed.

Lemma safe_process_segment n : safe (process_segment c h d iph) n (post n).
Proof.
  destruct (is_rst h) eqn:Hr.
  { unfold process_segment. rewrite Hr. apply safe_ret. split; [by apply E_reset|by left]. }
  destruct (state c) eqn:Hst.
  - unfold process_segment. rewrite Hr, Hst. apply safe_ignored.
  - by apply safe_listen.
  - by apply safe_syn_sent.
  - by apply safe_syn_received.
  - by apply safe_established.
  - apply safe_closing_states; [left; by rewrite Hst|done].
  - apply safe_closing_states; [left; by rewrite Hst|done].
  - apply safe_closing_states; [by right|done].
  - apply safe_closing_states; [left; by rewrite Hst|done].
  - apply safe_closing_states; [left; by rewrite Hst|done].
  - apply safe_closing_states; [left; by rewrite Hst|done].
Qed.
End segment.

(** C3: a segment moves a connection only along an edge of the TCP state diagram
    whose condition it satisfies: in particular a connection becomes established
    only when the peer acknowledged our SYN, and only a RST or the final
    acknowledgement closes it.  The connection stays well formed (or its slot is
    freed), and only bytes of the peer's stream, in order, enter the receive
    queue. *)
Theorem process_segment_spec c q h d iph n :
  net_inv n → tcb_wf c → in_use c = true → ring_ok (rx_buffer c) q → bytes q →
  header_wf h → bytes d → ip_wf (src_ip iph) →
  ∃ n' c', process_segment c h d iph n = Ret (n', c') ∧ net_inv n' ∧ net_ext n n' ∧ seg_post c q h d c'.
Proof. intros Hn Hwf Hu Hq Hb Hh Hd Hip. by apply safe_process_segment. Qed.

Lemma process_segment_spec_witness :
  ∃ n' c', process_segment demo_conn (demo_header 1000) (replicate 20 0) 
      (header_fields 1 PROTO_TCP CONFIG_ip 20) (gateway_net 9) = Ret (n', c') ∧
    seg_edge demo_conn (demo_header 1000) Established (state c').
Proof.
  destruct (process_segment_spec demo_conn [] (demo_header 1000) (replicate 20 0)
    (header_fields 1 PROTO_TCP CONFIG_ip 20) (gateway_net 9)) as (n' & c' & H & _ & _ & He & _).
  - apply gateway_net_inv. lia.
  - apply demo_conn_wf.
  - reflexivity.
  - apply RingBuffer_new_ok.
  - constructor.
  - split; cbn; lia.
  - apply (bytes_replicate 20).
  - split; [reflexivity|]. repeat constructor; unfold is_byte; lia.
  - exists n', c'. split; [exact H|exact He].
Defined.
