(* ===== verification/TcpSafe.v ===== *)
(** TCP as a whole: timers, the connection table and the socket functions.  No
    sequence of incoming segments, timer polls and socket calls makes the code
    panic, divide by zero, index out of range or loop. *)

From S2P Require Import Prelude NetBase Checksum Ethernet Arp Ipv4 RingBuffer Tcp TcpWire TcpInv TcpMachine.

(** ** Sending queued data *)

(** [k] new bytes go out: the ones after those in flight, within the peer's window
    and the congestion window. *)
Definition pending_sent (c : Tcb) (q : list Z) (n n' : Net) (c' : Tcb) (k : nat) : Prop :=
  (0 < k)%nat ∧ Z.of_nat k ≤ MSS ∧
  flight c + Z.of_nat k ≤ Z.min (snd_wnd c) (cwnd c) ∧
  flight c + Z.of_nat k ≤ Z.of_nat (length q) ∧
  sent_segment n n' c (snd_nxt c) (Z.lor FLAG_ACK FLAG_PSH) (take k (drop (Z.to_nat (flight c)) q)) ∧
  snd_nxt c' = u32 (snd_nxt c + Z.of_nat k) ∧ flight c' = flight c + Z.of_nat k.

(** [c'] is [c] with some send-side fields assigned. *)
Definition pending_frame (c c' : Tcb) : Prop :=
  ∃ x l t, c' = set_retransmit_timer (set_last_send_time (set_snd_nxt c x) l) t.

Definition pending_post (c : Tcb) (q : list Z) (n n' : Net) (c' : Tcb) : Prop :=
  tcb_wf c' ∧ pending_frame c c' ∧
  ((sent_no_segment n n' ∧ c' = c) ∨ ∃ k, pending_sent c q n n' c' k).

Lemma flight_advance c k x l t :
  tcb_wf c → flight c + Z.of_nat k < 4294967296 → x = u32 (snd_nxt c + Z.of_nat k) →
  flight (set_retransmit_timer (set_last_send_time (set_snd_nxt c x) l) t) = flight c + Z.of_nat k.
Proof.
  intros Hwf Hk ->. unfold flight in *. cbn. pose proof (u32_range (snd_nxt c - snd_una c)).
  rewrite <- (u32_small (u32 (snd_nxt c - snd_una c) + Z.of_nat k)) by lia.
  unfold u32. rewrite Zminus_mod_idemp_l, Zplus_mod_idemp_l. f_equal. lia.
Qed.

Lemma pending_wf c q k x l t :
  tcb_wf c → state c = Established → ring_ok (tx_buffer c) q → bytes q →
  flight c + Z.of_nat k ≤ Z.of_nat (length q) → x = u32 (snd_nxt c + Z.of_nat k) →
  tcb_wf (set_retransmit_timer (set_last_send_time (set_snd_nxt c x) l) t).
Proof.
  intros Hwf Hst Hq Hb Hk Hx. pose proof (ro_room _ _ Hq) as Hr. unfold RX_BUFFER_SIZE in Hr.
  pose proof (flight_advance c k x l t Hwf ltac:(lia) Hx) as Hf. wf_update Hwf.
  - rewrite Hx. apply u32_range.
  - exists q. split_and!; [done..|]. rewrite Hf, Hst. cbn. lia.
Qed.

Lemma safe_send_pending c q n :
  tcb_wf c → state c = Established → ring_ok (tx_buffer c) q → bytes q →
  safe (send_pending_data c) n (pending_post c q n).
Proof.
  intros Hwf Hst Hq Hb. pose proof (open_phase c q Hwf ltac:(by left) Hq) as Hfl.
  pose proof (ro_room _ _ Hq) as Hr. unfold RX_BUFFER_SIZE in Hr.
  assert (Hid : pending_frame c c).
  { exists (snd_nxt c), (last_send_time c), (retransmit_timer c). by destruct c. }
  assert (Hno : safe (mret c) n (pending_post c q n)).
  { apply safe_ret. split_and!; [done..|]. left. split; [by left|done]. }
  unfold send_pending_data, available. rewrite (ro_len _ _ Hq). fold (flight c).
  pose proof (u32_range (snd_nxt c - snd_una c)) as Hfr. fold (flight c) in Hfr.
  pose proof (w_snd_wnd _ Hwf) as Hsw. pose proof (w_cwnd _ Hwf) as Hcw. unfold MSS in Hcw.
  destruct (Nat.eqb_spec (length q) 0) as [|_]; [done|].
  destruct (Nat.eqb_spec (Nat.min (Z.to_nat (snd_wnd c)) (Z.to_nat (cwnd c)) - Z.to_nat (flight c)) 0) as [|Hcan]; [done|].
  destruct (Nat.eqb_spec (length q - Z.to_nat (flight c)) 0) as [|Hun]; [done|].
  set (k := Nat.min (Nat.min _ _) _).
  assert (Hk : (0 < k)%nat ∧ Z.of_nat k ≤ MSS ∧ flight c + Z.of_nat k ≤ Z.min (snd_wnd c) (cwnd c) ∧
    flight c + Z.of_nat k ≤ Z.of_nat (length q)) by (unfold k, MSS in *; lia).
  destruct Hk as (Hk0 & Hk1 & Hk2 & Hk3).
  eapply safe_lift_bind; [apply (peek_array_ok _ q); [done|lia..]|].
  assert (Hlk : length (take k (drop (Z.to_nat (flight c)) q)) = k).
  { rewrite length_take, length_drop. lia. }
  eapply safe_bind; [apply safe_send_segment; [done|solve_flags|auto with ralph|lia]|].
  intros n1 [] _ Hs; [|apply safe_ret; split_and!; [done..|by left]].
  eapply safe_bind; [apply safe_ticks|]. intros n2 l _ [_ Hs2].
  assert (Hpost : ∀ n' t, sent n' = sent n1 → pending_post c q n n'
    (set_retransmit_timer (set_last_send_time (set_snd_nxt c (u32 (snd_nxt c + Z.of_nat k))) l) t)).
  { intros n' t Hs'. split_and!; [by eapply pending_wf|by do 3 eexists|]. right. exists k.
    split_and!; try done; [|apply flight_advance; done || lia].
    unfold sent_segment in *. by rewrite Hs'. }
  destruct (_ =? 0).
  - eapply safe_bind; [apply safe_deadline|]. intros n3 t _ [_ Hs3]. apply safe_ret. apply Hpost. congruence.
  - apply safe_ret. specialize (Hpost n2 (retransmit_timer c) Hs2). by destruct c.
Qed.

(** C18: flow and congestion control: [send_pending_data] sends at most one
    segment, of at most 1460 bytes, carrying exactly the next bytes of the send
    queue at sequence number [snd_nxt]; the bytes in flight stay within the peer's
    window and the congestion window, and [snd_nxt] advances exactly when the
    segment was handed to the card. *)
Theorem send_pending_data_spec c q n :
  net_inv n → tcb_wf c → state c = Established → ring_ok (tx_buffer c) q → bytes q →
  ∃ n' c', send_pending_data c n = Ret (n', c') ∧ net_inv n' ∧ net_ext n n' ∧ pending_post c q n n' c'.
Proof. intros Hn Hwf Hst Hq Hb. by apply safe_send_pending. Qed.

(** ** Timers *)

Lemma set_rto_wf c r : tcb_wf c → MIN_RTO ≤ r ≤ MAX_RTO → tcb_wf (set_rto c r).
Proof. intros Hwf Hr. wf_update Hwf. Qed.

(** A timer poll keeps the state of a connection or frees its slot. *)
Lemma safe_process_timer now c n :
  conn_ok c → safe (process_timer now c) n (λ _ c', conn_ok c' ∧ (state c' = state c ∨ c' = Tcb_new)).
Proof.
  intros Hok. unfold process_timer. destruct (in_use c) eqn:Hu; cbn [negb]; [|apply safe_ret; auto].
  assert (Hwf : tcb_wf c) by by apply conn_ok_wf.
  case_bool_decide as Htw.
  { apply safe_ret. destruct (_ <=? _); unfold reset; [split; [by left|by right]|auto]. }
  eapply safe_bind with (R := λ _ c', (c' = Tcb_new) ∨ (in_use c' = true ∧ tcb_wf c' ∧ state c' = state c)).
  { destruct (_ && _); [|apply safe_ret; auto]. destruct (5 <=? retransmit_count c); [apply safe_ret; by left|].
    cbn zeta. set (c1 := set_cwnd _ _).
    assert (Hwf1 : tcb_wf c1).
    { assert (Hr : MIN_RTO ≤ Z.min (u64 (rto c * 2)) MAX_RTO ≤ MAX_RTO).
      { destruct (w_rto _ Hwf). unfold MIN_RTO, MAX_RTO in *. rewrite u64_small by lia. lia. }
      wf_update Hwf. }
    destruct (w_tx _ Hwf1) as (q & Hq & Hb & _).
    eapply safe_mono; [by apply (safe_retransmit c1 q)|]. intros n1 c2 _ (_ & t & k & ->).
    right. split_and!; [done| |done]. by wf_update Hwf1. }
  intros n1 c1 _ [->|(Hu1 & Hwf1 & Hs1)].
  { apply safe_ret. split; [by left|by right]. }
  case_bool_decide as He; [|apply safe_ret; split; [by right|by left]].
  destruct (w_tx _ Hwf1) as (q & Hq & Hb & _).
  eapply safe_mono; [by apply (safe_send_pending c1 q)|]. intros n2 c2 _ (Hw2 & (x & l & t & ->) & _).
  split; [by right|by left].
Qed.

Lemma safe_timers_loop now l n :
  Forall conn_ok l →
  safe (timers_loop now l) n (λ _ l', Forall conn_ok l' ∧
    Forall2 (λ c c', state c' = state c ∨ c' = Tcb_new) l l').
Proof.
  revert n. induction l as [|c l IH]; intros n Hl; cbn [timers_loop].
  { apply safe_ret. by split. }
  apply Forall_cons in Hl as [Hc Hl]. eapply safe_bind; [by apply safe_process_timer|].
  intros n1 c1 _ [Hc1 Hs1]. eapply safe_bind; [by apply IH|]. intros n2 l2 _ [Hl2 Hs2].
  apply safe_ret. split; by constructor.
Qed.

(** ** The connection table *)

Record tcp_inv (w : Tcp) : Prop := mkTcpInv {
  ti_net : net_inv (net w);
  ti_count : length (conns w) = MAX_CONNECTIONS;
  ti_conns : Forall conn_ok (conns w);
  ti_port : 49152 ≤ next_port w ≤ 65535;
}.

Definition tsafe {A} (m : tcpM A) (w : Tcp) (Q : Tcp → A → Prop) : Prop :=
  tcp_inv w → ∃ w' a, m w = Ret (w', a) ∧ tcp_inv w' ∧ net_ext (net w) (net w') ∧ Q w' a.

Lemma tsafe_ret {A} (a : A) w (Q : Tcp → A → Prop) : Q w a → tsafe (mret a) w Q.
Proof. intros HQ Hw. by exists w, a. Qed.
Lemma tsafe_bind {A B} (m : tcpM A) (f : A → tcpM B) w R (Q : Tcp → B → Prop) :
  tsafe m w R → (∀ w' a, R w' a → tsafe (f a) w' Q) → tsafe (m ≫= f) w Q.
Proof.
  intros Hm Hf Hw. destruct (Hm Hw) as (w1 & a & He & Hw1 & Hx & HR).
  destruct (Hf w1 a HR Hw1) as (w2 & b & He2 & Hw2 & Hx2 & HQ).
  exists w2, b. unfold mbind, tcpM_bind. rewrite He. split_and!; try done. by transitivity (net w1).
Qed.
Lemma tsafe_mono {A} (m : tcpM A) w (Q R : Tcp → A → Prop) :
  tsafe m w Q → (∀ w' a, Q w' a → R w' a) → tsafe m w R.
Proof.
  intros Hm Hi Hw. destruct (Hm Hw) as (w1 & a & He & Hw1 & Hx & HQ). exists w1, a. split_and!; auto.
Qed.
Lemma tsafe_get_conns {B} (f : list Tcb → tcpM B) w (Q : Tcp → B → Prop) :
  tsafe (f (conns w)) w Q → tsafe (get_conns ≫= f) w Q.
Proof. done. Qed.

Lemma tsafe_on_net {A} (m : netM A) w (Q : A → Prop) :
  safe m (net w) (λ _ a, Q a) →
  tsafe (on_net m) w (λ w' a, conns w' = conns w ∧ next_port w' = next_port w ∧ Q a).
Proof.
  intros Hm [Hn Hc Hl Hp]. destruct (Hm Hn) as (n1 & a & He & Hn1 & Hx & HQ).
  exists (mkTcp n1 (conns w) (next_port w)), a. unfold on_net. rewrite He. by split_and!.
Qed.

(** An operation on one connection: the others are untouched. *)
Lemma tsafe_with_conn {A} i (f : Tcb → netM (Tcb * A)) w c (Q : Tcb → A → Prop) :
  conns w !! i = Some c → safe (f c) (net w) (λ _ r, conn_ok r.1 ∧ Q r.1 r.2) →
  tsafe (with_conn i f) w (λ w' a, ∃ c', conns w' = <[i := c']> (conns w) ∧ Q c' a).
Proof.
  intros Hi Hf [Hn Hc Hl Hp]. destruct (Hf Hn) as (n1 & [c' a] & He & Hn1 & Hx & Hok & HQ).
  exists (mkTcp n1 (<[i := c']> (conns w)) (next_port w)), a. unfold with_conn. rewrite Hi, He.
  split_and!; [done| |done|by exists c']. split; cbn; try done; [by rewrite length_insert|].
  by apply Forall_insert.
Qed.
Lemma tsafe_update_conn i (f : Tcb → netM Tcb) w c (Q : Tcb → Prop) :
  conns w !! i = Some c → safe (f c) (net w) (λ _ c', conn_ok c' ∧ Q c') →
  tsafe (update_conn i f) w (λ w' _, ∃ c', conns w' = <[i := c']> (conns w) ∧ Q c').
Proof.
  intros Hi Hf. apply (tsafe_with_conn i _ w c (λ c' _, Q c') Hi).
  eapply safe_bind; [exact Hf|]. intros n1 c1 _ Hc. by apply safe_ret.
Qed.

Lemma conns_lookup w i : tcp_inv w → (i < MAX_CONNECTIONS)%nat → ∃ c, conns w !! i = Some c ∧ conn_ok c.
Proof.
  intros [_ Hc Hl _] Hi. destruct (lookup_lt_is_Some_2 (conns w) i) as [c Hcc]; [by rewrite Hc|].
  exists c. split; [done|]. by eapply Forall_lookup_1.
Qed.

(** The block of a socket in use. *)
Definition socket_at (w : Tcp) (sock : nat) : option Tcb :=
  match conns w !! sock with Some c => if in_use c then Some c else None | None => None end.

(** The guard of the socket functions. *)
Lemma tsafe_socket_at {A} sock (dflt : A) (f : Tcb → tcpM A) w (Q : Tcp → A → Prop) :
  (socket_at w sock = None → Q w dflt) →
  (∀ c, socket_at w sock = Some c → conns w !! sock = Some c → in_use c = true → tcb_wf c → tsafe (f c) w Q) →
  tsafe (with_socket sock dflt f) w Q.
Proof.
  intros Hd Hf Hw. unfold with_socket. destruct (Nat.leb_spec MAX_CONNECTIONS sock) as [Hge|Hlt].
  { exists w, dflt. split_and!; [done..|]. apply Hd. unfold socket_at.
    by rewrite lookup_ge_None_2 by (rewrite (ti_count _ Hw); lia). }
  destruct (conns_lookup w sock Hw Hlt) as (c & Hc & Hok). unfold socket_at in *. rewrite Hc in *.
  unfold mbind, tcpM_bind, get_conns. rewrite Hc. destruct (in_use c) eqn:Hu; cbn [negb].
  - apply Hf; try done. by apply conn_ok_wf.
  - exists w, dflt. split_and!; auto; done.
Qed.
Lemma tsafe_with_socket {A} sock (dflt : A) (f : Tcb → tcpM A) w (Q : Tcp → A → Prop) :
  Q w dflt →
  (∀ c, conns w !! sock = Some c → in_use c = true → tcb_wf c → tsafe (f c) w Q) →
  tsafe (with_socket sock dflt f) w Q.
Proof. intros Hd Hf. apply tsafe_socket_at; auto. Qed.

(** [alloc_connection]: a fresh block in a slot that was free or closing. *)
Definition fresh_conn : Tcb := set_in_use Tcb_new true.
Lemma fresh_conn_wf : tcb_wf fresh_conn.
Proof. pose proof Tcb_new_wf as Hwf. wf_update Hwf. Qed.

Definition recyclable (c : Tcb) : Prop := in_use c = false ∨ is_closing (state c) = true.
Lemma alloc_connection_spec l :
  match alloc_connection l with
  | Some (l', i) => ∃ c, l !! i = Some c ∧ recyclable c ∧ l' = <[i := fresh_conn]> l
  | None => Forall (λ c, ¬ recyclable c) l
  end.
Proof.
  unfold alloc_connection, recyclable.
  destruct (list_find _ l) as [[i c]|] eqn:H1.
  { apply list_find_Some in H1 as (? & ? & _). exists c. auto. }
  apply list_find_None in H1.
  destruct (list_find _ l) as [[i c]|] eqn:H2.
  { apply list_find_Some in H2 as (? & [? ?] & _). exists c. auto. }
  apply list_find_None in H2. rewrite Forall_forall in H1, H2 |- *. intros c Hc.
  specialize (H1 c Hc). specialize (H2 c Hc). destruct (in_use c); naive_solver.
Qed.

Lemma put_alloc w l' i :
  alloc_connection (conns w) = Some (l', i) →
  tsafe (put_conns l') w (λ w' _, conns w' = l' ∧ l' !! i = Some fresh_conn ∧ net w' = net w).
Proof.
  intros Ha [Hn Hc Hl Hp]. pose proof (alloc_connection_spec (conns w)) as Hs. rewrite Ha in Hs.
  destruct Hs as (c & Hi & _ & ->). eexists _, tt. split; [reflexivity|].
  pose proof (lookup_lt_Some _ _ _ Hi). split_and!; try done.
  - split; cbn; try done; [by rewrite length_insert|]. apply Forall_insert; [done|].
    right. split; [done|apply fresh_conn_wf].
  - by apply list_lookup_insert_eq.
Qed.

(** ** Incoming segments *)

Lemma safe_segment c h d iph n :
  in_use c = true → tcb_wf c → header_wf h → bytes d → ip_wf (src_ip iph) →
  safe (process_segment c h d iph) n (λ _ c', conn_ok c' ∧ seg_edge c h (state c) (state c')).
Proof.
  intros Hu Hwf Hh Hd Hip. destruct (w_rx _ Hwf) as (q & Hq & Hb).
  eapply safe_mono; [by apply (safe_process_segment c q h d iph)|].
  intros n' c' _ [He [->|(Hu' & Hw' & _)]]; (split; [|done]); [by left|by right].
Qed.

Lemma safe_send_rst src dst h n :
  header_wf h → ip_wf src → ip_wf dst → safe (send_rst src dst h) n (λ _ _, True).
Proof.
  intros Hh [Hs1 Hs2] [Hd1 Hd2]. unfold send_rst. rewrite build_segment_eq, lift_Ret by (cbn; lia).
  cbn beta iota zeta. rewrite (fill_checksum_eq _ _ _ _ _ _ _ _ []), lift_Ret.
  match goal with |- safe (send_packet dst PROTO_TCP ?s ≫= _) n _ => set (seg := s) end.
  assert (Hb : bytes seg).
  { apply segment_of_bytes; [by destruct (is_ack h)|constructor]. }
  eapply safe_bind with (R := λ _ _, True).
  { intros Hn. destruct (send_packet_ok dst PROTO_TCP seg n) as (n' & ok & He & Hn' & Hx & _);
      [done..|unfold is_byte, PROTO_TCP; lia|done|]. by exists n', ok. }
  intros n1 ok _ _. by apply safe_ret.
Qed.

Lemma tsafe_process_packet iph d w :
  bytes d → ip_wf (src_ip iph) → ip_wf (dst_ip iph) → tsafe (process_packet iph d) w (λ _ _, True).
Proof.
  intros Hb Hs Hd Hw. revert Hw. unfold process_packet.
  rewrite tcp_parse_eq, lift_tcp_Ret. destruct (parsed d) as [h|] eqn:Hp; [|by apply tsafe_ret].
  pose proof (parse_header_wf d h Hb Hp) as Hh.
  destruct (negb _); [by apply tsafe_ret|]. intros Hw. pose proof Hw as [_ _ Hl _]. revert Hw.
  apply tsafe_get_conns. unfold find_connection.
  destruct (list_find _ (conns w)) as [[i c]|] eqn:Hf; cbn [fmap option_fmap option_map fst].
  { apply list_find_Some in Hf as (Hi & (Hu & _) & _).
    assert (Hwf : tcb_wf c) by (apply conn_ok_wf; by eapply Forall_lookup_1).
    eapply tsafe_mono; [apply (tsafe_update_conn i _ w c (λ _, True) Hi)|done].
    eapply safe_mono; [by apply safe_segment|]. by intros n' c' _ [? _]. }
  destruct (if is_syn h && negb (is_ack h) then _ else None).
  - destruct (alloc_connection (conns w)) as [[l' i]|] eqn:Ha; [|by apply tsafe_ret].
    eapply tsafe_bind; [by apply put_alloc|]. intros w1 _ (Hc1 & Hi & _). rewrite <- Hc1 in Hi.
    eapply tsafe_mono; [apply (tsafe_update_conn i _ w1 _ (λ _, True) Hi)|done].
    eapply safe_mono; [apply safe_segment; try done|by intros n' c' _ [? _]].
    pose proof fresh_conn_wf as Hwf. wf_update Hwf; apply Hh.
  - destruct (negb (is_rst h)); [|by apply tsafe_ret].
    eapply tsafe_mono; [by apply (tsafe_on_net _ w (λ _, True)), safe_send_rst|done].
Qed.

(** ** Socket functions *)

Lemma tsafe_timers w :
  tsafe process_timers w (λ w' _, Forall2 (λ c c', state c' = state c ∨ c' = Tcb_new) (conns w) (conns w')).
Proof.
  intros Hw. pose proof Hw as [_ Hcnt Hl _]. revert Hw. unfold process_timers.
  eapply tsafe_bind; [apply (tsafe_on_net ticks w (λ _, True)); eapply safe_mono; [apply safe_ticks|done]|].
  intros w1 now (Hc & _ & _). apply tsafe_get_conns.
  eapply tsafe_bind.
  { apply (tsafe_on_net _ w1). by apply safe_timers_loop; rewrite Hc. }
  intros w2 l' (Hc2 & _ & Hl' & Hf2) [Hn2 _ _ Hp2]. eexists _, tt. split; [reflexivity|].
  rewrite Hc in Hf2. split_and!; try done. split; cbn; try done.
  by rewrite <- (Forall2_length _ _ _ Hf2).
Qed.

Lemma tsafe_socket w :
  tsafe socket w (λ w' r, match r with
    | Some i => ∃ c, conns w !! i = Some c ∧ recyclable c ∧ conns w' = <[i := fresh_conn]> (conns w)
    | None => conns w' = conns w ∧ Forall (λ c, ¬ recyclable c) (conns w)
    end).
Proof.
  unfold socket. apply tsafe_get_conns. pose proof (alloc_connection_spec (conns w)) as Hs.
  destruct (alloc_connection (conns w)) as [[l' i]|] eqn:Ha.
  - eapply tsafe_bind; [by apply put_alloc|]. intros w1 _ (Hc & _). apply tsafe_ret.
    destruct Hs as (c & ? & ? & ->). by exists c.
  - by apply tsafe_ret.
Qed.

(** [connect] starts from a closed socket only; it has sent a SYN when it succeeds. *)
Definition connect_post (sock : nat) (rip : list Z) (rport : Z) (w w' : Tcp) (ok : bool) : Prop :=
  match socket_at w sock with
  | Some c =>
      if ok then state c = Closed ∧ ∃ c', conns w' = <[sock := c']> (conns w) ∧ state c' = SynSent ∧
        remote_ip c' = rip ∧ remote_port c' = rport ∧ snd_nxt c' = u32 (iss c' + 1)
      else state c ≠ Closed → w' = w
  | None => w' = w ∧ ok = false
  end.
Lemma tsafe_connect sock rip rport w :
  ip_wf rip → 0 ≤ rport < 65536 → tsafe (connect sock rip rport) w (connect_post sock rip rport w).
Proof.
  intros Hip Hport. unfold connect_post. apply tsafe_socket_at; [by intros ->|]. intros c -> Hc Hu Hwf.
  case_bool_decide as Hst; cbn [negb]; [|by apply tsafe_ret].
  eapply tsafe_bind with (R := λ w' p, conns w' = conns w ∧ 49152 ≤ p ≤ 65535).
  { intros [Hn Hcnt Hl Hp]. eexists _, _. split; [reflexivity|]. split_and!; try done; [|lia..].
    split; cbn; try done. destruct (Z.leb_spec 65535 (next_port w)); [lia|]. rewrite u16_small; lia. }
  intros w1 p [Hc1 Hp]. rewrite <- Hc1 in Hc.
  eapply tsafe_mono; [apply (tsafe_with_conn sock _ w1 c (λ c' (ok : bool), ok = true → state c' = SynSent ∧
    remote_ip c' = rip ∧ remote_port c' = rport ∧ snd_nxt c' = u32 (iss c' + 1)) Hc)|].
  2:{ intros w' [] (c' & Hc' & HQ); [|done]. rewrite Hc1 in Hc'. split; [done|]. exists c'. split; [done|]. by apply HQ. }
  destruct (w_tx _ Hwf) as (tq & Ht1 & Ht2 & Ht3). rewrite Hst in Ht3. cbn in Ht3. subst tq.
  eapply safe_bind; [apply safe_iss|]. intros n1 i _ [Hi _]. cbn beta zeta.
  set (c1 := set_snd_una _ _).
  assert (Hwf1 : tcb_wf c1).
  { wf_update Hwf; try lia; [by split; [|apply CONFIG_ip_bytes]|]. exists []. by rewrite Hst. }
  eapply safe_bind; [apply safe_send_segment; [done|solve_flags|constructor|cbn; lia]|].
  intros n2 [] _ _; [|apply safe_ret; split; [by right|done]].
  eapply safe_bind; [apply safe_ticks|]. intros n3 t1 _ _. eapply safe_bind; [apply safe_deadline|].
  intros n4 t2 _ _. apply safe_ret. split; [|done]. right. split; [done|]. cbn [fst].
  wf_update Hwf1; [apply u32_range|]. exists []. done.
Qed.

Definition listen_post (sock : nat) (port : Z) (w w' : Tcp) (ok : bool) : Prop :=
  match socket_at w sock with
  | Some c =>
      if bool_decide (state c = Closed) then ok = true ∧ ∃ c', conns w' = <[sock := c']> (conns w) ∧
        state c' = Listen ∧ local_port c' = port
      else ok = false ∧ w' = w
  | None => w' = w ∧ ok = false
  end.
Lemma tsafe_listen sock port w : 0 ≤ port < 65536 → tsafe (listen sock port) w (listen_post sock port w).
Proof.
  intros Hport. unfold listen_post. apply tsafe_socket_at; [by intros ->|]. intros c -> Hc Hu Hwf.
  case_bool_decide as Hst; cbn [negb]; [|by apply tsafe_ret].
  eapply tsafe_mono; [apply (tsafe_with_conn sock _ w c (λ c' ok, ok = true ∧ state c' = Listen ∧ local_port c' = port) Hc)|].
  - apply safe_ret. split; [|done]. right. split; [done|]. cbn [fst]. apply set_state_wf.
    + wf_update Hwf. split; [done|apply CONFIG_ip_bytes].
    + intros q. cbn. by rewrite Hst.
  - intros w' ok (c' & Hc' & -> & HQ). split; [done|]. by exists c'.
Qed.

(** [recv] takes the oldest received bytes, at most [k]; without any it tells an open
    connection from one the peer has closed. *)
Definition recv_post (sock k : nat) (w w' : Tcp) (r : Z * list Z) : Prop :=
  match socket_at w sock with
  | Some c =>
      if bool_decide (state c = Closed) then w' = w ∧ r = (-1, [])
      else ∃ c' q, ring_ok (rx_buffer c) q ∧ r.2 = take k q ∧
        r.1 = (if (0 <? length (take k q))%nat then Z.of_nat (length (take k q))
               else if remote_closed c then -1 else 0) ∧
        conns w' = <[sock := c']> (conns w) ∧ ring_ok (rx_buffer c') (drop k q)
  | None => w' = w ∧ r = (-1, [])
  end.
Lemma tsafe_recv sock k w : tsafe (recv sock k) w (recv_post sock k w).
Proof.
  unfold recv_post. apply tsafe_socket_at; [by intros ->|]. intros c -> Hc Hu Hwf.
  case_bool_decide as Hst; [by apply tsafe_ret|].
  destruct (w_rx _ Hwf) as (q & Hq & Hb).
  destruct (read_ok (rx_buffer c) q k Hq) as (rx & Hread & Hrx).
  eapply tsafe_mono; [apply (tsafe_with_conn sock _ w c (λ c' r, ring_ok (rx_buffer c') (drop k q) ∧
    r.2 = take k q ∧ r.1 = (if (0 <? length (take k q))%nat then Z.of_nat (length (take k q))
               else if remote_closed c then -1 else 0)) Hc)|].
  - eapply safe_lift_bind; [exact Hread|]. apply safe_ret. split; [|done]. right. split; [done|].
    apply update_rcv_wnd_wf. wf_update Hwf. exists (drop k q). auto with ralph.
  - intros w' r (c' & Hc' & Hr' & H2 & H1). exists c', q. by split_and!.
Qed.

(** [send] queues as much as there is room for, on a connection that can send. *)
Definition send_post (sock : nat) (d : list Z) (w w' : Tcp) (r : Z) : Prop :=
  match socket_at w sock with
  | Some c =>
      if bool_decide (state c = Established) || bool_decide (state c = CloseWait) then
        ∃ c' q k, ring_ok (tx_buffer c) q ∧ r = Z.of_nat k ∧ k = Nat.min (length d) (1024 - length q) ∧
          conns w' = <[sock := c']> (conns w) ∧ ring_ok (tx_buffer c') (q ++ take k d)
      else w' = w ∧ r = -1
  | None => w' = w ∧ r = -1
  end.
Lemma tsafe_send sock d w : bytes d → tsafe (send sock d) w (send_post sock d w).
Proof.
  intros Hd. unfold send_post. apply tsafe_socket_at; [by intros ->|]. intros c -> Hc Hu Hwf.
  rewrite <- negb_orb. destruct (bool_decide _ || bool_decide _) eqn:Hst; cbn [negb]; [|by apply tsafe_ret].
  destruct (w_tx _ Hwf) as (q & Hq & Hb & Hph).
  destruct (write_ok (tx_buffer c) q d Hq) as (tx & Hw & Htx). change RX_BUFFER_SIZE with 1024%nat in *.
  set (k := Nat.min (length d) (1024 - length q)) in *.
  eapply tsafe_mono; [apply (tsafe_with_conn sock _ w c (λ c' r, ring_ok (tx_buffer c') (q ++ take k d) ∧
    r = Z.of_nat k) Hc)|].
  - eapply safe_lift_bind; [exact Hw|]. apply safe_ret. split; [|done]. right. split; [done|]. cbn [fst].
    wf_update Hwf. exists (q ++ take k d). split_and!; [done|apply bytes_app; auto with ralph|].
    unfold flight in *. cbn. unfold tx_phase in *. rewrite length_app.
    apply orb_true_iff in Hst as [Hst|Hst]; apply bool_decide_eq_true in Hst; rewrite Hst in *; lia.
  - intros w' r (c' & Hc' & Hr & ->). exists c', q, k. by split_and!.
Qed.

Lemma safe_send_fin c s n :
  tcb_wf c → in_use c = true →
  (state c = Established ∧ s = FinWait1) ∨ (state c = CloseWait ∧ s = LastAck) →
  safe (send_fin c s) n (λ _ c', conn_ok c' ∧ (state c' = s ∨ c' = c)).
Proof.
  intros Hwf Hu Hst. unfold send_fin.
  eapply safe_bind; [apply safe_send_segment; [done|solve_flags|constructor|cbn; lia]|].
  intros n1 [] _ _; [|apply safe_ret; split; [by right|by right]].
  eapply safe_bind; [apply safe_deadline|]. intros n2 t _ _. apply safe_ret. split; [|by left].
  right. split; [done|]. destruct (w_tx _ Hwf) as (q & Hq & Hb & Hph).
  pose proof (ro_room _ _ Hq) as Hr. unfold RX_BUFFER_SIZE in Hr.
  assert (Hf : 0 ≤ flight c ≤ Z.of_nat (length q)).
  { split; [apply u32_range|]. destruct Hst as [[Hst _]|[Hst _]]; rewrite Hst in Hph; exact Hph. }
  assert (Hfa : u32 (u32 (snd_nxt c + 1) - snd_una c) = flight c + 1).
  { exact (flight_advance c 1 _ 0 0 Hwf ltac:(lia) eq_refl). }
  wf_update Hwf; [apply u32_range|]. exists q. split_and!; [done..|].
  unfold flight at 1. cbn. rewrite Hfa. destruct Hst as [[_ ->]|[_ ->]]; cbn; lia.
Qed.

(** [close] sends a FIN, if it can, on an open connection; a connection still being opened
    and a listener are dropped. *)
Definition close_post (sock : nat) (w w' : Tcp) : Prop :=
  match socket_at w sock with
  | Some c => ∃ c', conns w' = <[sock := c']> (conns w) ∧
      match state c with
      | Established => state c' = FinWait1 ∨ c' = c
      | CloseWait => state c' = LastAck ∨ c' = c
      | SynSent | Listen => in_use c' = false
      | _ => c' = c
      end
  | None => w' = w
  end.
Lemma tsafe_close sock w : tsafe (close sock) w (λ w' _, close_post sock w w').
Proof.
  unfold close_post. apply tsafe_socket_at; [by intros ->|]. intros c -> Hc Hu Hwf.
  apply (tsafe_update_conn sock _ w c (λ c', match state c with
      | Established => state c' = FinWait1 ∨ c' = c
      | CloseWait => state c' = LastAck ∨ c' = c
      | SynSent | Listen => in_use c' = false
      | _ => c' = c
      end) Hc).
  assert (Hok : conn_ok c) by by right.
  destruct (state c) eqn:Hst; try (apply safe_ret; split; [by left|done]);
    try (apply safe_ret; split; [done|done]); apply safe_send_fin; auto.
Qed.

(** ** Accepting connections *)

Lemma find_index_spec (P : nat → Tcb → bool) i l :
  match find_index P i l with
  | Some j => ∃ k c, j = (i + k)%nat ∧ l !! k = Some c ∧ P j c = true
  | None => ∀ k c, l !! k = Some c → P (i + k)%nat c = false
  end.
Proof.
  revert i. induction l as [|x l IH]; intros i; cbn [find_index]; [done|].
  destruct (P i x) eqn:Hp.
  { exists 0%nat, x. by rewrite Nat.add_0_r. }
  specialize (IH (S i)). destruct (find_index P (S i) l) as [j|].
  - destruct IH as (k & c & -> & Hk & HP). exists (S k), c. split_and!; [lia|done|done].
  - intros [|k] c Hk; cbn in Hk; [simplify_eq; by rewrite Nat.add_0_r|].
    replace (i + S k)%nat with (S i + k)%nat by lia. by apply IH.
Qed.

(** A connection that [accept] on the listener [sock] may return. *)
Definition acceptable_on (w : Tcp) (sock i : nat) (c : Tcb) : Prop :=
  i ≠ sock ∧ conns w !! i = Some c ∧ in_use c = true ∧ accepted c = false ∧
  (state c = Established ∨ state c = CloseWait) ∧
  ∃ l, conns w !! sock = Some l ∧ in_use l = true ∧ state l = Listen ∧ local_port c = local_port l.

Definition accept_post (sock : nat) (w w' : Tcp) (r : option nat) : Prop :=
  match r with
  | Some i => ∃ c, acceptable_on w sock i c ∧ conns w' = <[i := set_accepted c true]> (conns w) ∧
      ((bytes_available c = 0)%nat → ∀ j c2, acceptable_on w sock j c2 → bytes_available c2 = 0%nat)
  | None => w' = w ∧ ∀ i c, ¬ acceptable_on w sock i c
  end.

Lemma acceptable_true c : acceptable c = true ↔ state c = Established ∨ state c = CloseWait.
Proof. unfold acceptable. by rewrite orb_true_iff, !bool_decide_eq_true. Qed.

Lemma acceptable_on_bool w sock i c l :
  conns w !! sock = Some l → in_use l = true → state l = Listen → conns w !! i = Some c →
  acceptable_on w sock i c ↔
  negb (i =? sock)%nat && in_use c && (local_port c =? local_port l) && negb (accepted c) && acceptable c = true.
Proof.
  intros Hl Hu Hst Hi. unfold acceptable_on.
  rewrite !andb_true_iff, acceptable_true, !negb_true_iff, Nat.eqb_neq, Z.eqb_eq. split.
  - intros (? & _ & ? & ? & ? & l' & Hl' & _ & _ & ?). rewrite Hl in Hl'. by simplify_eq.
  - intros ((((? & ?) & ?) & ?) & ?). split_and!; try done. by exists l.
Qed.

Lemma tsafe_accept sock w : tsafe (accept sock) w (accept_post sock w).
Proof.
  unfold accept. intros Hw. pose proof Hw as [_ Hcnt Hall _].
  assert (Hno : (∀ i c, ¬ acceptable_on w sock i c) → tsafe (mret None) w (accept_post sock w))
    by (intros H; by apply tsafe_ret).
  destruct (decide (sock < MAX_CONNECTIONS)%nat) as [Hlt|Hge].
  2: { unfold with_socket. rewrite (proj2 (Nat.leb_le _ _)) by lia. revert Hw. apply Hno.
       intros i c (_ & _ & _ & _ & _ & l & Hl'%lookup_lt_Some & _). lia. }
  destruct (conns_lookup w sock Hw Hlt) as (l & Hl & Hok). revert Hw.
  unfold with_socket. rewrite (proj2 (Nat.leb_gt _ _)) by done. apply tsafe_get_conns. rewrite Hl.
  destruct (in_use l) eqn:Hu; cbn [negb].
  2: { apply Hno. intros i c (_ & _ & _ & _ & _ & l' & Hl' & ? & _). congruence. }
  case_bool_decide as Hst; cbn [negb].
  2: { apply Hno. intros i c (_ & _ & _ & _ & _ & l' & Hl' & _ & ? & _). congruence. }
  apply tsafe_get_conns. cbn zeta.
  assert (Hfinish : ∀ i c, conns w !! i = Some c → acceptable_on w sock i c →
    ((bytes_available c = 0)%nat → ∀ j c2, acceptable_on w sock j c2 → bytes_available c2 = 0%nat) →
    tsafe (update_conn i (λ c, mret (set_accepted c true)) ≫= (λ _ : unit, mret (Some i))) w (accept_post sock w)).
  { intros i c Hi Ha Hpref. eapply tsafe_bind.
    - apply (tsafe_update_conn i _ w c (λ c', c' = set_accepted c true) Hi). apply safe_ret. split; [|done].
      destruct Ha as (_ & _ & Hui & _). right. split; [done|].
      pose proof (conn_ok_wf c (Forall_lookup_1 _ _ _ _ Hall Hi)) as Hwf. wf_update Hwf.
    - intros w1 _ (c' & Hc' & ->). apply tsafe_ret. exists c. done. }
  match goal with |- context [find_index ?P 0 (conns w)] => pose proof (find_index_spec P 0 (conns w)) as H1 end.
  destruct (find_index _ 0 (conns w)) as [i|].
  { destruct H1 as (k & c & -> & Hk & HP). cbn [Nat.add] in *. apply andb_true_iff in HP as [HP Hav].
    apply (Hfinish k c Hk); [by eapply acceptable_on_bool|]. intros H0. rewrite H0 in Hav. done. }
  assert (Hempty : ∀ j c2, acceptable_on w sock j c2 → bytes_available c2 = 0%nat).
  { intros j c2 Ha. pose proof Ha as (_ & Hj & _). specialize (H1 j c2 Hj). cbn [Nat.add] in H1.
    rewrite (proj1 (acceptable_on_bool w sock j c2 l Hl Hu Hst Hj) Ha) in H1. cbn [andb] in H1.
    apply Nat.ltb_ge in H1. lia. }
  match goal with |- context [find_index ?P 0 (conns w)] => pose proof (find_index_spec P 0 (conns w)) as H2 end.
  destruct (find_index _ 0 (conns w)) as [i|].
  - destruct H2 as (k & c & -> & Hk & HP). cbn [Nat.add] in *.
    apply (Hfinish k c Hk); [by eapply acceptable_on_bool|done].
  - apply Hno. intros i c Ha. pose proof Ha as (_ & Hi & _). specialize (H2 i c Hi). cbn [Nat.add] in H2.
    rewrite (proj1 (acceptable_on_bool w sock i c l Hl Hu Hst Hi) Ha) in H2. done.
Qed.

(** C19: [accept] returns an established, not yet accepted connection on the
    listener's port, preferring one with data to read, marks it accepted and
    touches nothing else; it returns none only if there is none; and a connection
    once returned is not returned again by the next call. *)
Theorem accept_spec sock w :
  tcp_inv w →
  ∃ w' r, accept sock w = Ret (w', r) ∧ tcp_inv w' ∧ accept_post sock w w' r ∧
    ∃ w2 r2, accept sock w' = Ret (w2, r2) ∧ (r2 = r → r = None).
Proof.
  intros Hw. destruct (tsafe_accept sock w Hw) as (w1 & r & He & Hw1 & _ & Hp).
  destruct (tsafe_accept sock w1 Hw1) as (w2 & r2 & He2 & _ & _ & Hp2).
  exists w1, r. split_and!; try done. exists w2, r2. split; [done|]. intros ->.
  destruct r as [i|]; [|done]. destruct Hp as (c & (_ & Hi & _) & Hc1 & _).
  destruct Hp2 as (c2 & (_ & Hi2 & _ & Hac & _) & _).
  rewrite Hc1, list_lookup_insert_eq in Hi2 by by eapply lookup_lt_Some. by simplify_eq.
Qed.

Lemma Tcp_initial_inv n : net_inv n → tcp_inv (Tcp_initial n).
Proof.
  intros Hn. split; cbn [net conns next_port Tcp_initial]; try done.
  apply Forall_replicate. by left.
Qed.

Lemma accept_spec_witness :
  ∃ w' r, accept 0 (Tcp_initial (gateway_net 1)) = Ret (w', r).
Proof.
  destruct (accept_spec 0 (Tcp_initial (gateway_net 1))) as (w' & r & H & _).
  - apply Tcp_initial_inv, gateway_net_inv. lia.
  - exists w', r. exact H.
Defined.

Lemma send_pending_data_spec_witness :
  ∃ n' c', send_pending_data demo_conn (gateway_net 3) = Ret (n', c').
Proof.
  destruct (send_pending_data_spec demo_conn [] (gateway_net 3)) as (n' & c' & H & _).
  - apply gateway_net_inv. lia.
  - apply demo_conn_wf.
  - reflexivity.
  - apply RingBuffer_new_ok.
  - constructor.
  - exists n', c'. exact H.
Defined.

(** ** Histories *)

(** Everything that can happen to TCP: an IPv4 packet for it, a timer poll, and
    the calls of the socket functions. *)
Inductive tcp_event : Type :=
| EPacket (iph : Ipv4Header) (d : list Z) | ETimers | ESocket
| EConnect (sock : nat) (rip : list Z) (rport : Z) | EListen (sock : nat) (port : Z)
| ERecv (sock k : nat) | ESend (sock : nat) (d : list Z) | EClose (sock : nat) | EAccept (sock : nat).
Definition event_wf (e : tcp_event) : Prop :=
  match e with
  | EPacket iph d => bytes d ∧ ip_wf (src_ip iph) ∧ ip_wf (dst_ip iph)
  | EConnect _ rip rport => ip_wf rip ∧ 0 ≤ rport < 65536
  | EListen _ port => 0 ≤ port < 65536
  | ESend _ d => bytes d
  | _ => True
  end.
Definition handle (e : tcp_event) : tcpM unit :=
  match e with
  | EPacket iph d => process_packet iph d
  | ETimers => process_timers
  | ESocket => _ ← socket; mret tt
  | EConnect sock rip rport => _ ← connect sock rip rport; mret tt
  | EListen sock port => _ ← listen sock port; mret tt
  | ERecv sock k => _ ← recv sock k; mret tt
  | ESend sock d => _ ← send sock d; mret tt
  | EClose sock => close sock
  | EAccept sock => _ ← accept sock; mret tt
  end.
Fixpoint run (es : list tcp_event) : tcpM unit :=
  match es with
  | [] => mret tt
  | e :: es => _ ← handle e; run es
  end.

Lemma tsafe_ignore {A} (m : tcpM A) w Q : tsafe m w Q → tsafe (m ≫= λ _, mret tt) w (λ _ _, True).
Proof. intros H. eapply tsafe_bind; [exact H|]. intros w' a _. by apply tsafe_ret. Qed.

Lemma tsafe_handle e w : event_wf e → tsafe (handle e) w (λ _ _, True).
Proof.
  destruct e as [iph d| | |s ip p|s p|s k|s d|s|s]; cbn [handle event_wf]; intros He.
  - destruct He as (? & ? & ?). by apply tsafe_process_packet.
  - eapply tsafe_mono; [apply tsafe_timers|done].
  - eapply tsafe_ignore, tsafe_socket.
  - eapply tsafe_ignore, tsafe_connect; apply He.
  - eapply tsafe_ignore, tsafe_listen, He.
  - eapply tsafe_ignore, tsafe_recv.
  - eapply tsafe_ignore, tsafe_send, He.
  - by eapply tsafe_mono; [apply tsafe_close|].
  - eapply tsafe_ignore, tsafe_accept.
Qed.

Lemma tsafe_run es w : Forall event_wf es → tsafe (run es) w (λ _ _, True).
Proof.
  revert w. induction es as [|e es IH]; intros w Hes; cbn [run]; [by apply tsafe_ret|].
  apply Forall_cons in Hes as [He Hes]. eapply tsafe_bind; [by apply tsafe_handle|].
  intros w' _ _. by apply IH.
Qed.

(** C1: from the initial state, no sequence of incoming packets (arbitrary bytes,
    including forged headers), timer polls and socket calls, under any behaviour
    of the clock and the network card, makes TCP panic, divide by zero, index out
    of range or loop; afterwards every connection is well formed (in particular
    the congestion window is at least one segment, the retransmission timeout is
    between 200 ms and 60 s, and all bytes in flight are still queued), unused
    slots are as initialised, and every frame transmitted is a legal Ethernet
    frame. *)
Theorem tcp_never_fails es n :
  net_inv n → Forall event_wf es →
  ∃ w', run es (Tcp_initial n) = Ret (w', tt) ∧ length (conns w') = 8%nat ∧
    Forall (λ c, c = Tcb_new ∨ (in_use c = true ∧ tcb_wf c)) (conns w') ∧
    Forall frame_ok (sent (net w')) ∧ sent n `prefix_of` sent (net w').
Proof.
  intros Hn Hes. destruct (tsafe_run es _ Hes (Tcp_initial_inv n Hn)) as (w' & [] & He & Hw & Hx & _).
  exists w'. destruct Hw as [Hnw Hc Hl _]. split_and!; try done; [apply Hnw|apply Hx].
Qed.

Lemma tcp_never_fails_witness :
  ∃ w', run [ESocket; EListen 0 23; ETimers; EAccept 0; EClose 0] (Tcp_initial (gateway_net 1)) = Ret (w', tt).
Proof.
  destruct (tcp_never_fails [ESocket; EListen 0 23; ETimers; EAccept 0; EClose 0] (gateway_net 1)) as (w' & H & _).
  - apply gateway_net_inv. lia.
  - repeat constructor; lia.
  - exists w'. exact H.
Defined.
