(* ===== verification/NetTask.v ===== *)
(** The receive path from the card's ring to the protocols: [process_packet] of
    [src/net/ipv4.rs] and the network task of [src/net/mod.rs]. *)

From S2P Require Import Prelude NetBase Checksum Ethernet Arp Ipv4 Icmp Packet RingBuffer Tcp TcpInv TcpSafe.

(** [ipv4::process_packet] *)
Definition ip_process_packet (data : list Z) : tcpM unit :=
  parsed ← lift_tcp (Ipv4.parse data);
  match parsed with
  | None => mret tt
  | Some header =>
      if negb (Ipv4.is_for_us header) then mret tt
      else
        valid ← lift_tcp (verify_header header data);
        if negb valid then mret tt
        else if is_fragmented header then mret tt
        else
          pl ← lift_tcp (Ipv4.payload header data);
          if protocol header =? PROTO_ICMP then on_net (Icmp.process_packet header pl)
          else if protocol header =? PROTO_TCP then Tcp.process_packet header pl
          else mret tt
  end.

(** [process_rx_packet] *)
Definition process_rx_packet (data : list Z) (len : nat) : tcpM unit :=
  frame ← lift_tcp (get_slice data 0 len);
  parsed ← lift_tcp (Ethernet.parse frame);
  match parsed with
  | None => mret tt
  | Some eth_header =>
      our_mac ← on_net (gets mac);
      if negb (Ethernet.is_for_us our_mac eth_header) then mret tt
      else
        frame ← lift_tcp (get_slice data 0 len);
        pl ← lift_tcp (Ethernet.payload frame);
        if ethertype eth_header =? ETHERTYPE_ARP then on_net (Arp.process_packet pl)
        else if ethertype eth_header =? ETHERTYPE_IPV4 then ip_process_packet pl
        else mret tt
  end.

(** One round of [network_task].  [irqs] is a finite schedule of interrupts: its
    k-th element is the list of frames that arrive while the k-th packet of the
    receive loop is processed.  The loop runs until the ring is empty; if it has not
    stopped by the end of the schedule the result is [Diverge]. *)
Fixpoint drain (irqs : list (list (list Z))) (w : Tcp) (p : PacketPool) : outcome (Tcp * PacketPool) :=
  o ← get_rx_packet p;
  match o with
  | None => Ret (w, p)
  | Some d =>
      match irqs with
      | [] => Diverge
      | frames :: irqs =>
          '(w, _) ← process_rx_packet d (length d) w;
          let p := foldl receive_frame p frames in
          drain irqs w (release_rx_buffer p)
      end
  end.
Definition network_round (irqs : list (list (list Z))) (w : Tcp) (p : PacketPool) :
    outcome (Tcp * PacketPool) :=
  '(w, p) ← drain irqs w p;
  '(w, _) ← process_timers w;
  '(w, _) ← on_net expire_old_entries w;
  Ret (w, p).

(** ** Receiving *)

Lemma sub_slice_bytes l a b : bytes l → bytes (sub_slice l a b).
Proof. intros. unfold sub_slice. auto with ralph. Qed.
Lemma length_sub_slice l a b : (b ≤ length l)%nat → (a ≤ b)%nat → length (sub_slice l a b) = (b - a)%nat.
Proof. intros. unfold sub_slice. rewrite length_take, length_drop. lia. Qed.

Lemma ip_parse_wf data h : bytes data → Ipv4.parsed data = Some h → ip_wf (src_ip h) ∧ ip_wf (dst_ip h).
Proof.
  intros Hb. unfold Ipv4.parsed. destruct (Nat.ltb_spec (length data) Ipv4.HEADER_SIZE) as [|Hl]; [done|].
  destruct (negb _); [done|]. destruct (_ <? 5); [done|]. destruct (_ <? _)%nat; [done|]. intros [= <-].
  unfold Ipv4.HEADER_SIZE in Hl. cbn [src_ip dst_ip].
  split; (split; [apply length_sub_slice; lia|by apply sub_slice_bytes]).
Qed.
Lemma ip_payload_bytes h data : bytes data → bytes (Ipv4.payload_of h data).
Proof.
  intros. unfold Ipv4.payload_of. destruct (_ && _); [by apply sub_slice_bytes|].
  destruct (_ <? _)%nat; auto with ralph.
Qed.

(** Datagrams that are handed to a protocol, and frames that are handed to ARP or
    to IPv4 with such a datagram. *)
Definition accepted_datagram (data : list Z) : Prop :=
  ∃ h, Ipv4.parse data = Ret (Some h) ∧ dst_ip h = CONFIG_ip ∧ verify_header h data = Ret true ∧
    is_fragmented h = false ∧ (protocol h = PROTO_ICMP ∨ protocol h = PROTO_TCP).
Definition accepted_frame (our_mac data : list Z) : Prop :=
  ∃ h pl, Ethernet.parse data = Ret (Some h) ∧ (dst_mac h = our_mac ∨ dst_mac h = BROADCAST_MAC) ∧
    Ethernet.payload data = Ret pl ∧
    (ethertype h = ETHERTYPE_ARP ∨ (ethertype h = ETHERTYPE_IPV4 ∧ accepted_datagram pl)).

Lemma tsafe_ip data w :
  bytes data → tsafe (ip_process_packet data) w (λ w' _, ¬ accepted_datagram data → w' = w).
Proof.
  intros Hb. unfold ip_process_packet, accepted_datagram. rewrite ip_parse_eq, lift_tcp_Ret.
  destruct (Ipv4.parsed data) as [h|] eqn:Hp; [|by apply tsafe_ret].
  destruct (ip_parse_wf data h Hb Hp) as [Hs Hd]. pose proof (ip_payload_bytes h data Hb) as Hpl.
  unfold Ipv4.is_for_us. case_bool_decide as Hus; cbn [negb]; [|by apply tsafe_ret].
  rewrite verify_header_eq, lift_tcp_Ret.
  destruct (header_valid h data) eqn:Hv; cbn [negb]; [|by apply tsafe_ret].
  destruct (is_fragmented h) eqn:Hfr; [by apply tsafe_ret|]. rewrite ip_payload_eq, lift_tcp_Ret.
  destruct (Z.eqb_spec (protocol h) PROTO_ICMP) as [Hi|_].
  { eapply tsafe_mono; [apply (tsafe_on_net _ w (λ _, True))|].
    - intros Hn. destruct (icmp_process_packet_ok h (Ipv4.payload_of h data) (net w)) as (n' & He & Hn' & Hx & _);
        try done; try apply Hs. by exists n', tt.
    - intros w' _ _ Hno. destruct Hno. exists h. rewrite verify_header_eq, Hv. by split_and!; auto. }
  destruct (Z.eqb_spec (protocol h) PROTO_TCP) as [Ht|_]; [|by apply tsafe_ret].
  eapply tsafe_mono; [by apply tsafe_process_packet|].
  intros w' _ _ Hno. destruct Hno. exists h. rewrite verify_header_eq, Hv. by split_and!; auto.
Qed.

Lemma tsafe_rx data w :
  bytes data → tsafe (process_rx_packet data (length data)) w (λ w' _, ¬ accepted_frame (mac (net w)) data → w' = w).
Proof.
  intros Hb. unfold process_rx_packet, accepted_frame.
  rewrite get_slice_to_eq, lift_tcp_Ret, firstn_all, eth_parse_eq, eth_payload_eq, lift_tcp_Ret by done.
  destruct (Ethernet.parsed data) as [h|] eqn:Hp; [|by apply tsafe_ret].
  eapply tsafe_bind with (R := λ w' m, w' = w ∧ m = mac (net w)).
  { intros Hw. exists w, (mac (net w)). split; [by destruct w|]. by split_and!. }
  intros w1 m [-> ->].
  assert (Hpl : bytes (Ethernet.payload_of data)) by (unfold Ethernet.payload_of; destruct (_ <? _)%nat; auto with ralph).
  destruct (Ethernet.is_for_us (mac (net w)) h) eqn:Hus; cbn [negb]; [|by apply tsafe_ret].
  rewrite lift_tcp_Ret, ?firstn_all, eth_payload_eq, lift_tcp_Ret.
  assert (Hus' : dst_mac h = mac (net w) ∨ dst_mac h = BROADCAST_MAC).
  { unfold Ethernet.is_for_us in Hus. apply orb_true_iff in Hus. by rewrite !bool_decide_eq_true in Hus. }
  destruct (Z.eqb_spec (ethertype h) ETHERTYPE_ARP) as [Ha|_].
  { eapply tsafe_mono; [apply (tsafe_on_net _ w (λ _, True))|].
    - intros Hn. destruct (arp_process_packet_ok (Ethernet.payload_of data) (net w) Hn Hpl)
        as (n' & He & Hn' & Hx & _).
      by exists n', tt.
    - intros w' _ _ Hno. destruct Hno. exists h, (Ethernet.payload_of data). auto. }
  destruct (Z.eqb_spec (ethertype h) ETHERTYPE_IPV4) as [Hi|_]; [|by apply tsafe_ret].
  eapply tsafe_mono; [by apply tsafe_ip|]. intros w' ? H Hno. apply H. intros Hac. apply Hno.
  exists h, (Ethernet.payload_of data). auto 8.
Qed.

(** ** The network task *)

Lemma receive_frames_inv p s frames :
  rx_inv p s → Forall (λ f, (length f ≤ PACKET_SIZE)%nat ∧ bytes f) frames →
  Forall bytes (queue s) →
  ∃ s' more, rx_inv (foldl receive_frame p frames) s' ∧ queue s' = queue s ++ more ∧
    Forall bytes (queue s') ∧ (length more ≤ length frames)%nat.
Proof.
  revert p s. induction frames as [|f frames IH]; intros p s Hinv Hf Hq; cbn [foldl].
  { exists s, []. by rewrite app_nil_r. }
  apply Forall_cons in Hf as [[Hl Hb] Hf]. pose proof (receive_frame_inv p s f Hinv Hl) as Hinv1.
  revert Hinv1. destruct (length (queue s) <? 15)%nat; intros Hinv1.
  - destruct (IH _ _ Hinv1 Hf) as (s' & more & Hi & He & Hq' & Hm).
    { cbn. apply Forall_app. by split; [|apply Forall_singleton]. }
    exists s', (f :: more). split_and!; [done| |done|cbn; lia]. rewrite He. cbn. by rewrite <- app_assoc.
  - destruct (IH _ _ Hinv1 Hf Hq) as (s' & more & Hi & He & Hq' & Hm).
    exists s', more. split_and!; [done..|cbn; lia].
Qed.

(** Where the receive loop ends: with the ring empty, or at the end of a schedule
    that brings as many packets as it has iterations. *)
Lemma drain_ok irqs w p s :
  tcp_inv w → rx_inv p s → Forall bytes (queue s) →
  Forall (Forall (λ f, (length f ≤ PACKET_SIZE)%nat ∧ bytes f)) irqs →
  match drain irqs w p with
  | Ret (w', p') => tcp_inv w' ∧ net_ext (net w) (net w') ∧ ∃ s', rx_inv p' s' ∧ queue s' = []
  | Panic => False
  | Diverge => (length irqs < length (queue s) + length (concat irqs))%nat
  end.
Proof.
  revert w p s. induction irqs as [|frames irqs IH]; intros w p s Hw Hp Hq Hf; cbn [drain];
    unfold get_rx_packet; rewrite (ring_front_spec RX_BUFFER_COUNT ltac:(solve_len) _ _ (proj1 Hp));
    (destruct (queue s) as [|d q] eqn:Es; cbn [hd_error mbind outcome_bind];
     [split_and!; [done..|by exists s]|]).
  { cbn. lia. }
  apply Forall_cons in Hf as [Hf Hfs]. apply Forall_cons in Hq as [Hd Hq].
  destruct (tsafe_rx d w Hd Hw) as (w1 & [] & He & Hw1 & Hx1 & _). rewrite He. cbn [mbind outcome_bind].
  destruct (receive_frames_inv p s frames Hp Hf) as (s1 & more & Hp1 & Hs1 & Hq1 & Hm).
  { rewrite Es. by constructor. }
  rewrite Es in Hs1. cbn in Hs1.
  pose proof (release_inv _ _ d (q ++ more) Hp1 Hs1) as Hp2.
  rewrite Hs1 in Hq1. apply Forall_cons in Hq1 as [_ Hq1].
  specialize (IH w1 _ _ Hw1 Hp2 Hq1 Hfs). destruct (drain irqs w1 _) as [[w' p']| |]; [|done|].
  - destruct IH as (? & ? & ?). split_and!; try done. by transitivity (net w1).
  - cbn [queue length concat] in *. rewrite length_app in *. lia.
Qed.

Lemma expire_ok w : tsafe (on_net expire_old_entries) w (λ _ _, True).
Proof.
  eapply tsafe_mono; [apply (tsafe_on_net _ w (λ _, True))|done].
  intros Hn. eexists _, tt. split; [reflexivity|]. split_and!; try done.
  pose proof Hn as []. split; try done. cbn. by apply expire_inv.
Qed.

(** C4: the network task never fails: for every state of the stack and of the
    receive ring, and whatever frames (any bytes) are waiting or arrive while it
    runs, a round does not panic.  Its receive loop ends, with the ring empty and all
    invariants kept, unless packets keep arriving as fast as they are processed: a
    loop that has not ended after k iterations has seen more than k packets, those
    waiting and those that arrived.  A frame that is not addressed to us, or is
    neither ARP nor a valid unfragmented IPv4 datagram for us carrying ICMP or TCP,
    has no effect. *)
Theorem network_round_spec irqs w p s :
  tcp_inv w → rx_inv p s → Forall bytes (queue s) →
  Forall (Forall (λ f, (length f ≤ PACKET_SIZE)%nat ∧ bytes f)) irqs →
  match network_round irqs w p with
  | Ret (w', p') => tcp_inv w' ∧ net_ext (net w) (net w') ∧ ∃ s', rx_inv p' s' ∧ queue s' = []
  | Panic => False
  | Diverge => (length irqs < length (queue s) + length (concat irqs))%nat
  end ∧
  ∀ d, bytes d → ¬ accepted_frame (mac (net w)) d → process_rx_packet d (length d) w = Ret (w, tt).
Proof.
  intros Hw Hp Hq Hf. split.
  - pose proof (drain_ok irqs w p s Hw Hp Hq Hf) as Hd. unfold network_round.
    destruct (drain irqs w p) as [[w1 p1]| |]; cbn [mbind outcome_bind]; [|done..].
    destruct Hd as (Hw1 & Hx1 & Hr).
    destruct (tsafe_timers w1 Hw1) as (w2 & [] & He2 & Hw2 & Hx2 & _).
    destruct (expire_ok w2 Hw2) as (w3 & [] & He3 & Hw3 & Hx3 & _).
    rewrite He2. cbn [mbind outcome_bind]. rewrite He3. split_and!; try done.
    transitivity (net w1); [done|]. by transitivity (net w2).
  - intros d Hd Hno. destruct (tsafe_rx d w Hd Hw) as (w' & [] & He & _ & _ & Heq). by rewrite He, Heq.
Qed.

Lemma network_round_spec_witness :
  ∃ w' p', network_round [[]; []] (Tcp_initial (gateway_net 5)) (receive_frame (init PacketPool_new) [1; 2; 3]) = Ret (w', p').
Proof.
  destruct (network_round_spec [[]; []] (Tcp_initial (gateway_net 5)) (receive_frame (init PacketPool_new) [1; 2; 3])
    (mkSpec [[1; 2; 3]] 1 0)) as [H _].
  - apply Tcp_initial_inv, gateway_net_inv. lia.
  - apply (receive_frame_inv _ (mkSpec [] 0 0)); [|unfold PACKET_SIZE; cbn; lia].
    apply init_inv; [reflexivity|]. by apply Forall_replicate.
  - repeat constructor; unfold is_byte; lia.
  - repeat constructor.
  - destruct (network_round _ _ _) as [[w' p']| |] in H |- *; [by exists w', p'|done|cbn in H; lia].
Defined.
