(* ===== verification/TcpFindings.v ===== *)
(** Behaviours of the TCP code that differ from the protocol, as theorems. *)

From S2P Require Import Prelude NetBase Ipv4 RingBuffer Tcp TcpInv.

(** The timer armed for the SYN-ACK is still armed once the handshake is done. *)
Lemma handshake_keeps_timer c h d iph n n' c' :
  state c = SynReceived → is_rst h = false → length (payload_of h d) = 0%nat →
  process_segment c h d iph n = Ret (n', c') → retransmit_timer c' = retransmit_timer c.
Proof.
  intros Hst Hr Hp. unfold process_segment. rewrite Hr, Hst.
  destruct (_ && _); [|by intros [= <- <-]].
  unfold process_data. rewrite tcp_payload_eq. unfold lift_outcome, update_rtt, mbind, netM_bind, ticks.
  cbn [outcome_bind]. rewrite Hp. cbn [Nat.eqb].
  destruct (srtt _ =? 0); intros E; injection E as _ <-; reflexivity.
Qed.

Lemma retransmit_idle c n : snd_nxt c = snd_una c → retransmit c n = Ret (n, c).
Proof. intros E. unfold retransmit. by rewrite E, Z.sub_diag. Qed.

Lemma send_pending_data_idle c n : available (tx_buffer c) = 0%nat → send_pending_data c n = Ret (n, c).
Proof. intros E. unfold send_pending_data. by rewrite E. Qed.

(** An idle connection whose timer is armed is not left alone: each poll doubles
    the retransmission timeout and collapses the congestion window, and the timer
    stays armed, so that the timeout is soon at its maximum. *)
Lemma idle_timer_backoff now c n :
  in_use c = true → state c = Established → 0 < retransmit_timer c ≤ now → retransmit_count c < 5 →
  snd_nxt c = snd_una c → available (tx_buffer c) = 0%nat →
  ∃ c', process_timer now c n = Ret (n, c') ∧ rto c' = Z.min (u64 (rto c * 2)) MAX_RTO ∧ cwnd c' = MSS ∧
    retransmit_timer c' = retransmit_timer c ∧ retransmit_count c' = retransmit_count c.
Proof.
  intros Hu Hst Ht Hc Hf Ha. unfold process_timer. rewrite Hu, Hst, bool_decide_false by done. cbn [negb].
  rewrite (proj2 (Z.ltb_lt _ _)), (proj2 (Z.leb_le _ _)), (proj2 (Z.leb_gt 5 _)) by lia. cbn [andb].
  unfold mbind, netM_bind. rewrite retransmit_idle by exact Hf.
  rewrite bool_decide_true by exact Hst. rewrite send_pending_data_idle by exact Ha.
  eexists. split; [reflexivity|]. repeat split.
Qed.

(** A segment before the expected sequence number (a retransmission, because our
    acknowledgement was lost) is dropped without an acknowledgement. *)
Lemma old_segment_not_acknowledged c h d n :
  seq_num h ≠ rcv_nxt c → seq_after (seq_num h) (rcv_nxt c) = false → process_data c h d n = Ret (n, c).
Proof.
  intros Hne Hold. unfold process_data. rewrite tcp_payload_eq, lift_Ret. destruct (_ =? 0)%nat; [done|].
  by rewrite (proj2 (Z.eqb_neq _ _)), Hold by done.
Qed.

(** Data that arrives after our FIN is discarded. *)
Lemma data_discarded_in_fin_wait_2 c h d iph n :
  state c = FinWait2 → is_rst h = false → is_fin h = false → process_segment c h d iph n = Ret (n, c).
Proof. intros Hst Hr Hf. unfold process_segment. by rewrite Hr, Hst, Hf. Qed.

(** Any RST segment that matches the addresses resets the connection, whatever
    its sequence number. *)
Lemma rst_not_validated c h d iph n :
  is_rst h = true → process_segment c h d iph n = Ret (n, Tcb_new).
Proof. intros Hr. unfold process_segment. by rewrite Hr. Qed.
