(* ===== verification/Gilbert.v ===== *)
(** The generalised Hilbert curve of the memory visualizer (src/gilbert.rs): the
    recursive generator, the two lookup tables and their functions.  The curve
    visits every point of a rectangle exactly once; when the width is even, as on
    the 320x192 screen, it moves by one pixel at a time. *)

From S2P Require Import Prelude.

Definition WIDTH : Z := 320.
Definition HEIGHT : Z := 192.
Definition TOTAL_PIXELS : Z := WIDTH * HEIGHT.

(** ** The generator *)

(** The loop of the two base cases: [n] points from (cx, cy) in steps (dx, dy). *)
Fixpoint push_line (n : nat) (cx cy dx dy : Z) : list (Z * Z) :=
  match n with
  | O => []
  | S n => (cx, cy) :: push_line n (i32 (cx + dx)) (i32 (cy + dy)) dx dy
  end.

(** The points pushed on [path], in [i32] arithmetic.  Every recursive call has a smaller
    sum of width and height, so fuel equal to that sum is enough ([gilbert2d_ok]); the
    division by 2 truncates toward zero. *)
Fixpoint gilbert2d (fuel : nat) (x y ax ay bx by' : Z) : outcome (list (Z * Z)) :=
  match fuel with
  | O => Diverge
  | S fuel =>
      let w := i32 (Z.abs (i32 (ax + ay))) in
      let h := i32 (Z.abs (i32 (bx + by'))) in
      let dax := Z.sgn ax in
      let day := Z.sgn ay in
      let dbx := Z.sgn bx in
      let dby := Z.sgn by' in
      if h =? 1 then Ret (push_line (Z.to_nat w) x y dax day)
      else if w =? 1 then Ret (push_line (Z.to_nat h) x y dbx dby)
      else
        let ax2 := Z.quot ax 2 in
        let ay2 := Z.quot ay 2 in
        let bx2 := Z.quot bx 2 in
        let by2 := Z.quot by' 2 in
        let w2 := i32 (Z.abs (i32 (ax2 + ay2))) in
        let h2 := i32 (Z.abs (i32 (bx2 + by2))) in
        if i32 (3 * h) <? i32 (2 * w) then
          let adjust := negb (Z.land w2 1 =? 0) && (2 <? w) in
          let ax2 := if adjust then i32 (ax2 + dax) else ax2 in
          let ay2 := if adjust then i32 (ay2 + day) else ay2 in
          p1 ← gilbert2d fuel x y ax2 ay2 bx by';
          p2 ← gilbert2d fuel (i32 (x + ax2)) (i32 (y + ay2)) (i32 (ax - ax2)) (i32 (ay - ay2)) bx by';
          Ret (p1 ++ p2)
        else
          let adjust := negb (Z.land h2 1 =? 0) && (2 <? h) in
          let bx2 := if adjust then i32 (bx2 + dbx) else bx2 in
          let by2 := if adjust then i32 (by2 + dby) else by2 in
          p1 ← gilbert2d fuel x y bx2 by2 ax2 ay2;
          p2 ← gilbert2d fuel (i32 (x + bx2)) (i32 (y + by2)) ax ay (i32 (bx - bx2)) (i32 (by' - by2));
          p3 ← gilbert2d fuel (i32 (i32 (x + i32 (ax - dax)) + i32 (bx2 - dbx)))
                 (i32 (i32 (y + i32 (ay - day)) + i32 (by2 - dby)))
                 (i32 (- bx2)) (i32 (- by2)) (i32 (- i32 (ax - ax2))) (i32 (- i32 (ay - ay2)));
          Ret (p1 ++ p2 ++ p3)
  end.

(** ** The tables *)

Record Gilbert : Type := mkGilbert {
  INITIALIZED : bool;
  D_TO_XY : list (Z * Z);
  XY_TO_D : list (list Z) }.

Definition Gilbert_initial : Gilbert :=
  mkGilbert false (replicate (Z.to_nat TOTAL_PIXELS) (0, 0))
    (replicate (Z.to_nat HEIGHT) (replicate (Z.to_nat WIDTH) 0)).

(** The loop of [init]: an index out of range of a table panics. *)
Fixpoint build_tables (d : nat) (path : list (Z * Z)) (dxy : list (Z * Z)) (xyd : list (list Z)) :
    outcome (list (Z * Z) * list (list Z)) :=
  match path with
  | [] => Ret (dxy, xyd)
  | (x, y) :: path =>
      if (length dxy <=? d)%nat then Panic
      else
        let dxy := <[d := (u16 x, u16 y)]> dxy in
        match xyd !! Z.to_nat (u64 y) with
        | None => Panic
        | Some row =>
            if (length row <=? Z.to_nat (u64 x))%nat then Panic
            else
              let row := <[Z.to_nat (u64 x) := u16 (Z.of_nat d)]> row in
              build_tables (S d) path dxy (<[Z.to_nat (u64 y) := row]> xyd)
        end
  end.

Definition gilbert_init (g : Gilbert) : outcome Gilbert :=
  if INITIALIZED g then Ret g
  else
    path ← gilbert2d (Z.to_nat (WIDTH + HEIGHT)) 0 0 WIDTH 0 0 HEIGHT;
    '(dxy, xyd) ← build_tables 0 path (D_TO_XY g) (XY_TO_D g);
    Ret (mkGilbert true dxy xyd).

Definition d_to_xy (g : Gilbert) (d : Z) : outcome (Z * Z) :=
  match D_TO_XY g !! Z.to_nat (Z.min d (TOTAL_PIXELS - 1)) with
  | Some p => Ret p
  | None => Panic
  end.

Definition xy_to_d (g : Gilbert) (x y : Z) : outcome Z :=
  if (WIDTH <=? x) || (HEIGHT <=? y) then Ret TOTAL_PIXELS
  else
    match XY_TO_D g !! Z.to_nat y ≫= λ row, row !! Z.to_nat x with
    | Some d => Ret d
    | None => Panic
    end.

(** ** Walks *)

Definition adjacent (p q : Z * Z) : Prop := Z.abs (p.1 - q.1) + Z.abs (p.2 - q.2) = 1.

(** [walk a l b]: the list [l] goes from [a] to [b] in steps of one pixel. *)
Inductive walk : Z * Z → list (Z * Z) → Z * Z → Prop :=
| walk_one a : walk a [a] a
| walk_step a b l c : adjacent a b → walk b l c → walk a (a :: l) c.

Lemma walk_app a l b c l' d : walk a l b → adjacent b c → walk c l' d → walk a (l ++ l') d.
Proof. induction 1; intros; cbn; econstructor; eauto. Qed.

Lemma walk_lookup a l b i p q :
  walk a l b → l !! i = Some p → l !! S i = Some q → adjacent p q.
Proof.
  intros H. revert i. induction H as [a|a b l c Hab Hw IH]; intros i Hp Hq.
  - destruct i; discriminate.
  - destruct i; [|by eapply IH]. injection Hp as <-. cbn in Hq.
    inversion Hw; subst; injection Hq as <-; done.
Qed.

(** ** Rectangles

    A frame is a pair of orthogonal unit vectors along the axes; a rectangle is
    given by a corner, a frame and its two sides. *)

Definition frame (ux uy vx vy : Z) : Prop :=
  (uy = 0 ∧ vx = 0 ∧ (ux = 1 ∨ ux = -1) ∧ (vy = 1 ∨ vy = -1)) ∨
  (ux = 0 ∧ vy = 0 ∧ (uy = 1 ∨ uy = -1) ∧ (vx = 1 ∨ vx = -1)).

Ltac by_frame H :=
  destruct H as [(-> & -> & [-> | ->] & [-> | ->])|(-> & -> & [-> | ->] & [-> | ->])].

Definition in_rect (x y ux uy vx vy w h px py : Z) : Prop :=
  0 ≤ (px - x) * ux + (py - y) * uy < w ∧ 0 ≤ (px - x) * vx + (py - y) * vy < h.

(** What [gilbert2d] produces on a rectangle: every point exactly once and, for an
    even width, a walk along the first side. *)
Record curve (x y ux uy vx vy w h : Z) (l : list (Z * Z)) : Prop := mkCurve {
  curve_NoDup : NoDup l;
  curve_length : Z.of_nat (length l) = w * h;
  curve_in px py : (px, py) ∈ l ↔ in_rect x y ux uy vx vy w h px py;
  curve_walk : Z.Even w → walk (x, y) l (x + (w - 1) * ux, y + (w - 1) * uy) }.

(** The line without wrapping, and that it is the code's while its points are [i32]. *)
Fixpoint line (n : nat) (cx cy dx dy : Z) : list (Z * Z) :=
  match n with
  | O => []
  | S n => (cx, cy) :: line n (cx + dx) (cy + dy) dx dy
  end.
Definition is_i32 (z : Z) : Prop := -2147483648 ≤ z < 2147483648.
Lemma push_line_eq n cx cy dx dy : Z.abs dx + Z.abs dy = 1 →
  is_i32 cx → is_i32 cy → is_i32 (cx + (Z.of_nat n - 1) * dx) → is_i32 (cy + (Z.of_nat n - 1) * dy) →
  push_line n cx cy dx dy = line n cx cy dx dy.
Proof.
  intros Hd. assert ((dx = 0 ∨ dx = 1 ∨ dx = -1) ∧ (dy = 0 ∨ dy = 1 ∨ dy = -1)) as [Hx Hy] by lia.
  revert cx cy. induction n as [|n IH]; intros cx cy; [done|]. unfold is_i32 in *. intros. cbn [push_line line]. f_equal.
  destruct n as [|n]; [done|]. rewrite !i32_small; [apply IH|..]; destruct_or! Hx; destruct_or! Hy; subst; lia.
Qed.

Lemma line_in n cx cy dx dy px py :
  (px, py) ∈ line n cx cy dx dy ↔ ∃ i, 0 ≤ i < Z.of_nat n ∧ px = cx + i * dx ∧ py = cy + i * dy.
Proof.
  revert cx cy. induction n as [|n IH]; intros cx cy; cbn [line].
  - rewrite elem_of_nil. split; [done|]. intros (i & ? & _). lia.
  - rewrite elem_of_cons, IH. split.
    + intros [[= -> ->]|(i & Hi & -> & ->)]; [exists 0|exists (i + 1)]; lia.
    + intros (i & Hi & -> & ->). destruct (Z.eq_dec i 0) as [->|]; [left; f_equal; lia|].
      right. exists (i - 1). lia.
Qed.

Lemma line_length n cx cy dx dy : length (line n cx cy dx dy) = n.
Proof. revert cx cy. induction n as [|n IH]; intros; cbn; auto. Qed.

Lemma line_NoDup n cx cy dx dy : Z.abs dx + Z.abs dy = 1 → NoDup (line n cx cy dx dy).
Proof.
  intros Hd. revert cx cy. induction n as [|n IH]; intros cx cy; cbn [line]; constructor; [|done].
  rewrite line_in. intros (i & ? & ? & ?). nia.
Qed.

Lemma line_walk n cx cy dx dy : Z.abs dx + Z.abs dy = 1 →
  walk (cx, cy) (line (S n) cx cy dx dy) (cx + Z.of_nat n * dx, cy + Z.of_nat n * dy).
Proof.
  intros Hd. revert cx cy. induction n as [|n IH]; intros cx cy; cbn [line].
  - replace (cx + Z.of_nat 0 * dx, cy + Z.of_nat 0 * dy) with (cx, cy) by (f_equal; lia). constructor.
  - apply (walk_step _ (cx + dx, cy + dy)); [unfold adjacent; cbn; lia|].
    replace (cx + Z.of_nat (S n) * dx, cy + Z.of_nat (S n) * dy)
      with (cx + dx + Z.of_nat n * dx, cy + dy + Z.of_nat n * dy) by (f_equal; lia).
    apply IH.
Qed.

Lemma curve_row x y ux uy vx vy w : frame ux uy vx vy → 1 ≤ w →
  curve x y ux uy vx vy w 1 (line (Z.to_nat w) x y ux uy).
Proof.
  intros Hf Hw. assert (Hu : Z.abs ux + Z.abs uy = 1) by (by_frame Hf; done). split.
  - by apply line_NoDup.
  - rewrite line_length. lia.
  - intros px py. rewrite line_in, Z2Nat.id by lia. unfold in_rect. split.
    + intros (i & ? & -> & ->). by_frame Hf; lia.
    + intros [? ?]. exists ((px - x) * ux + (py - y) * uy). by_frame Hf; lia.
  - intros _. replace (Z.to_nat w) with (S (Z.to_nat (w - 1))) by lia.
    pose proof (line_walk (Z.to_nat (w - 1)) x y ux uy Hu) as H.
    by rewrite Z2Nat.id in H by lia.
Qed.

Lemma curve_column x y ux uy vx vy h : frame ux uy vx vy → 1 ≤ h →
  curve x y ux uy vx vy 1 h (line (Z.to_nat h) x y vx vy).
Proof.
  intros Hf Hh. assert (Hu : Z.abs vx + Z.abs vy = 1) by (by_frame Hf; done). split.
  - by apply line_NoDup.
  - rewrite line_length. lia.
  - intros px py. rewrite line_in, Z2Nat.id by lia. unfold in_rect. split.
    + intros (i & ? & -> & ->). by_frame Hf; lia.
    + intros [? ?]. exists ((px - x) * vx + (py - y) * vy). by_frame Hf; lia.
  - intros [k Hk]. lia.
Qed.

Lemma curve_point x y ux uy vx vy l :
  frame ux uy vx vy → curve x y ux uy vx vy 1 1 l → l = [(x, y)].
Proof.
  intros Hf [Hn _ Hi _]. apply Permutation_singleton_r, NoDup_Permutation; [done|apply NoDup_singleton|].
  intros [px py]. rewrite Hi, list_elem_of_singleton. unfold in_rect. split.
  - intros [? ?]. f_equal; by_frame Hf; lia.
  - intros [= -> ->]. lia.
Qed.

(** The two ways to put curves together. *)
Lemma curve_wide x y ux uy vx vy w h k l1 l2 :
  frame ux uy vx vy → 1 ≤ k < w → (Z.Even w → Z.Even k) →
  curve x y ux uy vx vy k h l1 →
  curve (x + k * ux) (y + k * uy) ux uy vx vy (w - k) h l2 →
  curve x y ux uy vx vy w h (l1 ++ l2).
Proof.
  intros Hf Hk Hev [Hn1 Hl1 Hi1 Hw1] [Hn2 Hl2 Hi2 Hw2]. split.
  - apply NoDup_app. split_and!; [done| |done]. intros [px py]. rewrite Hi1, Hi2.
    unfold in_rect. by_frame Hf; lia.
  - rewrite length_app. lia.
  - intros px py. rewrite elem_of_app, Hi1, Hi2. unfold in_rect. by_frame Hf; lia.
  - intros Hw. specialize (Hev Hw). eapply walk_app; [by apply Hw1| |].
    2: { replace (x + (w - 1) * ux, y + (w - 1) * uy)
           with (x + k * ux + (w - k - 1) * ux, y + k * uy + (w - k - 1) * uy) by (f_equal; lia).
         apply Hw2. destruct Hw as [a ->], Hev as [b ->]. exists (a - b). lia. }
    unfold adjacent. cbn. by_frame Hf; lia.
Qed.

Lemma curve_tall x y ux uy vx vy w h m k l1 l2 l3 :
  frame ux uy vx vy → 1 ≤ m < w → 1 ≤ k < h → (Z.Even w → Z.Even k ∨ (k = 1 ∧ w = 2)) →
  curve x y vx vy ux uy k m l1 →
  curve (x + k * vx) (y + k * vy) ux uy vx vy w (h - k) l2 →
  curve (x + (w * ux - ux) + (k * vx - vx)) (y + (w * uy - uy) + (k * vy - vy))
    (- vx) (- vy) (- ux) (- uy) k (w - m) l3 →
  (k = 1 → w = 2 → l1 = [(x, y)] ∧ l3 = [(x + ux, y + uy)]) →
  curve x y ux uy vx vy w h (l1 ++ l2 ++ l3).
Proof.
  intros Hf Hm Hk Hev [Hn1 Hl1 Hi1 Hw1] [Hn2 Hl2 Hi2 Hw2] [Hn3 Hl3 Hi3 Hw3] Hone. split.
  - apply NoDup_app. split_and!; [done| |apply NoDup_app; split_and!; [done| |done]];
      intros [px py]; rewrite ?elem_of_app, ?Hi1, ?Hi2, ?Hi3; unfold in_rect; by_frame Hf; lia.
  - rewrite !length_app. lia.
  - intros px py. rewrite !elem_of_app, Hi1, Hi2, Hi3. unfold in_rect. by_frame Hf; lia.
  - intros Hw.
    assert (walk (x, y) l1 (x + (k - 1) * vx, y + (k - 1) * vy) ∧
            walk (x + (w * ux - ux) + (k * vx - vx), y + (w * uy - uy) + (k * vy - vy)) l3
              (x + (w - 1) * ux, y + (w - 1) * uy)) as [W1 W3].
    { destruct (Hev Hw) as [He|[-> ->]].
      - split; [by apply Hw1|]. replace (x + (w - 1) * ux, y + (w - 1) * uy) with
          (x + (w * ux - ux) + (k * vx - vx) + (k - 1) * - vx,
           y + (w * uy - uy) + (k * vy - vy) + (k - 1) * - vy) by (f_equal; lia). by apply Hw3.
      - destruct (Hone eq_refl eq_refl) as [-> ->]. split.
        + replace (x + (1 - 1) * vx, y + (1 - 1) * vy) with (x, y) by (f_equal; lia). constructor.
        + replace (x + (2 * ux - ux) + (1 * vx - vx), y + (2 * uy - uy) + (1 * vy - vy))
            with (x + ux, y + uy) by (f_equal; lia).
          replace (x + (2 - 1) * ux, y + (2 - 1) * uy) with (x + ux, y + uy) by (f_equal; lia). constructor. }
    eapply walk_app; [done| |eapply walk_app; [by apply Hw2| |done]];
      unfold adjacent; cbn; by_frame Hf; lia.
Qed.

(** ** The generator on a rectangle *)

(** The length of the first part of a side of length [n]: half, made even. *)
Definition half (n : Z) : Z :=
  if negb (Z.land (n / 2) 1 =? 0) && (2 <? n) then n / 2 + 1 else n / 2.

Lemma half_range n : 2 ≤ n → 1 ≤ half n < n.
Proof.
  intros Hn. unfold half. pose proof (Z.div_mod n 2 ltac:(lia)). pose proof (Z.mod_pos_bound n 2 ltac:(lia)).
  destruct (Z.ltb_spec 2 n); [|rewrite andb_false_r; cbn [andb]; lia].
  destruct (negb _); cbn [andb]; lia.
Qed.

Lemma half_even n : 2 < n → Z.Even (half n).
Proof.
  intros Hn. unfold half. rewrite (proj2 (Z.ltb_lt 2 n)) by lia. rewrite andb_true_r.
  replace (Z.land (n / 2) 1) with (n / 2 mod 2) by (symmetry; apply (Z.land_ones _ 1); lia).
  pose proof (Z.mod_pos_bound (n / 2) 2 ltac:(lia)). pose proof (Z.div_mod (n / 2) 2 ltac:(lia)).
  destruct (Z.eqb_spec (n / 2 mod 2) 0); cbn [negb].
  - exists (n / 2 / 2). lia.
  - exists (n / 2 / 2 + 1). lia.
Qed.

(** All points of the rectangle have [i32] coordinates, and the sides are short enough for
    the comparison of [2 * w] and [3 * h]. *)
Definition MAX_SIDE : Z := 715827882.
Definition fits (x y ux uy vx vy w h : Z) : Prop :=
  1 ≤ w ≤ MAX_SIDE ∧ 1 ≤ h ≤ MAX_SIDE ∧ is_i32 x ∧ is_i32 y ∧
  is_i32 (x + (w - 1) * ux + (h - 1) * vx) ∧ is_i32 (y + (w - 1) * uy + (h - 1) * vy).

Lemma sgn_mul n c : 1 ≤ n → c = 0 ∨ c = 1 ∨ c = -1 → Z.sgn (n * c) = c.
Proof. intros ? [-> | [-> | ->]]; lia. Qed.
Lemma quot_mul n c : 1 ≤ n → c = 0 ∨ c = 1 ∨ c = -1 → Z.quot (n * c) 2 = n / 2 * c.
Proof.
  intros Hn [-> | [-> | ->]]; rewrite ?Z.mul_0_r, ?Z.mul_1_r; [done| |].
  - by rewrite Z.quot_div_nonneg by lia.
  - rewrite <- Z.opp_eq_mul_m1, Z.quot_opp_l, Z.quot_div_nonneg by lia. lia.
Qed.
Lemma half_mul n c : 1 ≤ n ≤ MAX_SIDE → c = 0 ∨ c = 1 ∨ c = -1 →
  (if negb (Z.land (n / 2) 1 =? 0) && (2 <? n) then i32 (n / 2 * c + c) else n / 2 * c) = half n * c.
Proof.
  intros Hn Hc. unfold half, MAX_SIDE in *. pose proof (Z.div_mod n 2 ltac:(lia)). pose proof (Z.mod_pos_bound n 2 ltac:(lia)).
  destruct (_ && _); [|done]. rewrite i32_small; destruct_or! Hc; subst; lia.
Qed.
Lemma side_abs n c d : 0 ≤ n ≤ MAX_SIDE → Z.abs (c + d) = 1 → (c = 0 ∨ d = 0) →
  i32 (Z.abs (i32 (n * c + n * d))) = n.
Proof.
  unfold MAX_SIDE. intros Hn Hcd H0. rewrite (i32_small (n * c + n * d)); [rewrite i32_small|]; destruct H0 as [-> | ->]; nia.
Qed.

(** The body of [gilbert2d], on a rectangle given by its frame. *)
Lemma gilbert2d_S fuel x y ux uy vx vy w h : frame ux uy vx vy → fits x y ux uy vx vy w h →
  gilbert2d (S fuel) x y (w * ux) (w * uy) (h * vx) (h * vy) =
  if h =? 1 then Ret (line (Z.to_nat w) x y ux uy)
  else if w =? 1 then Ret (line (Z.to_nat h) x y vx vy)
  else if 3 * h <? 2 * w then
    let k := half w in
    p1 ← gilbert2d fuel x y (k * ux) (k * uy) (h * vx) (h * vy);
    p2 ← gilbert2d fuel (x + k * ux) (y + k * uy) ((w - k) * ux) ((w - k) * uy) (h * vx) (h * vy);
    Ret (p1 ++ p2)
  else
    let k := half h in
    let m := w / 2 in
    p1 ← gilbert2d fuel x y (k * vx) (k * vy) (m * ux) (m * uy);
    p2 ← gilbert2d fuel (x + k * vx) (y + k * vy) (w * ux) (w * uy) ((h - k) * vx) ((h - k) * vy);
    p3 ← gilbert2d fuel (x + (w * ux - ux) + (k * vx - vx)) (y + (w * uy - uy) + (k * vy - vy))
           (k * - vx) (k * - vy) ((w - m) * - ux) ((w - m) * - uy);
    Ret (p1 ++ p2 ++ p3).
Proof.
  intros Hf (Hw & Hh & Hx & Hy & Hx' & Hy'). cbn [gilbert2d].
  assert (Hc : (ux = 0 ∨ ux = 1 ∨ ux = -1) ∧ (uy = 0 ∨ uy = 1 ∨ uy = -1) ∧
               (vx = 0 ∨ vx = 1 ∨ vx = -1) ∧ (vy = 0 ∨ vy = 1 ∨ vy = -1)) by (by_frame Hf; lia).
  destruct Hc as (? & ? & ? & ?).
  pose proof (Z.div_mod w 2 ltac:(lia)). pose proof (Z.mod_pos_bound w 2 ltac:(lia)).
  pose proof (Z.div_mod h 2 ltac:(lia)). pose proof (Z.mod_pos_bound h 2 ltac:(lia)).
  rewrite !sgn_mul, !quot_mul by (done || lia).
  rewrite !side_abs by (unfold MAX_SIDE in *; by_frame Hf; lia).
  rewrite (i32_small (3 * h)), (i32_small (2 * w)) by (unfold MAX_SIDE in *; lia).
  destruct (Z.eqb_spec h 1) as [->|Hh1].
  { rewrite push_line_eq; [done|unfold is_i32 in *; rewrite ?Z2Nat.id by lia; by_frame Hf; lia..]. }
  destruct (Z.eqb_spec w 1) as [->|Hw1].
  { rewrite push_line_eq; [done|unfold is_i32 in *; rewrite ?Z2Nat.id by lia; by_frame Hf; lia..]. }
  rewrite !half_mul by done. pose proof (half_range w ltac:(lia)). pose proof (half_range h ltac:(lia)).
  unfold is_i32, MAX_SIDE in *.
  rewrite (i32_small (w * ux - ux)), (i32_small (w * uy - uy)), (i32_small (half h * vx - vx)), (i32_small (half h * vy - vy)),
    (i32_small (x + (w * ux - ux))), (i32_small (y + (w * uy - uy))),
    (i32_small (w * ux - w / 2 * ux)), (i32_small (w * uy - w / 2 * uy)) by (by_frame Hf; lia).
  rewrite !i32_small by (by_frame Hf; lia).
  rewrite <- !Z.mul_sub_distr_r, <- !Z.mul_opp_r. reflexivity.
Qed.

Lemma gilbert2d_ok fuel : ∀ x y ux uy vx vy w h,
  frame ux uy vx vy → fits x y ux uy vx vy w h → w + h ≤ Z.of_nat fuel →
  ∃ l, gilbert2d fuel x y (w * ux) (w * uy) (h * vx) (h * vy) = Ret l ∧ curve x y ux uy vx vy w h l.
Proof.
  induction fuel as [|fuel IH]; intros x y ux uy vx vy w h Hf Hfit Hfuel; [unfold fits in Hfit; lia|].
  rewrite gilbert2d_S by done. cbv zeta. pose proof Hfit as (Hw & Hh & _).
  destruct (Z.eqb_spec h 1) as [->|Hh1]; [eexists; split; [done|apply curve_row; [done|lia]]|].
  destruct (Z.eqb_spec w 1) as [->|Hw1]; [eexists; split; [done|apply curve_column; [done|lia]]|].
  assert (frame vx vy ux uy ∧ frame (- vx) (- vy) (- ux) (- uy)) as [Hf1 Hf3]
    by (unfold frame; by_frame Hf; lia).
  unfold fits, is_i32, MAX_SIDE in IH, Hfit, Hw, Hh.
  destruct (Z.ltb_spec (3 * h) (2 * w)) as [Hwide|Htall].
  - pose proof (half_range w ltac:(lia)).
    destruct (IH x y ux uy vx vy (half w) h) as (l1 & -> & C1); [done|by_frame Hf; lia|lia|].
    destruct (IH (x + half w * ux) (y + half w * uy) ux uy vx vy (w - half w) h)
      as (l2 & -> & C2); [done|by_frame Hf; lia|lia|].
    eexists. split; [done|]. apply (curve_wide _ _ _ _ _ _ _ _ (half w)); try (done || lia).
    intros _. apply half_even. lia.
  - pose proof (half_range h ltac:(lia)). pose proof (Z.div_mod w 2 ltac:(lia)).
    pose proof (Z.mod_pos_bound w 2 ltac:(lia)).
    destruct (IH x y vx vy ux uy (half h) (w / 2)) as (l1 & E1 & C1); [done|by_frame Hf; lia|lia|].
    destruct (IH (x + half h * vx) (y + half h * vy) ux uy vx vy w (h - half h))
      as (l2 & E2 & C2); [done|by_frame Hf; lia|lia|].
    destruct (IH (x + (w * ux - ux) + (half h * vx - vx)) (y + (w * uy - uy) + (half h * vy - vy))
      (- vx) (- vy) (- ux) (- uy) (half h) (w - w / 2)) as (l3 & E3 & C3); [done|by_frame Hf; lia|lia|].
    rewrite E1, E2, E3. cbn. eexists. split; [done|].
    apply (curve_tall _ _ _ _ _ _ _ _ (w / 2) (half h)); try (done || lia).
    + intros [a Ha]. destruct (Z.eq_dec h 2) as [->|]; [|left; apply half_even; lia].
      right. split; [done|lia].
    + intros Ek ->. rewrite Ek in C1, C3. apply curve_point in C1, C3; [|done..]. split; [done|].
      rewrite C3. do 2 f_equal; lia.
Qed.

(** C40: on a rectangle whose points have [i32] coordinates and whose sides are at most
    715827882 (three times which is still an [i32]) [gilbert2d] terminates, within a recursion
    depth of width plus height, and visits every point exactly once; if the width is even
    the curve starts at the first corner, ends at the other end of the first side,
    and every step goes to an adjacent point. *)
Theorem gilbert2d_spec x y w h : 1 ≤ w ≤ MAX_SIDE → 1 ≤ h ≤ MAX_SIDE →
  -2147483648 ≤ x → x + w ≤ 2147483648 → -2147483648 ≤ y → y + h ≤ 2147483648 →
  ∃ l, gilbert2d (Z.to_nat (w + h)) x y w 0 0 h = Ret l ∧ NoDup l ∧
    (∀ px py, (px, py) ∈ l ↔ x ≤ px < x + w ∧ y ≤ py < y + h) ∧
    (Z.Even w → walk (x, y) l (x + w - 1, y)).
Proof.
  intros Hw Hh Hx Hx' Hy Hy'.
  destruct (gilbert2d_ok (Z.to_nat (w + h)) x y 1 0 0 1 w h) as (l & E & [Hn _ Hi Hwk]);
    [unfold frame; lia|unfold fits, is_i32; lia|lia|].
  rewrite !Z.mul_0_r, !Z.mul_1_r in E. exists l. split_and!; [done|done| |].
  - intros px py. rewrite Hi. unfold in_rect. lia.
  - intros He. replace (x + w - 1, y) with (x + (w - 1) * 1, y + (w - 1) * 0) by (f_equal; lia). auto.
Qed.

Lemma gilbert2d_spec_witness :
  gilbert2d 6 0 0 4 0 0 2 = Ret [(0, 0); (0, 1); (1, 1); (1, 0); (2, 0); (2, 1); (3, 1); (3, 0)] ∧
  ∃ l, gilbert2d 6 0 0 4 0 0 2 = Ret l ∧ NoDup l ∧ walk (0, 0) l (3, 0).
Proof.
  split; [reflexivity|].
  destruct (gilbert2d_spec 0 0 4 2) as (l & E & Hn & _ & Hw); [unfold MAX_SIDE; lia..|].
  exists l. split; [exact E|]. split; [exact Hn|]. apply Hw. by exists 2.
Defined.

(** For odd widths the curve can have diagonal steps: it is not continuous on
    every rectangle. *)
Lemma gilbert2d_odd_width_jumps :
  ∃ l, gilbert2d 7 0 0 3 0 0 4 = Ret l ∧ l !! 7%nat = Some (1, 2) ∧ l !! 8%nat = Some (2, 1).
Proof. eexists. split; [vm_compute; reflexivity|]. vm_compute. auto. Qed.

(** ** The tables *)

Definition cell (xyd : list (list Z)) (x y : Z) : option Z :=
  xyd !! Z.to_nat y ≫= λ row, row !! Z.to_nat x.
Definition on_screen (p : Z * Z) : Prop := 0 ≤ p.1 < WIDTH ∧ 0 ≤ p.2 < HEIGHT.
Definition shape (dxy : list (Z * Z)) (xyd : list (list Z)) : Prop :=
  Z.of_nat (length dxy) = TOTAL_PIXELS ∧ Z.of_nat (length xyd) = HEIGHT ∧
  Forall (λ row, Z.of_nat (length row) = WIDTH) xyd.

Lemma cell_insert xyd x y v px py row :
  on_screen (x, y) → on_screen (px, py) → xyd !! Z.to_nat y = Some row → (Z.to_nat x < length row)%nat →
  cell (<[Z.to_nat y := <[Z.to_nat x := v]> row]> xyd) px py =
  if decide ((px, py) = (x, y)) then Some v else cell xyd px py.
Proof.
  intros [? ?] [? ?] Hrow Hx. cbn in *. unfold cell. pose proof (lookup_lt_Some _ _ _ Hrow).
  destruct (decide (py = y)) as [->|].
  - rewrite list_lookup_insert_eq, Hrow by done. cbn. case_decide as E; simplify_eq.
    + by apply list_lookup_insert_eq.
    + apply list_lookup_insert_ne. intros E'. apply E. f_equal. lia.
  - rewrite list_lookup_insert_ne by lia. case_decide; congruence.
Qed.

Lemma build_tables_ok l : ∀ d dxy xyd,
  shape dxy xyd → NoDup l → (∀ p, p ∈ l → on_screen p) → Z.of_nat (d + length l) ≤ TOTAL_PIXELS →
  ∃ dxy' xyd', build_tables d l dxy xyd = Ret (dxy', xyd') ∧ shape dxy' xyd' ∧
    (∀ i, (i < d)%nat → dxy' !! i = dxy !! i) ∧
    (∀ i x y, l !! i = Some (x, y) → dxy' !! (d + i)%nat = Some (x, y) ∧
       cell xyd' x y = Some (Z.of_nat (d + i))) ∧
    (∀ x y, on_screen (x, y) → (x, y) ∉ l → cell xyd' x y = cell xyd x y).
Proof.
  induction l as [|[x y] l IH]; intros d dxy xyd Hs Hn Hin Hd; cbn [build_tables].
  - exists dxy, xyd. split_and!; done.
  - apply NoDup_cons in Hn as [Hxy Hn]. destruct (Hin (x, y)) as [Hx Hy]; [left|]. cbn in Hx, Hy.
    destruct Hs as (H1 & H2 & H3). cbn [length] in Hd.
    rewrite (proj2 (Nat.leb_gt _ _)) by lia. unfold WIDTH, HEIGHT in *.
    rewrite !u64_small, !u16_small by (unfold TOTAL_PIXELS, WIDTH, HEIGHT in *; lia).
    destruct (lookup_lt_is_Some_2 xyd (Z.to_nat y)) as [row Hrow]; [lia|]. rewrite Hrow.
    assert (Z.of_nat (length row) = 320) as Hlen by exact (Forall_lookup_1 _ _ _ _ H3 Hrow).
    rewrite (proj2 (Nat.leb_gt _ _)) by lia.
    destruct (IH (S d) (<[d := (x, y)]> dxy) (<[Z.to_nat y := <[Z.to_nat x := Z.of_nat d]> row]> xyd))
      as (dxy' & xyd' & -> & Hs' & Hold & Hnew & Hrest); [..|lia|].
    { split_and!; [by rewrite length_insert|by rewrite length_insert|].
      apply Forall_insert; [done|]. by rewrite length_insert. }
    { done. }
    { intros p Hp. apply Hin. by right. }
    exists dxy', xyd'. split; [done|]. split; [done|]. split_and!.
    + intros i Hi. rewrite Hold, list_lookup_insert_ne by lia. done.
    + intros [|i] px py Hp.
      * injection Hp as <- <-. rewrite Nat.add_0_r, Hold, list_lookup_insert_eq by lia.
        split; [done|]. rewrite Hrest, (cell_insert _ _ _ _ _ _ row) by (done || lia).
        by rewrite decide_True.
      * rewrite Nat.add_succ_r. by apply Hnew.
    + intros px py Hp Hnot. apply not_elem_of_cons in Hnot as [Hne Hnot].
      rewrite Hrest, (cell_insert _ _ _ _ _ _ row) by (done || lia). by rewrite decide_False.
Qed.

Lemma gilbert_tables_ok :
  ∃ g, gilbert_init Gilbert_initial = Ret g ∧ INITIALIZED g = true ∧
    (∀ d, 0 ≤ d < TOTAL_PIXELS → ∃ x y, d_to_xy g d = Ret (x, y) ∧ on_screen (x, y) ∧
       xy_to_d g x y = Ret d) ∧
    (∀ x y, on_screen (x, y) → ∃ d, xy_to_d g x y = Ret d ∧ 0 ≤ d < TOTAL_PIXELS ∧
       d_to_xy g d = Ret (x, y)) ∧
    (∀ d p q, 0 ≤ d → d + 1 < TOTAL_PIXELS → d_to_xy g d = Ret p → d_to_xy g (d + 1) = Ret q → adjacent p q).
Proof.
  destruct (gilbert2d_ok (Z.to_nat (WIDTH + HEIGHT)) 0 0 1 0 0 1 WIDTH HEIGHT) as (l & E & [Hn Hl Hi Hw]);
    [unfold frame; lia|unfold fits, is_i32, MAX_SIDE, WIDTH, HEIGHT; lia|unfold WIDTH, HEIGHT; lia|].
  destruct (build_tables_ok l 0 (D_TO_XY Gilbert_initial) (XY_TO_D Gilbert_initial))
    as (dxy & xyd & Hb & (Hs1 & _) & _ & Hnew & _).
  { split_and!; cbn [D_TO_XY XY_TO_D Gilbert_initial]; rewrite ?length_replicate, ?Z2Nat.id by done; [done..|].
    apply Forall_replicate. by rewrite length_replicate, Z2Nat.id. }
  { exact Hn. }
  { intros [x y] Hp. apply Hi in Hp. unfold in_rect in Hp. split; cbn; lia. }
  { rewrite Nat.add_0_l, Hl. reflexivity. }
  assert (Hd : ∀ d, 0 ≤ d < TOTAL_PIXELS → ∃ x y, l !! Z.to_nat d = Some (x, y) ∧ on_screen (x, y) ∧
    d_to_xy (mkGilbert true dxy xyd) d = Ret (x, y) ∧ xy_to_d (mkGilbert true dxy xyd) x y = Ret d).
  { intros d Hd. destruct (lookup_lt_is_Some_2 l (Z.to_nat d)) as [[x y] Hp].
    { rewrite <- (Nat2Z.id (length l)), Hl. unfold TOTAL_PIXELS in Hd. lia. }
    destruct (Hnew _ _ _ Hp) as [H1 H2]. cbn [Nat.add] in H1, H2.
    assert (on_screen (x, y)) as Hsc.
    { apply list_elem_of_lookup_2, Hi in Hp. unfold in_rect in Hp. split; cbn; lia. }
    exists x, y. split_and!; [done|done| |].
    - unfold d_to_xy. cbn [D_TO_XY]. by rewrite Z.min_l, H1 by lia.
    - unfold xy_to_d. cbn [XY_TO_D]. fold (cell xyd x y). rewrite H2, Z2Nat.id by lia.
      destruct Hsc. cbn in *. by rewrite !(proj2 (Z.leb_gt _ _)) by lia. }
  exists (mkGilbert true dxy xyd). split_and!.
  - unfold gilbert_init. cbn [INITIALIZED Gilbert_initial].
    rewrite !Z.mul_0_r, !Z.mul_1_r in E. rewrite E. cbn [mbind outcome_bind]. by rewrite Hb.
  - done.
  - intros d H. destruct (Hd d H) as (x & y & _ & ? & ? & ?). exists x, y. split_and!; assumption.
  - intros x y [Hx Hy]. cbn in Hx, Hy. assert ((x, y) ∈ l) as Hp by (apply Hi; unfold in_rect; lia).
    apply list_elem_of_lookup in Hp as [i Hp].
    assert (0 ≤ Z.of_nat i < TOTAL_PIXELS) as H.
    { apply lookup_lt_Some in Hp. unfold TOTAL_PIXELS. lia. }
    destruct (Hd _ H) as (x' & y' & Hp' & _ & ? & ?). rewrite Nat2Z.id, Hp in Hp'.
    injection Hp' as <- <-.
    exists (Z.of_nat i). split; [assumption|]. split; assumption.
  - intros d p q H0 H1 Hp Hq.
    destruct (Hd d) as (x & y & Hx & _ & Ex & _); [lia|].
    destruct (Hd (d + 1)) as (x' & y' & Hx' & _ & Ex' & _); [lia|].
    rewrite Ex in Hp. injection Hp as <-. rewrite Ex' in Hq. injection Hq as <-.
    replace (Z.to_nat (d + 1)) with (S (Z.to_nat d)) in Hx' by lia.
    eapply walk_lookup; [|exact Hx|exact Hx']. apply Hw. exists 160. reflexivity.
Qed.
