(* ===== verification/Vga.v ===== *)
(** The VGA mode 13h driver and the bitmap font (src/vga.rs, src/font.rs).  The
    framebuffer is memory; every primitive writes inside it only, and clips to the
    screen. *)

From S2P Require Import Prelude ByteMem.

Definition FRAMEBUFFER : Z := 0xA0000.
Definition WIDTH : Z := 320.
Definition HEIGHT : Z := 200.
Definition TOTAL_PIXELS : Z := WIDTH * HEIGHT.
Definition VGA_STATUS_ADDR : Z := 0x501.
Definition VGA_MODE_13H : Z := 0x13.

Definition BLACK : Z := 0.
Definition BLUE : Z := 1.
Definition GREEN : Z := 2.
Definition CYAN : Z := 3.
Definition RED : Z := 4.
Definition MAGENTA : Z := 5.
Definition LIGHT_GRAY : Z := 7.
Definition DARK_GRAY : Z := 8.
Definition WHITE : Z := 15.

(** The flag and the memory that holds the framebuffer. *)
Record Vga : Type := mkVga { VGA_ENABLED : bool; vmem : ram }.

(** [fb.add(offset).write_volatile(color)] *)
Definition fb_write (v : Vga) (offset color : Z) : Vga :=
  mkVga (VGA_ENABLED v) (write_bytes (vmem v) (u64 (FRAMEBUFFER + offset)) color 1).

(** [for i in a..b], threading the state. *)
Definition for_range {S} (a b : Z) (f : Z → S → S) (s : S) : S := foldl (λ s i, f i s) s (seqZ a (b - a)).

Definition is_enabled (v : Vga) : bool := VGA_ENABLED v.

Definition set_pixel (x y color : Z) (v : Vga) : Vga :=
  if negb (is_enabled v) || (WIDTH <=? x) || (HEIGHT <=? y) then v
  else fb_write v (y * WIDTH + x) color.

Definition set_pixel_index (index color : Z) (v : Vga) : Vga :=
  if negb (is_enabled v) || (TOTAL_PIXELS <=? index) then v
  else fb_write v index color.

Definition fill_range (start_index count color : Z) (v : Vga) : Vga :=
  if negb (is_enabled v) || (TOTAL_PIXELS <=? start_index) then v
  else
    let end_ := Z.min (u64 (start_index + count)) TOTAL_PIXELS in
    for_range start_index end_ (λ i v, fb_write v i color) v.

Definition fill_rect (x y w h color : Z) (v : Vga) : Vga :=
  if negb (is_enabled v) then v
  else
    for_range y (Z.min (u64 (y + h)) HEIGHT) (λ row v,
      for_range x (Z.min (u64 (x + w)) WIDTH) (λ col v, fb_write v (row * WIDTH + col) color) v) v.

Definition clear (color : Z) (v : Vga) : Vga :=
  if negb (is_enabled v) then v
  else for_range 0 TOTAL_PIXELS (λ i v, fb_write v i color) v.

Definition hline (x y len color : Z) (v : Vga) : Vga :=
  if negb (is_enabled v) || (HEIGHT <=? y) then v
  else
    let start := u64 (y * WIDTH + x) in
    let end_ := Z.min (u64 (start + len)) (y * WIDTH + WIDTH) in
    for_range start end_ (λ i v, fb_write v i color) v.

Definition vga_init (v : Vga) : Vga :=
  if vmem v VGA_STATUS_ADDR =? VGA_MODE_13H then clear BLACK (mkVga true (vmem v)) else v.

(** ** The font *)

Definition FONT_DATA : list Z := [
   0x3C; 0x66; 0x6E; 0x76; 0x66; 0x66; 0x3C; 0x00;
   0x18; 0x38; 0x18; 0x18; 0x18; 0x18; 0x7E; 0x00;
   0x3C; 0x66; 0x06; 0x0C; 0x18; 0x30; 0x7E; 0x00;
   0x3C; 0x66; 0x06; 0x1C; 0x06; 0x66; 0x3C; 0x00;
   0x0C; 0x1C; 0x3C; 0x6C; 0x7E; 0x0C; 0x0C; 0x00;
   0x7E; 0x60; 0x7C; 0x06; 0x06; 0x66; 0x3C; 0x00;
   0x1C; 0x30; 0x60; 0x7C; 0x66; 0x66; 0x3C; 0x00;
   0x7E; 0x06; 0x0C; 0x18; 0x18; 0x18; 0x18; 0x00;
   0x3C; 0x66; 0x66; 0x3C; 0x66; 0x66; 0x3C; 0x00;
   0x3C; 0x66; 0x66; 0x3E; 0x06; 0x0C; 0x38; 0x00;
   0x18; 0x3C; 0x66; 0x66; 0x7E; 0x66; 0x66; 0x00;
   0x7C; 0x66; 0x66; 0x7C; 0x66; 0x66; 0x7C; 0x00;
   0x3C; 0x66; 0x60; 0x60; 0x60; 0x66; 0x3C; 0x00;
   0x78; 0x6C; 0x66; 0x66; 0x66; 0x6C; 0x78; 0x00;
   0x7E; 0x60; 0x60; 0x7C; 0x60; 0x60; 0x7E; 0x00;
   0x7E; 0x60; 0x60; 0x7C; 0x60; 0x60; 0x60; 0x00;
   0x00; 0x00; 0x3C; 0x06; 0x3E; 0x66; 0x3E; 0x00;
   0x00; 0x00; 0x3C; 0x60; 0x60; 0x60; 0x3C; 0x00;
   0x06; 0x06; 0x3E; 0x66; 0x66; 0x66; 0x3E; 0x00;
   0x00; 0x00; 0x3C; 0x66; 0x7E; 0x60; 0x3C; 0x00;
   0x0E; 0x18; 0x18; 0x3E; 0x18; 0x18; 0x18; 0x00;
   0x18; 0x18; 0x18; 0x18; 0x18; 0x18; 0x0E; 0x00;
   0x00; 0x00; 0x3C; 0x66; 0x66; 0x66; 0x3C; 0x00;
   0x00; 0x00; 0x6C; 0x76; 0x60; 0x60; 0x60; 0x00;
   0x18; 0x18; 0x7E; 0x18; 0x18; 0x18; 0x0E; 0x00;
   0x00; 0x00; 0x66; 0x3C; 0x18; 0x3C; 0x66; 0x00;
   0x66; 0x66; 0x66; 0x7E; 0x66; 0x66; 0x66; 0x00;
   0x66; 0x6C; 0x78; 0x70; 0x78; 0x6C; 0x66; 0x00;
   0x7C; 0x66; 0x66; 0x7C; 0x60; 0x60; 0x60; 0x00;
   0x00; 0x00; 0x3E; 0x66; 0x66; 0x3E; 0x06; 0x3C;
   0x00; 0x00; 0x76; 0x7F; 0x6B; 0x63; 0x63; 0x00;
   0x00; 0x00; 0x00; 0x00; 0x00; 0x00; 0x00; 0x00;
   0x00; 0x00; 0x00; 0x7E; 0x00; 0x00; 0x00; 0x00;
   0x0C; 0x18; 0x30; 0x30; 0x30; 0x18; 0x0C; 0x00;
   0x30; 0x18; 0x0C; 0x0C; 0x0C; 0x18; 0x30; 0x00;
   0x00; 0x00; 0x7C; 0x66; 0x66; 0x66; 0x66; 0x00;
   0x00; 0x00; 0x7C; 0x66; 0x66; 0x7C; 0x60; 0x60;
   0x18; 0x00; 0x38; 0x18; 0x18; 0x18; 0x3C; 0x00;
   0x60; 0x60; 0x66; 0x6C; 0x78; 0x6C; 0x66; 0x00;
   0x00; 0x00; 0x3E; 0x60; 0x3C; 0x06; 0x7C; 0x00;
   0x00; 0x00; 0x66; 0x66; 0x66; 0x66; 0x3E; 0x00;
   0x60; 0x60; 0x7C; 0x66; 0x66; 0x66; 0x7C; 0x00;
   0x00; 0x00; 0x63; 0x63; 0x6B; 0x7F; 0x36; 0x00;
   0x66; 0x66; 0x66; 0x66; 0x66; 0x66; 0x3C; 0x00;
   0x60; 0x60; 0x7C; 0x66; 0x66; 0x66; 0x66; 0x00;
   0x00; 0x00; 0x66; 0x66; 0x66; 0x3E; 0x06; 0x3C;
   0x3C; 0x66; 0x60; 0x3C; 0x06; 0x66; 0x3C; 0x00;
   0x00; 0x00; 0x66; 0x66; 0x66; 0x3C; 0x18; 0x00].

(** Characters by their code. *)
Definition char_to_index (c : Z) : option Z :=
  if (48 <=? c) && (c <=? 57) then Some (c - 48)
  else if (65 <=? c) && (c <=? 70) then Some (c - 65 + 10)
  else
    match c with
    | 97 => Some 16    (* a *)
    | 99 => Some 17    (* c *)
    | 100 => Some 18   (* d *)
    | 101 => Some 19   (* e *)
    | 102 => Some 20   (* f *)
    | 108 => Some 21   (* l *)
    | 111 => Some 22   (* o *)
    | 114 => Some 23   (* r *)
    | 116 => Some 24   (* t *)
    | 120 => Some 25   (* x *)
    | 72 => Some 26    (* H *)
    | 75 => Some 27    (* K *)
    | 80 => Some 28    (* P *)
    | 103 => Some 29   (* g *)
    | 109 => Some 30   (* m *)
    | 32 => Some 31    (* space *)
    | 45 => Some 32    (* - *)
    | 40 => Some 33    (* ( *)
    | 41 => Some 34    (* ) *)
    | 110 => Some 35   (* n *)
    | 112 => Some 36   (* p *)
    | 105 => Some 37   (* i *)
    | 107 => Some 38   (* k *)
    | 115 => Some 39   (* s *)
    | 117 => Some 40   (* u *)
    | 98 => Some 41    (* b *)
    | 119 => Some 42   (* w *)
    | 85 => Some 43    (* U *)
    | 104 => Some 44   (* h *)
    | 121 => Some 45   (* y *)
    | 83 => Some 46    (* S *)
    | 118 => Some 47   (* v *)
    | _ => None
    end.

(** [&FONT_DATA[a..b]] *)
Definition font_slice (a b : Z) : outcome (list Z) :=
  if (b <=? Z.of_nat (length FONT_DATA)) && (a <=? b)
  then Ret (take (Z.to_nat (b - a)) (drop (Z.to_nat a) FONT_DATA)) else Panic.

Definition get_glyph (c : Z) : outcome (list Z) :=
  match char_to_index c with
  | Some idx => let offset := idx * 8 in font_slice offset (offset + 8)
  | None => font_slice (31 * 8) (32 * 8)
  end.

(** [bits & (0x80 >> col) != 0] *)
Definition glyph_bit (glyph : list Z) (row col : Z) : bool :=
  negb (Z.land (glyph !!! Z.to_nat row) (Z.shiftr 0x80 col) =? 0).

Definition draw_char (x y c color : Z) (v : Vga) : outcome Vga :=
  glyph ← get_glyph c;
  Ret (for_range 0 8 (λ row v, for_range 0 8 (λ col v,
    if glyph_bit glyph row col then set_pixel (u64 (x + col)) (u64 (y + row)) color v else v) v) v).

Definition draw_char_bg (x y c fg bg : Z) (v : Vga) : outcome Vga :=
  glyph ← get_glyph c;
  Ret (for_range 0 8 (λ row v, for_range 0 8 (λ col v,
    set_pixel (u64 (x + col)) (u64 (y + row)) (if glyph_bit glyph row col then fg else bg) v) v) v).

(** The loop [for (i, c) in s.chars().enumerate()]. *)
Fixpoint draw_chars (draw : Z → Z → Vga → outcome Vga) (x : Z) (s : list Z) (v : Vga) : outcome Vga :=
  match s with
  | [] => Ret v
  | c :: s => v ← draw x c v; draw_chars draw (u64 (x + 8)) s v
  end.
Definition draw_string (x y : Z) (s : list Z) (color : Z) : Vga → outcome Vga :=
  draw_chars (λ x c, draw_char x y c color) x s.
Definition draw_string_bg (x y : Z) (s : list Z) (fg bg : Z) : Vga → outcome Vga :=
  draw_chars (λ x c, draw_char_bg x y c fg bg) x s.

(** The digits that [draw_hex] draws, most significant first. *)
Definition hex_char (nibble : Z) : Z := if nibble <? 10 then 48 + nibble else 65 + nibble - 10.
Definition hex_digits (value digits : Z) : list Z :=
  (λ i, hex_char (Z.land (Z.shiftr value ((digits - 1 - i) * 4)) 0xF)) <$> seqZ 0 digits.
Definition draw_hex (x y value digits color : Z) (v : Vga) : outcome Vga :=
  v ← draw_string x y [48; 120] color v;
  draw_string (u64 (x + 16)) y (hex_digits value digits) color v.
Definition draw_hex_bg (x y value digits fg bg : Z) (v : Vga) : outcome Vga :=
  v ← draw_string_bg x y [48; 120] fg bg v;
  draw_string_bg (u64 (x + 16)) y (hex_digits value digits) fg bg v.

(** ** Every primitive stays inside the framebuffer *)

Lemma for_range_ind {S} (R : S → S → Prop) `{!PreOrder R} a b f s :
  (∀ i s, a ≤ i < b → R s (f i s)) → R s (for_range a b f s).
Proof.
  intros Hf. unfold for_range.
  assert (Forall (λ i, a ≤ i < b) (seqZ a (b - a))) as Hl.
  { apply Forall_forall. intros i Hi. apply elem_of_seqZ in Hi. lia. }
  revert s. induction Hl as [|i l Hi _ IH]; intros s; cbn; [reflexivity|].
  etransitivity; [by apply Hf|apply IH].
Qed.

(** [touches P v v']: memory changed at most at the pixels of the framebuffer that
    satisfy [P], given by their index. *)
Definition touches (P : Z → Prop) (v v' : Vga) : Prop :=
  VGA_ENABLED v' = VGA_ENABLED v ∧
  ∀ a, 0 ≤ a < 18446744073709551616 →
    ¬ (0 ≤ a - FRAMEBUFFER < TOTAL_PIXELS ∧ P (a - FRAMEBUFFER)) → vmem v' a = vmem v a.

#[global] Instance touches_preorder P : PreOrder (touches P).
Proof.
  split; [done|]. intros v1 v2 v3 [E1 H1] [E2 H2]. split; [congruence|]. intros a Ha Hn.
  rewrite H2, H1; done.
Qed.

Lemma touches_mono (P Q : Z → Prop) v v' :
  (∀ i, 0 ≤ i < TOTAL_PIXELS → P i → Q i) → touches P v v' → touches Q v v'.
Proof. intros HPQ [E H]. split; [done|]. intros a Ha Hn. apply H; [done|]. naive_solver. Qed.

(** The pixels of a rectangle. *)
Definition rect (x y w h i : Z) : Prop := x ≤ i mod WIDTH < x + w ∧ y ≤ i / WIDTH < y + h.

Lemma rect_index x y w h px py :
  0 ≤ px < WIDTH → x ≤ px < x + w → y ≤ py < y + h → rect x y w h (py * WIDTH + px).
Proof.
  intros Hp Hx Hy. unfold rect. rewrite (Z.add_comm (py * WIDTH)), Z.mod_add, Z.mod_small by (done || lia).
  rewrite Z.div_add, Z.div_small by (done || lia). lia.
Qed.

Definition pixel_at (v : Vga) (i : Z) : Z := vmem v (FRAMEBUFFER + i).

Lemma fb_write_touches (P : Z → Prop) v i c : 0 ≤ i < TOTAL_PIXELS → P i → touches P v (fb_write v i c).
Proof.
  intros Hi HP. split; [done|]. intros a Ha Hn. unfold fb_write. cbn [vmem].
  assert (a - FRAMEBUFFER ≠ i) by (intros <-; tauto).
  unfold TOTAL_PIXELS, WIDTH, HEIGHT, FRAMEBUFFER in *. rewrite u64_small by lia.
  apply write_bytes_out; lia.
Qed.

Lemma pixel_at_fb_write v i c j : 0 ≤ i < TOTAL_PIXELS → 0 ≤ j < TOTAL_PIXELS →
  pixel_at (fb_write v i c) j = if decide (j = i) then c else pixel_at v j.
Proof.
  intros Hi Hj. unfold pixel_at, fb_write. cbn [vmem].
  unfold TOTAL_PIXELS, WIDTH, HEIGHT, FRAMEBUFFER in *. rewrite u64_small by lia. case_decide.
  - subst. apply write_bytes_in; lia.
  - apply write_bytes_out; lia.
Qed.

Lemma pixel_at_touches P v v' j : touches P v v' → 0 ≤ j < TOTAL_PIXELS → ¬ P j → pixel_at v' j = pixel_at v j.
Proof.
  intros [_ H] Hj Hn. apply H.
  - unfold TOTAL_PIXELS, WIDTH, HEIGHT, FRAMEBUFFER in *. lia.
  - replace (FRAMEBUFFER + j - FRAMEBUFFER) with j by lia. tauto.
Qed.

Ltac vga_guard :=
  match goal with |- touches _ ?v (if ?b then ?v else _) => destruct b eqn:?; [reflexivity|] end;
  repeat match goal with
  | H : (_ || _) = false |- _ => apply orb_false_iff in H as [? ?]
  | H : (_ <=? _) = false |- _ => apply Z.leb_gt in H
  end.
Ltac screen_lia := unfold TOTAL_PIXELS, WIDTH, HEIGHT in *; lia.

Lemma set_pixel_touches (P : Z → Prop) x y c v :
  0 ≤ x → 0 ≤ y → (x < WIDTH → y < HEIGHT → P (y * WIDTH + x)) → touches P v (set_pixel x y c v).
Proof. intros ? ? HP. unfold set_pixel. vga_guard. apply fb_write_touches; [screen_lia|]. by apply HP. Qed.

Lemma set_pixel_index_touches i c v : 0 ≤ i → touches (λ j, j = i) v (set_pixel_index i c v).
Proof. intros. unfold set_pixel_index. vga_guard. apply fb_write_touches; [lia|done]. Qed.

Lemma fill_range_touches i n c v : 0 ≤ i → 0 ≤ n → i + n < 18446744073709551616 →
  touches (λ j, i ≤ j < i + n) v (fill_range i n c v).
Proof.
  intros. unfold fill_range. vga_guard. rewrite u64_small by lia. apply for_range_ind; [apply _|].
  intros j v' Hj. apply fb_write_touches; lia.
Qed.

Lemma fill_rect_touches x y w h c v : 0 ≤ x → 0 ≤ y → 0 ≤ w → 0 ≤ h →
  x + w < 18446744073709551616 → y + h < 18446744073709551616 →
  touches (rect x y w h) v (fill_rect x y w h c v).
Proof.
  intros. unfold fill_rect. vga_guard. rewrite !u64_small by lia.
  apply for_range_ind; [apply _|]. intros row v1 Hrow.
  apply for_range_ind; [apply _|]. intros col v2 Hcol. apply fb_write_touches; [screen_lia|].
  apply rect_index; lia.
Qed.

Lemma clear_touches c v : touches (λ _, True) v (clear c v).
Proof. unfold clear. vga_guard. apply for_range_ind; [apply _|]. intros i v' Hi. by apply fb_write_touches. Qed.

Lemma hline_touches x y n c v : 0 ≤ x < WIDTH → 0 ≤ y → 0 ≤ n < 1000000 →
  touches (rect x y n 1) v (hline x y n c v).
Proof.
  intros. unfold hline. vga_guard. rewrite !u64_small by screen_lia.
  apply for_range_ind; [apply _|]. intros i v' Hi. apply fb_write_touches; [screen_lia|].
  replace i with (y * WIDTH + (i - y * WIDTH)) by lia. apply rect_index; lia.
Qed.

(** ** Text *)

Lemma get_glyph_ok c : ∃ g, get_glyph c = Ret g ∧ length g = 8%nat.
Proof.
  assert (H : ∀ i, char_to_index c = Some i → 0 ≤ i < 48).
  { intros i. unfold char_to_index.
    do 2 (destruct (_ && _) eqn:E; [apply andb_true_iff in E as [?%Z.leb_le ?%Z.leb_le]; intros [= <-]; lia|]; clear E).
    repeat case_match; intros [= <-]; lia. }
  assert (Hs : ∀ i, 0 ≤ i < 48 → ∃ g, font_slice (i * 8) (i * 8 + 8) = Ret g ∧ length g = 8%nat).
  { intros i Hi. unfold font_slice. change (length FONT_DATA) with 384%nat.
    rewrite !(proj2 (Z.leb_le _ _)) by lia. eexists. split; [done|].
    rewrite length_take, length_drop. change (length FONT_DATA) with 384%nat. lia. }
  unfold get_glyph. destruct (char_to_index c) as [i|]; [by apply Hs, H|]. apply (Hs 31). lia.
Qed.

Lemma draw_char_touches x y c fg v : 0 ≤ x → 0 ≤ y → x + 8 < 18446744073709551616 → y + 8 < 18446744073709551616 →
  ∃ v', draw_char x y c fg v = Ret v' ∧ touches (rect x y 8 8) v v'.
Proof.
  intros. destruct (get_glyph_ok c) as (g & Hg & _). unfold draw_char. rewrite Hg. eexists. split; [done|].
  apply for_range_ind; [apply _|]. intros row v1 Hrow. apply for_range_ind; [apply _|]. intros col v2 Hcol.
  destruct (glyph_bit _ _ _); [|reflexivity]. rewrite !u64_small by lia.
  apply set_pixel_touches; [lia..|]. intros. apply rect_index; lia.
Qed.

Lemma draw_char_bg_touches x y c fg bg v : 0 ≤ x → 0 ≤ y → x + 8 < 18446744073709551616 → y + 8 < 18446744073709551616 →
  ∃ v', draw_char_bg x y c fg bg v = Ret v' ∧ touches (rect x y 8 8) v v'.
Proof.
  intros. destruct (get_glyph_ok c) as (g & Hg & _). unfold draw_char_bg. rewrite Hg. eexists. split; [done|].
  apply for_range_ind; [apply _|]. intros row v1 Hrow. apply for_range_ind; [apply _|]. intros col v2 Hcol.
  rewrite !u64_small by lia. apply set_pixel_touches; [lia..|]. intros. apply rect_index; lia.
Qed.

Lemma draw_chars_touches draw y s : ∀ x v,
  (∀ x c v, 0 ≤ x → x + 8 < 18446744073709551616 →
     ∃ v', draw x c v = Ret v' ∧ touches (rect x y 8 8) v v') →
  0 ≤ x → x + 8 * Z.of_nat (length s) + 8 < 18446744073709551616 →
  ∃ v', draw_chars draw x s v = Ret v' ∧ touches (rect x y (8 * Z.of_nat (length s)) 8) v v'.
Proof.
  induction s as [|c s IH]; intros x v Hd Hx Hn; cbn [draw_chars length] in *; [by exists v|].
  destruct (Hd x c v) as (v1 & -> & H1); [lia..|]. cbn [mbind outcome_bind]. rewrite u64_small by lia.
  destruct (IH (x + 8) v1) as (v2 & -> & H2); [done|lia..|]. exists v2. split; [done|].
  etransitivity; [eapply touches_mono, H1|eapply touches_mono, H2]; unfold rect; intros; lia.
Qed.

Lemma draw_string_bg_touches x y s fg bg v :
  0 ≤ x → 0 ≤ y → y + 8 < 18446744073709551616 → x + 8 * Z.of_nat (length s) + 8 < 18446744073709551616 →
  ∃ v', draw_string_bg x y s fg bg v = Ret v' ∧ touches (rect x y (8 * Z.of_nat (length s)) 8) v v'.
Proof. intros. apply draw_chars_touches; [|done..]. intros. apply draw_char_bg_touches; lia. Qed.

Lemma draw_hex_bg_touches x y n digits fg bg v :
  0 ≤ x → 0 ≤ y → 0 ≤ digits → y + 8 < 18446744073709551616 → x + 24 + 8 * digits < 18446744073709551616 →
  ∃ v', draw_hex_bg x y n digits fg bg v = Ret v' ∧ touches (rect x y (16 + 8 * digits) 8) v v'.
Proof.
  intros. unfold draw_hex_bg.
  destruct (draw_string_bg_touches x y [48; 120] fg bg v) as (v1 & -> & T1); [cbn; lia..|].
  cbn [mbind outcome_bind]. rewrite u64_small by lia.
  assert (Z.of_nat (length (hex_digits n digits)) = digits) as Hl.
  { unfold hex_digits. rewrite length_fmap, length_seqZ. lia. }
  destruct (draw_string_bg_touches (x + 16) y (hex_digits n digits) fg bg v1) as (v2 & -> & T2); [lia..|].
  exists v2. split; [done|]. rewrite Hl in T2.
  etransitivity; [eapply touches_mono, T1|eapply touches_mono, T2]; unfold rect; cbn [length]; intros; lia.
Qed.

Lemma clear_pixels c v j : VGA_ENABLED v = true → 0 ≤ j < TOTAL_PIXELS → pixel_at (clear c v) j = c.
Proof.
  intros He Hj. unfold clear, is_enabled. rewrite He. cbn [negb]. unfold for_range.
  assert (Hl : ∀ l v, Forall (λ i, 0 ≤ i < TOTAL_PIXELS) l →
    pixel_at (foldl (λ s i, fb_write s i c) v l) j = if decide (j ∈ l) then c else pixel_at v j).
  { intros l. induction l as [|i l IH]; intros v' Hl; [done|]. apply Forall_cons in Hl as [Hi Hl].
    cbn [foldl]. rewrite IH, pixel_at_fb_write by done.
    repeat case_decide; set_solver. }
  rewrite Hl; [|apply Forall_forall; intros i Hi%elem_of_seqZ; lia].
  rewrite decide_True; [done|]. apply elem_of_seqZ. lia.
Qed.
