(* ===== verification/Memvis.v ===== *)
(** The memory visualizer (src/memvis.rs): every pixel of the 320x192 map shows the
    state of 256 bytes of memory, laid out along the Gilbert curve, on the screen
    and in a shadow buffer from which the screen is redrawn. *)

From S2P Require Import Prelude ByteMem Gilbert Vga.

Definition VIS_BASE : Z := 0x100000.
Definition VIS_END : Z := 0x1000000.
Definition BYTES_PER_PIXEL : Z := 256.
Definition KERNEL_END : Z := 0x200000.
Definition HEAP_START : Z := 0x200000.
Definition HEAP_END : Z := 0x400000.
Definition PROGRAM_START : Z := 0x400000.
Definition PROGRAM_END : Z := 0x1000000.

Record Vis : Type := mkVis { gil : Gilbert; vga : Vga; SHADOW_BUFFER : list Z }.

Definition addr_to_gilbert_index (addr : Z) : option Z :=
  if (addr <? VIS_BASE) || (VIS_END <=? addr) then None
  else
    let index := Z.shiftr (addr - VIS_BASE) 8 in
    if Gilbert.TOTAL_PIXELS <=? index then None else Some index.

Definition addr_to_xy (s : Vis) (addr : Z) : outcome (option (Z * Z)) :=
  match addr_to_gilbert_index addr with
  | Some d => p ← d_to_xy (gil s) d; Ret (Some p)
  | None => Ret None
  end.

Definition set_pixel_xy (x y color : Z) (s : Vis) : Vis :=
  if (Vga.WIDTH <=? x) || (Vga.HEIGHT <=? y) then s
  else
    let screen_index := y * Vga.WIDTH + x in
    let shadow :=
      if screen_index <? Z.of_nat (length (SHADOW_BUFFER s))
      then <[Z.to_nat screen_index := color]> (SHADOW_BUFFER s) else SHADOW_BUFFER s in
    mkVis (gil s) (set_pixel x y color (vga s)) shadow.

(** The loop of [fill_gilbert_range] over the given indices. *)
Fixpoint fill_indices (ds : list Z) (color : Z) (s : Vis) : outcome Vis :=
  match ds with
  | [] => Ret s
  | d :: ds =>
      '(x, y) ← d_to_xy (gil s) d;
      fill_indices ds color (set_pixel_xy x y color s)
  end.
Definition fill_gilbert_range (start_d end_d color : Z) (s : Vis) : outcome Vis :=
  let end_d := Z.min end_d Gilbert.TOTAL_PIXELS in
  fill_indices (seqZ start_d (end_d - start_d)) color s.

Definition alloc_color_for_addr (addr : Z) : Z :=
  if PROGRAM_START <=? addr then MAGENTA else if HEAP_START <=? addr then RED else BLUE.
Definition free_color_for_addr (addr : Z) : Z :=
  if PROGRAM_START <=? addr then CYAN else if HEAP_START <=? addr then GREEN else BLUE.

Definition memvis_init (s : Vis) : outcome Vis :=
  if negb (is_enabled (vga s)) then Ret s
  else
    let kernel_start_d := default 0 (addr_to_gilbert_index VIS_BASE) in
    let kernel_end_d := default 0 (addr_to_gilbert_index KERNEL_END) in
    s ← fill_gilbert_range kernel_start_d kernel_end_d BLUE s;
    let heap_start_d := default 0 (addr_to_gilbert_index HEAP_START) in
    let heap_end_d := default 0 (addr_to_gilbert_index HEAP_END) in
    s ← fill_gilbert_range heap_start_d heap_end_d GREEN s;
    let prog_start_d := default 0 (addr_to_gilbert_index PROGRAM_START) in
    fill_gilbert_range prog_start_d Gilbert.TOTAL_PIXELS CYAN s.

Definition get_pixel (s : Vis) (x y : Z) : outcome Z :=
  let index := u64 (y * 320 + x) in
  if index <? 320 * 200 then
    match SHADOW_BUFFER s !! Z.to_nat index with
    | Some c => Ret c
    | None => Panic
    end
  else Ret 0.

(** The loop of [redraw], from offset [i]. *)
Fixpoint redraw_loop (i : Z) (l : list Z) (v : Vga) : Vga :=
  match l with
  | [] => v
  | c :: l => redraw_loop (i + 1) l (fb_write v i c)
  end.
Definition redraw (s : Vis) : Vis :=
  if negb (is_enabled (vga s)) then s
  else mkVis (gil s) (redraw_loop 0 (SHADOW_BUFFER s) (vga s)) (SHADOW_BUFFER s).

Definition draw_region (addr size color : Z) (s : Vis) : outcome Vis :=
  match addr_to_gilbert_index addr with
  | None => Ret s
  | Some start_d =>
      let end_addr := Z.min (addr + size) 18446744073709551615 in
      let end_d :=
        match addr_to_gilbert_index (Z.max (end_addr - 1) 0) with
        | Some d => Some (d + 1)
        | None => if VIS_END <? end_addr then Some Gilbert.TOTAL_PIXELS else None
        end in
      match end_d with
      | None => Ret s
      | Some end_d => if start_d <? end_d then fill_gilbert_range start_d end_d color s else Ret s
      end
  end.

Definition on_alloc (addr size : Z) (s : Vis) : outcome Vis :=
  if negb (is_enabled (vga s)) then Ret s else draw_region addr size (alloc_color_for_addr addr) s.
Definition on_dealloc (addr size : Z) (s : Vis) : outcome Vis :=
  if negb (is_enabled (vga s)) then Ret s else draw_region addr size (free_color_for_addr addr) s.
Definition on_program_alloc_init (s : Vis) : outcome Vis :=
  if negb (is_enabled (vga s)) then Ret s
  else
    let prog_start_d := default 0 (addr_to_gilbert_index PROGRAM_START) in
    let prog_end_d := default Gilbert.TOTAL_PIXELS (addr_to_gilbert_index PROGRAM_END) in
    fill_gilbert_range prog_start_d prog_end_d CYAN s.

(** ** The map as a function of the page number *)

(** What [gilbert_init] establishes. *)
Definition tables_ok (g : Gilbert) : Prop :=
  (∀ d, 0 ≤ d < Gilbert.TOTAL_PIXELS → ∃ x y, d_to_xy g d = Ret (x, y) ∧ on_screen (x, y) ∧ xy_to_d g x y = Ret d) ∧
  (∀ x y, on_screen (x, y) → ∃ d, xy_to_d g x y = Ret d ∧ 0 ≤ d < Gilbert.TOTAL_PIXELS ∧ d_to_xy g d = Ret (x, y)).

Definition pos (p : Z * Z) : Z := p.2 * Vga.WIDTH + p.1.

(** [shows s pages]: page [d] has colour [pages d], in the shadow buffer and on the
    screen. *)
Record shows (s : Vis) (pages : Z → Z) : Prop := mkShows {
  shows_tables : tables_ok (gil s);
  shows_enabled : VGA_ENABLED (vga s) = true;
  shows_length : Z.of_nat (length (SHADOW_BUFFER s)) = Vga.TOTAL_PIXELS;
  shows_pages d p : 0 ≤ d < Gilbert.TOTAL_PIXELS → d_to_xy (gil s) d = Ret p →
    SHADOW_BUFFER s !! Z.to_nat (pos p) = Some (pages d) ∧ pixel_at (vga s) (pos p) = pages d }.

(** Steps change the framebuffer only. *)
Definition vis_ext (s s' : Vis) : Prop := gil s' = gil s ∧ touches (λ _, True) (vga s) (vga s').
#[global] Instance vis_ext_preorder : PreOrder vis_ext.
Proof.
  split; [done|]. intros s1 s2 s3 [E1 H1] [E2 H2]. split; [congruence|]. by etransitivity.
Qed.

Definition paint (P : Z → bool) (color : Z) (pages : Z → Z) (d : Z) : Z := if P d then color else pages d.

Lemma d_to_xy_inj g d d' p :
  tables_ok g → 0 ≤ d < Gilbert.TOTAL_PIXELS → 0 ≤ d' < Gilbert.TOTAL_PIXELS →
  d_to_xy g d = Ret p → d_to_xy g d' = Ret p → d = d'.
Proof.
  intros [Ht _] Hd Hd' E E'. destruct (Ht d Hd) as (x & y & E1 & _ & E2), (Ht d' Hd') as (x' & y' & E1' & _ & E2').
  rewrite E in E1. injection E1 as ->. rewrite E' in E1'. injection E1' as <- <-.
  rewrite E2 in E2'. by injection E2'.
Qed.

Lemma pos_inj p q : on_screen p → on_screen q → pos p = pos q → p = q.
Proof.
  destruct p as [x y], q as [x' y']. intros [Hx _] [Hx' _] E. cbn in *.
  unfold pos, Vga.WIDTH, Gilbert.WIDTH in *. cbn in E. f_equal; lia.
Qed.

Lemma on_screen_pos p : on_screen p → 0 ≤ pos p < Vga.TOTAL_PIXELS.
Proof.
  destruct p as [x y]. intros [Hx Hy]. unfold pos, Vga.TOTAL_PIXELS, Vga.WIDTH, Vga.HEIGHT, Gilbert.WIDTH, Gilbert.HEIGHT in *.
  cbn in *. lia.
Qed.

(** One pixel. *)
Lemma set_pixel_xy_shows s pages d x y color :
  shows s pages → 0 ≤ d < Gilbert.TOTAL_PIXELS → d_to_xy (gil s) d = Ret (x, y) →
  shows (set_pixel_xy x y color s) (paint (λ k, k =? d) color pages) ∧ vis_ext s (set_pixel_xy x y color s).
Proof.
  intros [Ht He Hl Hp] Hd Ed. destruct (proj1 Ht d Hd) as (x' & y' & Ed' & Hs & _).
  rewrite Ed in Ed'. injection Ed' as <- <-. pose proof (on_screen_pos _ Hs) as Hpos.
  unfold set_pixel_xy. rewrite !(proj2 (Z.leb_gt _ _)), (proj2 (Z.ltb_lt _ _)).
  2: { rewrite Hl. exact (proj2 Hpos). }
  2,3: destruct Hs; unfold Vga.WIDTH, Vga.HEIGHT, Gilbert.WIDTH, Gilbert.HEIGHT in *; cbn in *; lia.
  cbn [orb]. assert (set_pixel x y color (vga s) = fb_write (vga s) (pos (x, y)) color) as ->.
  { unfold set_pixel, is_enabled. rewrite He. rewrite !(proj2 (Z.leb_gt _ _)); [done|..];
      destruct Hs; unfold Vga.WIDTH, Vga.HEIGHT, Gilbert.WIDTH, Gilbert.HEIGHT in *; cbn in *; lia. }
  split.
  - split; cbn [gil vga SHADOW_BUFFER]; [done|done|by rewrite length_insert|]. intros d' p Hd' Ep. cbn [gil vga SHADOW_BUFFER] in *.
    destruct (proj1 Ht d' Hd') as (x' & y' & Ep' & Hs' & _). rewrite Ep in Ep'. injection Ep' as ->.
    pose proof (on_screen_pos _ Hs') as Hpos'. rewrite pixel_at_fb_write by done.
    change (y * Vga.WIDTH + x) with (pos (x, y)). unfold paint. case_decide as E.
    + apply pos_inj in E as [= -> ->]; [|done..]. rewrite (d_to_xy_inj _ d' d _ Ht Hd' Hd Ep Ed), Z.eqb_refl.
      split; [|done]. apply list_lookup_insert_eq. lia.
    + destruct (Z.eqb_spec d' d) as [->|]; [congruence|]. rewrite list_lookup_insert_ne by lia. by apply Hp.
  - split; [done|]. by apply fb_write_touches.
Qed.

Lemma shows_ext s pages pages' :
  (∀ d, 0 ≤ d < Gilbert.TOTAL_PIXELS → pages d = pages' d) → shows s pages → shows s pages'.
Proof. intros H [? ? ? Hp]. split; [done..|]. intros d p Hd E. rewrite <- H by done. by apply Hp. Qed.

Lemma fill_indices_shows ds color : ∀ s pages,
  Forall (λ d, 0 ≤ d < Gilbert.TOTAL_PIXELS) ds → shows s pages →
  ∃ s', fill_indices ds color s = Ret s' ∧ shows s' (paint (λ k, bool_decide (k ∈ ds)) color pages) ∧ vis_ext s s'.
Proof.
  induction ds as [|d ds IH]; intros s pages Hds Hs; cbn [fill_indices].
  - exists s. split_and!; [done| |done]. eapply shows_ext, Hs. done.
  - apply Forall_cons in Hds as [Hd Hds]. destruct (proj1 (shows_tables _ _ Hs) d Hd) as (x & y & E & _).
    rewrite E. cbn [mbind outcome_bind].
    destruct (set_pixel_xy_shows s pages d x y color Hs Hd E) as [H1 E1].
    destruct (IH _ _ Hds H1) as (s' & -> & H2 & E2). exists s'. split_and!; [done| |by etransitivity].
    eapply shows_ext, H2. intros k Hk. unfold paint.
    destruct (Z.eqb_spec k d); repeat case_bool_decide; set_solver.
Qed.

Lemma fill_gilbert_range_shows a b color s pages : 0 ≤ a → shows s pages →
  ∃ s', fill_gilbert_range a b color s = Ret s' ∧
    shows s' (paint (λ k, (a <=? k) && (k <? b)) color pages) ∧ vis_ext s s'.
Proof.
  intros Ha Hs. unfold fill_gilbert_range.
  destruct (fill_indices_shows (seqZ a (Z.min b Gilbert.TOTAL_PIXELS - a)) color s pages)
    as (s' & E & H & Hx); [|done|].
  { apply Forall_forall. intros d Hd%elem_of_seqZ. lia. }
  exists s'. split_and!; [done| |done]. eapply shows_ext, H. intros k Hk. unfold paint.
  destruct (Z.leb_spec a k), (Z.ltb_spec k b); case_bool_decide as E'; rewrite elem_of_seqZ in E'; cbn; done || lia.
Qed.

Lemma addr_to_gilbert_index_spec addr :
  addr_to_gilbert_index addr =
  if (VIS_BASE <=? addr) && (addr <? VIS_END) then Some ((addr - VIS_BASE) / 256) else None.
Proof.
  unfold addr_to_gilbert_index. rewrite Z.shiftr_div_pow2 by lia. change (2 ^ 8) with 256.
  destruct (Z.ltb_spec addr VIS_BASE), (Z.leb_spec VIS_BASE addr); try lia; [done|].
  destruct (Z.leb_spec VIS_END addr), (Z.ltb_spec addr VIS_END); try lia; [done|]. cbn [orb andb].
  rewrite (proj2 (Z.leb_gt _ _)); [done|].
  apply Z.div_lt_upper_bound; [lia|]. unfold Gilbert.TOTAL_PIXELS, Gilbert.WIDTH, Gilbert.HEIGHT, VIS_BASE, VIS_END in *. lia.
Qed.

(** ** Notifications *)

Inductive vis_event : Type := Alloc (addr size : Z) | Dealloc (addr size : Z).
Definition event_wf (e : vis_event) : Prop :=
  match e with Alloc a n | Dealloc a n => 0 ≤ a ∧ 1 ≤ n ∧ a + n < 18446744073709551616 end.
Definition vis_step (e : vis_event) (s : Vis) : outcome Vis :=
  match e with Alloc a n => on_alloc a n s | Dealloc a n => on_dealloc a n s end.
Fixpoint vis_run (es : list vis_event) (s : Vis) : outcome Vis :=
  match es with
  | [] => Ret s
  | e :: es => s ← vis_step e s; vis_run es s
  end.

(** The abstract map: a notification colours the pages that the block, if it starts
    in the visualized range, overlaps. *)
Definition page_of (addr : Z) : Z := (addr - VIS_BASE) / 256.
Definition covers (a n k : Z) : bool :=
  (VIS_BASE <=? a) && (a <? VIS_END) && (a <? VIS_BASE + 256 * (k + 1)) && (VIS_BASE + 256 * k <? a + n).
Definition page_step (pages : Z → Z) (e : vis_event) : Z → Z :=
  match e with
  | Alloc a n => paint (covers a n) (alloc_color_for_addr a) pages
  | Dealloc a n => paint (covers a n) (free_color_for_addr a) pages
  end.
Definition initial_page (k : Z) : Z :=
  if k <? page_of KERNEL_END then BLUE else if k <? page_of HEAP_END then GREEN else CYAN.

Lemma draw_region_shows a n color s pages :
  0 ≤ a → 1 ≤ n → a + n < 18446744073709551616 → shows s pages →
  ∃ s', draw_region a n color s = Ret s' ∧ shows s' (paint (covers a n) color pages) ∧ vis_ext s s'.
Proof.
  intros Ha Hn Hb Hs. unfold draw_region. rewrite Z.min_l, Z.max_l by lia.
  rewrite !addr_to_gilbert_index_spec. 
  assert (Hpart : ∀ b, (∀ k, 0 ≤ k < Gilbert.TOTAL_PIXELS →
      covers a n k = ((a - VIS_BASE) / 256 <=? k) && (k <? b)) → VIS_BASE ≤ a →
    ∃ s', (if (a - VIS_BASE) / 256 <? b then fill_gilbert_range ((a - VIS_BASE) / 256) b color s else Ret s) = Ret s' ∧
      shows s' (paint (covers a n) color pages) ∧ vis_ext s s').
  { intros b Hc Hv. destruct (Z.ltb_spec ((a - VIS_BASE) / 256) b) as [Hlt|Hge].
    - destruct (fill_gilbert_range_shows ((a - VIS_BASE) / 256) b color s pages) as (s' & E & H & Hx);
        [apply Z.div_pos; lia|done|].
      exists s'. split_and!; [done| |done]. eapply shows_ext, H. intros k Hk. unfold paint. by rewrite Hc.
    - exists s. split_and!; [done| |done]. eapply shows_ext, Hs. intros k Hk. unfold paint.
      rewrite Hc by done. destruct (Z.leb_spec ((a - VIS_BASE) / 256) k), (Z.ltb_spec k b); done || lia. }
  destruct ((VIS_BASE <=? a) && (a <? VIS_END)) eqn:Ea.
  2: { exists s. split_and!; [done| |done]. eapply shows_ext, Hs. intros k _. unfold paint, covers. by rewrite Ea. }
  pose proof Ea as [?%Z.leb_le ?%Z.ltb_lt]%andb_true_iff.
  assert (Hdiv : ∀ k, (a <? VIS_BASE + 256 * (k + 1)) = ((a - VIS_BASE) / 256 <=? k)).
  { intros k. apply eq_true_iff_eq. rewrite Z.ltb_lt, Z.leb_le. 
    pose proof (div_mul_bounds (a - VIS_BASE) 256). lia. }
  destruct ((VIS_BASE <=? a + n - 1) && (a + n - 1 <? VIS_END)) eqn:Ee.
  - apply Hpart; [|done]. intros k Hk. unfold covers. rewrite Ea, Hdiv. cbn [andb]. f_equal.
    apply eq_true_iff_eq. rewrite !Z.ltb_lt. pose proof (div_mul_bounds (a + n - 1 - VIS_BASE) 256). lia.
  - apply andb_false_iff in Ee as [E%Z.leb_gt|E%Z.ltb_ge]; [lia|].
    rewrite (proj2 (Z.ltb_lt _ _)) by lia. apply Hpart; [|done]. intros k Hk. unfold covers. rewrite Ea, Hdiv.
    cbn [andb]. f_equal. rewrite !(proj2 (Z.ltb_lt _ _)); [done|lia|].
    unfold Gilbert.TOTAL_PIXELS, Gilbert.WIDTH, Gilbert.HEIGHT, VIS_BASE, VIS_END in *. lia.
Qed.

Lemma vis_run_shows es : ∀ s pages, Forall event_wf es → shows s pages →
  ∃ s', vis_run es s = Ret s' ∧ shows s' (foldl page_step pages es) ∧ vis_ext s s'.
Proof.
  induction es as [|e es IH]; intros s pages Hwf Hs; cbn [vis_run foldl]; [by exists s|].
  apply Forall_cons in Hwf as [He Hes].
  assert (∃ s1, vis_step e s = Ret s1 ∧ shows s1 (page_step pages e) ∧ vis_ext s s1) as (s1 & -> & H1 & E1).
  { destruct e as [a n|a n], He as (? & ? & ?); cbn [vis_step page_step];
      unfold on_alloc, on_dealloc, is_enabled; rewrite (shows_enabled _ _ Hs); by apply draw_region_shows. }
  destruct (IH s1 _ Hes H1) as (s' & E & H & E2). exists s'. split_and!; [done|done|by etransitivity].
Qed.

(** The graphics part of the boot sequence: [vga::init], [gilbert::init] if the
    screen is enabled, [memvis::init]. *)
Definition boot_graphics (m : ram) : outcome Vis :=
  let v := vga_init (mkVga false m) in
  g ← (if is_enabled v then gilbert_init Gilbert_initial else Ret Gilbert_initial);
  memvis_init (mkVis g v (replicate (Z.to_nat (320 * 200)) 0)).

Lemma initial_page_paint d : 0 ≤ d < Gilbert.TOTAL_PIXELS →
  paint (λ k, (12288 <=? k) && (k <? Gilbert.TOTAL_PIXELS)) CYAN
    (paint (λ k, (4096 <=? k) && (k <? 12288)) GREEN
       (paint (λ k, (0 <=? k) && (k <? 4096)) BLUE (λ _, BLACK))) d = initial_page d.
Proof.
  intros Hd. unfold paint, initial_page.
  change (page_of KERNEL_END) with 4096. change (page_of HEAP_END) with 12288.
  destruct (Z.leb_spec 12288 d), (Z.leb_spec 4096 d), (Z.leb_spec 0 d), (Z.ltb_spec d 4096),
    (Z.ltb_spec d 12288), (Z.ltb_spec d Gilbert.TOTAL_PIXELS); cbn; reflexivity || lia.
Qed.

Lemma memvis_init_shows s : shows s (λ _, BLACK) →
  ∃ s', memvis_init s = Ret s' ∧ shows s' initial_page ∧ vis_ext s s'.
Proof.
  intros Hs. unfold memvis_init, is_enabled. rewrite (shows_enabled _ _ Hs). cbn [negb]. cbv zeta.
  assert (addr_to_gilbert_index VIS_BASE = Some 0) as -> by reflexivity.
  assert (addr_to_gilbert_index KERNEL_END = Some 4096) as -> by reflexivity.
  assert (addr_to_gilbert_index HEAP_START = Some 4096) as -> by reflexivity.
  assert (addr_to_gilbert_index HEAP_END = Some 12288) as -> by reflexivity.
  assert (addr_to_gilbert_index PROGRAM_START = Some 12288) as -> by reflexivity.
  cbn [from_option id].
  destruct (fill_gilbert_range_shows 0 4096 BLUE s _ ltac:(lia) Hs) as (s1 & E1 & H1 & X1).
  rewrite E1, mbind_Ret.
  destruct (fill_gilbert_range_shows 4096 12288 GREEN s1 _ ltac:(lia) H1) as (s2 & E2 & H2 & X2).
  rewrite E2, mbind_Ret.
  destruct (fill_gilbert_range_shows 12288 Gilbert.TOTAL_PIXELS CYAN s2 _ ltac:(lia) H2) as (s3 & E3 & H3 & X3).
  exists s3. split; [exact E3|]. split.
  - eapply shows_ext, H3. intros d Hd. by apply initial_page_paint.
  - transitivity s1; [exact X1|]. transitivity s2; [exact X2|exact X3].
Qed.

Lemma boot_graphics_shows m : m VGA_STATUS_ADDR = VGA_MODE_13H →
  ∃ s, boot_graphics m = Ret s ∧ shows s initial_page ∧ touches (λ _, True) (mkVga true m) (vga s).
Proof.
  intros Hm. unfold boot_graphics, vga_init. cbn [vmem]. rewrite Hm, Z.eqb_refl.
  pose proof (clear_touches BLACK (mkVga true m)) as Ht. pose proof Ht as [He _]. cbn [VGA_ENABLED] in He.
  pose proof (λ j, clear_pixels BLACK (mkVga true m) j eq_refl) as Hc.
  revert Ht He Hc. generalize (clear BLACK (mkVga true m)) as v. intros v Ht He Hc.
  unfold is_enabled at 1. rewrite He.
  destruct gilbert_tables_ok as (g & Eg & _ & Hg1 & Hg2 & _). rewrite Eg, mbind_Ret.
  destruct (memvis_init_shows (mkVis g v (replicate (Z.to_nat (320 * 200)) 0))) as (s & E & Hs & [_ Hx]).
  { split; cbn [gil vga SHADOW_BUFFER].
    - split; assumption.
    - exact He.
    - rewrite length_replicate, Z2Nat.id; lia || reflexivity.
    - intros d p Hd Ep. destruct (Hg1 d Hd) as (x & y & E' & Hs & _). rewrite Ep in E'. injection E' as ->.
      apply on_screen_pos in Hs. split; [|by apply Hc]. apply lookup_replicate_2.
      unfold Vga.TOTAL_PIXELS, Vga.WIDTH, Vga.HEIGHT in Hs. lia. }
  exists s. split; [exact E|]. split; [exact Hs|]. transitivity v; [exact Ht|exact Hx].
Qed.

(** C38: after booting in graphics mode and any sequence of allocations and
    deallocations, nothing panics; the pixel of every address of the visualized
    range shows, on the screen and in the shadow buffer, the colour of the last
    block reported that overlaps its 256-byte page (or the initial colour of its
    region); distinct pages have distinct pixels, and nothing but the framebuffer
    is written. *)
Theorem memvis_refines m es :
  m VGA_STATUS_ADDR = VGA_MODE_13H → Forall event_wf es →
  ∃ s', (s ← boot_graphics m; vis_run es s) = Ret s' ∧
    (∀ a, VIS_BASE ≤ a < VIS_END → ∃ x y, addr_to_xy s' a = Ret (Some (x, y)) ∧
       let c := foldl page_step initial_page es (page_of a) in
       get_pixel s' x y = Ret c ∧ pixel_at (vga s') (y * 320 + x) = c ∧
       ∀ b, VIS_BASE ≤ b < VIS_END → addr_to_xy s' b = Ret (Some (x, y)) → page_of b = page_of a) ∧
    touches (λ _, True) (mkVga true m) (vga s').
Proof.
  intros Hm Hes. destruct (boot_graphics_shows m Hm) as (s & -> & Hs & Hb). cbn [mbind outcome_bind].
  destruct (vis_run_shows es s _ Hes Hs) as (s' & -> & [Ht _ Hl Hp] & [_ Hx]). exists s'.
  split; [done|]. split; [|by etransitivity].
  assert (Hpage : ∀ a, VIS_BASE ≤ a < VIS_END → addr_to_gilbert_index a = Some (page_of a) ∧
                        0 ≤ page_of a < Gilbert.TOTAL_PIXELS).
  { intros a Ha. rewrite addr_to_gilbert_index_spec, (proj2 (Z.leb_le _ _)), (proj2 (Z.ltb_lt _ _)) by lia.
    split; [done|]. unfold page_of, Gilbert.TOTAL_PIXELS, Gilbert.WIDTH, Gilbert.HEIGHT, VIS_BASE, VIS_END in *.
    split; [apply Z.div_pos; lia|apply Z.div_lt_upper_bound; lia]. }
  intros a Ha. destruct (Hpage a Ha) as [Ea Hd]. destruct (proj1 Ht _ Hd) as (x & y & E & Hsc & _).
  exists x, y. unfold addr_to_xy. rewrite Ea, E. destruct (Hp _ _ Hd E) as [Hsh Hpx].
  apply on_screen_pos in Hsc. split_and!; [done| |done|].
  - unfold get_pixel. change (y * 320 + x) with (pos (x, y)).
    rewrite u64_small by (unfold Vga.TOTAL_PIXELS, Vga.WIDTH, Vga.HEIGHT in Hsc; lia).
    rewrite (proj2 (Z.ltb_lt _ _)) by exact (proj2 Hsc). by rewrite Hsh.
  - intros b Hbr. destruct (Hpage b Hbr) as [Eb Hdb]. rewrite Eb.
    destruct (d_to_xy (gil s') (page_of b)) eqn:Eq; [|done..]. intros [= ->].
    by eapply (d_to_xy_inj (gil s')).
Qed.

Definition demo_ram : ram := λ a, if a =? VGA_STATUS_ADDR then VGA_MODE_13H else 0.

Lemma memvis_refines_witness :
  ∃ s' x y, (s ← boot_graphics demo_ram; vis_run [Alloc 0x200000 1024] s) = Ret s' ∧
    addr_to_xy s' 0x200010 = Ret (Some (x, y)) ∧ get_pixel s' x y = Ret RED.
Proof.
  destruct (memvis_refines demo_ram [Alloc 0x200000 1024]) as (s' & E & H & _).
  - reflexivity.
  - constructor; [cbn; lia|constructor].
  - destruct (H 0x200010) as (x & y & Hxy & Hc & _); [unfold VIS_BASE, VIS_END; lia|].
    exists s', x, y. split; [exact E|]. split; [exact Hxy|exact Hc].
Defined.
