(* ===== verification/PortIO.v ===== *)
(** Port input and output (src/io.rs).  The devices are a parameter: a type of
    machine states with the effect of the four port instructions.  Drivers are
    programs in a state and outcome monad over it. *)

From S2P Require Import Prelude.

Class Ports (D : Type) : Type := {
  port_inb : Z → D → D * Z;
  port_outb : Z → Z → D → D;
  port_inw : Z → D → D * Z;
  port_outw : Z → Z → D → D }.

Definition ioM (D A : Type) : Type := D → outcome (D * A).
#[global] Instance ioM_ret {D} : MRet (ioM D) := λ A a d, Ret (d, a).
#[global] Instance ioM_bind {D} : MBind (ioM D) := λ A B f m d, '(d, a) ← m d; f a d.

Section io.
Context {D : Type} `{!Ports D}.

Definition inb (port : Z) : ioM D Z := λ d, Ret (port_inb port d).
Definition outb (port value : Z) : ioM D unit := λ d, Ret (port_outb port value d, tt).
Definition inw (port : Z) : ioM D Z := λ d, Ret (port_inw port d).
Definition outw (port value : Z) : ioM D unit := λ d, Ret (port_outw port value d, tt).
Definition io_wait : ioM D unit := outb 0x80 0.

Lemma ioM_bind_Ret {A B} (m : ioM D A) (f : A → ioM D B) d d' a :
  m d = Ret (d', a) → (m ≫= f) d = f a d'.
Proof. intros E. unfold mbind, ioM_bind. by rewrite E. Qed.
End io.
