(* ===== verification/Mouse.v ===== *)
(** The PS/2 mouse driver (src/mouse.rs): the initialisation handshake, the packet
    state machine fed by the interrupt handler or by polling, and the cursor
    position. *)

From S2P Require Import Prelude PortIO.

Definition PS2_DATA : Z := 0x60.
Definition PS2_STATUS : Z := 0x64.
Definition PS2_COMMAND : Z := 0x64.
Definition CMD_ENABLE_AUX : Z := 0xA8.
Definition CMD_WRITE_AUX : Z := 0xD4.
Definition MOUSE_SET_DEFAULTS : Z := 0xF6.
Definition MOUSE_ENABLE_REPORTING : Z := 0xF4.
Definition MOUSE_ACK : Z := 0xFA.
Definition SCREEN_WIDTH : Z := 320.
Definition SCREEN_HEIGHT : Z := 200.

Record Mouse : Type := mkMouse {
  MOUSE_X : Z; MOUSE_Y : Z;
  CURSOR_DIRTY : bool; MOUSE_INITIALIZED : bool;
  PACKET_BYTE_INDEX : Z; PACKET_0 : Z; PACKET_1 : Z; PACKET_2 : Z }.
Definition Mouse_initial : Mouse := mkMouse 160 100 true false 0 0 0 0.

Definition set_initialized (m : Mouse) : Mouse :=
  mkMouse (MOUSE_X m) (MOUSE_Y m) (CURSOR_DIRTY m) true (PACKET_BYTE_INDEX m) (PACKET_0 m) (PACKET_1 m) (PACKET_2 m).
Definition store_0 (m : Mouse) (v : Z) : Mouse :=
  mkMouse (MOUSE_X m) (MOUSE_Y m) (CURSOR_DIRTY m) (MOUSE_INITIALIZED m) 1 v (PACKET_1 m) (PACKET_2 m).
Definition store_1 (m : Mouse) (v : Z) : Mouse :=
  mkMouse (MOUSE_X m) (MOUSE_Y m) (CURSOR_DIRTY m) (MOUSE_INITIALIZED m) 2 (PACKET_0 m) v (PACKET_2 m).
Definition store_2 (m : Mouse) (v : Z) : Mouse :=
  mkMouse (MOUSE_X m) (MOUSE_Y m) (CURSOR_DIRTY m) (MOUSE_INITIALIZED m) 0 (PACKET_0 m) (PACKET_1 m) v.
Definition reset_index (m : Mouse) : Mouse :=
  mkMouse (MOUSE_X m) (MOUSE_Y m) (CURSOR_DIRTY m) (MOUSE_INITIALIZED m) 0 (PACKET_0 m) (PACKET_1 m) (PACKET_2 m).

(** ** The cursor *)

Definition i16 (z : Z) : Z := (z + 32768) mod 65536 - 32768.
Definition clamp (z lo hi : Z) : Z := Z.min (Z.max z lo) hi.

(** [raw as i16], with [| 0xFF00u16 as i16] if the sign bit is set. *)
Definition delta (negative : bool) (raw : Z) : Z :=
  if negative then Z.lor raw (i16 0xFF00) else raw.

Definition mouse_process_packet (m : Mouse) : Mouse :=
  let flags := PACKET_0 m in
  let dx_raw := PACKET_1 m in
  let dy_raw := PACKET_2 m in
  if negb (Z.land flags 0xC0 =? 0) then m
  else
    let dx := delta (negb (Z.land flags 0x10 =? 0)) dx_raw in
    let dy := delta (negb (Z.land flags 0x20 =? 0)) dy_raw in
    let old_x := MOUSE_X m in
    let old_y := MOUSE_Y m in
    let new_x := clamp (i16 (old_x + dx)) 0 (SCREEN_WIDTH - 1) in
    let new_y := clamp (i16 (old_y - dy)) 0 (SCREEN_HEIGHT - 1) in
    let dirty := if negb (new_x =? old_x) || negb (new_y =? old_y) then true else CURSOR_DIRTY m in
    mkMouse new_x new_y dirty (MOUSE_INITIALIZED m) (PACKET_BYTE_INDEX m) (PACKET_0 m) (PACKET_1 m) (PACKET_2 m).

Definition mouse_position (m : Mouse) : Z * Z := (MOUSE_X m, MOUSE_Y m).
Definition clear_dirty (m : Mouse) : Mouse :=
  mkMouse (MOUSE_X m) (MOUSE_Y m) false (MOUSE_INITIALIZED m) (PACKET_BYTE_INDEX m) (PACKET_0 m) (PACKET_1 m) (PACKET_2 m).

(** A byte from the mouse: the match of [handle_interrupt]. *)
Definition accept_byte (m : Mouse) (data : Z) : Mouse :=
  match PACKET_BYTE_INDEX m with
  | 0 => if negb (Z.land data 0x08 =? 0) then store_0 m data else m
  | 1 => store_1 m data
  | 2 => mouse_process_packet (store_2 m data)
  | _ => reset_index m
  end.

(** ** The controller *)
Section controller.
Context {D : Type} `{!Ports D}.

Definition mouse_handle_interrupt (m : Mouse) : ioM D Mouse :=
  status ← inb PS2_STATUS;
  if Z.land status 0x20 =? 0 then mret m
  else
    data ← inb PS2_DATA;
    mret (accept_byte m data).

Definition mouse_poll (m : Mouse) : ioM D (Mouse * bool) :=
  status ← inb PS2_STATUS;
  if Z.land status 0x21 =? 0x21 then
    m ← mouse_handle_interrupt m;
    mret (m, true)
  else mret (m, false).

(** The loops run at most [n] = 100 times. *)
Fixpoint drain_loop (n : nat) : ioM D unit :=
  match n with
  | O => mret tt
  | S n =>
      status ← inb PS2_STATUS;
      if Z.land status 0x01 =? 0 then mret tt
      else
        _ ← inb PS2_DATA;
        _ ← io_wait;
        drain_loop n
  end.
Definition drain_output_buffer : ioM D unit := drain_loop 100.

Fixpoint wait_input_loop (n : nat) : ioM D bool :=
  match n with
  | O => mret false
  | S n =>
      status ← inb PS2_STATUS;
      if Z.land status 0x02 =? 0 then mret true else wait_input_loop n
  end.
Definition wait_input_ready : ioM D bool := wait_input_loop 100.

Fixpoint wait_output_loop (n : nat) : ioM D bool :=
  match n with
  | O => mret false
  | S n =>
      status ← inb PS2_STATUS;
      if negb (Z.land status 0x01 =? 0) then mret true else wait_output_loop n
  end.
Definition wait_output_ready : ioM D bool := wait_output_loop 100.

Definition send_command (cmd : Z) : ioM D bool :=
  ready ← wait_input_ready;
  if negb ready then mret false
  else
    _ ← outb PS2_COMMAND cmd;
    mret true.

Definition send_mouse_command (cmd : Z) : ioM D bool :=
  ok ← send_command CMD_WRITE_AUX;
  if negb ok then mret false
  else
    ready ← wait_input_ready;
    if negb ready then mret false
    else
      _ ← outb PS2_DATA cmd;
      ready ← wait_output_ready;
      if negb ready then mret false
      else
        response ← inb PS2_DATA;
        mret (response =? MOUSE_ACK).

Definition mouse_init (m : Mouse) : ioM D (Mouse * bool) :=
  _ ← drain_output_buffer;
  ok ← send_command CMD_ENABLE_AUX;
  if negb ok then mret (m, false)
  else
    _ ← drain_output_buffer;
    ok ← send_mouse_command MOUSE_SET_DEFAULTS;
    if negb ok then mret (m, false)
    else
      ok ← send_mouse_command MOUSE_ENABLE_REPORTING;
      if negb ok then mret (m, false)
      else mret (set_initialized m, true).
End controller.

(** ** Invariant *)

Definition mouse_ok (m : Mouse) : Prop :=
  0 ≤ MOUSE_X m < SCREEN_WIDTH ∧ 0 ≤ MOUSE_Y m < SCREEN_HEIGHT ∧ 0 ≤ PACKET_BYTE_INDEX m ≤ 2.

Lemma clamp_range z lo hi : lo ≤ hi → lo ≤ clamp z lo hi ≤ hi.
Proof. unfold clamp. lia. Qed.

Lemma mouse_process_packet_ok m : mouse_ok m → mouse_ok (mouse_process_packet m).
Proof.
  intros (Hx & Hy & Hi). unfold mouse_process_packet. case_bool; [done|].
  split_and!; cbn; try apply clamp_range; unfold SCREEN_WIDTH, SCREEN_HEIGHT in *;
    unfold clamp; lia.
Qed.

Lemma accept_byte_ok m b : mouse_ok m → mouse_ok (accept_byte m b).
Proof.
  intros Hm. unfold accept_byte. destruct Hm as (Hx & Hy & Hi).
  destruct (PACKET_BYTE_INDEX m) as [|[p|[p|p|]|]|p] eqn:E; try lia.
  - case_bool; split_and!; cbn; lia.
  - apply mouse_process_packet_ok. split_and!; cbn; lia.
  - split_and!; cbn; lia.
Qed.

(** A delta is a 9-bit two's complement number. *)
Lemma delta_signed s raw : 0 ≤ raw < 256 → delta s raw = if s then raw - 256 else raw.
Proof.
  intros Hr. unfold delta. destruct s; [|done]. change (i16 0xFF00) with (- 2 ^ 8).
  rewrite Z.lor_comm, <- (Z.add_nocarry_lor (- 2 ^ 8) raw); [lia|].
  apply Z.bits_inj'. intros n Hn. rewrite Z.land_spec, Z.bits_0. apply andb_false_iff.
  destruct (Z_lt_le_dec n 8).
  - left. rewrite Z.bits_opp by lia. change (Z.pred (2 ^ 8)) with (Z.ones 8).
    by rewrite Z.ones_spec_low by lia.
  - right. rewrite Z.bits_above_log2; [done|lia|].
    destruct (Z.eq_dec raw 0) as [->|]; [cbn; lia|]. apply Z.log2_lt_pow2; [lia|].
    pose proof (Z.pow_le_mono_r 2 8 n). lia.
Qed.

Lemma i16_small z : -32768 ≤ z < 32768 → i16 z = z.
Proof. intros. unfold i16. rewrite Z.mod_small; lia. Qed.

(** Whatever bytes the mouse sends, the cursor stays on the screen and the
    packet index in range.  Between packets, a byte without the marker bit is
    skipped, and three bytes [f], [dx], [dy] with the marker set in [f] move the
    cursor by the two 9-bit two's complement deltas, clamped to the screen and with
    the vertical axis inverted, unless [f] reports an overflow, in which case they
    have no effect; the cursor is marked for redrawing exactly when it moved or was
    marked before. *)
Lemma mouse_spec m bs :
  mouse_ok m →
  mouse_ok (foldl accept_byte m bs) ∧
  (PACKET_BYTE_INDEX m = 0 → ∀ f dx dy, 0 ≤ dx < 256 → 0 ≤ dy < 256 →
     if Z.land f 0x08 =? 0 then accept_byte m f = m
     else
       let m' := foldl accept_byte m [f; dx; dy] in
       let sx := if Z.land f 0x10 =? 0 then dx else dx - 256 in
       let sy := if Z.land f 0x20 =? 0 then dy else dy - 256 in
       PACKET_BYTE_INDEX m' = 0 ∧
       if Z.land f 0xC0 =? 0 then
         mouse_position m' = (clamp (MOUSE_X m + sx) 0 319, clamp (MOUSE_Y m - sy) 0 199) ∧
         CURSOR_DIRTY m' = CURSOR_DIRTY m || negb (bool_decide (mouse_position m' = mouse_position m))
       else mouse_position m' = mouse_position m ∧ CURSOR_DIRTY m' = CURSOR_DIRTY m).
Proof.
  intros Hm. split.
  - revert m Hm. induction bs as [|b bs IH]; intros m Hm; [done|]. by apply IH, accept_byte_ok.
  - intros H0 f dx dy Hdx Hdy. destruct (Z.land f 8 =? 0) eqn:Ef.
    { unfold accept_byte. rewrite H0, Ef. done. }
    destruct Hm as (Hx & Hy & _). unfold SCREEN_WIDTH, SCREEN_HEIGHT in *.
    assert (foldl accept_byte m [f; dx; dy] = mouse_process_packet (store_2 (store_1 (store_0 m f) dx) dy)) as ->.
    { cbn [foldl]. unfold accept_byte at 3. by rewrite H0, Ef. }
    unfold mouse_process_packet.
    cbn [PACKET_0 PACKET_1 PACKET_2 MOUSE_X MOUSE_Y store_0 store_1 store_2].
    destruct (Z.land f 0xC0 =? 0); cbn [negb]; [|split_and!; reflexivity]. rewrite !delta_signed by done.
    split; [done|]. unfold mouse_position. cbn [MOUSE_X MOUSE_Y CURSOR_DIRTY store_0 store_1 store_2].
    set (sx := if negb _ then dx - 256 else dx). set (sy := if negb _ then dy - 256 else dy).
    assert ((if Z.land f 0x10 =? 0 then dx else dx - 256) = sx) as -> by (unfold sx; destruct (Z.land f 16 =? 0); reflexivity).
    assert ((if Z.land f 0x20 =? 0 then dy else dy - 256) = sy) as -> by (unfold sy; destruct (Z.land f 32 =? 0); reflexivity).
    assert (-256 ≤ sx < 256) by (unfold sx; case_match; lia). assert (-256 ≤ sy < 256) by (unfold sy; case_match; lia).
    unfold SCREEN_WIDTH, SCREEN_HEIGHT. rewrite !i16_small by lia. split; [done|].
    destruct (Z.eqb_spec (clamp (MOUSE_X m + sx) 0 (320 - 1)) (MOUSE_X m)),
      (Z.eqb_spec (clamp (MOUSE_Y m - sy) 0 (200 - 1)) (MOUSE_Y m)); cbn [negb orb];
      case_bool_decide as E; cbn [negb]; rewrite ?orb_true_r, ?orb_false_r; try done;
      [exfalso; apply E; f_equal; done|injection E as E1 E2; tauto..].
Qed.

