(* ===== verification/Meminfo.v ===== *)
(** The unified memory information (src/meminfo.rs): it composes the queries of the
    kernel heap, the program region, the registry of task memory and the scheduler,
    for the tooltip of the visualizer and the MEMSTATS command. *)

From stdpp Require Import strings.
From S2P Require Import Prelude FreeList Tiling ProgramAlloc BTreeMap ByteMem RegionAllocator Executable.
From S2P Require Import Allocator Task Scheduler.
#[local] Open Scope Z_scope.

(** The bytes of an ASCII string literal. *)
Definition text (s : String.string) : list Z :=
  (λ c, Z.of_N (Ascii.N_of_ascii c)) <$> String.list_ascii_of_string s.
#[global] Arguments text s%_string.

Definition KERNEL_START : Z := 0x100000.
Definition KERNEL_END : Z := 0x200000.
Definition HEAP_START : Z := 0x200000.
Definition HEAP_END : Z := 0x400000.
Definition PROGRAM_START : Z := 0x400000.
Definition PROGRAM_END : Z := 0x1000000.
Definition BYTES_PER_PIXEL : Z := 256.

(** The state the queries read. *)
Record MemState : Type := mkMemState {
  ms_heap : LinkedListAllocator;
  ms_exec : exec_state ProgramAllocator;
  ms_sched : option Scheduler }.

Record MemoryRegionInfo : Type := mkMemoryRegionInfo {
  mi_start : Z; mi_end : Z; region_name : list Z; is_allocated : bool }.

Definition get_task_name_static (m : MemState) (task_id : option Z) : outcome (list Z) :=
  match task_id with
  | None => Ret (text "Kernel")
  | Some id =>
      tasks ← get_all_tasks (ms_sched m);
      Ret (match list_find (λ t, t.1.1 = id) tasks with
           | Some (_, t) => t.1.2
           | None => text "Task"
           end)
  end.

Definition find_region (m : MemState) (addr : Z) : outcome MemoryRegionInfo :=
  if addr <? KERNEL_END then Ret (mkMemoryRegionInfo KERNEL_START KERNEL_END (text "Kernel") true)
  else if addr <? HEAP_END then
    a ← Allocator.find_allocation (ms_heap m) addr;
    match a with
    | Some (start, end_) =>
        let pixel_start := addr / BYTES_PER_PIXEL * BYTES_PER_PIXEL in
        let pixel_end := u64 (pixel_start + BYTES_PER_PIXEL) in
        o ← find_majority_owner (ms_heap m) pixel_start pixel_end;
        name ← match o with
               | Some (task_id, _) => get_task_name_static m task_id
               | None => Ret (text "Heap")
               end;
        Ret (mkMemoryRegionInfo start end_ name true)
    | None =>
        f ← Allocator.find_free_region (ms_heap m) addr;
        match f with
        | Some (start, end_) => Ret (mkMemoryRegionInfo start end_ (text "Heap") false)
        | None => Ret (mkMemoryRegionInfo HEAP_START HEAP_END (text "Heap") false)
        end
    end
  else if addr <? PROGRAM_END then
    match find_program_by_addr (ms_exec m) addr with
    | Some (start, end_, name) => Ret (mkMemoryRegionInfo start end_ name true)
    | None =>
        a ← ProgramAlloc.find_allocation (region (ms_exec m)) addr;
        match a with
        | Some (start, end_) =>
            name ← match find_task_by_program_addr (ms_exec m) addr with
                   | Some task_id => get_task_name_static m (Some task_id)
                   | None => Ret (text "Stack")
                   end;
            Ret (mkMemoryRegionInfo start end_ name true)
        | None =>
            f ← ProgramAlloc.find_free_region (region (ms_exec m)) addr;
            match f with
            | Some (start, end_) => Ret (mkMemoryRegionInfo start end_ (text "Program") false)
            | None => Ret (mkMemoryRegionInfo PROGRAM_START PROGRAM_END (text "Program") false)
            end
        end
    end
  else Ret (mkMemoryRegionInfo addr (u64 (addr + 256)) (text "Unknown") false).

Record RegionStats : Type := mkRegionStats {
  rs_name : list Z; rs_start : Z; rs_end : Z; rs_used : Z; rs_free : Z }.

Definition get_region_stats (m : MemState) : outcome (list RegionStats) :=
  '(heap_used, heap_free) ← get_heap_stats (ms_heap m);
  '(prog_used, prog_free) ← ProgramAlloc.stats (region (ms_exec m));
  Ret [mkRegionStats (text "Kernel") KERNEL_START KERNEL_END (KERNEL_END - KERNEL_START) 0;
       mkRegionStats (text "Heap") HEAP_START HEAP_END heap_used heap_free;
       mkRegionStats (text "Program") PROGRAM_START PROGRAM_END prog_used prog_free].

Record TaskMemoryInfo : Type := mkTaskMemoryInfo {
  tm_id : Z; tm_name : list Z; tm_state : TaskState;
  tm_stack : option (Z * Z); tm_program : option (Z * Z * list Z);
  tm_program_heap : list (Z * Z); tm_kernel_heap : list (Z * Z) }.

Definition task_memory_info (m : MemState) (task : Z * list Z * TaskState) : outcome TaskMemoryInfo :=
  let '(id, name, st) := task in
  let alloc := snd <$> (snd <$> list_find (λ a, a.1 = id) (get_all_task_memory (ms_exec m))) in
  kernel_heap ← get_task_heap_allocations (ms_heap m) (Some id);
  Ret (mkTaskMemoryInfo id name st (stack <$> alloc) (alloc ≫= program)
         (default [] (heap_blocks <$> alloc)) kernel_heap).

(** [tasks.into_iter().map(..).collect()] *)
Fixpoint collect {A B} (f : A → outcome B) (l : list A) : outcome (list B) :=
  match l with
  | [] => Ret []
  | a :: l => b ← f a; bs ← collect f l; Ret (b :: bs)
  end.
Definition get_task_memory_info (m : MemState) : outcome (list TaskMemoryInfo) :=
  tasks ← get_all_tasks (ms_sched m);
  collect (task_memory_info m) tasks.

Definition get_kernel_heap_allocations (m : MemState) : outcome (list (Z * Z)) :=
  get_task_heap_allocations (ms_heap m) None.

(** ** Consistency with the allocators *)

(** The kernel's memory: the heap and the program region with their live blocks,
    every task's blocks registered, and a scheduler. *)
Record mem_inv (m : MemState) (used : list (Z * Z * Z)) (others : list (Z * Z)) : Prop := mkMemInv {
  mem_heap : heap_inv (ms_heap m) used;
  mem_heap_start : heap_start (ms_heap m) = HEAP_START;
  mem_heap_end : heap_end (ms_heap m) = HEAP_END;
  mem_exec : exec_inv (ms_exec m) others;
  mem_sizes : Forall (λ p, sizes_ok (task_blocks p.2)) (allocs_of (ms_exec m));
  mem_sched : is_Some (ms_sched m) }.

Definition program_blocks (m : MemState) (others : list (Z * Z)) : list (Z * Z) :=
  owned (allocs_of (ms_exec m)) ++ others.

Lemma task_name_ret m t : is_Some (ms_sched m) → ∃ s, get_task_name_static m t = Ret s.
Proof. intros [s Hs]. destruct t as [i|]; cbn; [|by eexists]. rewrite Hs. cbn. by eexists. Qed.

(** The program that [find_program_by_addr] names holds the address. *)
Lemma find_program_elem l addr b e nm : find_program l addr = Some (b, e, nm) →
  ∃ t al n, (t, al) ∈ l ∧ program al = Some (b, n, nm) ∧ in_range addr b n = true ∧ e = u64 (b + n).
Proof.
  induction l as [|[t al] l IH]; cbn; [done|]. destruct (program al) as [[[b' n] nm']|] eqn:Ep.
  - destruct (in_range addr b' n) eqn:Er.
    + intros [= <- <- <-]. exists t, al, n. split; [apply elem_of_cons; by left|done].
    + intros (t' & al' & n' & ? & ?)%IH. exists t', al', n'. split; [apply elem_of_cons; by right|done].
  - intros (t' & al' & n' & ? & ?)%IH. exists t', al', n'. split; [apply elem_of_cons; by right|done].
Qed.

Lemma task_block_live m used others t al a n x :
  mem_inv m used others → (t, al) ∈ allocs_of (ms_exec m) → (a, n) ∈ task_blocks al → a ≤ x < a + n →
  in_blocks (program_blocks m others) x.
Proof.
  intros Hm Hin Hb Hx. destruct (mem_exec _ _ _ Hm) as (_ & Hs & _).
  pose proof (mem_sizes _ _ _ Hm) as Hok. rewrite Forall_forall in Hok. specialize (Hok _ Hin).
  unfold sizes_ok in Hok. rewrite Forall_forall in Hok. specialize (Hok _ Hb). cbn [snd] in Hok.
  exists a, (ra_rounded n). split; [|lia]. apply elem_of_app. left.
  apply bt_elem_get in Hin; [|done]. rewrite (owned_remove _ t al Hin).
  apply elem_of_app. left. by apply (list_elem_of_fmap_2 reserve _ (a, n)).
Qed.

(** Where the blocks are. *)
Lemma heap_block_range m used others x :
  mem_inv m used others → in_blocks used.*1 x → HEAP_START ≤ x < HEAP_END.
Proof.
  intros Hm (a & n & Hin & Hx). destruct (mem_heap _ _ _ Hm) as [ts Hts].
  apply list_elem_of_fmap in Hin as ([[a' n'] t] & [= <- <-] & Hin).
  destruct (heap_tiling_used _ _ _ a n t Hts Hin) as (? & _ & ? & _).
  rewrite (mem_heap_start _ _ _ Hm), (mem_heap_end _ _ _ Hm) in *. lia.
Qed.

Lemma program_block_range m used others x :
  mem_inv m used others → in_blocks (program_blocks m others) x → PROGRAM_START ≤ x < PROGRAM_END.
Proof.
  intros Hm (a & n & Hin & Hx). destruct (mem_exec _ _ _ Hm) as (_ & _ & Hinv).
  destruct (pa_inv_live _ _ _ Hinv) as (_ & H & _). apply H in Hin as (? & ? & ?).
  unfold PROGRAM_REGION_START, PROGRAM_REGION_END, PROGRAM_START, PROGRAM_END in *. lia.
Qed.

Lemma find_region_heap m used others addr :
  mem_inv m used others → KERNEL_END ≤ addr < HEAP_END →
  ∃ i, find_region m addr = Ret i ∧ mi_start i ≤ addr < mi_end i ∧
    (is_allocated i = true ↔ in_blocks used.*1 addr).
Proof.
  intros Hm Haddr. unfold find_region.
  rewrite (proj2 (Z.ltb_ge _ _)), (proj2 (Z.ltb_lt _ _)) by lia.
  destruct (heap_queries_ok (ms_heap m) used addr (mem_heap _ _ _ Hm)) as (r1 & r2 & r3 & -> & _ & -> & H).
  cbn [mbind outcome_bind]. destruct H as [(a & s & t & Hin & Ha & -> & _ & ->)|(-> & _ & Hno & H3)].
  - destruct (find_majority_owner_ret (ms_heap m) used (addr / BYTES_PER_PIXEL * BYTES_PER_PIXEL)
      (u64 (addr / BYTES_PER_PIXEL * BYTES_PER_PIXEL + BYTES_PER_PIXEL)) (mem_heap _ _ _ Hm)) as [o ->].
    cbn [mbind outcome_bind].
    assert (∃ nm, match o with Some (task_id, _) => get_task_name_static m task_id
                  | None => Ret (text "Heap") end = Ret nm) as [nm ->].
    { destruct o as [[t' n]|]; [apply task_name_ret, Hm|by eexists]. }
    eexists. split; [done|]. split; [exact Ha|]. split; [|done]. intros _. exists a, s.
    split; [|done]. apply list_elem_of_fmap. by exists (a, s, t).
  - destruct r3 as [[lo hi]|].
    + eexists. split; [done|]. split; [apply H3|]. split; [done|]. tauto.
    + rewrite (mem_heap_start _ _ _ Hm), (mem_heap_end _ _ _ Hm) in H3.
      unfold KERNEL_END, HEAP_START in *. lia.
Qed.

Lemma find_region_program m used others addr :
  mem_inv m used others → PROGRAM_START ≤ addr < PROGRAM_END →
  ∃ i, find_region m addr = Ret i ∧ mi_start i ≤ addr < mi_end i ∧
    (is_allocated i = true ↔ in_blocks (program_blocks m others) addr).
Proof.
  intros Hm Haddr. unfold find_region.
  rewrite !(proj2 (Z.ltb_ge _ _)), (proj2 (Z.ltb_lt _ _)) by (unfold KERNEL_END, HEAP_END, PROGRAM_START in *; lia).
  pose proof (mem_exec _ _ _ Hm) as Hex. pose proof Hex as (Hi & _ & Hinv).
  destruct (find_program_by_addr (ms_exec m) addr) as [[[b e] nm]|] eqn:Ef.
  - unfold find_program_by_addr in Ef. rewrite Hi in Ef. cbn [negb] in Ef.
    apply find_program_elem in Ef as (t & al & n & Hin & Hp & Hr & ->).
    assert ((b, n) ∈ task_blocks al) as Hb.
    { unfold task_blocks. rewrite Hp. rewrite !elem_of_app. right. left. by apply list_elem_of_singleton. }
    pose proof (blocks_in_range _ _ _ _ Hex (mem_sizes _ _ _ Hm) Hin) as Hrange.
    rewrite Forall_forall in Hrange. destruct (Hrange _ Hb) as (? & ? & ?). cbn in *.
    apply in_range_spec in Hr; [|done..]. eexists. split; [done|]. cbn. rewrite u64_small by lia.
    split; [lia|]. split; [|done]. intros _. by eapply task_block_live.
  - destruct (find_region_ok 16 (region (ms_exec m)) _ addr ltac:(by left) Hinv)
      as (r1 & r2 & -> & -> & H1 & H2); [exact Haddr|]. cbn [mbind outcome_bind].
    destruct r2 as [[a e]|].
    + assert (∃ nm, match find_task_by_program_addr (ms_exec m) addr with
        | Some task_id => get_task_name_static m (Some task_id) | None => Ret (text "Stack") end = Ret nm) as [nm ->].
      { destruct (find_task_by_program_addr _ _); [apply task_name_ret, Hm|by eexists]. }
      destruct H2 as (Ha & H2 & _). eexists. split; [done|]. split; [exact Ha|]. split; [|done].
      intros _. by apply H2.
    + destruct r1 as [[a e]|]; [|done]. eexists. split; [done|]. split; [apply H1|]. split; [done|]. tauto.
Qed.

(** For every address of the mapped memory [find_region] answers, with an
    interval that contains the address, and reports it as allocated exactly when it
    lies in the kernel image, in an allocated heap block or in a live block of the
    program region. *)
Lemma region_at_ok m used others addr :
  mem_inv m used others → KERNEL_START ≤ addr < PROGRAM_END →
  ∃ i, find_region m addr = Ret i ∧ mi_start i ≤ addr < mi_end i ∧
    (is_allocated i = true ↔
     addr < KERNEL_END ∨ in_blocks used.*1 addr ∨ in_blocks (program_blocks m others) addr).
Proof.
  intros Hm Haddr.
  pose proof (heap_block_range m used others addr Hm) as Hh.
  pose proof (program_block_range m used others addr Hm) as Hp.
  unfold HEAP_START, HEAP_END, PROGRAM_START, PROGRAM_END, KERNEL_END in *.
  destruct (Z_lt_le_dec addr 0x200000); [|destruct (Z_lt_le_dec addr 0x400000)].
  - unfold find_region. rewrite (proj2 (Z.ltb_lt _ _)) by done.
    eexists. split; [done|]. cbn. unfold KERNEL_START, KERNEL_END in *. lia.
  - destruct (find_region_heap m used others addr) as (i & -> & Hi & Ha);
      [done|unfold KERNEL_END, HEAP_END, PROGRAM_START, PROGRAM_END; lia|].
    exists i. split; [done|]. split; [done|]. rewrite Ha. intuition lia.
  - destruct (find_region_program m used others addr) as (i & -> & Hi & Ha);
      [done|unfold KERNEL_END, HEAP_END, PROGRAM_START, PROGRAM_END; lia|].
    exists i. split; [done|]. split; [done|]. rewrite Ha. intuition lia.
Qed.

Lemma collect_ok {A B C} (R : A → C → Prop) (g : A → B) (f : B → outcome C) l :
  (∀ a, ∃ c, f (g a) = Ret c ∧ R a c) → ∃ cs, collect f (g <$> l) = Ret cs ∧ Forall2 R l cs.
Proof.
  intros Hf. induction l as [|a l IH]; [by exists []|]. destruct IH as (cs & E & H), (Hf a) as (c & Ec & Hc).
  rewrite fmap_cons. cbn [collect]. rewrite Ec. cbn [mbind outcome_bind]. rewrite E.
  exists (c :: cs). split; [done|by constructor].
Qed.

Lemma find_bt_get {V} (l : btree V) k : snd <$> (snd <$> list_find (λ a, a.1 = k) l) = bt_get l k.
Proof.
  induction l as [|[k' v] l IH]; [done|]. cbn [list_find bt_get]. rewrite <- IH.
  case_decide as E; cbn in E.
  - subst. by rewrite Z.eqb_refl.
  - rewrite (proj2 (Z.eqb_neq k k')) by congruence. by destruct (list_find _ l) as [[? ?]|].
Qed.

(** What [get_task_memory_info] reports for a task. *)
Definition info_for (m : MemState) (used : list (Z * Z * Z)) (t : Task) (i : TaskMemoryInfo) : Prop :=
  tm_id i = Task.id t ∧ tm_name i = tname t ∧ tm_state i = state t ∧
  match bt_get (allocs_of (ms_exec m)) (Task.id t) with
  | Some al => tm_stack i = Some (stack al) ∧ tm_program i = program al ∧ tm_program_heap i = heap_blocks al
  | None => tm_stack i = None ∧ tm_program i = None ∧ tm_program_heap i = []
  end ∧
  ∃ all, tm_kernel_heap i = take 256 all ∧ all ≡ₚ blocks_of used (encode_task_id (Some (Task.id t))).

Lemma task_memory_info_ok m used others t : mem_inv m used others →
  ∃ i, task_memory_info m (Task.id t, tname t, state t) = Ret i ∧ info_for m used t i.
Proof.
  intros Hm. destruct (mem_exec _ _ _ Hm) as (Hi & _ & _).
  destruct (get_task_heap_allocations_ok _ _ (Some (Task.id t)) (mem_heap _ _ _ Hm)) as (all & Hk & Hperm & _).
  unfold task_memory_info. rewrite Hk, find_bt_get. cbn [mbind outcome_bind]. unfold get_all_task_memory. rewrite Hi.
  cbn [negb]. change (task_allocations (inner (cell (ms_exec m)))) with (allocs_of (ms_exec m)).
  eexists. split; [done|]. split_and!; [done..| |by exists all].
  destruct (bt_get _ _) as [al|]; done.
Qed.

(** Accounting: the statistics of the three regions add up to their sizes, the
    used bytes of the heap and of the program region being the total size of their
    live blocks; and the information for the tasks lists every task of the
    scheduler once, in order, with exactly the stack, program and heap blocks
    registered for it and the (first 256) kernel heap blocks recorded for it. *)
Lemma memory_accounting_spec m used others s :
  mem_inv m used others → ms_sched m = Some s →
  get_region_stats m = Ret
    [mkRegionStats (text "Kernel") KERNEL_START KERNEL_END 0x100000 0;
     mkRegionStats (text "Heap") HEAP_START HEAP_END (sumZ used.*1.*2) (0x200000 - sumZ used.*1.*2);
     mkRegionStats (text "Program") PROGRAM_START PROGRAM_END (sumZ (program_blocks m others).*2)
       (0xC00000 - sumZ (program_blocks m others).*2)] ∧
  ∃ infos, get_task_memory_info m = Ret infos ∧ Forall2 (info_for m used) (tasks s) infos.
Proof.
  intros Hm Hs. split.
  - unfold get_region_stats. destruct (get_heap_stats_ok _ _ (mem_heap _ _ _ Hm)) as [_ ->].
    rewrite (mem_heap_start _ _ _ Hm), (mem_heap_end _ _ _ Hm). cbn [mbind outcome_bind].
    destruct (mem_exec _ _ _ Hm) as (_ & _ & Hinv). rewrite (stats_ok 16 _ _ Hinv). reflexivity.
  - unfold get_task_memory_info. rewrite Hs. cbn [get_all_tasks sched_with mbind outcome_bind].
    apply collect_ok. intros t. by eapply task_memory_info_ok.
Qed.

(** A concrete state: an empty heap, one task with a stack, a fresh scheduler. *)
Lemma demo_mem_inv : ∃ h s,
  mem_inv (mkMemState h (demo_state s) (Some Scheduler_new)) [] [].
Proof.
  destruct demo_state_inv as [s Hs].
  assert (∃ h, Allocator.init (Allocator.new ∅) HEAP_START 0x200000 = Ret h ∧
    heap_start h = HEAP_START ∧ heap_end h = HEAP_END) as (h & Hh & H1 & H2) by (eexists; split; reflexivity || done).
  exists h, s. split; cbn [ms_heap ms_exec ms_sched]; [|done|done|exact Hs| |by eexists].
  - eapply heap_reachable_inv, hr_init, Hh; unfold HEAP_START, MIN_BLOCK_SIZE; lia.
  - repeat constructor; vm_compute; discriminate.
Qed.

