(* ===== verification/Cursor.v ===== *)
(** The mouse cursor and its tooltip (src/cursor.rs): the position on the map is
    turned back into an address, and the screen is redrawn from the shadow buffer
    with the cursor and the information about that address on top. *)

From stdpp Require Import strings.
From S2P Require Import Prelude ByteMem Gilbert Vga Memvis Mouse Meminfo.
#[local] Open Scope Z_scope.

Definition CURSOR_WIDTH : Z := 8.
Definition CURSOR_HEIGHT : Z := 8.
Definition CURSOR_SPRITE : list Z :=
  [0xC0; 0xE0; 0xF0; 0xF8; 0xFC; 0xE0; 0x90; 0x18].
Definition CURSOR_OUTLINE : list Z :=
  [0xE0; 0xF0; 0xF8; 0xFC; 0xFE; 0xFC; 0xF8; 0x3C].
Definition TOOLTIP_WIDTH : Z := 184.
Definition TOOLTIP_HEIGHT : Z := 20.
Definition TOOLTIP_PADDING : Z := 2.

Definition draw_cursor_sprite (x y : Z) (v : Vga) : Vga :=
  if (x <? 0) || (y <? 0) then v
  else
    for_range 0 CURSOR_HEIGHT (λ row v,
      let outline_bits := CURSOR_OUTLINE !!! Z.to_nat row in
      let sprite_bits := CURSOR_SPRITE !!! Z.to_nat row in
      for_range 0 CURSOR_WIDTH (λ col v,
        let px := x + col in
        let py := y + row in
        if (px <? Vga.WIDTH) && (py <? Vga.HEIGHT) then
          let mask := Z.shiftr 0x80 col in
          if negb (Z.land sprite_bits mask =? 0) then set_pixel px py WHITE v
          else if negb (Z.land outline_bits mask =? 0) then set_pixel px py BLACK v
          else v
        else v) v) v.

Definition pixel_to_addr (g : Gilbert) (x y : Z) : outcome Z :=
  if (x <? 0) || (y <? 0) then Ret KERNEL_START
  else if (Gilbert.WIDTH <=? x) || (Gilbert.HEIGHT <=? y) then Ret Meminfo.PROGRAM_END
  else
    d ← xy_to_d g x y;
    Ret (u64 (KERNEL_START + Z.shiftl d 8)).

Definition calculate_tooltip_pos (cursor_x cursor_y : Z) : Z * Z :=
  let tx := i16 (cursor_x + 12) in
  let ty := i16 (cursor_y + 12) in
  let tx := if i16 Vga.WIDTH <? i16 (tx + TOOLTIP_WIDTH) then i16 (cursor_x - TOOLTIP_WIDTH - 4) else tx in
  let ty := if i16 Vga.HEIGHT <? i16 (ty + TOOLTIP_HEIGHT) then i16 (cursor_y - TOOLTIP_HEIGHT - 4) else ty in
  (Z.max tx 0, Z.max ty 0).

Definition draw_tooltip (x y start_addr end_addr : Z) (name : list Z) (allocated : bool) (v : Vga) : outcome Vga :=
  if (x <? 0) || (y <? 0) then Ret v
  else
    let v := fill_rect x y TOOLTIP_WIDTH TOOLTIP_HEIGHT DARK_GRAY v in
    let v := hline x y TOOLTIP_WIDTH WHITE v in
    let v := hline x (y + TOOLTIP_HEIGHT - 1) TOOLTIP_WIDTH WHITE v in
    let v := for_range 0 TOOLTIP_HEIGHT (λ row v,
      set_pixel (x + TOOLTIP_WIDTH - 1) (y + row) WHITE (set_pixel x (y + row) WHITE v)) v in
    let text_x := x + TOOLTIP_PADDING + 2 in
    let line1_y := y + TOOLTIP_PADDING + 1 in
    v ← draw_hex_bg text_x line1_y start_addr 7 WHITE DARK_GRAY v;
    v ← draw_char_bg (text_x + 72) line1_y 45 WHITE DARK_GRAY v;
    v ← draw_hex_bg (text_x + 80) line1_y end_addr 7 WHITE DARK_GRAY v;
    let line2_y := line1_y + 10 in
    v ← draw_string_bg text_x line2_y name WHITE DARK_GRAY v;
    if negb allocated then
      let state_x := text_x + Z.of_nat (length name) * 8 in
      draw_string_bg state_x line2_y (text " (free)") LIGHT_GRAY DARK_GRAY v
    else Ret v.

(** The visualizer with the mouse and the memory the tooltip reports on. *)
Record Desktop : Type := mkDesktop { vis : Vis; mouse : Mouse; ms : MemState }.

(** The common part of [update] and [init]: cursor and tooltip. *)
Definition draw_overlay (s : Vis) (x y : Z) (info : MemoryRegionInfo) : outcome Vis :=
  let v := draw_cursor_sprite x y (vga s) in
  let '(tooltip_x, tooltip_y) := calculate_tooltip_pos x y in
  v ← draw_tooltip tooltip_x tooltip_y (mi_start info) (mi_end info) (region_name info) (is_allocated info) v;
  Ret (mkVis (gil s) v (SHADOW_BUFFER s)).

Definition cursor_update (w : Desktop) : outcome Desktop :=
  if negb (is_enabled (vga (vis w))) || negb (MOUSE_INITIALIZED (mouse w)) then Ret w
  else if negb (CURSOR_DIRTY (mouse w)) then Ret w
  else
    let '(x, y) := mouse_position (mouse w) in
    addr ← pixel_to_addr (gil (vis w)) x y;
    info ← find_region (ms w) addr;
    s ← draw_overlay (redraw (vis w)) x y info;
    Ret (mkDesktop s (clear_dirty (mouse w)) (ms w)).

Definition cursor_init (w : Desktop) : outcome Desktop :=
  if negb (is_enabled (vga (vis w))) then Ret w
  else
    let '(x, y) := mouse_position (mouse w) in
    addr ← pixel_to_addr (gil (vis w)) x y;
    info ← find_region (ms w) addr;
    s ← draw_overlay (vis w) x y info;
    Ret (mkDesktop s (clear_dirty (mouse w)) (ms w)).

(** ** Lemmas *)

Lemma redraw_loop_pixels l : ∀ i v, 0 ≤ i → i + Z.of_nat (length l) ≤ Vga.TOTAL_PIXELS →
  let v' := redraw_loop i l v in
  touches (λ j, i ≤ j < i + Z.of_nat (length l)) v v' ∧
  ∀ k c, l !! k = Some c → pixel_at v' (i + Z.of_nat k) = c.
Proof.
  induction l as [|c l IH]; intros i v Hi Hl; cbn [redraw_loop length] in *; [by split|].
  destruct (IH (i + 1) (fb_write v i c)) as [Ht Hp]; [lia..|]. split.
  - transitivity (fb_write v i c); [apply fb_write_touches; lia|].
    eapply touches_mono, Ht. cbn beta. lia.
  - intros [|k] c' Hk.
    + injection Hk as <-. rewrite Z.add_0_r. rewrite (pixel_at_touches _ _ _ _ Ht) by lia.
      rewrite pixel_at_fb_write by lia. by rewrite decide_True.
    + replace (i + Z.of_nat (S k)) with (i + 1 + Z.of_nat k) by lia. by apply Hp.
Qed.

Lemma draw_cursor_sprite_touches x y v : 0 ≤ x → 0 ≤ y →
  touches (rect x y 8 8) v (draw_cursor_sprite x y v).
Proof.
  intros Hx Hy. unfold draw_cursor_sprite. rewrite !(proj2 (Z.ltb_ge _ _)) by lia. cbn [orb].
  apply for_range_ind; [apply _|]. intros row v1 Hrow. apply for_range_ind; [apply _|]. intros col v2 Hcol.
  unfold CURSOR_HEIGHT, CURSOR_WIDTH in *.
  destruct (_ && _); [|reflexivity]. cbv zeta.
  assert (∀ c, touches (rect x y 8 8) v2 (set_pixel (x + col) (y + row) c v2)).
  { intros c. apply set_pixel_touches; [lia..|]. intros. apply rect_index; lia. }
  repeat case_match; done.
Qed.

(** The tooltip is on the screen. *)
Lemma tooltip_pos_range x y : 0 ≤ x < 320 → 0 ≤ y < 200 →
  let '(tx, ty) := calculate_tooltip_pos x y in
  0 ≤ tx ∧ tx + TOOLTIP_WIDTH ≤ Vga.WIDTH ∧ 0 ≤ ty ∧ ty + TOOLTIP_HEIGHT ≤ Vga.HEIGHT.
Proof.
  intros Hx Hy. unfold calculate_tooltip_pos, TOOLTIP_WIDTH, TOOLTIP_HEIGHT, Vga.WIDTH, Vga.HEIGHT.
  rewrite !i16_small by (rewrite ?i16_small; lia).
  destruct (Z.ltb_spec 320 (x + 12 + 184)), (Z.ltb_spec 200 (y + 12 + 20)); lia.
Qed.

(** A name that fits the tooltip, with the mark of a free block. *)
Definition name_fits (info : MemoryRegionInfo) : Prop :=
  8 * Z.of_nat (length (region_name info)) + (if is_allocated info then 0 else 56) ≤ 176.

Ltac inside_tooltip := eapply touches_mono; [|eassumption]; unfold rect, TOOLTIP_WIDTH, TOOLTIP_HEIGHT;
  cbn [length]; let i := fresh in intros i _; generalize (i mod Vga.WIDTH), (i / Vga.WIDTH); lia.

(** The text of the second line reaches one row below the box. *)
Lemma draw_tooltip_touches x y info v :
  0 ≤ x → x + TOOLTIP_WIDTH ≤ Vga.WIDTH → 0 ≤ y → y + TOOLTIP_HEIGHT ≤ Vga.HEIGHT → name_fits info →
  ∃ v', draw_tooltip x y (mi_start info) (mi_end info) (region_name info) (is_allocated info) v = Ret v' ∧
    touches (rect x y TOOLTIP_WIDTH (TOOLTIP_HEIGHT + 1)) v v'.
Proof.
  intros Hx Hxw Hy Hyh Hn. unfold draw_tooltip. rewrite !(proj2 (Z.ltb_ge _ _)) by lia. cbn [orb]. cbv zeta.
  unfold TOOLTIP_WIDTH, TOOLTIP_HEIGHT, TOOLTIP_PADDING, Vga.WIDTH, Vga.HEIGHT in *.
  set (v1 := fill_rect _ _ _ _ _ v). set (v2 := hline _ _ _ _ v1). set (v3 := hline _ _ _ _ v2).
  set (v4 := for_range _ _ _ v3).
  assert (touches (rect x y 184 20) v v4) as H4.
  { assert (touches (rect x y 184 20) v v1) by (apply fill_rect_touches; lia).
    assert (touches (rect x y 184 1) v1 v2) by (apply hline_touches; unfold Vga.WIDTH; lia).
    assert (touches (rect x (y + 20 - 1) 184 1) v2 v3) by (apply hline_touches; unfold Vga.WIDTH; lia).
    transitivity v1; [assumption|]. transitivity v2; [inside_tooltip|]. transitivity v3; [inside_tooltip|].
    apply for_range_ind; [apply _|]. intros row v5 Hrow.
    transitivity (set_pixel x (y + row) WHITE v5); apply set_pixel_touches; try lia; intros; apply rect_index; lia. }
  destruct (draw_hex_bg_touches (x + 2 + 2) (y + 2 + 1) (mi_start info) 7 WHITE DARK_GRAY v4) as (v5 & -> & H5); [lia..|].
  rewrite mbind_Ret.
  destruct (draw_char_bg_touches (x + 2 + 2 + 72) (y + 2 + 1) 45 WHITE DARK_GRAY v5) as (v6 & -> & H6); [lia..|].
  rewrite mbind_Ret.
  destruct (draw_hex_bg_touches (x + 2 + 2 + 80) (y + 2 + 1) (mi_end info) 7 WHITE DARK_GRAY v6) as (v7 & -> & H7); [lia..|].
  rewrite mbind_Ret. unfold name_fits in Hn.
  destruct (draw_string_bg_touches (x + 2 + 2) (y + 2 + 1 + 10) (region_name info) WHITE DARK_GRAY v7)
    as (v8 & -> & H8); [destruct (is_allocated info); lia..|].
  rewrite mbind_Ret.
  assert (touches (rect x y 184 21) v v8) as H9.
  { transitivity v4; [inside_tooltip|]. transitivity v5; [inside_tooltip|]. transitivity v6; [inside_tooltip|].
    transitivity v7; [inside_tooltip|]. destruct (is_allocated info); inside_tooltip. }
  destruct (is_allocated info); cbn [negb]; [by exists v8|].
  destruct (draw_string_bg_touches (x + 2 + 2 + Z.of_nat (length (region_name info)) * 8) (y + 2 + 1 + 10)
    (text " (free)") LIGHT_GRAY DARK_GRAY v8) as (v9 & -> & H10);
    [change (length (text " (free)")) with 7%nat; lia..|].
  change (length (text " (free)")) with 7%nat in H10.
  exists v9. split; [done|]. transitivity v8; [exact H9|inside_tooltip].
Qed.

(** ** Addresses and pixels *)

Lemma pixel_to_addr_ok s pages x y :
  shows s pages → on_screen (x, y) →
  ∃ a, pixel_to_addr (gil s) x y = Ret a ∧ VIS_BASE ≤ a < VIS_END ∧ a mod 256 = 0 ∧ addr_to_xy s a = Ret (Some (x, y)).
Proof.
  intros Hs Hon. destruct (proj2 (shows_tables _ _ Hs) x y Hon) as (d & Ed & Hd & Exy).
  destruct Hon as [Hx Hy]. cbn in Hx, Hy. unfold pixel_to_addr.
  rewrite !(proj2 (Z.ltb_ge _ _)), !(proj2 (Z.leb_gt _ _)) by lia. cbn [orb]. rewrite Ed, mbind_Ret.
  rewrite Z.shiftl_mul_pow2 by lia. change (2 ^ 8) with 256.
  unfold Gilbert.TOTAL_PIXELS, Gilbert.WIDTH, Gilbert.HEIGHT in Hd. unfold KERNEL_START.
  rewrite u64_small by lia. eexists. split; [done|]. unfold VIS_BASE, VIS_END.
  split; [lia|]. split.
  - change 0x100000 with (4096 * 256). rewrite <- Z.mul_add_distr_r. by apply Z.mod_mul.
  - unfold addr_to_xy. rewrite addr_to_gilbert_index_spec. unfold VIS_BASE, VIS_END.
    rewrite (proj2 (Z.leb_le _ _)), (proj2 (Z.ltb_lt _ _)) by lia. cbn [andb].
    replace (0x100000 + d * 256 - 0x100000) with (d * 256) by lia. rewrite Z.div_mul by lia.
    by rewrite Exy.
Qed.

(** C39: the tooltip and the map agree: the address shown for a cursor on the map is
    the page whose pixel is under the cursor.  An update then redraws the screen:
    every pixel outside the cursor and the tooltip (its box and one more row) shows
    the shadow buffer, nothing outside the framebuffer is written, the map itself is
    kept, and the redraw request is cleared. *)
Theorem cursor_update_spec w pages used others :
  shows (vis w) pages → mouse_ok (mouse w) → mem_inv (ms w) used others →
  MOUSE_INITIALIZED (mouse w) = true → CURSOR_DIRTY (mouse w) = true →
  let '(x, y) := mouse_position (mouse w) in
  let '(tx, ty) := calculate_tooltip_pos x y in
  ∃ a info, pixel_to_addr (gil (vis w)) x y = Ret a ∧ find_region (ms w) a = Ret info ∧
    (y < 192 → a mod 256 = 0 ∧ addr_to_xy (vis w) a = Ret (Some (x, y))) ∧
    (name_fits info →
     ∃ w', cursor_update w = Ret w' ∧ ms w' = ms w ∧ mouse w' = clear_dirty (mouse w) ∧
       SHADOW_BUFFER (vis w') = SHADOW_BUFFER (vis w) ∧ vis_ext (vis w) (vis w') ∧
       ∀ j c, SHADOW_BUFFER (vis w) !! Z.to_nat j = Some c → 0 ≤ j → ¬ rect x y 8 8 j →
         ¬ rect tx ty TOOLTIP_WIDTH (TOOLTIP_HEIGHT + 1) j → pixel_at (vga (vis w')) j = c).
Proof.
  intros Hs Hm Hmem Hi Hd. destruct (mouse_position (mouse w)) as [x y] eqn:Epos.
  assert (0 ≤ x < 320 ∧ 0 ≤ y < 200) as [Hx Hy].
  { destruct Hm as (? & ? & _). injection Epos as <- <-. done. }
  pose proof (tooltip_pos_range x y Hx Hy) as Htip.
  destruct (calculate_tooltip_pos x y) as [tx ty] eqn:Etip. destruct Htip as (Ht1 & Ht2 & Ht3 & Ht4).
  assert (∃ a, pixel_to_addr (gil (vis w)) x y = Ret a ∧ KERNEL_START ≤ a ≤ Meminfo.PROGRAM_END ∧
    (y < 192 → a mod 256 = 0 ∧ addr_to_xy (vis w) a = Ret (Some (x, y)))) as (a & Ea & Ha & Hay).
  { destruct (Z_lt_le_dec y 192).
    - destruct (pixel_to_addr_ok _ _ x y Hs) as (a & ? & ? & ? & ?);
        [split; unfold Gilbert.WIDTH, Gilbert.HEIGHT; cbn; lia|].
      exists a. split; [done|]. unfold KERNEL_START, Meminfo.PROGRAM_END, VIS_BASE, VIS_END in *.
      split; [lia|done].
    - exists Meminfo.PROGRAM_END. unfold pixel_to_addr. rewrite !(proj2 (Z.ltb_ge _ _)) by lia.
      rewrite (proj2 (Z.leb_le Gilbert.HEIGHT y)) by done. rewrite orb_true_r. cbn [orb].
      split; [done|]. split; [done|lia]. }
  assert (∃ info, find_region (ms w) a = Ret info) as [info Einfo].
  { destruct (Z.eq_dec a Meminfo.PROGRAM_END) as [->|]; [by eexists|].
    destruct (region_at_ok _ _ _ a Hmem) as (i & ? & _); [lia|by exists i]. }
  exists a, info. split; [done|]. split; [done|]. split; [done|]. intros Hfit.
  pose proof (shows_enabled _ _ Hs) as He. pose proof (shows_length _ _ Hs) as Hl.
  unfold cursor_update, is_enabled. rewrite He, Hi, Hd, Epos. cbn [negb orb]. rewrite Ea, mbind_Ret, Einfo, mbind_Ret.
  unfold redraw, is_enabled. rewrite He. cbn [negb].
  destruct (redraw_loop_pixels (SHADOW_BUFFER (vis w)) 0 (vga (vis w))) as [T1 P1]; [lia..|].
  revert T1 P1. generalize (redraw_loop 0 (SHADOW_BUFFER (vis w)) (vga (vis w))). intros v1 T1 P1.
  unfold draw_overlay. cbn [vga gil SHADOW_BUFFER]. rewrite Etip.
  pose proof (draw_cursor_sprite_touches x y v1 ltac:(lia) ltac:(lia)) as T2.
  revert T2. generalize (draw_cursor_sprite x y v1). intros v2 T2.
  destruct (draw_tooltip_touches tx ty info v2) as (v3 & E3 & T3); [done..|].
  rewrite E3, !mbind_Ret. eexists. split; [done|]. cbn [ms mouse vis vga SHADOW_BUFFER].
  split_and!; [done..| |].
  - split; [done|]. cbn [vga]. transitivity v1; [by eapply touches_mono, T1|].
    transitivity v2; [by eapply touches_mono, T2|by eapply touches_mono, T3].
  - intros j c Hj Hj0 Hn1 Hn2. assert (j < Vga.TOTAL_PIXELS) by (apply lookup_lt_Some in Hj; lia).
    rewrite (pixel_at_touches _ _ _ _ T3), (pixel_at_touches _ _ _ _ T2) by done.
    specialize (P1 _ _ Hj). rewrite Z.add_0_l, Z2Nat.id in P1 by done. done.
Qed.

Lemma cursor_update_spec_witness :
  ∃ w a info, pixel_to_addr (gil (vis w)) 160 100 = Ret a ∧ find_region (ms w) a = Ret info ∧
    addr_to_xy (vis w) a = Ret (Some (160, 100)).
Proof.
  destruct (boot_graphics_shows demo_ram) as (s & _ & Hs & _); [reflexivity|].
  destruct demo_mem_inv as (h & t & Hm).
  destruct (cursor_update_spec (mkDesktop s (set_initialized Mouse_initial) (mkMemState h (Executable.demo_state t)
    (Some Scheduler.Scheduler_new))) initial_page [] []) as (a & info & H1 & H2 & H3 & _).
  - exact Hs.
  - unfold mouse_ok, SCREEN_WIDTH, SCREEN_HEIGHT. cbn. lia.
  - exact Hm.
  - reflexivity.
  - reflexivity.
  - exists (mkDesktop s (set_initialized Mouse_initial) (mkMemState h (Executable.demo_state t)
      (Some Scheduler.Scheduler_new))), a, info.
    split; [exact H1|]. split; [exact H2|]. apply H3. reflexivity.
Defined.
