(* ===== verification/BasicLexer.v ===== *)
(** The BASIC tokenizer (src/basic/lexer.rs).  A string is the list of its
    characters, given by their code points; the lexer's state is the input that
    remains from its position. *)

From stdpp Require Import strings.
From S2P Require Import Prelude Utf8.
#[local] Open Scope Z_scope.

Module Token.
Inductive Token : Type :=
  (* keywords *)
  | Print | Let | If | Then | Goto | For | To | Step | Next | Sleep | Rem | End | Run | List | New | Load
  | Mem | Spawn | Memstats
  (* string functions *)
  | Chr | Asc | Len | Mid | Left | Instr | Str | Val
  (* control flow, arrays, network *)
  | Gosub | Return | Dim
  | Socket | NetListen | Accept | Recv | Send | Close | Sockstate
  (* operators *)
  | Plus | Minus | Star | Slash | Eq | Ne | Lt | Gt | Le | Ge | LParen | RParen | Semicolon | Comma
  (* literals and identifiers *)
  | Integer (n : Z) | StringLit (s : list Z) | Identifier (s : list Z)
  (* structure *)
  | Newline | Eof.
End Token.
#[global] Arguments Token.Integer n%_Z.
Abbreviation Token := Token.Token.

(** ** Characters *)

Definition NL : Z := 10.
Definition CR : Z := 13.
Definition QUOTE : Z := 34.
Definition is_ascii_digit (c : Z) : bool := (48 <=? c) && (c <=? 57).
Definition is_upper (c : Z) : bool := (65 <=? c) && (c <=? 90).
Definition is_lower (c : Z) : bool := (97 <=? c) && (c <=? 122).
Definition is_ascii_alphabetic (c : Z) : bool := is_upper c || is_lower c.
Definition is_ascii_alphanumeric (c : Z) : bool := is_ascii_alphabetic c || is_ascii_digit c.
Definition to_ascii_uppercase (s : list Z) : list Z := (λ c, if is_lower c then c - 32 else c) <$> s.

(** [s.parse::<i64>()]: an optional sign and at least one digit, without overflow. *)
Definition digits_value (s : list Z) : Z := foldl (λ n c, 10 * n + (c - 48)) 0 s.
Definition parse_digits (negative : bool) (s : list Z) : option Z :=
  match s with
  | [] => None
  | _ =>
      if forallb is_ascii_digit s then
        let n := if negative then - digits_value s else digits_value s in
        if (-9223372036854775808 <=? n) && (n <=? 9223372036854775807) then Some n else None
      else None
  end.
Definition parse_i64 (s : list Z) : option Z :=
  match s with
  | 45 :: s => parse_digits true s
  | 43 :: s => parse_digits false s
  | _ => parse_digits false s
  end.

(** ** Tokens *)

(** The longest prefix whose characters satisfy [P], and the rest: the loops of
    [read_number] and [read_identifier_or_keyword]. *)
Fixpoint span (P : Z → bool) (s : list Z) : list Z * list Z :=
  match s with
  | c :: s' => if P c then let '(t, r) := span P s' in (c :: t, r) else ([], s)
  | [] => ([], [])
  end.

(** The loop of [read_string], after the opening quote. *)
Fixpoint string_loop (s : list Z) : list Z * list Z :=
  match s with
  | [] => ([], [])
  | c :: s' =>
      if c =? QUOTE then ([], s')
      else if (c =? NL) || (c =? CR) then ([], s)
      else let '(t, r) := string_loop s' in (c :: t, r)
  end.

Definition read_string (s : list Z) : Token * list Z :=
  let '(t, r) := string_loop (drop 1 s) in (Token.StringLit t, r).

Definition read_number (s : list Z) : Token * list Z :=
  let '(t, r) := span is_ascii_digit s in (Token.Integer (default 0 (parse_i64 t)), r).

Definition keywords : list (list Z * Token) :=
  [ (chars "PRINT", Token.Print); (chars "LET", Token.Let); (chars "IF", Token.If);
    (chars "THEN", Token.Then); (chars "GOTO", Token.Goto); (chars "FOR", Token.For);
    (chars "TO", Token.To); (chars "STEP", Token.Step); (chars "NEXT", Token.Next);
    (chars "SLEEP", Token.Sleep); (chars "REM", Token.Rem); (chars "END", Token.End);
    (chars "RUN", Token.Run); (chars "LIST", Token.List); (chars "NEW", Token.New);
    (chars "LOAD", Token.Load); (chars "MEM", Token.Mem); (chars "SPAWN", Token.Spawn);
    (chars "MEMSTATS", Token.Memstats);
    (chars "CHR", Token.Chr); (chars "CHR$", Token.Chr); (chars "ASC", Token.Asc); (chars "LEN", Token.Len);
    (chars "MID", Token.Mid); (chars "MID$", Token.Mid); (chars "LEFT", Token.Left); (chars "LEFT$", Token.Left);
    (chars "INSTR", Token.Instr); (chars "STR", Token.Str); (chars "STR$", Token.Str); (chars "VAL", Token.Val);
    (chars "RECV", Token.Recv); (chars "RECV$", Token.Recv);
    (chars "GOSUB", Token.Gosub); (chars "RETURN", Token.Return); (chars "DIM", Token.Dim);
    (chars "SOCKET", Token.Socket); (chars "LISTEN", Token.NetListen); (chars "ACCEPT", Token.Accept);
    (chars "SEND", Token.Send); (chars "CLOSE", Token.Close); (chars "SOCKSTATE", Token.Sockstate) ].

(** The match of [read_identifier_or_keyword] on the upper-case word. *)
Definition keyword_or_identifier (w : list Z) : Token :=
  match list_find (λ k, k.1 = w) keywords with
  | Some (_, k) => k.2
  | None => Token.Identifier w
  end.
Definition is_ident_char (c : Z) : bool := is_ascii_alphanumeric c || (c =? 95) || (c =? 36).
Definition read_identifier_or_keyword (s : list Z) : Token * list Z :=
  let '(t, r) := span is_ident_char s in (keyword_or_identifier (to_ascii_uppercase t), r).

(** [next_token]; the recursion skips blanks and characters that start no token. *)
Fixpoint next_token (s : list Z) : Token * list Z :=
  match s with
  | [] => (Token.Eof, [])
  | c :: s' =>
      if (c =? 32) || (c =? 9) then next_token s'
      else if c =? NL then (Token.Newline, s')
      else if c =? CR then
        (Token.Newline, match s' with d :: s'' => if d =? NL then s'' else s' | [] => s' end)
      else if c =? QUOTE then read_string s
      else if is_ascii_digit c then read_number s
      else if is_ascii_alphabetic c then read_identifier_or_keyword s
      else if c =? 43 then (Token.Plus, s')
      else if c =? 45 then (Token.Minus, s')
      else if c =? 42 then (Token.Star, s')
      else if c =? 47 then (Token.Slash, s')
      else if c =? 40 then (Token.LParen, s')
      else if c =? 41 then (Token.RParen, s')
      else if c =? 59 then (Token.Semicolon, s')
      else if c =? 44 then (Token.Comma, s')
      else if c =? 60 then
        match s' with
        | d :: s'' =>
            if d =? 62 then (Token.Ne, s'') else if d =? 61 then (Token.Le, s'') else (Token.Lt, s')
        | [] => (Token.Lt, s')
        end
      else if c =? 62 then
        match s' with
        | d :: s'' => if d =? 61 then (Token.Ge, s'') else (Token.Gt, s')
        | [] => (Token.Gt, s')
        end
      else if c =? 61 then (Token.Eq, s')
      else next_token s'
  end.

Fixpoint skip_to_eol (s : list Z) : list Z :=
  match s with
  | [] => []
  | c :: s' => if (c =? NL) || (c =? CR) then s else skip_to_eol s'
  end.

(** ** Progress *)

Lemma span_spec P s : let '(t, r) := span P s in
  s = t ++ r ∧ Forall (λ c, P c = true) t ∧ (∀ c r', r = c :: r' → P c = false).
Proof.
  induction s as [|c s IH]; cbn; [by split_and!|]. destruct (P c) eqn:E.
  - destruct (span P s) as [t r], IH as (-> & Ht & Hr). split_and!; [done|by constructor|done].
  - split_and!; [done|done|]. by intros ? ? [= <- <-].
Qed.

Lemma string_loop_length s : (length (string_loop s).2 ≤ length s)%nat.
Proof.
  induction s as [|c s IH]; cbn; [done|]. repeat case_match; cbn in *; lia.
Qed.

Lemma span_length P s : (length (span P s).2 ≤ length s)%nat.
Proof. pose proof (span_spec P s) as H. destruct (span P s) as [t r]. cbn. destruct H as (-> & _). rewrite length_app. lia. Qed.

Lemma span_length_lt P c s : P c = true → (length (span P (c :: s)).2 < length (c :: s))%nat.
Proof. intros Hc. cbn. rewrite Hc. pose proof (span_length P s). destruct (span P s). cbn in *. lia. Qed.

Lemma skip_to_eol_length s : (length (skip_to_eol s) ≤ length s)%nat.
Proof. induction s as [|c s IH]; cbn; [done|]. case_match; cbn; lia. Qed.

(** Every token but the end of input consumes a character. *)
Lemma next_token_length s : let '(t, r) := next_token s in
  t = Token.Eof ∧ r = [] ∨ (length r < length s)%nat.
Proof.
  induction s as [|c s IH]; [by left|]. cbn [next_token].
  assert (let '(t, r) := next_token s in t = Token.Eof ∧ r = [] ∨ (length r < length (c :: s))%nat) as IH'.
  { destruct (next_token s). cbn in *. destruct IH; [by left|right; lia]. }
  destruct (_ || _); [done|].
  destruct (c =? NL); [right; cbn; lia|].
  destruct (c =? CR); [right; destruct s as [|d s]; [cbn; lia|]; destruct (d =? NL); cbn; lia|].
  destruct (c =? QUOTE).
  { unfold read_string. change (drop 1 (c :: s)) with s. pose proof (string_loop_length s). destruct (string_loop s). right. cbn in *. lia. }
  destruct (is_ascii_digit c) eqn:Ed.
  { unfold read_number. pose proof (span_length_lt is_ascii_digit c s Ed). destruct (span is_ascii_digit (c :: s)). by right. }
  destruct (is_ascii_alphabetic c) eqn:Ea.
  { unfold read_identifier_or_keyword.
    assert (is_ident_char c = true) as Hc by (unfold is_ident_char, is_ascii_alphanumeric; by rewrite Ea).
    pose proof (span_length_lt is_ident_char c s Hc). destruct (span is_ident_char (c :: s)). by right. }
  do 8 (match goal with |- context [if ?b then _ else _] => destruct b; [right; cbn; lia|] end).
  destruct (c =? 60); [destruct s as [|d s]; [right; cbn; lia|]; destruct (d =? 62), (d =? 61); right; cbn; lia|].
  destruct (c =? 62); [destruct s as [|d s]; [right; cbn; lia|]; destruct (d =? 61); right; cbn; lia|].
  by destruct (c =? 61); [right; cbn; lia|].
Qed.
