(* ===== verification/BasicParser.v ===== *)
(** The BASIC parser (src/basic/parser.rs): recursive descent over the tokens of
    [BasicLexer].  [parse_primary] is the only recursive routine whose recursion
    is not a loop; it and the loops take fuel.  The fuel is computed from the
    length of the remaining input, every recursive call and every iteration
    consumes a token, so it never runs out ([parse_line_total]). *)

From stdpp Require Import strings.
From S2P Require Import Prelude BasicLexer.
#[local] Open Scope Z_scope.

(** ** Syntax *)

Module BinaryOp.
Inductive BinaryOp : Type := Add | Sub | Mul | Div | Eq | Ne | Lt | Gt | Le | Ge.
End BinaryOp.
Abbreviation BinaryOp := BinaryOp.BinaryOp.

Module Expr.
Inductive Expr : Type :=
  | Integer (n : Z)
  | StringLit (s : list Z)
  | Variable_ (name : list Z)
  | BinaryOp (left : Expr) (op : BinaryOp) (right : Expr)
  | Negate (e : Expr)
  | Mem (e : Expr)
  | Chr (e : Expr)
  | Asc (e : Expr)
  | Len (e : Expr)
  | Mid (s start len : Expr)
  | Left (s n : Expr)
  | Instr (haystack needle : Expr)
  | Str (e : Expr)
  | Val (e : Expr)
  | Socket
  | Listen (sock port : Expr)
  | Accept (sock : Expr)
  | Recv (sock : Expr)
  | Sockstate (sock : Expr)
  | ArrayAccess (name : list Z) (index : Expr).
End Expr.
Abbreviation Expr := Expr.Expr.

Record ForState := mkForState { fs_var : list Z; end_value : Z; fs_step : Z; body_line : Z }.

Module Statement.
Inductive Statement : Type :=
  | Print (exprs : list Expr)
  | Let (var : list Z) (value : Expr)
  | If (condition : Expr) (then_line : Z)
  | Goto (line : Z)
  | For (var : list Z) (start end_ step : Expr)
  | Next (var : list Z)
  | Sleep (e : Expr)
  | Rem
  | End
  | Spawn (name : list Z) (args : list (list Z))
  | Gosub (line : Z)
  | Return
  | Dim (name : list Z) (size : Expr)
  | ArrayAssign (name : list Z) (index value : Expr)
  | Send (sock data : Expr)
  | NetClose (sock : Expr).
End Statement.
Abbreviation Statement := Statement.Statement.

(** The error's text, with the token that [{:?}] prints kept as such. *)
Inductive ParseError : Type :=
  | Msg (s : string)
  | UnexpectedToken (t : Token)
  | ExpectedValue (t : Token).
#[global] Arguments Msg s%_string.

(** ** The parser's monad *)

Record Parser := mkParser { rest : list Z; current : Token }.

Inductive pres (A : Type) : Type :=
  | POk (a : A) (p : Parser)
  | PErr (e : ParseError)
  | PFuel.
#[global] Arguments POk {_} a p.
#[global] Arguments PErr {_} e.
#[global] Arguments PFuel {_}.

Definition parserM (A : Type) : Type := Parser → pres A.
#[global] Instance parserM_ret : MRet parserM := λ A a p, POk a p.
#[global] Instance parserM_bind : MBind parserM := λ A B f m p,
  match m p with POk a p' => f a p' | PErr e => PErr e | PFuel => PFuel end.
Definition fail {A} (e : ParseError) : parserM A := λ _, PErr e.
#[global] Arguments fail {A} e.
Definition out_of_fuel {A} : parserM A := λ _, PFuel.
Definition current_token : parserM Token := λ p, POk (current p) p.
(** A bound on the number of tokens left. *)
Definition remaining : parserM nat := λ p, POk (S (S (length (rest p)))) p.

(** [Parser::new]. *)
Definition new (input : list Z) : Parser := let '(t, r) := next_token input in mkParser r t.

Definition advance : parserM unit := λ p, let '(t, r) := next_token (rest p) in POk () (mkParser r t).

(** [self.current == t] for the tokens without data that the parser compares with. *)
Definition is_token (t c : Token) : bool :=
  match t, c with
  | Token.LParen, Token.LParen | Token.RParen, Token.RParen | Token.Comma, Token.Comma
  | Token.Eq, Token.Eq | Token.Then, Token.Then | Token.To, Token.To | Token.Step, Token.Step
  | Token.Minus, Token.Minus | Token.Semicolon, Token.Semicolon
  | Token.Newline, Token.Newline | Token.Eof, Token.Eof => true
  | _, _ => false
  end.

(** [if self.current != t { return Err(ParseError(msg)) } self.advance()]. *)
Definition expect (t : Token) (msg : string) : parserM unit :=
  c ← current_token;
  if is_token t c then advance else fail (Msg msg).
#[global] Arguments expect t msg%_string.

(** ** Expressions *)

Section with_primary.
Context (parse_primary : parserM Expr).

Definition parse_unary : parserM Expr :=
  c ← current_token;
  if is_token Token.Minus c then
    _ ← advance;
    e ← parse_primary;
    mret (Expr.Negate e)
  else parse_primary.

(** The loop the three precedence levels share: operators that [op_of] recognises,
    operands read by [operand]. *)
Fixpoint binop_loop (op_of : Token → option BinaryOp) (operand : parserM Expr) (fuel : nat)
    (left : Expr) : parserM Expr :=
  match fuel with
  | O => out_of_fuel
  | S fuel =>
      c ← current_token;
      match op_of c with
      | None => mret left
      | Some op =>
          _ ← advance;
          right ← operand;
          binop_loop op_of operand fuel (Expr.BinaryOp left op right)
      end
  end.

Definition multiplicative_op (t : Token) : option BinaryOp :=
  match t with Token.Star => Some BinaryOp.Mul | Token.Slash => Some BinaryOp.Div | _ => None end.
Definition additive_op (t : Token) : option BinaryOp :=
  match t with Token.Plus => Some BinaryOp.Add | Token.Minus => Some BinaryOp.Sub | _ => None end.
Definition comparison_op (t : Token) : option BinaryOp :=
  match t with
  | Token.Eq => Some BinaryOp.Eq
  | Token.Ne => Some BinaryOp.Ne
  | Token.Lt => Some BinaryOp.Lt
  | Token.Gt => Some BinaryOp.Gt
  | Token.Le => Some BinaryOp.Le
  | Token.Ge => Some BinaryOp.Ge
  | _ => None
  end.

Definition parse_level (op_of : Token → option BinaryOp) (operand : parserM Expr) : parserM Expr :=
  left ← operand;
  fuel ← remaining;
  binop_loop op_of operand fuel left.

Definition parse_multiplicative : parserM Expr := parse_level multiplicative_op parse_unary.
Definition parse_additive : parserM Expr := parse_level additive_op parse_multiplicative.
Definition parse_comparison : parserM Expr := parse_level comparison_op parse_additive.

(** The arms of [parse_primary] for a function of one and of two arguments. *)
Definition call1 (lp rp : string) (f : Expr → Expr) : parserM Expr :=
  _ ← advance;
  _ ← expect Token.LParen lp;
  a ← parse_comparison;
  _ ← expect Token.RParen rp;
  mret (f a).
Definition call2 (lp comma rp : string) (f : Expr → Expr → Expr) : parserM Expr :=
  _ ← advance;
  _ ← expect Token.LParen lp;
  a ← parse_comparison;
  _ ← expect Token.Comma comma;
  b ← parse_comparison;
  _ ← expect Token.RParen rp;
  mret (f a b).
End with_primary.
#[global] Arguments call1 parse_primary (lp rp)%_string f.
#[global] Arguments call2 parse_primary (lp comma rp)%_string f.

Fixpoint parse_primary (fuel : nat) (p : Parser) : pres Expr :=
  match fuel with
  | O => out_of_fuel p
  | S fuel =>
      (let parse_expression := parse_comparison (parse_primary fuel) in
       let call1 := call1 (parse_primary fuel) in
       let call2 := call2 (parse_primary fuel) in
       c ← current_token;
      match c with
      | Token.Integer n => _ ← advance; mret (Expr.Integer n)
      | Token.StringLit s => _ ← advance; mret (Expr.StringLit s)
      | Token.Identifier name =>
          _ ← advance;
          c ← current_token;
          if is_token Token.LParen c then
            _ ← advance;
            index ← parse_expression;
            _ ← expect Token.RParen "Expected ')' after array index";
            mret (Expr.ArrayAccess name index)
          else mret (Expr.Variable_ name)
      | Token.Mem => call1 "Expected '(' after MEM" "Expected ')'" Expr.Mem
      | Token.Chr => call1 "Expected '(' after CHR$" "Expected ')'" Expr.Chr
      | Token.Asc => call1 "Expected '(' after ASC" "Expected ')'" Expr.Asc
      | Token.Len => call1 "Expected '(' after LEN" "Expected ')'" Expr.Len
      | Token.Mid =>
          _ ← advance;
          _ ← expect Token.LParen "Expected '(' after MID$";
          s ← parse_expression;
          _ ← expect Token.Comma "Expected ',' in MID$";
          start ← parse_expression;
          _ ← expect Token.Comma "Expected ',' in MID$";
          len ← parse_expression;
          _ ← expect Token.RParen "Expected ')' after MID$";
          mret (Expr.Mid s start len)
      | Token.Left => call2 "Expected '(' after LEFT$" "Expected ',' in LEFT$" "Expected ')' after LEFT$" Expr.Left
      | Token.Instr => call2 "Expected '(' after INSTR" "Expected ',' in INSTR" "Expected ')' after INSTR" Expr.Instr
      | Token.Str => call1 "Expected '(' after STR$" "Expected ')' after STR$" Expr.Str
      | Token.Val => call1 "Expected '(' after VAL" "Expected ')' after VAL" Expr.Val
      | Token.Socket =>
          _ ← advance;
          _ ← expect Token.LParen "Expected '(' after SOCKET";
          _ ← expect Token.RParen "Expected ')' after SOCKET";
          mret Expr.Socket
      | Token.NetListen =>
          call2 "Expected '(' after LISTEN" "Expected ',' in LISTEN" "Expected ')' after LISTEN" Expr.Listen
      | Token.Accept => call1 "Expected '(' after ACCEPT" "Expected ')' after ACCEPT" Expr.Accept
      | Token.Recv => call1 "Expected '(' after RECV$" "Expected ')' after RECV$" Expr.Recv
      | Token.Sockstate => call1 "Expected '(' after SOCKSTATE" "Expected ')' after SOCKSTATE" Expr.Sockstate
      | Token.LParen =>
          _ ← advance;
          e ← parse_expression;
          _ ← expect Token.RParen "Expected ')'";
          mret e
      | _ => fail (ExpectedValue c)
      end) p
  end.

Definition parse_expression : parserM Expr := fuel ← remaining; parse_comparison (parse_primary fuel).

(** ** Statements *)

(** [match &self.current { Token::Identifier(name) => .. }] then [advance], and the
    same for a line number. *)
Definition identifier (msg : string) : parserM (list Z) :=
  c ← current_token;
  match c with Token.Identifier name => _ ← advance; mret name | _ => fail (Msg msg) end.
#[global] Arguments identifier msg%_string.
Definition line_number (msg : string) : parserM Z :=
  c ← current_token;
  match c with Token.Integer n => _ ← advance; mret (u32 n) | _ => fail (Msg msg) end.
#[global] Arguments line_number msg%_string.

Fixpoint print_loop (fuel : nat) (exprs : list Expr) : parserM (list Expr) :=
  match fuel with
  | O => out_of_fuel
  | S fuel =>
      c ← current_token;
      if is_token Token.Newline c || is_token Token.Eof c then mret exprs
      else
        e ← parse_expression;
        c ← current_token;
        if is_token Token.Semicolon c then _ ← advance; print_loop fuel (exprs ++ [e])
        else mret (exprs ++ [e])
  end.
Definition parse_print : parserM Statement :=
  _ ← advance;
  fuel ← remaining;
  exprs ← print_loop fuel [];
  mret (Statement.Print exprs).

Definition parse_let : parserM Statement :=
  _ ← advance;
  var ← identifier "Expected variable name";
  _ ← expect Token.Eq "Expected '='";
  value ← parse_expression;
  mret (Statement.Let var value).

Definition parse_if : parserM Statement :=
  _ ← advance;
  condition ← parse_expression;
  _ ← expect Token.Then "Expected THEN";
  then_line ← line_number "Expected line number after THEN";
  mret (Statement.If condition then_line).

Definition parse_goto : parserM Statement :=
  _ ← advance;
  line ← line_number "Expected line number";
  mret (Statement.Goto line).

Definition parse_for : parserM Statement :=
  _ ← advance;
  var ← identifier "Expected variable name";
  _ ← expect Token.Eq "Expected '='";
  start ← parse_expression;
  _ ← expect Token.To "Expected TO";
  end_ ← parse_expression;
  c ← current_token;
  step ← (if is_token Token.Step c then _ ← advance; parse_expression else mret (Expr.Integer 1));
  mret (Statement.For var start end_ step).

Definition parse_next : parserM Statement :=
  _ ← advance;
  var ← identifier "Expected variable name";
  mret (Statement.Next var).

Definition parse_sleep : parserM Statement :=
  _ ← advance;
  ms ← parse_expression;
  mret (Statement.Sleep ms).

Fixpoint spawn_loop (fuel : nat) (args : list (list Z)) : parserM (list (list Z)) :=
  match fuel with
  | O => out_of_fuel
  | S fuel =>
      c ← current_token;
      if is_token Token.Comma c then
        _ ← advance;
        c ← current_token;
        match c with
        | Token.StringLit s => _ ← advance; spawn_loop fuel (args ++ [s])
        | _ => fail (Msg "SPAWN arguments must be strings")
        end
      else mret args
  end.
Definition parse_spawn : parserM Statement :=
  _ ← advance;
  c ← current_token;
  match c with
  | Token.StringLit name =>
      _ ← advance;
      fuel ← remaining;
      args ← spawn_loop fuel [];
      mret (Statement.Spawn name args)
  | _ => fail (Msg "SPAWN requires a program name string")
  end.

Definition parse_gosub : parserM Statement :=
  _ ← advance;
  line ← line_number "Expected line number after GOSUB";
  mret (Statement.Gosub line).

Definition parse_dim : parserM Statement :=
  _ ← advance;
  name ← identifier "Expected array name after DIM";
  _ ← expect Token.LParen "Expected '(' after array name";
  size ← parse_expression;
  _ ← expect Token.RParen "Expected ')' after array size";
  mret (Statement.Dim name size).

Definition parse_send : parserM Statement :=
  _ ← advance;
  sock ← parse_expression;
  _ ← expect Token.Comma "Expected ',' after socket in SEND";
  data ← parse_expression;
  mret (Statement.Send sock data).

Definition parse_close : parserM Statement :=
  _ ← advance;
  sock ← parse_expression;
  mret (Statement.NetClose sock).

(** [self.lexer.skip_to_eol(); self.current = self.lexer.next_token()]. *)
Definition skip_line : parserM unit := λ p, advance (mkParser (skip_to_eol (rest p)) (current p)).

(** The arm of [parse_statement] for an identifier: an assignment to a variable
    or to an array element. *)
Definition parse_assign (var : list Z) : parserM Statement :=
  _ ← advance;
  c ← current_token;
  if is_token Token.LParen c then
    _ ← advance;
    index ← parse_expression;
    _ ← expect Token.RParen "Expected ')' after array index";
    _ ← expect Token.Eq "Expected '=' after array element";
    value ← parse_expression;
    mret (Statement.ArrayAssign var index value)
  else
    _ ← expect Token.Eq "Expected '='";
    value ← parse_expression;
    mret (Statement.Let var value).

Definition parse_statement : parserM Statement :=
  c ← current_token;
  match c with
  | Token.Print => parse_print
  | Token.Let => parse_let
  | Token.If => parse_if
  | Token.Goto => parse_goto
  | Token.For => parse_for
  | Token.Next => parse_next
  | Token.Sleep => parse_sleep
  | Token.Spawn => parse_spawn
  | Token.Gosub => parse_gosub
  | Token.Return => _ ← advance; mret Statement.Return
  | Token.Dim => parse_dim
  | Token.Send => parse_send
  | Token.Close => parse_close
  | Token.Rem => _ ← advance; _ ← skip_line; mret Statement.Rem
  | Token.End => _ ← advance; mret Statement.End
  | Token.Identifier name => parse_assign name
  | _ => fail (UnexpectedToken c)
  end.

Fixpoint skip_newlines (fuel : nat) : parserM unit :=
  match fuel with
  | O => out_of_fuel
  | S fuel =>
      c ← current_token;
      if is_token Token.Newline c then _ ← advance; skip_newlines fuel else mret ()
  end.

Definition parse_line : parserM (option (option Z * Statement)) :=
  fuel ← remaining;
  _ ← skip_newlines fuel;
  c ← current_token;
  if is_token Token.Eof c then mret None
  else
    line_num ← (match c with Token.Integer n => _ ← advance; mret (Some (u32 n)) | _ => mret None end);
    stmt ← parse_statement;
    c ← current_token;
    _ ← (if is_token Token.Newline c then advance else mret ());
    mret (Some (line_num, stmt)).

(** ** What the parser produces *)

Definition string_ok (s : list Z) : Prop := Forall (λ c, c ≠ QUOTE ∧ c ≠ NL ∧ c ≠ CR) s.
(** An upper-case name that is not a keyword. *)
Definition ident_ok (s : list Z) : Prop :=
  (∃ c s', s = c :: s' ∧ is_upper c = true) ∧
  Forall (λ c, is_ident_char c = true ∧ is_lower c = false) s ∧
  keyword_or_identifier s = Token.Identifier s.
Definition int_ok (n : Z) : Prop := 0 ≤ n ≤ 9223372036854775807.

Definition token_wf (t : Token) : Prop :=
  match t with
  | Token.Integer n => int_ok n
  | Token.StringLit s => string_ok s
  | Token.Identifier s => ident_ok s
  | _ => True
  end.

Fixpoint expr_wf (e : Expr) : Prop :=
  match e with
  | Expr.Integer n => int_ok n
  | Expr.StringLit s => string_ok s
  | Expr.Variable_ name => ident_ok name
  | Expr.BinaryOp l _ r => expr_wf l ∧ expr_wf r
  | Expr.Socket => True
  | Expr.Negate e | Expr.Mem e | Expr.Chr e | Expr.Asc e | Expr.Len e | Expr.Str e | Expr.Val e
  | Expr.Accept e | Expr.Recv e | Expr.Sockstate e => expr_wf e
  | Expr.Mid a b c => expr_wf a ∧ expr_wf b ∧ expr_wf c
  | Expr.Left a b | Expr.Instr a b | Expr.Listen a b => expr_wf a ∧ expr_wf b
  | Expr.ArrayAccess name e => ident_ok name ∧ expr_wf e
  end.

Definition line_ok (n : Z) : Prop := 0 ≤ n < 2^32.

Definition stmt_wf (s : Statement) : Prop :=
  match s with
  | Statement.Print es => Forall expr_wf es
  | Statement.Let var e => ident_ok var ∧ expr_wf e
  | Statement.If e n => expr_wf e ∧ line_ok n
  | Statement.Goto n | Statement.Gosub n => line_ok n
  | Statement.For var a b c => ident_ok var ∧ expr_wf a ∧ expr_wf b ∧ expr_wf c
  | Statement.Next var => ident_ok var
  | Statement.Sleep e | Statement.NetClose e => expr_wf e
  | Statement.Rem | Statement.End | Statement.Return => True
  | Statement.Spawn name args => string_ok name ∧ Forall string_ok args
  | Statement.Dim name e => ident_ok name ∧ expr_wf e
  | Statement.ArrayAssign name i e => ident_ok name ∧ expr_wf i ∧ expr_wf e
  | Statement.Send a b => expr_wf a ∧ expr_wf b
  end.

(** *** Tokens are well formed *)

Lemma string_loop_ok s : string_ok (string_loop s).1.
Proof.
  induction s as [|c s IH]; cbn; [constructor|].
  destruct (c =? QUOTE) eqn:E1; [constructor|]. destruct ((c =? NL) || (c =? CR)) eqn:E2; [constructor|].
  apply orb_false_iff in E2 as [?%Z.eqb_neq ?%Z.eqb_neq]. apply Z.eqb_neq in E1.
  destruct (string_loop s). by constructor.
Qed.

Lemma digits_fold_nonneg s z :
  Forall (λ c, is_ascii_digit c = true) s → 0 ≤ z → 0 ≤ foldl (λ n c, 10 * n + (c - 48)) z s.
Proof.
  intros Hs. revert z. induction Hs as [|c s Hc Hs IH]; intros z Hz; cbn; [done|]. apply IH.
  unfold is_ascii_digit in Hc. apply andb_true_iff in Hc as [?%Z.leb_le ?%Z.leb_le]. lia.
Qed.

Lemma parse_i64_unsigned s :
  Forall (λ c, is_ascii_digit c = true) s → parse_i64 s = parse_digits false s.
Proof.
  intros [|c s' Hc Hs]; [done|]. unfold is_ascii_digit in Hc.
  apply andb_true_iff in Hc as [?%Z.leb_le ?%Z.leb_le].
  unfold parse_i64. repeat case_match; subst; first [done|lia].
Qed.

Lemma parse_i64_digits_ok s n :
  Forall (λ c, is_ascii_digit c = true) s → parse_i64 s = Some n → int_ok n.
Proof.
  intros Hs. rewrite (parse_i64_unsigned s Hs). unfold parse_digits.
  pose proof (digits_fold_nonneg s 0 Hs ltac:(lia)) as H0. fold (digits_value s) in H0.
  destruct s as [|c0 s0]; [done|]. destruct (forallb _ _); [|done].
  destruct (_ && _) eqn:E; [|done]. intros [= <-].
  apply andb_true_iff in E as [_ ?%Z.leb_le]. by split.
Qed.

Definition token_plain (t : Token) : bool :=
  match t with Token.Integer _ | Token.StringLit _ | Token.Identifier _ | Token.Eof => false | _ => true end.

Lemma keywords_plain : forallb (λ k, token_plain k.2) keywords = true.
Proof. vm_compute. reflexivity. Qed.

Lemma keyword_cases w :
  keyword_or_identifier w = Token.Identifier w ∨ token_plain (keyword_or_identifier w) = true.
Proof.
  unfold keyword_or_identifier. destruct (list_find _ _) as [[i k]|] eqn:E; [right|by left].
  apply list_find_Some in E as (E & _). pose proof keywords_plain as H. rewrite forallb_forall in H.
  apply H, list_elem_of_In, list_elem_of_lookup_2 with i, E.
Qed.

Lemma token_plain_wf t : token_plain t = true → token_wf t.
Proof. by destruct t. Qed.

(** The upper-case image of an identifier's characters. *)
Lemma upper_ident s :
  Forall (λ c, is_ident_char c = true) s →
  Forall (λ c, is_ident_char c = true ∧ is_lower c = false) (to_ascii_uppercase s).
Proof.
  induction 1 as [|c s Hc Hs IH]; constructor; [|done].
  destruct (is_lower c) eqn:E; [|done].
  unfold is_ident_char, is_ascii_alphanumeric, is_ascii_alphabetic, is_upper, is_lower, is_ascii_digit in *.
  apply andb_true_iff in E as [?%Z.leb_le ?%Z.leb_le].
  replace (65 <=? c - 32) with true by lia. replace (c - 32 <=? 90) with true by lia.
  replace (97 <=? c - 32) with false by lia. done.
Qed.

Lemma read_identifier_wf c s :
  is_ascii_alphabetic c = true → token_wf (read_identifier_or_keyword (c :: s)).1.
Proof.
  intros Hc. unfold read_identifier_or_keyword. pose proof (span_spec is_ident_char (c :: s)) as H.
  destruct (span is_ident_char (c :: s)) as [t r] eqn:Et. destruct H as (Hs & Ht & _). cbn [fst].
  destruct (keyword_cases (to_ascii_uppercase t)) as [E|E]; [|by apply token_plain_wf].
  rewrite E. split_and!; [|by apply upper_ident|done].
  cbn in Et. replace (is_ident_char c) with true in Et
    by (unfold is_ident_char, is_ascii_alphanumeric; by rewrite Hc).
  destruct (span is_ident_char s) as [t' r']. injection Et as <- <-.
  eexists _, _. split; [reflexivity|]. unfold is_ascii_alphabetic, is_upper, is_lower in *.
  repeat case_match; lia.
Qed.

Lemma next_token_wf s : token_wf (next_token s).1.
Proof.
  induction s as [|c s IH]; [done|]. cbn [next_token].
  destruct (_ || _); [done|]. destruct (c =? NL); [done|]. destruct (c =? CR); [done|].
  destruct (c =? QUOTE).
  { unfold read_string. change (drop 1 (c :: s)) with s. pose proof (string_loop_ok s) as H. by destruct (string_loop s). }
  destruct (is_ascii_digit c) eqn:Ed.
  { unfold read_number. pose proof (span_spec is_ascii_digit (c :: s)) as H.
    destruct (span _ _) as [t r]. destruct H as (_ & Ht & _). cbn.
    destruct (parse_i64 t) as [n|] eqn:En; cbn; [by eapply parse_i64_digits_ok|unfold int_ok; lia]. }
  destruct (is_ascii_alphabetic c) eqn:Ea; [by apply read_identifier_wf|].
  repeat match goal with |- context [if ?b then _ else _] => destruct b; [done|] end; try done.
  all: repeat case_match; done.
Qed.

(** *** A weakest precondition for the parser: it does not run out of fuel, and a
    result satisfies the postcondition *)

Definition prun {A} (m : parserM A) (p : Parser) (Q : A → Parser → Prop) : Prop :=
  match m p with POk a p' => Q a p' | PErr _ => True | PFuel => False end.

Definition size (p : Parser) : nat := length (rest p) + match current p with Token.Eof => 0 | _ => 1 end.
Definition good (p : Parser) : Prop := token_wf (current p) ∧ (current p = Token.Eof → rest p = []).

Lemma prun_bind {A B} (m : parserM A) (f : A → parserM B) p Q :
  prun m p (λ a p', prun (f a) p' Q) → prun (m ≫= f) p Q.
Proof. unfold prun, mbind, parserM_bind. by destruct (m p). Qed.
Lemma prun_mono {A} (m : parserM A) p (P Q : A → Parser → Prop) :
  prun m p P → (∀ a p', P a p' → Q a p') → prun m p Q.
Proof. unfold prun. destruct (m p); auto. Qed.
Lemma prun_ret {A} (a : A) p (Q : A → Parser → Prop) : Q a p → prun (mret a) p Q.
Proof. done. Qed.
Lemma prun_fail {A} e p (Q : A → Parser → Prop) : prun (fail e) p Q.
Proof. done. Qed.
Lemma prun_current {B} (f : Token → parserM B) p Q :
  prun (f (current p)) p Q → prun (current_token ≫= f) p Q.
Proof. done. Qed.
Lemma prun_remaining {B} (f : nat → parserM B) p Q :
  (∀ n, (size p < n)%nat → prun (f n) p Q) → prun (remaining ≫= f) p Q.
Proof. intros H. apply (H (S (S (length (rest p))))). unfold size. case_match; lia. Qed.

Lemma next_token_eof s r : next_token s = (Token.Eof, r) → r = [].
Proof.
  induction s as [|c s IH]; [by intros [= <-]|]. cbn [next_token].
  destruct (_ || _); [done|]. destruct (c =? NL); [done|]. destruct (c =? CR); [done|].
  destruct (c =? QUOTE); [unfold read_string; by destruct (string_loop _)|].
  destruct (is_ascii_digit c); [unfold read_number; by destruct (span _ _)|].
  destruct (is_ascii_alphabetic c).
  { unfold read_identifier_or_keyword. destruct (span _ _) as [t r']. intros [= E _].
    by destruct (keyword_cases (to_ascii_uppercase t)) as [E'|E']; rewrite E in E'. }
  repeat match goal with |- context [if ?b then _ else _] => destruct b; [done|] end; try done.
  all: repeat case_match; done.
Qed.

(** The state after reading a token from [s]. *)
Lemma new_good s : good (new s) ∧ (size (new s) ≤ length s)%nat.
Proof.
  unfold new. pose proof (next_token_wf s). pose proof (next_token_length s). pose proof (next_token_eof s).
  destruct (next_token s) as [t r]. unfold good, size. cbn in *. split; [split; [done|]|].
  - intros ->. auto.
  - destruct H0 as [[-> ->]|]; cbn; [lia|]. case_match; lia.
Qed.

Lemma advance_new p : advance p = POk () (new (rest p)).
Proof. unfold advance, new. by destruct (next_token (rest p)). Qed.

(** [advance] never adds tokens, and removes one unless the input has ended. *)
Lemma prun_advance {B} (f : unit → parserM B) p Q :
  (∀ p', good p' → (size p' ≤ size p)%nat → (current p ≠ Token.Eof → (size p' < size p)%nat) → prun (f ()) p' Q) →
  good p → prun (advance ≫= f) p Q.
Proof.
  intros H [_ He]. apply prun_bind. unfold prun at 1. rewrite advance_new.
  destruct (new_good (rest p)) as [Hg Hs]. apply H; [done| |]; unfold size at 2; [case_match; lia|].
  intros Hne. case_match; first [lia|done].
Qed.

Lemma prun_expect {B} t msg (f : unit → parserM B) p Q :
  t ≠ Token.Eof → (∀ p', good p' → (size p' < size p)%nat → prun (f ()) p' Q) →
  good p → prun (expect t msg ≫= f) p Q.
Proof.
  intros Ht H Hg. apply prun_bind. unfold expect. apply prun_current.
  destruct (is_token t (current p)) eqn:E; [|done].
  unfold prun at 1. rewrite advance_new. destruct Hg as [_ He], (new_good (rest p)) as [Hg Hs]. apply H; [done|].
  unfold size at 2. destruct (current p); try lia. by destruct t.
Qed.

(** An expression parser started with fewer than [n] tokens. *)
Definition espec (n : nat) (m : parserM Expr) : Prop :=
  ∀ p, good p → (size p < n)%nat → prun m p (λ e p', expr_wf e ∧ good p' ∧ (size p' < size p)%nat).

Lemma prun_expr {B} n (m : parserM Expr) (f : Expr → parserM B) p Q :
  espec n m → good p → (size p < n)%nat →
  (∀ e p', expr_wf e → good p' → (size p' < size p)%nat → prun (f e) p' Q) → prun (m ≫= f) p Q.
Proof. intros Hm Hg Hn H. apply prun_bind. eapply prun_mono; [by apply Hm|]. cbn. intros e p' (?&?&?). auto. Qed.

Section totality.
Context (n : nat) (primary : parserM Expr) (Hprim : espec n primary).

Lemma parse_unary_total : espec n (parse_unary primary).
Proof.
  intros p Hg Hn. unfold parse_unary. apply prun_current. case_match eqn:E; [|by apply Hprim].
  apply prun_advance; [|done]. intros p' Hg' _ Hlt.
  assert (current p ≠ Token.Eof) as Hne by (by intros He; rewrite He in E). specialize (Hlt Hne).
  eapply prun_expr; [done|done|lia|]. intros e p'' He Hg'' Hs. apply prun_ret. split_and!; [done|done|lia].
Qed.

Lemma binop_loop_total op_of operand :
  op_of Token.Eof = None → espec n operand →
  ∀ fuel left p, good p → expr_wf left → (size p < n)%nat → (size p < fuel)%nat →
  prun (binop_loop op_of operand fuel left) p (λ e p', expr_wf e ∧ good p' ∧ (size p' ≤ size p)%nat).
Proof.
  intros Heof Hop fuel. induction fuel as [|fuel IH]; intros left p Hg Hl Hn Hf; [lia|].
  cbn [binop_loop]. apply prun_current. destruct (op_of (current p)) as [op|] eqn:E; [|by apply prun_ret].
  apply prun_advance; [|done]. intros p' Hg' _ Hlt.
  assert (current p ≠ Token.Eof) as Hne by congruence. specialize (Hlt Hne).
  eapply prun_expr; [done|done|lia|]. intros e p'' He Hg'' Hs.
  eapply prun_mono; [apply IH; [done|by split|lia|lia]|]. cbn. intros ? ? (?&?&?). split_and!; [done|done|lia].
Qed.

Lemma parse_level_total op_of operand :
  op_of Token.Eof = None → espec n operand → espec n (parse_level op_of operand).
Proof.
  intros Heof Hop p Hg Hn. unfold parse_level. eapply prun_expr; [done|done|done|].
  intros e p' He Hg' Hs. apply prun_remaining. intros fuel Hf.
  eapply prun_mono; [apply binop_loop_total; try done; lia|]. cbn. intros ? ? (?&?&?). split_and!; [done|done|lia].
Qed.

Lemma parse_comparison_total : espec n (parse_comparison primary).
Proof. repeat (apply parse_level_total; [done|]). apply parse_unary_total. Qed.
End totality.

(** One step of a parser that consumes a token or calls a specified parser. *)
Ltac not_eof p :=
  let He := fresh in
  assert (current p ≠ Token.Eof) by (intros He; first [congruence | rewrite He in *; done]).
Ltac pstep :=
  lazymatch goal with
  | |- prun (mret _) _ _ => apply prun_ret; cbn; repeat match goal with |- _ ∧ _ => split end; try assumption; try lia
  | |- prun (fail _) _ _ => apply prun_fail
  | |- prun (current_token ≫= _) _ _ => apply prun_current
  | |- prun (remaining ≫= _) _ _ => apply prun_remaining; intros ? ?
  | |- prun (advance ≫= _) ?p _ =>
      not_eof p; apply prun_advance; [intros ? ? _ ?|assumption];
      match goal with H : current _ ≠ Token.Eof → _, Hn : current _ ≠ Token.Eof |- _ => specialize (H Hn); clear Hn end
  | |- prun (expect _ _ ≫= _) _ _ => apply prun_expect; [done|intros ? ? ?|assumption]
  | |- prun (parse_comparison (parse_primary _) ≫= _) _ _ =>
      eapply prun_expr; [eassumption|assumption|lia|intros ? ? ? ? ?]
  end.

Lemma call1_total n primary lp rp f : espec n (parse_comparison primary) → (∀ e, expr_wf e → expr_wf (f e)) →
  ∀ p, good p → (size p ≤ n)%nat → current p ≠ Token.Eof →
  prun (call1 primary lp rp f) p (λ e p', expr_wf e ∧ good p' ∧ (size p' < size p)%nat).
Proof.
  intros He Hf p Hg Hn Hne. unfold call1. pstep. pstep. eapply prun_expr; [done|done|lia|]. intros a p2 Ha Hp2 Hs2.
  pstep. pstep. auto.
Qed.

Lemma call2_total n primary lp comma rp f : espec n (parse_comparison primary) →
  (∀ a b, expr_wf a → expr_wf b → expr_wf (f a b)) →
  ∀ p, good p → (size p ≤ n)%nat → current p ≠ Token.Eof →
  prun (call2 primary lp comma rp f) p (λ e p', expr_wf e ∧ good p' ∧ (size p' < size p)%nat).
Proof.
  intros He Hf p Hg Hn Hne. unfold call2. pstep. pstep. eapply prun_expr; [done|done|lia|]. intros a p2 Ha Hp2 Hs2.
  pstep. eapply prun_expr; [done|done|lia|]. intros b p4 Hb Hp4 Hs4. pstep. pstep. auto.
Qed.

Lemma parse_primary_total n : espec n (parse_primary n).
Proof.
  induction n as [|n IH]; intros p Hg Hn; [lia|]. cbn [parse_primary].
  pose proof (parse_comparison_total n _ IH) as Hexp.
  pose proof Hg as [Hwf _]. apply prun_current. destruct (current p) eqn:E; try pstep.
  all: try (eapply call1_total; [exact Hexp|auto|done|lia|congruence]).
  all: try (eapply call2_total; [exact Hexp|by split|done|lia|congruence]).
  - by repeat pstep.
  - by repeat pstep.
  - by repeat pstep.
  - by repeat pstep.
  - by repeat pstep.
  - pstep. case_match eqn:El; by repeat pstep.
Qed.

Lemma parse_expression_total p :
  good p → prun parse_expression p (λ e p', expr_wf e ∧ good p' ∧ (size p' < size p)%nat).
Proof.
  intros Hg. unfold parse_expression. apply prun_remaining. intros fuel Hf.
  apply (parse_comparison_total fuel); [apply parse_primary_total|done|done].
Qed.

(** *** Statements and lines *)

Lemma prun_expression {B} (f : Expr → parserM B) p Q :
  good p → (∀ e p', expr_wf e → good p' → (size p' < size p)%nat → prun (f e) p' Q) →
  prun (parse_expression ≫= f) p Q.
Proof. intros Hg H. apply prun_bind. eapply prun_mono; [by apply parse_expression_total|]. intros e p' (?&?&?). auto. Qed.

Lemma prun_identifier {B} msg (f : list Z → parserM B) p Q :
  good p → (∀ s p', ident_ok s → good p' → (size p' < size p)%nat → prun (f s) p' Q) →
  prun (identifier msg ≫= f) p Q.
Proof.
  intros Hg H. apply prun_bind. unfold identifier. pstep. pose proof Hg as [Hwf _].
  destruct (current p) eqn:E; try pstep. pstep. by apply H.
Qed.

Lemma u32_line n : line_ok (u32 n).
Proof. unfold line_ok, u32. apply Z.mod_pos_bound. lia. Qed.

Lemma prun_line_number {B} msg (f : Z → parserM B) p Q :
  good p → (∀ n p', line_ok n → good p' → (size p' < size p)%nat → prun (f n) p' Q) →
  prun (line_number msg ≫= f) p Q.
Proof.
  intros Hg H. apply prun_bind. unfold line_number. pstep.
  destruct (current p) eqn:E; try pstep. pstep. apply H; [apply u32_line|done|done].
Qed.

Ltac sstep :=
  lazymatch goal with
  | |- prun (parse_expression ≫= _) _ _ => apply prun_expression; [assumption|intros ? ? ? ? ?]
  | |- prun (identifier _ ≫= _) _ _ => apply prun_identifier; [assumption|intros ? ? ? ? ?]
  | |- prun (line_number _ ≫= _) _ _ => apply prun_line_number; [assumption|intros ? ? ? ? ?]
  | |- _ => pstep
  end.

Lemma print_loop_total fuel es p : good p → Forall expr_wf es → (size p < fuel)%nat →
  prun (print_loop fuel es) p (λ es' p', Forall expr_wf es' ∧ good p' ∧ (size p' ≤ size p)%nat).
Proof.
  revert es p. induction fuel as [|fuel IH]; intros es p Hg Hes Hf; [lia|]. cbn [print_loop].
  sstep. case_match; [by sstep|]. sstep. sstep.
  assert (Forall expr_wf (es ++ [e])) by (by apply Forall_app; split; [|constructor]).
  case_match; [|by sstep]. sstep.
  eapply prun_mono; [apply IH; [done|done|lia]|]. cbn. intros ? ? (?&?&?). split_and!; [done|done|lia].
Qed.

Lemma spawn_loop_total fuel args p : good p → Forall string_ok args → (size p < fuel)%nat →
  prun (spawn_loop fuel args) p (λ args' p', Forall string_ok args' ∧ good p' ∧ (size p' ≤ size p)%nat).
Proof.
  revert args p. induction fuel as [|fuel IH]; intros args p Hg Has Hf; [lia|]. cbn [spawn_loop].
  sstep. case_match; [|by sstep]. sstep. sstep.
  match goal with Hg : good ?q |- prun (match current ?q with _ => _ end) _ _ =>
    pose proof Hg as [Hwf _]; destruct (current q) eqn:Es; try sstep end.
  eapply prun_mono; [apply IH; [done|apply Forall_app; split; [done|by constructor]|lia]|].
  cbn. intros ? ? (?&?&?). split_and!; [done|done|lia].
Qed.

Lemma skip_line_total {B} (f : unit → parserM B) p Q :
  good p → (∀ p', good p' → (size p' ≤ size p)%nat → prun (f ()) p' Q) → prun (skip_line ≫= f) p Q.
Proof.
  intros Hg H. apply prun_bind. unfold prun at 1, skip_line. rewrite advance_new. cbn.
  pose proof (skip_to_eol_length (rest p)). destruct (new_good (skip_to_eol (rest p))) as [Hg' Hs].
  apply H; [done|]. unfold size at 2. case_match; lia.
Qed.

Lemma parse_statement_total p : good p → current p ≠ Token.Eof →
  prun parse_statement p (λ s p', stmt_wf s ∧ good p' ∧ (size p' < size p)%nat).
Proof.
  intros Hg Hne. unfold parse_statement. pose proof Hg as [Hwf _]. sstep.
  destruct (current p) eqn:E; try sstep.
  - unfold parse_print. sstep. sstep. apply prun_bind. eapply prun_mono; [by apply print_loop_total|].
    intros es ? (?&?&?). sstep.
  - unfold parse_let. repeat sstep.
  - unfold parse_if. repeat sstep.
  - unfold parse_goto. repeat sstep.
  - unfold parse_for. do 7 sstep. apply prun_bind. case_match; repeat sstep.
    + eapply prun_mono; [by apply parse_expression_total|]. intros e2 ? (?&?&?). sstep.
    + unfold int_ok. lia.
  - unfold parse_next. repeat sstep.
  - unfold parse_sleep. repeat sstep.
  - apply skip_line_total; [done|]. intros ? ? ?. repeat sstep.
  - repeat sstep.
  - unfold parse_spawn. sstep. sstep.
    match goal with Hg : good ?q |- prun (match current ?q with _ => _ end) _ _ =>
      pose proof Hg as [? _]; destruct (current q) eqn:Es; try sstep end.
    sstep. apply prun_bind. eapply prun_mono; [by apply spawn_loop_total|]. intros args ? (?&?&?). sstep.
  - unfold parse_gosub. repeat sstep.
  - repeat sstep.
  - unfold parse_dim. repeat sstep.
  - unfold parse_send. repeat sstep.
  - unfold parse_close. repeat sstep.
  - unfold parse_assign. sstep. sstep. case_match; repeat sstep.
Qed.

Lemma skip_newlines_total fuel p : good p → (size p < fuel)%nat →
  prun (skip_newlines fuel) p (λ _ p', good p' ∧ (size p' ≤ size p)%nat ∧ is_token Token.Newline (current p') = false).
Proof.
  revert p. induction fuel as [|fuel IH]; intros p Hg Hf; [lia|]. cbn [skip_newlines].
  sstep. case_match; [|by sstep]. sstep. eapply prun_mono; [apply IH; [done|lia]|].
  cbn. intros ? ? (?&?&?). split_and!; [done|lia|done].
Qed.

(** A line is read, or an error is reported, in bounded time; what is read is well
    formed, and the parser has moved on. *)
Lemma parse_line_total p : good p →
  prun parse_line p (λ o p', good p' ∧
    match o with
    | Some (n, s) => stmt_wf s ∧ (∀ l, n = Some l → line_ok l) ∧ (size p' < size p)%nat
    | None => True
    end).
Proof.
  intros Hg. unfold parse_line. sstep. apply prun_bind. eapply prun_mono; [by apply skip_newlines_total|].
  intros _ p1 (Hg1 & Hs1 & _). sstep. case_match eqn:Eeof; [by sstep|]. apply prun_bind.
  assert (current p1 ≠ Token.Eof) as Hne1 by (intros He; by rewrite He in Eeof).
  eapply (prun_mono _ _ (λ n p2, (∀ l, n = Some l → line_ok l) ∧ good p2 ∧ (size p2 ≤ size p1)%nat)).
  { pose proof Hg1 as [? _]. destruct (current p1) eqn:E; try (apply prun_ret; done).
    sstep. sstep. intros l [= <-]. apply u32_line. }
  intros num p2 (Hn & Hg2 & Hs2). apply prun_bind.
  eapply (prun_mono _ _ (λ s p3, stmt_wf s ∧ good p3 ∧ (size p3 < size p)%nat)).
  { destruct (current p2) eqn:E; try (eapply prun_mono; [apply parse_statement_total; [done|congruence]|];
      cbn; intros ? ? (?&?&?); split_and!; [done|done|lia]).
    by unfold parse_statement; apply prun_current; rewrite E. }
  intros st p3 (Hst & Hg3 & Hs3). sstep. apply prun_bind.
  eapply (prun_mono _ _ (λ _ p4, good p4 ∧ (size p4 ≤ size p3)%nat)).
  - case_match eqn:En; [|by apply prun_ret]. unfold prun. rewrite advance_new.
    destruct (new_good (rest p3)) as [? ?]. split; [done|]. unfold size at 2. case_match; lia.
  - intros _ p4 (Hg4 & Hs4). sstep.
Qed.
