(* ===== verification/BasicInterp.v ===== *)
(** The BASIC interpreter (src/basic/value.rs, src/basic/interpreter.rs), over an
    interface to the rest of the kernel: the terminal it prints to, the sockets,
    the heap statistics and the program loader. *)

From stdpp Require Import strings.
From S2P Require Import Prelude BTreeMap Utf8 Tcp BasicLexer BasicParser.
#[local] Open Scope Z_scope.

(** ** Values (src/basic/value.rs) *)

Module Value.
Inductive Value : Type :=
  | Integer (n : Z)
  | String_ (s : list Z)
  | IntArray (arr : list Z)
  | StringArray (arr : list (list Z)).
End Value.
Abbreviation Value := Value.Value.

Definition as_integer (v : Value) : option Z :=
  match v with Value.Integer n => Some n | _ => None end.
Definition as_string (v : Value) : option (list Z) :=
  match v with Value.String_ s => Some s | _ => None end.
Definition is_truthy (v : Value) : bool :=
  match v with
  | Value.Integer n => negb (n =? 0)
  | Value.String_ s => negb (length s =? 0)%nat
  | Value.IntArray a => negb (length a =? 0)%nat
  | Value.StringArray a => negb (length a =? 0)%nat
  end.

(** [Display] of an integer: at most twenty digits. *)
Fixpoint dec_loop (fuel : nat) (n : Z) : list Z :=
  match fuel with
  | O => []
  | S fuel => (if n <? 10 then [] else dec_loop fuel (n / 10)) ++ [48 + n mod 10]
  end.
Definition dec (n : Z) : list Z := if n <? 0 then 45 :: dec_loop 20 (- n) else dec_loop 20 n.

Definition display (v : Value) : list Z :=
  match v with
  | Value.Integer n => dec n
  | Value.String_ s => s
  | Value.IntArray _ | Value.StringArray _ => chars "[Array]"
  end.

(** ** The kernel as the interpreter sees it *)

(** [write] is [fmt::Write::write_str] of the terminal; the socket calls are those of
    src/net/tcp.rs; [heap_stats] is [allocator::get_heap_stats]; [spawn] is
    [api::spawn_program_dynamic], with the text of the error.  [alloc n] is a request for [n]
    bytes to the global allocator, and whether it is satisfied. *)
Class Host (W : Type) := {
  h_write : list Z → W → outcome (W * unit);
  h_socket : W → outcome (W * option nat);
  h_listen : nat → Z → W → outcome (W * bool);
  h_accept : nat → W → outcome (W * option nat);
  h_recv : nat → nat → W → outcome (W * (Z * list Z));
  h_send : nat → list Z → W → outcome (W * Z);
  h_close : nat → W → outcome (W * unit);
  h_get_state : nat → W → outcome (W * TcpState);
  h_heap_stats : W → outcome (W * (Z * Z));
  h_spawn : list Z → list (list Z) → W → outcome (W * result (list Z) Z);
  h_alloc : Z → W → outcome (W * bool);
}.

(** The mutable state that [execute_statement] borrows from the interpreter. *)
Record Env := mkEnv { variables : gmap (list Z) Value; for_stack : list ForState; return_stack : list nat }.
Definition set_variable (env : Env) (x : list Z) (v : Value) : Env :=
  mkEnv (<[x := v]> (variables env)) (for_stack env) (return_stack env).
Definition set_for_stack (env : Env) (l : list ForState) : Env := mkEnv (variables env) l (return_stack env).
Definition set_return_stack (env : Env) (l : list nat) : Env := mkEnv (variables env) (for_stack env) l.

(** Why the kernel panics: [alloc_error] of src/main.rs, the capacity check of [Vec], the
    checks of the division and of an index. *)
Inductive panic_reason : Type := AllocError | CapacityOverflow | DivideByZero | DivideOverflow | IndexOutOfRange.
Inductive failure : Type := Fails (e : list Z) | Panics (why : panic_reason).

(** The bytes of a string, and of a value outside its own record. *)
Definition str_size (s : list Z) : Z := Z.of_nat (length (as_bytes s)).
Definition value_size (v : Value) : Z :=
  match v with
  | Value.Integer _ => 0
  | Value.String_ s => str_size s
  | Value.IntArray arr => 8 * Z.of_nat (length arr)
  | Value.StringArray arr => foldr (λ s n, 24 + str_size s + n) 0 arr
  end.

Section interp.
Context {W : Type} `{Host W}.

(** State, and what ends a statement early: a BASIC run-time error or a panic, with its
    reason. *)
Definition basicM (A : Type) : Type := Env → W → outcome (Env * W * result failure A).
#[global] Instance basicM_ret : MRet basicM := λ A a env w, Ret (env, w, Ok a).
#[global] Instance basicM_bind : MBind basicM := λ A B f m env w,
  match m env w with
  | Ret (env', w', Ok a) => f a env' w'
  | Ret (env', w', Err e) => Ret (env', w', Err e)
  | Panic => Panic
  | Diverge => Diverge
  end.
Definition stop {A} (f : failure) : basicM A := λ env w, Ret (env, w, Err f).
Definition panic {A} (why : panic_reason) : basicM A := stop (Panics why).
Definition get_env : basicM Env := λ env w, Ret (env, w, Ok env).
Definition put_env (env : Env) : basicM unit := λ _ w, Ret (env, w, Ok ()).
Definition host {A} (f : W → outcome (W * A)) : basicM A := λ env w, '(w', a) ← f w; Ret (env, w', Ok a).
(** A request to the heap.  Every string, array, key and stack entry that the interpreter
    builds is one; how a [Vec] grows and the nodes of the map are left to [h_alloc].  The
    status texts that [step] builds are not counted. *)
Definition alloc (n : Z) : basicM unit :=
  if n =? 0 then mret ()
  else ok ← host (h_alloc n); if ok : bool then mret () else panic AllocError.
(** [return Err(..)], with the [String] of the message. *)
Definition throw {A} (e : list Z) : basicM A := _ ← alloc (str_size e); stop (Fails e).
(** A new string. *)
Definition new_string (s : list Z) : basicM Value := _ ← alloc (str_size s); mret (Value.String_ s).
(** [.ok_or(msg)?] *)
Definition ok_or {A} (o : option A) (msg : string) : basicM A :=
  match o with Some a => mret a | None => throw (chars msg) end.

(** ** Expressions *)

Definition bool_value (b : bool) : Value := Value.Integer (if b then 1 else 0).

(** [lv / rv] *)
Definition div_i64 (a b : Z) : basicM Z :=
  if b =? 0 then panic DivideByZero
  else if (a =? -9223372036854775808) && (b =? -1) then panic DivideOverflow
  else mret (Z.quot a b).

(** The match of [eval_binary_op] on integers. *)
Definition numeric_op (op : BinaryOp) (lv rv : Z) : basicM Value :=
  match op with
  | BinaryOp.Add => mret (Value.Integer (i64 (lv + rv)))
  | BinaryOp.Sub => mret (Value.Integer (i64 (lv - rv)))
  | BinaryOp.Mul => mret (Value.Integer (i64 (lv * rv)))
  | BinaryOp.Div =>
      if rv =? 0 then throw (chars "Division by zero")
      else q ← div_i64 lv rv; mret (Value.Integer q)
  | BinaryOp.Eq => mret (bool_value (lv =? rv))
  | BinaryOp.Ne => mret (bool_value (negb (lv =? rv)))
  | BinaryOp.Lt => mret (bool_value (lv <? rv))
  | BinaryOp.Gt => mret (bool_value (rv <? lv))
  | BinaryOp.Le => mret (bool_value (lv <=? rv))
  | BinaryOp.Ge => mret (bool_value (rv <=? lv))
  end.

Definition eval_binary_op (l : Value) (op : BinaryOp) (r : Value) : basicM Value :=
  match l, op, r with
  | Value.String_ ls, BinaryOp.Add, Value.String_ rs => new_string (ls ++ rs)
  | Value.String_ ls, BinaryOp.Eq, Value.String_ rs => mret (bool_value (bool_decide (ls = rs)))
  | Value.String_ ls, BinaryOp.Ne, Value.String_ rs => mret (bool_value (negb (bool_decide (ls = rs))))
  | Value.String_ _, _, Value.String_ _ => throw (chars "Invalid string operation")
  | _, _, _ =>
      lv ← ok_or (as_integer l) "Type error in left operand";
      rv ← ok_or (as_integer r) "Type error in right operand";
      numeric_op op lv rv
  end.

(** [n as usize] used as a count or an index of a list. *)
Definition as_usize (n : Z) : nat := Z.to_nat (u64 n).

(** [char::is_whitespace] and [str::trim]. *)
Definition is_whitespace (c : Z) : bool :=
  ((9 <=? c) && (c <=? 13)) || (c =? 32) || (c =? 0x85) || (c =? 0xA0) || (c =? 0x1680)
  || ((0x2000 <=? c) && (c <=? 0x200A)) || (c =? 0x2028) || (c =? 0x2029) || (c =? 0x202F)
  || (c =? 0x205F) || (c =? 0x3000).
Fixpoint trim_start (s : list Z) : list Z :=
  match s with
  | c :: s' => if is_whitespace c then trim_start s' else s
  | [] => []
  end.
Definition trim (s : list Z) : list Z := rev (trim_start (rev (trim_start s))).

(** [haystack.find(needle)]: the byte offset of the first occurrence. *)
Fixpoint find (haystack needle : list Z) : option Z :=
  if bool_decide (take (length needle) haystack = needle) then Some 0
  else match haystack with
       | [] => None
       | c :: haystack => (λ p, Z.of_nat (length (encode_utf8 c)) + p) <$> find haystack needle
       end.

Definition state_code (s : TcpState) : Z :=
  match s with
  | Closed => 0 | Listen => 1 | SynSent => 2 | SynReceived => 3 | Established => 4 | FinWait1 => 5
  | FinWait2 => 6 | CloseWait => 7 | Closing => 8 | LastAck => 9 | TimeWait => 10
  end.

(** [String::from_utf8_lossy] as characters. *)
Definition lossy_chars (l : list Z) : list Z := default [] (from_utf8 (from_utf8_lossy l)).

Definition socket_value (o : option nat) : Value :=
  Value.Integer (match o with Some h => i64 (Z.of_nat h) | None => -1 end).

Fixpoint eval_expr (e : Expr) : basicM Value :=
  let eval_int e msg := v ← eval_expr e; ok_or (as_integer v) msg in
  let eval_str e msg := v ← eval_expr e; s ← ok_or (as_string v) msg; _ ← alloc (str_size s); mret s in
  match e with
  | Expr.Integer n => mret (Value.Integer n)
  | Expr.StringLit s => new_string s
  | Expr.Variable_ name =>
      env ← get_env;
      match variables env !! name with
      | Some v => _ ← alloc (value_size v); mret v
      | None => throw (chars "Undefined variable: " ++ name)
      end
  | Expr.Negate inner =>
      v ← eval_expr inner;
      match v with
      | Value.Integer n => mret (Value.Integer (i64 (- n)))
      | _ => throw (chars "Cannot negate non-integer")
      end
  | Expr.BinaryOp lhs op rhs =>
      l ← eval_expr lhs;
      r ← eval_expr rhs;
      eval_binary_op l op r
  | Expr.Mem arg =>
      idx ← eval_int arg "MEM requires numeric argument";
      '(used, free) ← host h_heap_stats;
      if idx =? 0 then mret (Value.Integer (i64 used))
      else if idx =? 1 then mret (Value.Integer (i64 free))
      else throw (chars "MEM: invalid argument (use 0 for used, 1 for free)")
  | Expr.Chr arg =>
      n ← eval_int arg "CHR$ requires numeric argument";
      new_string [u8 n]
  | Expr.Asc arg =>
      s ← eval_str arg "ASC requires string argument";
      mret (Value.Integer (default 0 (head (as_bytes s))))
  | Expr.Len arg =>
      s ← eval_str arg "LEN requires string argument";
      mret (Value.Integer (i64 (Z.of_nat (length (as_bytes s)))))
  | Expr.Mid s_expr start_expr len_expr =>
      s ← eval_str s_expr "MID$ requires string argument";
      start ← eval_int start_expr "MID$ start must be numeric";
      len ← eval_int len_expr "MID$ length must be numeric";
      new_string (take (as_usize len) (drop (as_usize start - 1) s))
  | Expr.Left s_expr n_expr =>
      s ← eval_str s_expr "LEFT$ requires string argument";
      n ← eval_int n_expr "LEFT$ count must be numeric";
      new_string (take (as_usize n) s)
  | Expr.Instr haystack_expr needle_expr =>
      haystack ← eval_str haystack_expr "INSTR requires string arguments";
      needle ← eval_str needle_expr "INSTR requires string arguments";
      mret (Value.Integer (i64 (match find haystack needle with Some p => p + 1 | None => 0 end)))
  | Expr.Str arg =>
      n ← eval_int arg "STR$ requires numeric argument";
      new_string (dec n)
  | Expr.Val arg =>
      s ← eval_str arg "VAL requires string argument";
      mret (Value.Integer (default 0 (parse_i64 (trim s))))
  | Expr.ArrayAccess name index =>
      idx ← eval_int index "Array index must be numeric";
      env ← get_env;
      match variables env !! name with
      | Some (Value.StringArray arr) => new_string (default [] (arr !! as_usize idx))
      | Some (Value.IntArray arr) => mret (Value.Integer (default 0 (arr !! as_usize idx)))
      | _ => throw (chars "Array " ++ name ++ chars " not found")
      end
  | Expr.Socket => o ← host h_socket; mret (socket_value o)
  | Expr.Listen sock_expr port_expr =>
      sock ← eval_int sock_expr "LISTEN socket must be numeric";
      port ← eval_int port_expr "LISTEN port must be numeric";
      ok ← host (h_listen (as_usize sock) (u16 port));
      mret (bool_value ok)
  | Expr.Accept sock_expr =>
      sock ← eval_int sock_expr "ACCEPT socket must be numeric";
      o ← host (h_accept (as_usize sock));
      mret (socket_value o)
  | Expr.Recv sock_expr =>
      sock ← eval_int sock_expr "RECV$ socket must be numeric";
      '(n, buf) ← host (h_recv (as_usize sock) 1024);
      new_string (if 0 <? n then lossy_chars (take (Z.to_nat n) buf) else [])
  | Expr.Sockstate sock_expr =>
      sock ← eval_int sock_expr "SOCKSTATE socket must be numeric";
      s ← host (h_get_state (as_usize sock));
      mret (Value.Integer (state_code s))
  end.

(** ** Statements *)

Inductive NextAction : Type :=
  | Continue
  | Jump (line : Z)
  | JumpToIndex (idx : nat)
  | SleepFor (ms : Z)
  | EndProgram.

(** [write!(out, ..)], one [write_str] per piece of the format. *)
Fixpoint write_pieces (l : list (list Z)) : basicM unit :=
  match l with
  | [] => mret ()
  | s :: l => _ ← host (h_write s); write_pieces l
  end.

Fixpoint print_exprs (first : bool) (exprs : list Expr) : basicM unit :=
  match exprs with
  | [] => mret ()
  | e :: exprs =>
      v ← eval_expr e;
      _ ← (if first then mret () else host (h_write (chars " ")));
      _ ← host (h_write (display v));
      print_exprs false exprs
  end.

(** [vec![x; n]] for elements of [size] bytes. *)
Definition vec_of {A} (size n : Z) (x : A) : basicM (list A) :=
  if 9223372036854775807 <? size * n then panic CapacityOverflow
  else _ ← alloc (size * n); mret (replicate (Z.to_nat n) x).

(** [variables.insert(x.clone(), v)] *)
Definition insert_variable (x : list Z) (v : Value) : basicM unit :=
  _ ← alloc (str_size x);
  env ← get_env;
  put_env (set_variable env x v).

Definition ends_with_dollar (name : list Z) : bool := bool_decide (last name = Some 36).

(** [for_stack.iter().rposition(|f| f.var == *var)]. *)
Fixpoint rposition (var : list Z) (l : list ForState) : option nat :=
  match l with
  | [] => None
  | f :: l =>
      match rposition var l with
      | Some i => Some (S i)
      | None => if bool_decide (fs_var f = var) then Some 0%nat else None
      end
  end.

Definition eval_int (e : Expr) (msg : string) : basicM Z := v ← eval_expr e; ok_or (as_integer v) msg.

Definition exec_for (line_order : list Z) (current_line : Z) (var : list Z) (start end_ step : Expr) :
    basicM NextAction :=
  start_val ← eval_int start "FOR start must be numeric";
  end_val ← eval_int end_ "FOR end must be numeric";
  step_val ← eval_int step "FOR step must be numeric";
  _ ← insert_variable var (Value.Integer start_val);
  let body_line := default current_line (snd <$> list_find (λ n, current_line < n) line_order) in
  _ ← alloc (48 + str_size var);
  env ← get_env;
  _ ← put_env (set_for_stack env (for_stack env ++ [mkForState var end_val step_val body_line]));
  mret Continue.

Definition exec_next (var : list Z) : basicM NextAction :=
  env ← get_env;
  match rposition var (for_stack env) with
  | None => throw (chars "NEXT without FOR: " ++ var)
  | Some loop_idx =>
      match for_stack env !! loop_idx with
      | None => panic IndexOutOfRange
      | Some loop_state =>
          _ ← alloc (str_size (fs_var loop_state));
          current_val ← ok_or (variables env !! var ≫= as_integer) "Loop variable missing";
          let next_val := i64 (current_val + fs_step loop_state) in
          let continue_loop :=
            if 0 <? fs_step loop_state then next_val <=? end_value loop_state
            else end_value loop_state <=? next_val in
          if continue_loop then
            _ ← insert_variable var (Value.Integer next_val);
            mret (Jump (body_line loop_state))
          else
            _ ← put_env (set_for_stack env (delete loop_idx (for_stack env)));
            mret Continue
      end
  end.

Definition exec_dim (name : list Z) (size : Expr) : basicM NextAction :=
  n ← eval_int size "DIM size must be numeric";
  let len := u64 (u64 n + 1) in
  v ← (if ends_with_dollar name then arr ← vec_of 24 len []; mret (Value.StringArray arr)
       else arr ← vec_of 8 len 0; mret (Value.IntArray arr));
  _ ← insert_variable name v;
  mret Continue.

Definition out_of_bounds {A} (idx : Z) : basicM A :=
  throw (chars "Array index " ++ dec (u64 idx) ++ chars " out of bounds").

Definition exec_array_assign (name : list Z) (index value : Expr) : basicM NextAction :=
  idx ← eval_int index "Array index must be numeric";
  val ← eval_expr value;
  env ← get_env;
  match variables env !! name with
  | Some (Value.StringArray arr) =>
      if u64 idx <? Z.of_nat (length arr) then
        let s := default [] (as_string val) in
        _ ← alloc (str_size s);
        let arr' := <[as_usize idx := s]> arr in
        _ ← put_env (set_variable env name (Value.StringArray arr'));
        mret Continue
      else out_of_bounds idx
  | Some (Value.IntArray arr) =>
      if u64 idx <? Z.of_nat (length arr) then
        let arr' := <[as_usize idx := default 0 (as_integer val)]> arr in
        _ ← put_env (set_variable env name (Value.IntArray arr'));
        mret Continue
      else out_of_bounds idx
  | _ => throw (chars "Array " ++ name ++ chars " not found")
  end.

Definition execute_statement (line_order : list Z) (stmt : Statement) (current_line : Z) (current_idx : nat) :
    basicM NextAction :=
  match stmt with
  | Statement.Print exprs =>
      _ ← print_exprs true exprs;
      _ ← host (h_write [NL]);
      mret Continue
  | Statement.Let var value =>
      v ← eval_expr value;
      _ ← insert_variable var v;
      mret Continue
  | Statement.If condition then_line =>
      v ← eval_expr condition;
      mret (if is_truthy v then Jump then_line else Continue)
  | Statement.Goto target => mret (Jump target)
  | Statement.Gosub target =>
      _ ← alloc 8;
      env ← get_env;
      _ ← put_env (set_return_stack env (return_stack env ++ [S current_idx]));
      mret (Jump target)
  | Statement.Return =>
      env ← get_env;
      match last (return_stack env) with
      | Some idx =>
          _ ← put_env (set_return_stack env (take (length (return_stack env) - 1) (return_stack env)));
          mret (JumpToIndex idx)
      | None => throw (chars "RETURN without GOSUB")
      end
  | Statement.For var start end_ step => exec_for line_order current_line var start end_ step
  | Statement.Next var => exec_next var
  | Statement.Sleep e =>
      ms ← eval_int e "SLEEP requires numeric value";
      mret (SleepFor (u64 ms))
  | Statement.Rem => mret Continue
  | Statement.End => mret EndProgram
  | Statement.Spawn name args =>
      _ ← alloc (16 * Z.of_nat (length args));
      r ← host (h_spawn name args);
      match r with
      | Ok task_id =>
          _ ← write_pieces [chars "Spawned '"; name; chars "' as task "; dec task_id; [NL]];
          mret Continue
      | Err e => throw (chars "SPAWN failed: " ++ e)
      end
  | Statement.Dim name size => exec_dim name size
  | Statement.ArrayAssign name index value => exec_array_assign name index value
  | Statement.Send sock data =>
      s ← eval_int sock "SEND socket must be numeric";
      v ← eval_expr data;
      d ← ok_or (as_string v) "SEND data must be string";
      _ ← alloc (str_size d);
      _ ← host (h_send (as_usize s) (as_bytes d));
      mret Continue
  | Statement.NetClose sock =>
      s ← eval_int sock "CLOSE socket must be numeric";
      _ ← host (h_close (as_usize s));
      mret Continue
  end.
End interp.

(** ** The interpreter *)

Module Status.
Inductive ExecutionStatus : Type :=
  | Ready
  | Sleeping (ms : Z)
  | Finished
  | WaitingForInput
  | Error (e : list Z).
End Status.
Abbreviation ExecutionStatus := Status.ExecutionStatus.

Record Interpreter := mkInterpreter {
  program : btree Statement;
  line_order : list Z;
  current_idx : option nat;
  env : Env;
  status : ExecutionStatus;
  running : bool;
}.
Definition set_env (i : Interpreter) (e : Env) : Interpreter :=
  mkInterpreter (program i) (line_order i) (current_idx i) e (status i) (running i).
Definition set_status (i : Interpreter) (s : ExecutionStatus) : Interpreter :=
  mkInterpreter (program i) (line_order i) (current_idx i) (env i) s (running i).
Definition set_running (i : Interpreter) (b : bool) : Interpreter :=
  mkInterpreter (program i) (line_order i) (current_idx i) (env i) (status i) b.
Definition set_current (i : Interpreter) (o : option nat) : Interpreter :=
  mkInterpreter (program i) (line_order i) o (env i) (status i) (running i).
Definition set_program (i : Interpreter) (m : btree Statement) : Interpreter :=
  mkInterpreter m (line_order i) (current_idx i) (env i) (status i) (running i).

Definition Interpreter_new : Interpreter :=
  mkInterpreter [] [] None (mkEnv ∅ [] []) Status.Ready false.

Definition rebuild_line_order (i : Interpreter) : Interpreter :=
  mkInterpreter (program i) (program i).*1 (current_idx i) (env i) (status i) (running i).

(** The loop of [load_program]: the program and the number of lines read, or the
    error, with the program as it was left. *)
Fixpoint load_loop (fuel : nat) (p : Parser) (prog : btree Statement) (loaded : Z) :
    outcome (btree Statement * result ParseError Z) :=
  match fuel with
  | O => Diverge
  | S fuel =>
      match parse_line p with
      | POk (Some (Some num, stmt)) p' => load_loop fuel p' (bt_insert prog num stmt) (u64 (loaded + 1))
      | POk (Some (None, _)) p' => load_loop fuel p' prog loaded
      | POk None _ => Ret (prog, Ok loaded)
      | PErr e => Ret (prog, Err e)
      | PFuel => Diverge
      end
  end.
Definition load_program (i : Interpreter) (source : list Z) : outcome (Interpreter * result ParseError Z) :=
  '(prog, r) ← load_loop (S (length source)) (new source) (program i) 0;
  let i := set_program i prog in
  Ret (match r with
       | Ok loaded => (rebuild_line_order i, Ok loaded)
       | Err e => (i, Err e)
       end).

Definition set_line (i : Interpreter) (line_num : Z) (stmt : Statement) : Interpreter :=
  rebuild_line_order (set_program i (bt_insert (program i) line_num stmt)).
Definition delete_line (i : Interpreter) (line_num : Z) : Interpreter :=
  rebuild_line_order (set_program i (bt_remove (program i) line_num)).
Definition clear (i : Interpreter) : Interpreter :=
  mkInterpreter [] [] None (mkEnv ∅ [] (return_stack (env i))) (status i) false.

Definition run (i : Interpreter) : Interpreter :=
  if (length (line_order i) =? 0)%nat then set_status i (Status.Error (chars "No program"))
  else mkInterpreter (program i) (line_order i) (Some 0%nat) (mkEnv ∅ [] []) Status.Ready true.

(** What [step] does with the result of the statement at index [idx]. *)
Definition after_action (i : Interpreter) (idx : nat) (r : result (list Z) NextAction) : Interpreter :=
  match r with
  | Ok Continue =>
      let i := set_current i (Some (S idx)) in
      if (length (line_order i) <=? S idx)%nat then set_status (set_running i false) Status.Finished
      else set_status i Status.Ready
  | Ok (Jump target) =>
      match list_find (λ n, n = target) (line_order i) with
      | Some (new_idx, _) => set_status (set_current i (Some new_idx)) Status.Ready
      | None =>
          set_status (set_running i false) (Status.Error (chars "Line " ++ dec target ++ chars " not found"))
      end
  | Ok (JumpToIndex new_idx) => set_status (set_current i (Some new_idx)) Status.Ready
  | Ok (SleepFor ms) => set_status (set_current i (Some (S idx))) (Status.Sleeping ms)
  | Ok EndProgram => set_status (set_running i false) Status.Finished
  | Err e => set_status (set_running i false) (Status.Error e)
  end.

(** Run-time errors are reported; a panic is not caught. *)
Definition reported {A} (r : result failure A) : outcome (result (list Z) A) :=
  match r with
  | Ok a => Ret (Ok a)
  | Err (Fails e) => Ret (Err e)
  | Err (Panics _) => Panic
  end.

Section run.
Context {W : Type} `{Host W}.

Definition step (i : Interpreter) (w : W) : outcome (Interpreter * W * ExecutionStatus) :=
  if negb (running i) then Ret (i, w, Status.Finished)
  else match current_idx i with
  | None => Ret (set_running i false, w, Status.Finished)
  | Some idx =>
      match line_order i !! idx with
      | None => let i := set_status (set_running i false) Status.Finished in Ret (i, w, status i)
      | Some line_num =>
          match bt_get (program i) line_num with
          | None =>
              let i := set_status (set_running i false) (Status.Error (chars "Line not found")) in
              Ret (i, w, status i)
          | Some stmt =>
              '(e, w', r) ← execute_statement (line_order i) stmt line_num idx (env i) w;
              r ← reported r;
              let i := after_action (set_env i e) idx r in
              Ret (i, w', status i)
          end
      end
  end.

Definition execute_immediate (i : Interpreter) (stmt : Statement) (w : W) :
    outcome (Interpreter * W * ExecutionStatus) :=
  '(e, w', r) ← execute_statement (line_order i) stmt 0 0 (env i) w;
  r ← reported r;
  let s := match r with
    | Ok Continue | Ok EndProgram => Status.Ready
    | Ok (Jump _) | Ok (JumpToIndex _) => Status.Error (chars "Cannot GOTO/GOSUB in immediate mode")
    | Ok (SleepFor ms) => Status.Sleeping ms
    | Err e => Status.Error e
    end in
  Ret (set_env i e, w', s).
End run.
