(* ===== verification/BasicSafe.v ===== *)
(** Safety of the BASIC interpreter: on any program, from any state the interpreter
    can be in, a statement runs to completion or to a reported error, all integers
    stay in the range of [i64], and the jump table stays consistent with the program.
    The three ways in which a BASIC program can panic the kernel are named: exhausting
    the heap, an array larger than the address space, and the one division that overflows. *)

From stdpp Require Import strings.
From S2P Require Import Prelude BTreeMap Utf8 NetBase Tcp BasicLexer BasicParser BasicInterp.
From Stdlib Require Import Sorting.Sorted.
#[local] Open Scope Z_scope.

Definition is_i64 (n : Z) : Prop := -9223372036854775808 ≤ n < 9223372036854775808.

Definition value_ok (v : Value) : Prop :=
  match v with
  | Value.Integer n => is_i64 n
  | Value.String_ _ | Value.StringArray _ => True
  | Value.IntArray arr => Forall is_i64 arr
  end.
Definition for_ok (f : ForState) : Prop := is_i64 (end_value f) ∧ is_i64 (fs_step f) ∧ line_ok (body_line f).
Record env_ok (e : Env) : Prop := {
  eo_variables : map_Forall (λ _ v, value_ok v) (variables e);
  eo_for : Forall for_ok (for_stack e);
}.

(** What the interpreter relies on: the kernel's services return, keep the kernel's
    invariant, and [recv] reports at most the bytes it stored. *)
Class HostLaws (W : Type) `{Host W} (I : W → Prop) : Prop := {
  hl_write s w : I w → ∃ w', h_write s w = Ret (w', ()) ∧ I w';
  hl_socket w : I w → ∃ w' r, h_socket w = Ret (w', r) ∧ I w';
  hl_listen s p w : 0 ≤ p < 65536 → I w → ∃ w' r, h_listen s p w = Ret (w', r) ∧ I w';
  hl_accept s w : I w → ∃ w' r, h_accept s w = Ret (w', r) ∧ I w';
  hl_recv s k w : I w → ∃ w' r, h_recv s k w = Ret (w', r) ∧ I w';
  hl_send s d w : bytes d → I w → ∃ w' r, h_send s d w = Ret (w', r) ∧ I w';
  hl_close s w : I w → ∃ w', h_close s w = Ret (w', ()) ∧ I w';
  hl_get_state s w : I w → ∃ w' r, h_get_state s w = Ret (w', r) ∧ I w';
  hl_heap_stats w : I w → ∃ w' r, h_heap_stats w = Ret (w', r) ∧ I w';
  hl_spawn n a w : I w → ∃ w' r, h_spawn n a w = Ret (w', r) ∧ I w';
  hl_alloc n w : I w → ∃ w' r, h_alloc n w = Ret (w', r) ∧ I w';
}.

(** A division occurs in the expression. *)
Fixpoint divides (e : Expr) : bool :=
  match e with
  | Expr.BinaryOp l op r => divides l || divides r || match op with BinaryOp.Div => true | _ => false end
  | Expr.Integer _ | Expr.StringLit _ | Expr.Variable_ _ | Expr.Socket => false
  | Expr.Negate e | Expr.Mem e | Expr.Chr e | Expr.Asc e | Expr.Len e | Expr.Str e | Expr.Val e
  | Expr.Accept e | Expr.Recv e | Expr.Sockstate e | Expr.ArrayAccess _ e => divides e
  | Expr.Mid a b c => divides a || divides b || divides c
  | Expr.Left a b | Expr.Instr a b | Expr.Listen a b => divides a || divides b
  end.

(** A division occurs in the statement. *)
Definition stmt_divides (s : Statement) : bool :=
  match s with
  | Statement.Print es => existsb divides es
  | Statement.Let _ e | Statement.If e _ | Statement.Sleep e | Statement.NetClose e | Statement.Dim _ e => divides e
  | Statement.For _ a b c => divides a || divides b || divides c
  | Statement.ArrayAssign _ a b | Statement.Send a b => divides a || divides b
  | _ => false
  end.
Definition is_dim (s : Statement) : bool := match s with Statement.Dim _ _ => true | _ => false end.

(** The panics of a statement: when the heap refuses a request, when the array of a [DIM]
    exceeds the address space, and when a division overflows ([i64::MIN / -1]). *)
Definition may_panic (refuses : Prop) (s : Statement) (why : panic_reason) : Prop :=
  match why with
  | AllocError => refuses
  | CapacityOverflow => is_dim s = true
  | DivideOverflow => stmt_divides s = true
  | DivideByZero | IndexOutOfRange => False
  end.

Section safety.
Context {W : Type} `{Host W} (I : W → Prop) `{!HostLaws W I}.

(** The heap refuses a request. *)
Definition heap_refuses : Prop := ∃ n w w', I w ∧ h_alloc n w = Ret (w', false).

(** [m] returns; it panics only when the heap refuses a request or for a reason in [P];
    results satisfy [Q]. *)
Definition bsafe {A} (P : panic_reason → Prop) (m : basicM (W := W) A) (Q : A → Prop) : Prop :=
  ∀ env w, env_ok env → I w →
  match m env w with
  | Ret (env', w', r) => env_ok env' ∧ I w' ∧
      match r with
      | Ok a => Q a
      | Err (Fails _) => True
      | Err (Panics why) => why = AllocError ∧ heap_refuses ∨ P why
      end
  | Panic | Diverge => False
  end.

Lemma bsafe_bind {A B} P (m : basicM (W := W) A) (f : A → basicM B) Q R :
  bsafe P m Q → (∀ a, Q a → bsafe P (f a) R) → bsafe P (m ≫= f) R.
Proof.
  intros Hm Hf env w He Hw. specialize (Hm env w He Hw). unfold mbind, basicM_bind.
  destruct (m env w) as [[[env' w'] [a|e]]| |]; [|done..].
  destruct Hm as (He' & Hw' & HQ). by apply (Hf a HQ).
Qed.
Lemma bsafe_ret {A} P (a : A) (Q : A → Prop) : Q a → bsafe P (mret a) Q.
Proof. intros HQ env w He Hw. by split_and!. Qed.
Lemma bsafe_panic {A} (P : panic_reason → Prop) why (Q : A → Prop) : P why → bsafe P (panic why) Q.
Proof. intros HP env w He Hw. split_and!; [done|done|]. by right. Qed.
Lemma bsafe_weaken {A} (P P' : panic_reason → Prop) (m : basicM (W := W) A) (Q Q' : A → Prop) :
  bsafe P m Q → (∀ why, P why → P' why) → (∀ a, Q a → Q' a) → bsafe P' m Q'.
Proof.
  intros Hm HP HQ env w He Hw. specialize (Hm env w He Hw).
  destruct (m env w) as [[[? ?] [a|[e|why]]]| |]; naive_solver.
Qed.
Lemma bsafe_host {A} P (f : W → outcome (W * A)) :
  (∀ w, I w → ∃ w' r, f w = Ret (w', r) ∧ I w') → bsafe P (host f) (λ _, True).
Proof. intros Hf env w He Hw. destruct (Hf w Hw) as (w' & r & E & Hw'). unfold host. rewrite E. by split_and!. Qed.
Lemma bsafe_alloc P n : bsafe P (alloc n) (λ _, True).
Proof.
  unfold alloc. destruct (n =? 0); [by apply bsafe_ret|]. intros env w He Hw.
  destruct (hl_alloc n w Hw) as (w' & [] & E & Hw'); unfold mbind, basicM_bind, host; rewrite E; (split; [done|split; [done|]]).
  - done.
  - left. split; [done|]. by exists n, w, w'.
Qed.
Lemma bsafe_throw {A} P e (Q : A → Prop) : bsafe P (throw e) Q.
Proof. eapply bsafe_bind; [apply bsafe_alloc|]. intros _ _ env w He Hw. by split_and!. Qed.
Lemma bsafe_new_string P s : bsafe P (new_string s) value_ok.
Proof. eapply bsafe_bind; [apply bsafe_alloc|]. intros _ _. by apply bsafe_ret. Qed.
Lemma bsafe_get_env P : bsafe P get_env env_ok.
Proof. intros env w He Hw. by split_and!. Qed.
Lemma bsafe_put_env P e : env_ok e → bsafe P (put_env e) (λ _, True).
Proof. intros He env w _ Hw. by split_and!. Qed.
Lemma bsafe_ok_or {A} P (o : option A) msg (Q : A → Prop) : (∀ a, o = Some a → Q a) → bsafe P (ok_or o msg) Q.
Proof. intros HQ. destruct o; [apply bsafe_ret; auto|apply bsafe_throw]. Qed.
Lemma bsafe_write P s : bsafe P (host (h_write s)) (λ _, True).
Proof. apply bsafe_host. intros w Hw. destruct (hl_write s w Hw) as (w' & ? & ?). eauto. Qed.

Lemma bsafe_int P (m : basicM (W := W) Value) msg :
  bsafe P m value_ok → bsafe P (v ← m; ok_or (as_integer v) msg) is_i64.
Proof. intros Hm. eapply bsafe_bind; [done|]. intros [] Hv; apply bsafe_ok_or; cbn in *; naive_solver. Qed.
Lemma bsafe_str P (m : basicM (W := W) Value) msg :
  bsafe P m value_ok → bsafe P (v ← m; s ← ok_or (as_string v) msg; _ ← alloc (str_size s); mret s) (λ _, True).
Proof.
  intros Hm. eapply bsafe_bind; [done|]. intros v Hv. eapply (bsafe_bind _ _ _ (λ _, True)); [by apply bsafe_ok_or|].
  intros s _. eapply bsafe_bind; [apply bsafe_alloc|]. intros _ _. by apply bsafe_ret.
Qed.

Lemma i64_is z : is_i64 (i64 z).
Proof. apply i64_range. Qed.
Lemma bool_value_ok b : value_ok (bool_value b).
Proof. by destruct b. Qed.

Lemma quot_range a b :
  is_i64 a → is_i64 b → b ≠ 0 → ¬ (a = -9223372036854775808 ∧ b = -1) → is_i64 (Z.quot a b).
Proof.
  unfold is_i64. intros Ha Hb Hb0 Hn.
  pose proof (Z.quot_abs a b Hb0) as Hq. rewrite Z.quot_div_nonneg in Hq by lia.
  destruct (decide (Z.abs b = 1)).
  2: { assert (Z.abs a / Z.abs b ≤ Z.abs a / 2) by (apply Z.div_le_compat_l; lia).
       assert (Z.abs a / 2 ≤ 4611686018427387904) by (apply Z.div_le_upper_bound; lia). lia. }
  destruct (decide (b = 1)) as [->|]; [rewrite Z.quot_1_r; lia|].
  rewrite e, Z.div_1_r in Hq. lia.
Qed.

Lemma bsafe_numeric_op P op lv rv : is_i64 lv → is_i64 rv → (op = BinaryOp.Div → P DivideOverflow) →
  bsafe P (numeric_op op lv rv) value_ok.
Proof.
  intros Hl Hr Hp. destruct op; cbn [numeric_op]; try (apply bsafe_ret; first [apply i64_is|apply bool_value_ok]).
  destruct (rv =? 0) eqn:E0; [apply bsafe_throw|]. apply Z.eqb_neq in E0.
  eapply (bsafe_bind _ _ _ is_i64); [|intros q Hq; by apply bsafe_ret].
  unfold div_i64. rewrite (proj2 (Z.eqb_neq rv 0)) by done.
  destruct (_ && _) eqn:E; [by apply bsafe_panic, Hp|]. apply bsafe_ret, quot_range; [done..|].
  by intros [-> ->].
Qed.

Lemma bsafe_binary_op P l op r : value_ok l → value_ok r → (op = BinaryOp.Div → P DivideOverflow) →
  bsafe P (eval_binary_op l op r) value_ok.
Proof.
  intros Hl Hr Hp.
  assert (bsafe P (lv ← ok_or (as_integer l) "Type error in left operand"%string;
      rv ← ok_or (as_integer r) "Type error in right operand"%string; numeric_op op lv rv) value_ok) as Hnum.
  { eapply (bsafe_bind _ _ _ is_i64); [apply bsafe_ok_or; destruct l; naive_solver|]. intros lv Hlv.
    eapply (bsafe_bind _ _ _ is_i64); [apply bsafe_ok_or; destruct r; naive_solver|]. intros rv Hrv.
    by apply bsafe_numeric_op. }
  destruct l, op, r; try (by apply Hnum); try apply bsafe_throw; try apply bsafe_new_string;
    apply bsafe_ret; apply bool_value_ok.
Qed.

(** ** Expressions *)

Lemma parse_i64_range s n : parse_i64 s = Some n → is_i64 n.
Proof.
  assert (∀ b s n, parse_digits b s = Some n → is_i64 n) as Hd.
  { intros b [|c s'] m; [done|]. unfold parse_digits. destruct (forallb _ _); [|done].
    destruct (_ && _) eqn:E; [|done]. intros [= <-].
    apply andb_true_iff in E as [?%Z.leb_le ?%Z.leb_le]. unfold is_i64. lia. }
  unfold parse_i64. repeat case_match; apply Hd.
Qed.

Lemma val_ok s : is_i64 (default 0 (parse_i64 s)).
Proof. destruct (parse_i64 s) eqn:E; [by eapply parse_i64_range|done]. Qed.
Lemma socket_value_ok o : value_ok (socket_value o).
Proof. destruct o; [apply i64_is|done]. Qed.
Lemma state_code_ok s : is_i64 (state_code s).
Proof. by destruct s. Qed.
Lemma head_byte_ok s : is_i64 (default 0 (head (as_bytes s))).
Proof.
  pose proof (as_bytes_bytes s) as Hb. destruct (as_bytes s) as [|b l]; cbn; [done|].
  apply Forall_cons in Hb as [Hb _]. unfold is_i64. lia.
Qed.

Lemma bsafe_array_get P name idx :
  bsafe P (env ← get_env;
    match variables env !! name with
    | Some (Value.StringArray arr) => new_string (default [] (arr !! as_usize idx))
    | Some (Value.IntArray arr) => mret (Value.Integer (default 0 (arr !! as_usize idx)))
    | _ => throw (chars "Array " ++ name ++ chars " not found")
    end) value_ok.
Proof.
  eapply bsafe_bind; [apply bsafe_get_env|]. intros env Henv.
  destruct (variables env !! name) as [[n|s|arr|arr]|] eqn:E; try apply bsafe_throw; [|apply bsafe_new_string].
  apply bsafe_ret. apply (eo_variables _ Henv) in E. cbn in *. destruct (arr !! as_usize idx) as [n|] eqn:En; [|done].
  by eapply Forall_lookup_1 in En.
Qed.

(** One step through the body of a statement or an expression. *)
Ltac bret := apply bsafe_ret; first [apply i64_is|apply bool_value_ok|apply socket_value_ok|apply state_code_ok|apply head_byte_ok|apply val_ok|done].
Ltac bhost := eapply bsafe_bind; [apply bsafe_host; eauto using hl_socket, hl_accept, hl_recv, hl_get_state, hl_heap_stats, hl_listen, u16_range|].

Lemma bsafe_eval e (P : panic_reason → Prop) : expr_wf e → (divides e = true → P DivideOverflow) → bsafe P (eval_expr e) value_ok.
Proof.
  revert P. induction e; cbn [expr_wf divides eval_expr]; intros P Hwf Hd;
    rewrite ?orb_true_iff in Hd; destruct_and?;
    repeat match goal with IH : ∀ P : panic_reason → Prop, expr_wf ?e → _ |- _ => specialize (IH P ltac:(assumption) ltac:(tauto)) end.
  1: { apply bsafe_ret. cbn. unfold int_ok, is_i64 in *. lia. }
  1: apply bsafe_new_string.
  1: { eapply bsafe_bind; [apply bsafe_get_env|]. intros env Henv. case_match eqn:E; [|apply bsafe_throw].
       eapply bsafe_bind; [apply bsafe_alloc|]. intros _ _. apply bsafe_ret. by apply (eo_variables _ Henv) in E. }
  1: { eapply bsafe_bind; [done|]. intros l Hl. eapply bsafe_bind; [done|]. intros r Hr.
       apply bsafe_binary_op; [done..|]. intros ->. tauto. }
  1: { eapply bsafe_bind; [done|]. intros [] Hv; try apply bsafe_throw. bret. }
  all: repeat first
    [ bret
    | apply bsafe_throw
    | apply bsafe_new_string
    | apply bsafe_array_get
    | eapply bsafe_bind; [apply bsafe_int; eassumption|intros ? ?]
    | eapply bsafe_bind; [apply bsafe_str; eassumption|intros ? ?]
    | bhost; intros ? _
    | case_match ].
Qed.

(** ** Statements *)

Lemma env_ok_set env x v : env_ok env → value_ok v → env_ok (set_variable env x v).
Proof. intros [Hv Hf] Hok. split; [|done]. by apply map_Forall_insert_2. Qed.
Lemma env_ok_for env l : env_ok env → Forall for_ok l → env_ok (set_for_stack env l).
Proof. intros [Hv Hf] Hl. by split. Qed.
Lemma env_ok_return env l : env_ok env → env_ok (set_return_stack env l).
Proof. intros [Hv Hf]. by split. Qed.

Definition action_ok (a : NextAction) : Prop :=
  match a with Jump l => line_ok l | SleepFor ms => 0 ≤ ms < 18446744073709551616 | _ => True end.

Lemma bsafe_eval_int P e msg : expr_wf e → (divides e = true → P DivideOverflow) → bsafe P (eval_int e msg) is_i64.
Proof. intros He Hd. by apply bsafe_int, bsafe_eval. Qed.

Lemma bsafe_put {B} P e (f : unit → basicM (W := W) B) Q :
  env_ok e → bsafe P (f ()) Q → bsafe P (put_env e ≫= f) Q.
Proof. intros He Hf. eapply bsafe_bind; [by apply bsafe_put_env|]. by intros [] _. Qed.

Lemma bsafe_alloc_then {B} P n (f : unit → basicM (W := W) B) Q : bsafe P (f ()) Q → bsafe P (alloc n ≫= f) Q.
Proof. intros Hf. eapply bsafe_bind; [apply bsafe_alloc|]. by intros [] _. Qed.
Lemma bsafe_insert P x v : value_ok v → bsafe P (insert_variable x v) (λ _, True).
Proof.
  intros Hv. apply bsafe_alloc_then. eapply bsafe_bind; [apply bsafe_get_env|]. intros env Henv.
  by apply bsafe_put_env, env_ok_set.
Qed.
Lemma bsafe_insert_then {B} P x v (f : unit → basicM (W := W) B) Q :
  value_ok v → bsafe P (f ()) Q → bsafe P (insert_variable x v ≫= f) Q.
Proof. intros Hv Hf. eapply bsafe_bind; [by apply bsafe_insert|]. by intros [] _. Qed.

Lemma bsafe_print P es first : Forall expr_wf es → (existsb divides es = true → P DivideOverflow) →
  bsafe P (print_exprs first es) (λ _, True).
Proof.
  intros Hes. revert first. induction Hes as [|e es He Hes IH]; intros first Hd; cbn; [by apply bsafe_ret|].
  cbn in Hd. rewrite orb_true_iff in Hd.
  eapply bsafe_bind; [apply bsafe_eval; [done|tauto]|]. intros v _.
  eapply (bsafe_bind _ _ _ (λ _, True)); [destruct first; [by apply bsafe_ret|apply bsafe_write]|]. intros _ _.
  eapply bsafe_bind; [apply bsafe_write|]. intros _ _. apply IH. tauto.
Qed.

Lemma bsafe_pieces P l : bsafe P (write_pieces l) (λ _, True).
Proof.
  induction l as [|s l IH]; cbn; [by apply bsafe_ret|]. eapply bsafe_bind; [apply bsafe_write|]. by intros _ _.
Qed.

Lemma bsafe_for P lines cur var a b c :
  Forall line_ok lines → line_ok cur → expr_wf a → expr_wf b → expr_wf c →
  (divides a || divides b || divides c = true → P DivideOverflow) →
  bsafe P (exec_for lines cur var a b c) action_ok.
Proof.
  intros Hl Hc Ha Hb Hcs Hd. rewrite !orb_true_iff in Hd. unfold exec_for.
  do 3 (eapply bsafe_bind; [apply bsafe_eval_int; [done|tauto]|]; intros ? ?).
  apply bsafe_insert_then; [done|]. apply bsafe_alloc_then.
  eapply bsafe_bind; [apply bsafe_get_env|]. intros env Henv.
  apply bsafe_put; [|by apply bsafe_ret]. apply env_ok_for; [done|].
  apply Forall_app. split; [apply (eo_for _ Henv)|]. constructor; [|constructor]. split_and!; [done|done|]. cbn.
  destruct (list_find _ lines) as [[i n]|] eqn:E; [|done]. apply list_find_Some in E as (E & _).
  by eapply Forall_lookup_1 in E.
Qed.

Lemma rposition_lookup var l i : rposition var l = Some i → ∃ f, l !! i = Some f ∧ fs_var f = var.
Proof.
  revert i. induction l as [|f l IH]; intros i; cbn; [done|].
  destruct (rposition var l) as [j|]; [intros [= <-]; by apply IH|].
  case_bool_decide; [|done]. intros [= <-]. by exists f.
Qed.

Lemma bsafe_next P var : bsafe P (exec_next var) action_ok.
Proof.
  unfold exec_next. eapply bsafe_bind; [apply bsafe_get_env|]. intros env Henv.
  destruct (rposition var (for_stack env)) as [i|] eqn:Ei; [|apply bsafe_throw].
  apply rposition_lookup in Ei as (f & Ef & _). rewrite Ef.
  pose proof (Forall_lookup_1 _ _ _ _ (eo_for _ Henv) Ef) as (He & Hs & Hl).
  apply bsafe_alloc_then. eapply (bsafe_bind _ _ _ (λ _, True)); [by apply bsafe_ok_or|]. intros cur _.
  destruct (if 0 <? fs_step f then _ else _).
  - apply bsafe_insert_then; [apply i64_is|by apply bsafe_ret].
  - apply bsafe_put; [|by apply bsafe_ret]. apply env_ok_for; [done|]. apply Forall_delete, Henv.
Qed.

Lemma bsafe_vec {A} (P : panic_reason → Prop) size n (x : A) :
  P CapacityOverflow → bsafe P (vec_of size n x) (λ l, Forall (λ y, y = x) l).
Proof.
  intros HP. unfold vec_of. destruct (_ <? _); [by apply bsafe_panic|]. apply bsafe_alloc_then, bsafe_ret. by apply Forall_replicate.
Qed.

Lemma bsafe_dim (P : panic_reason → Prop) name e :
  expr_wf e → P CapacityOverflow → (divides e = true → P DivideOverflow) → bsafe P (exec_dim name e) action_ok.
Proof.
  intros He HP Hd. unfold exec_dim. eapply bsafe_bind; [by apply bsafe_eval_int|]. intros n Hn.
  eapply (bsafe_bind _ _ _ value_ok).
  - destruct (ends_with_dollar name); (eapply bsafe_bind; [by apply bsafe_vec|]; intros arr Harr; apply bsafe_ret); [done|].
    eapply Forall_impl; [exact Harr|]. by intros ? ->.
  - intros v Hv. apply bsafe_insert_then; [done|by apply bsafe_ret].
Qed.

Lemma bsafe_array_assign P name a b : expr_wf a → expr_wf b → (divides a || divides b = true → P DivideOverflow) →
  bsafe P (exec_array_assign name a b) action_ok.
Proof.
  intros Ha Hb Hd. rewrite orb_true_iff in Hd. unfold exec_array_assign.
  eapply bsafe_bind; [apply bsafe_eval_int; [done|tauto]|]. intros idx Hidx.
  eapply bsafe_bind; [apply bsafe_eval; [done|tauto]|]. intros val Hval.
  eapply bsafe_bind; [apply bsafe_get_env|]. intros env Henv.
  destruct (variables env !! name) as [[n|s|arr|arr]|] eqn:E; try apply bsafe_throw;
    (destruct (_ <? _); [|apply bsafe_throw]); [|apply bsafe_alloc_then];
    (apply bsafe_put; [|by apply bsafe_ret]); apply env_ok_set; try done.
  apply (eo_variables _ Henv) in E. apply Forall_insert; [done|]. by destruct val.
Qed.

Lemma bsafe_execute lines stmt cur idx :
  Forall line_ok lines → line_ok cur → stmt_wf stmt →
  bsafe (may_panic heap_refuses stmt) (execute_statement lines stmt cur idx) action_ok.
Proof.
  intros Hl Hc Hwf. destruct stmt; cbn [execute_statement stmt_wf] in *; destruct_and?.
  all: try (apply bsafe_ret; done).
  - eapply bsafe_bind; [by apply bsafe_print|]. intros _ _. eapply bsafe_bind; [apply bsafe_write|]. intros _ _. by apply bsafe_ret.
  - eapply bsafe_bind; [by apply bsafe_eval|]. intros v Hv. apply bsafe_insert_then; [done|by apply bsafe_ret].
  - eapply bsafe_bind; [by apply bsafe_eval|]. intros v Hv. apply bsafe_ret. by destruct (is_truthy v).
  - by apply bsafe_for.
  - apply bsafe_next.
  - eapply bsafe_bind; [by apply bsafe_eval_int|]. intros ms _. apply bsafe_ret. apply u64_range.
  - apply bsafe_alloc_then. eapply bsafe_bind; [apply bsafe_host; eauto using hl_spawn|]. intros [id|e] _; [|apply bsafe_throw].
    eapply bsafe_bind; [apply bsafe_pieces|]. intros _ _. by apply bsafe_ret.
  - apply bsafe_alloc_then. eapply bsafe_bind; [apply bsafe_get_env|]. intros env Henv.
    apply bsafe_put; [by apply env_ok_return|by apply bsafe_ret].
  - eapply bsafe_bind; [apply bsafe_get_env|]. intros env Henv. case_match; [|apply bsafe_throw].
    apply bsafe_put; [by apply env_ok_return|by apply bsafe_ret].
  - by apply bsafe_dim.
  - by apply bsafe_array_assign.
  - eapply bsafe_bind; [apply bsafe_eval_int; [done|cbn; rewrite orb_true_iff; tauto]|]. intros s _.
    eapply bsafe_bind; [apply bsafe_eval; [done|cbn; rewrite orb_true_iff; tauto]|]. intros v _.
    eapply (bsafe_bind _ _ _ (λ _, True)); [by apply bsafe_ok_or|]. intros d _. apply bsafe_alloc_then.
    eapply bsafe_bind; [apply bsafe_host; intros; apply hl_send; [apply as_bytes_bytes|done]|]. intros _ _. by apply bsafe_ret.
  - eapply bsafe_bind; [by apply bsafe_eval_int|]. intros s _. eapply bsafe_bind; [apply bsafe_host|intros _ _; by apply bsafe_ret].
    intros w Hw. destruct (hl_close (as_usize s) w Hw) as (w' & ? & ?). eauto.
Qed.
End safety.

(** ** The interpreter *)

Record interp_ok (i : Interpreter) : Prop := {
  io_sorted : bt_sorted (program i);
  io_wf : Forall (λ p, line_ok p.1 ∧ stmt_wf p.2) (program i);
  io_lines : Forall (λ l, is_Some (bt_get (program i) l)) (line_order i);
  io_order : StronglySorted Z.lt (line_order i);
  io_env : env_ok (env i);
}.

Lemma io_stmt i l s : interp_ok i → bt_get (program i) l = Some s → line_ok l ∧ stmt_wf s.
Proof.
  intros Hi Hg%bt_get_elem. pose proof (io_wf _ Hi) as Hw. rewrite Forall_forall in Hw. by apply (Hw _ Hg).
Qed.
Lemma io_line_ok i : interp_ok i → Forall line_ok (line_order i).
Proof. intros Hi. eapply Forall_impl; [apply (io_lines _ Hi)|]. intros l [s Hs]. by eapply io_stmt in Hs as [? _]. Qed.

Lemma empty_env_ok l : env_ok (mkEnv ∅ [] l).
Proof. split; [apply map_Forall_empty|constructor]. Qed.

Lemma bt_keys_sorted {V} (m : btree V) : bt_sorted m → StronglySorted Z.lt m.*1.
Proof.
  induction 1 as [|[k v] m Hs IH Hall]; cbn; constructor; [done|].
  rewrite Forall_forall in Hall. apply Forall_forall. intros k' ([k2 v2] & -> & Hin)%list_elem_of_fmap. by apply (Hall _ Hin).
Qed.
Lemma bt_keys_get {V} (m : btree V) : bt_sorted m → Forall (λ k, is_Some (bt_get m k)) m.*1.
Proof.
  intros Hs. apply Forall_forall. intros k ([k2 v] & -> & Hin)%list_elem_of_fmap. exists v. by apply bt_elem_get.
Qed.

Lemma rebuild_ok i : bt_sorted (program i) → Forall (λ p, line_ok p.1 ∧ stmt_wf p.2) (program i) →
  env_ok (env i) → interp_ok (rebuild_line_order i).
Proof. intros Hs Hw He. split; [done|done|by apply bt_keys_get|by apply bt_keys_sorted|done]. Qed.

Lemma wf_insert (m : btree Statement) l s :
  Forall (λ p, line_ok p.1 ∧ stmt_wf p.2) m → line_ok l → stmt_wf s →
  Forall (λ p, line_ok p.1 ∧ stmt_wf p.2) (bt_insert m l s).
Proof.
  intros Hm Hl Hs. rewrite Forall_forall in *. intros p [->|Hp]%bt_insert_elem; [done|by apply Hm].
Qed.

(** [load_program] returns, and adds lines that the parser produced. *)
Lemma load_loop_ok fuel p prog n : good p → (size p < fuel)%nat →
  bt_sorted prog → Forall (λ p, line_ok p.1 ∧ stmt_wf p.2) prog →
  ∃ prog' r, load_loop fuel p prog n = Ret (prog', r) ∧ bt_sorted prog' ∧
    Forall (λ p, line_ok p.1 ∧ stmt_wf p.2) prog' ∧
    (∀ l, is_Some (bt_get prog l) → is_Some (bt_get prog' l)).
Proof.
  revert p prog n. induction fuel as [|fuel IH]; intros p prog n Hg Hf Hs Hw; [lia|]. cbn [load_loop].
  pose proof (parse_line_total p Hg) as Hp. unfold prun in Hp.
  destruct (parse_line p) as [o p'|e|]; [|by eauto 10|done]. destruct Hp as [Hg' Ho].
  destruct o as [[[l|] st]|]; [..|by eauto 10]; destruct Ho as (Hst & Hl & Hlt).
  - destruct (IH p' (bt_insert prog l st) (u64 (n + 1))) as (prog' & r & E & Hs' & Hw' & Hk);
      [done|lia|by apply bt_insert_sorted|by apply wf_insert; auto|].
    exists prog', r. split_and!; [done..|]. intros k Hk0. apply Hk. rewrite bt_get_insert by done. by case_match.
  - destruct (IH p' prog n) as (prog' & r & ? & ? & ? & ?); [done|lia|done|done|]. by exists prog', r.
Qed.

Lemma load_program_ok i src : interp_ok i →
  ∃ i' r, load_program i src = Ret (i', r) ∧ interp_ok i'.
Proof.
  intros Hi. unfold load_program. destruct (new_good src) as [Hg Hsz].
  destruct (load_loop_ok (S (length src)) (new src) (program i) 0) as (prog' & r & E & Hs & Hw & Hk);
    [done|lia|apply Hi|apply Hi|]. rewrite E. cbn.
  destruct r as [n|e]; eexists _, _; (split; [reflexivity|]).
  - apply rebuild_ok; [done|done|apply Hi].
  - split; [done|done| |apply Hi|apply Hi]. eapply Forall_impl; [apply (io_lines _ Hi)|]. apply Hk.
Qed.

Lemma after_action_ok i idx r : interp_ok i → interp_ok (after_action i idx r).
Proof.
  intros []. destruct r as [[]|]; cbn; repeat case_match; by split.
Qed.
Lemma set_env_ok i e : interp_ok i → env_ok e → interp_ok (set_env i e).
Proof. intros [] He. by split. Qed.

(** The statement at the program counter. *)
Definition current_stmt (i : Interpreter) : option Statement :=
  if running i then idx ← current_idx i; l ← line_order i !! idx; bt_get (program i) l else None.

Section interpreter.
Context {W : Type} `{Host W} (I : W → Prop) `{!HostLaws W I}.

(** The statement [stmt] of line [l], the [idx]-th, panics, for a reason it may have. *)
Definition panics_at (i : Interpreter) (w : W) (stmt : Statement) (l : Z) (idx : nat) : Prop :=
  ∃ why env' w', execute_statement (line_order i) stmt l idx (env i) w = Ret (env', w', Err (Panics why)) ∧
    may_panic (heap_refuses I) stmt why.

Lemma execute_ok i w stmt l idx : interp_ok i → I w → line_ok l → stmt_wf stmt →
  match execute_statement (line_order i) stmt l idx (env i) w with
  | Ret (env', w', r) => env_ok env' ∧ I w' ∧
      match reported r with Ret _ => True | Panic => panics_at i w stmt l idx | Diverge => False end
  | Panic | Diverge => False
  end.
Proof.
  intros Hi Hw Hl Hst. unfold panics_at.
  pose proof (bsafe_execute I (line_order i) stmt l idx (io_line_ok _ Hi) Hl Hst (env i) w (io_env _ Hi) Hw) as Hx.
  destruct (execute_statement _ _ _ _ _ _) as [[[e w'] [a|[m|why]]]| |]; [..|done|done]; destruct Hx as (He & Hw' & Hx);
    (split; [done|split; [done|]]); [done|done|].
  exists why, e, w'. split; [done|]. by destruct Hx as [[-> ?]|?].
Qed.

Lemma step_ok i w : interp_ok i → I w →
  match step i w with
  | Ret (i', w', s) => interp_ok i' ∧ I w'
  | Panic => ∃ stmt l idx, current_stmt i = Some stmt ∧ panics_at i w stmt l idx
  | Diverge => False
  end.
Proof.
  intros Hi Hw. pose proof Hi as []. unfold step, current_stmt.
  destruct (running i) eqn:Er; [|done]. cbn [negb].
  destruct (current_idx i) as [idx|]; [|split; [by split|done]]. cbn.
  destruct (line_order i !! idx) as [l|] eqn:El; [|split; [by split|done]]. cbn.
  destruct (bt_get (program i) l) as [stmt|] eqn:Es; [|split; [by split|done]].
  destruct (io_stmt _ _ _ Hi Es) as [Hl Hst].
  pose proof (execute_ok i w stmt l idx Hi Hw Hl Hst) as Hx.
  destruct (execute_statement _ _ _ _ _ _) as [[[e w'] r]| |]; [|done..]. destruct Hx as (He & Hw' & Hr).
  rewrite mbind_Ret. destruct (reported r) as [r'| |]; [|by exists stmt, l, idx|done].
  split; [|done]. by apply after_action_ok, set_env_ok.
Qed.

Lemma execute_immediate_ok i stmt w : interp_ok i → stmt_wf stmt → I w →
  match execute_immediate i stmt w with
  | Ret (i', w', s) => interp_ok i' ∧ I w'
  | Panic => panics_at i w stmt 0 0
  | Diverge => False
  end.
Proof.
  intros Hi Hst Hw. unfold execute_immediate.
  assert (line_ok 0) as H0 by (unfold line_ok; lia).
  pose proof (execute_ok i w stmt 0 0 Hi Hw H0 Hst) as Hx.
  destruct (execute_statement _ _ _ _ _ _) as [[[e w'] r]| |]; [|done..]. destruct Hx as (He & Hw' & Hr).
  rewrite mbind_Ret. destruct (reported r) as [r'| |]; [|done..]. split; [|done]. by apply set_env_ok.
Qed.

(** What a user of the interpreter (the REPL and the headless runner) can do: load a
    file, enter a line, delete one, clear, start a run, execute a step or an immediate
    statement; each if it returns. *)
Inductive interp_step : Interpreter * W → Interpreter * W → Prop :=
  | op_load i w src i' r : load_program i src = Ret (i', r) → interp_step (i, w) (i', w)
  | op_line i w line n stmt p :
      parse_line (new line) = POk (Some (Some n, stmt)) p → interp_step (i, w) (set_line i n stmt, w)
  | op_immediate i w line stmt p i' w' s :
      parse_line (new line) = POk (Some (None, stmt)) p → execute_immediate i stmt w = Ret (i', w', s) →
      interp_step (i, w) (i', w')
  | op_delete i w n : interp_step (i, w) (delete_line i n, w)
  | op_clear i w : interp_step (i, w) (clear i, w)
  | op_run i w : interp_step (i, w) (run i, w)
  | op_step i w i' w' s : step i w = Ret (i', w', s) → interp_step (i, w) (i', w').

Lemma parsed_line_ok line n stmt p :
  parse_line (new line) = POk (Some (n, stmt)) p → stmt_wf stmt ∧ ∀ l, n = Some l → line_ok l.
Proof.
  intros E. pose proof (parse_line_total _ (proj1 (new_good line))) as Hp. unfold prun in Hp. rewrite E in Hp. naive_solver.
Qed.

Lemma interp_step_ok i w i' w' : interp_step (i, w) (i', w') → interp_ok i ∧ I w → interp_ok i' ∧ I w'.
Proof.
  intros Hs [Hi Hw]. pose proof Hi as [].
  inversion Hs as [? ? src ? ? E|? ? line n stmt p E|? ? line stmt p ? ? ? E Ex|? ? n| | |? ? ? ? ? E]; subst.
  - destruct (load_program_ok i src Hi) as (i2 & r2 & E2 & ?). rewrite E in E2. by injection E2 as -> ->.
  - destruct (parsed_line_ok _ _ _ _ E) as [Hst Hn]. split; [|done].
    apply rebuild_ok; [by apply bt_insert_sorted|apply wf_insert; auto|done].
  - destruct (parsed_line_ok _ _ _ _ E) as [Hst _].
    pose proof (execute_immediate_ok i stmt w Hi Hst Hw) as Hx. by rewrite Ex in Hx.
  - split; [|done]. apply rebuild_ok; [by apply bt_remove_sorted| |done].
    rewrite Forall_forall in *. intros q Hq%bt_remove_elem. auto.
  - split; [|done]. split; cbn; [constructor..|apply empty_env_ok].
  - split; [|done]. unfold run. case_match; [by split|]. by split; try apply empty_env_ok.
  - pose proof (step_ok i w Hi Hw) as Hx. by rewrite E in Hx.
Qed.

Lemma reachable_ok w0 i w :
  I w0 → rtc interp_step (Interpreter_new, w0) (i, w) → interp_ok i ∧ I w.
Proof.
  intros Hw0 Hr. remember (Interpreter_new, w0) as s0 eqn:E0. remember (i, w) as s eqn:E.
  assert (interp_ok s.1 ∧ I s.2) as Hok; [|by subst].
  assert (interp_ok s0.1 ∧ I s0.2) as H0.
  { subst. split; [|done]. split; [constructor..|apply empty_env_ok]. }
  clear E E0. induction Hr as [s|[i1 w1] [i2 w2] s Hst _ IH]; [done|]. apply IH. by eapply interp_step_ok.
Qed.
End interpreter.
