(* ===== verification/BasicPrint.v ===== *)
(** LIST and its inverse (src/basic/interpreter.rs: [list], [format_statement],
    [format_expr]): a listing whose expressions need no parentheses loads back to the
    same program.  The formatter never prints parentheses and drops the text of a
    REM, so the hypothesis is needed. *)

From stdpp Require Import strings.
From S2P Require Import Prelude Utf8 BTreeMap BasicLexer BasicParser BasicInterp BasicSafe.
From Stdlib Require Import Sorting.Sorted.
#[local] Open Scope Z_scope.

Definition op_str (op : BinaryOp) : list Z :=
  match op with
  | BinaryOp.Add => chars "+" | BinaryOp.Sub => chars "-" | BinaryOp.Mul => chars "*" | BinaryOp.Div => chars "/"
  | BinaryOp.Eq => chars "=" | BinaryOp.Ne => chars "<>" | BinaryOp.Lt => chars "<" | BinaryOp.Gt => chars ">"
  | BinaryOp.Le => chars "<=" | BinaryOp.Ge => chars ">="
  end.

Definition quoted (s : list Z) : list Z := [QUOTE] ++ s ++ [QUOTE].

Fixpoint format_expr (e : Expr) : list Z :=
  match e with
  | Expr.Integer n => dec n
  | Expr.StringLit s => quoted s
  | Expr.Variable_ name => name
  | Expr.BinaryOp l op r => format_expr l ++ chars " " ++ op_str op ++ chars " " ++ format_expr r
  | Expr.Negate e => chars "-" ++ format_expr e
  | Expr.Mem e => chars "MEM(" ++ format_expr e ++ chars ")"
  | Expr.Chr e => chars "CHR$(" ++ format_expr e ++ chars ")"
  | Expr.Asc e => chars "ASC(" ++ format_expr e ++ chars ")"
  | Expr.Len e => chars "LEN(" ++ format_expr e ++ chars ")"
  | Expr.Mid s a b =>
      chars "MID$(" ++ format_expr s ++ chars ", " ++ format_expr a ++ chars ", " ++ format_expr b ++ chars ")"
  | Expr.Left s n => chars "LEFT$(" ++ format_expr s ++ chars ", " ++ format_expr n ++ chars ")"
  | Expr.Instr h n => chars "INSTR(" ++ format_expr h ++ chars ", " ++ format_expr n ++ chars ")"
  | Expr.Str e => chars "STR$(" ++ format_expr e ++ chars ")"
  | Expr.Val e => chars "VAL(" ++ format_expr e ++ chars ")"
  | Expr.ArrayAccess name i => name ++ chars "(" ++ format_expr i ++ chars ")"
  | Expr.Socket => chars "SOCKET()"
  | Expr.Listen s p => chars "LISTEN(" ++ format_expr s ++ chars ", " ++ format_expr p ++ chars ")"
  | Expr.Accept s => chars "ACCEPT(" ++ format_expr s ++ chars ")"
  | Expr.Recv s => chars "RECV$(" ++ format_expr s ++ chars ")"
  | Expr.Sockstate s => chars "SOCKSTATE(" ++ format_expr s ++ chars ")"
  end.

Fixpoint format_items (sep : list Z) (l : list (list Z)) : list Z :=
  match l with
  | [] => []
  | [s] => s
  | s :: l => s ++ sep ++ format_items sep l
  end.

Definition format_statement (s : Statement) : list Z :=
  match s with
  | Statement.Print es => chars "PRINT " ++ format_items (chars "; ") (format_expr <$> es)
  | Statement.Let var e => chars "LET " ++ var ++ chars " = " ++ format_expr e
  | Statement.If c n => chars "IF " ++ format_expr c ++ chars " THEN " ++ dec n
  | Statement.Goto n => chars "GOTO " ++ dec n
  | Statement.Gosub n => chars "GOSUB " ++ dec n
  | Statement.Return => chars "RETURN"
  | Statement.For var a b c =>
      chars "FOR " ++ var ++ chars " = " ++ format_expr a ++ chars " TO " ++ format_expr b ++ chars " STEP " ++ format_expr c
  | Statement.Next var => chars "NEXT " ++ var
  | Statement.Sleep e => chars "SLEEP " ++ format_expr e
  | Statement.Rem => chars "REM"
  | Statement.End => chars "END"
  | Statement.Spawn name args => chars "SPAWN " ++ quoted name ++ (args ≫= λ a, chars ", " ++ quoted a)
  | Statement.Dim name e => chars "DIM " ++ name ++ chars "(" ++ format_expr e ++ chars ")"
  | Statement.ArrayAssign name i e => name ++ chars "(" ++ format_expr i ++ chars ") = " ++ format_expr e
  | Statement.Send s d => chars "SEND " ++ format_expr s ++ chars ", " ++ format_expr d
  | Statement.NetClose s => chars "CLOSE " ++ format_expr s
  end.

(** One line of [list]: the pieces given to the terminal. *)
Definition list_pieces (i : Interpreter) (n : Z) : list (list Z) :=
  match bt_get (program i) n with
  | Some s => [dec n; chars " "; format_statement s; [NL]]
  | None => []
  end.
(** [Interpreter::list]. *)
Definition list_program {W} `{Host W} (i : Interpreter) : basicM (W := W) unit :=
  write_pieces (line_order i ≫= list_pieces i).
(** The text that [list] prints. *)
Definition listing (i : Interpreter) : list Z := concat (line_order i ≫= list_pieces i).

(** ** Expressions that need no parentheses *)

Definition prec (op : BinaryOp) : nat :=
  match op with
  | BinaryOp.Mul | BinaryOp.Div => 2
  | BinaryOp.Add | BinaryOp.Sub => 1
  | _ => 0
  end.

(** [canon k e]: [e] reads back at precedence level [k] (0 comparison, 1 additive,
    2 multiplicative, 3 unary, 4 primary) from its unparenthesised form. *)
Fixpoint canon (k : nat) (e : Expr) : bool :=
  match e with
  | Expr.BinaryOp l op r => (k <=? prec op)%nat && canon (prec op) l && canon (S (prec op)) r
  | Expr.Negate e => (k <=? 3)%nat && canon 4 e
  | Expr.Integer _ | Expr.StringLit _ | Expr.Variable_ _ | Expr.Socket => true
  | Expr.Mem e | Expr.Chr e | Expr.Asc e | Expr.Len e | Expr.Str e | Expr.Val e
  | Expr.Accept e | Expr.Recv e | Expr.Sockstate e | Expr.ArrayAccess _ e => canon 0 e
  | Expr.Mid a b c => canon 0 a && canon 0 b && canon 0 c
  | Expr.Left a b | Expr.Instr a b | Expr.Listen a b => canon 0 a && canon 0 b
  end.

Definition stmt_canon (s : Statement) : bool :=
  match s with
  | Statement.Print es => forallb (canon 0) es
  | Statement.Let _ e | Statement.If e _ | Statement.Sleep e | Statement.NetClose e | Statement.Dim _ e => canon 0 e
  | Statement.For _ a b c => canon 0 a && canon 0 b && canon 0 c
  | Statement.ArrayAssign _ a b | Statement.Send a b => canon 0 a && canon 0 b
  | Statement.Rem => false
  | _ => true
  end.

(** ** Tokens of the printed forms *)

Definition op_token (op : BinaryOp) : Token :=
  match op with
  | BinaryOp.Add => Token.Plus | BinaryOp.Sub => Token.Minus | BinaryOp.Mul => Token.Star | BinaryOp.Div => Token.Slash
  | BinaryOp.Eq => Token.Eq | BinaryOp.Ne => Token.Ne | BinaryOp.Lt => Token.Lt | BinaryOp.Gt => Token.Gt
  | BinaryOp.Le => Token.Le | BinaryOp.Ge => Token.Ge
  end.

Fixpoint etoks (e : Expr) : list Token :=
  match e with
  | Expr.Integer n => [Token.Integer n]
  | Expr.StringLit s => [Token.StringLit s]
  | Expr.Variable_ name => [Token.Identifier name]
  | Expr.BinaryOp l op r => etoks l ++ op_token op :: etoks r
  | Expr.Negate e => Token.Minus :: etoks e
  | Expr.Mem e => Token.Mem :: Token.LParen :: etoks e ++ [Token.RParen]
  | Expr.Chr e => Token.Chr :: Token.LParen :: etoks e ++ [Token.RParen]
  | Expr.Asc e => Token.Asc :: Token.LParen :: etoks e ++ [Token.RParen]
  | Expr.Len e => Token.Len :: Token.LParen :: etoks e ++ [Token.RParen]
  | Expr.Mid s a b =>
      Token.Mid :: Token.LParen :: etoks s ++ Token.Comma :: etoks a ++ Token.Comma :: etoks b ++ [Token.RParen]
  | Expr.Left s n => Token.Left :: Token.LParen :: etoks s ++ Token.Comma :: etoks n ++ [Token.RParen]
  | Expr.Instr h n => Token.Instr :: Token.LParen :: etoks h ++ Token.Comma :: etoks n ++ [Token.RParen]
  | Expr.Str e => Token.Str :: Token.LParen :: etoks e ++ [Token.RParen]
  | Expr.Val e => Token.Val :: Token.LParen :: etoks e ++ [Token.RParen]
  | Expr.ArrayAccess name i => Token.Identifier name :: Token.LParen :: etoks i ++ [Token.RParen]
  | Expr.Socket => [Token.Socket; Token.LParen; Token.RParen]
  | Expr.Listen s p => Token.NetListen :: Token.LParen :: etoks s ++ Token.Comma :: etoks p ++ [Token.RParen]
  | Expr.Accept s => Token.Accept :: Token.LParen :: etoks s ++ [Token.RParen]
  | Expr.Recv s => Token.Recv :: Token.LParen :: etoks s ++ [Token.RParen]
  | Expr.Sockstate s => Token.Sockstate :: Token.LParen :: etoks s ++ [Token.RParen]
  end.

(** Reading [ts] from [s] leaves [X]. *)
Fixpoint lexes (s : list Z) (ts : list Token) (X : list Z) : Prop :=
  match ts with
  | [] => s = X
  | t :: ts => ∃ s', next_token s = (t, s') ∧ lexes s' ts X
  end.

Lemma lexes_app s ts X ts' Y : lexes s ts X → lexes X ts' Y → lexes s (ts ++ ts') Y.
Proof. revert s. induction ts as [|t ts IH]; intros s; cbn; [by intros ->|]. intros (s' & ? & ?) ?. eauto. Qed.
Lemma lexes_app_inv s ts ts' Y : lexes s (ts ++ ts') Y → ∃ X, lexes s ts X ∧ lexes X ts' Y.
Proof.
  revert s. induction ts as [|t ts IH]; intros s; cbn; [by eauto|]. intros (s' & ? & (X & ? & ?)%IH). eauto.
Qed.
Lemma lexes_cons s t s' ts X : next_token s = (t, s') → lexes s' ts X → lexes s (t :: ts) X.
Proof. cbn. eauto. Qed.
Lemma lexes_blank s t ts X : lexes s (t :: ts) X → lexes (32 :: s) (t :: ts) X.
Proof. done. Qed.

(** What may follow a number or a name. *)
Definition delim (X : list Z) : Prop := match X with [] => True | c :: _ => is_ident_char c = false end.

(** *** Numbers *)

Lemma dec_loop_spec fuel n : 0 ≤ n < 10 ^ Z.of_nat (S fuel) →
  Forall (λ c, is_ascii_digit c = true) (dec_loop (S fuel) n) ∧
  dec_loop (S fuel) n ≠ [] ∧
  ∀ z, foldl (λ n c, 10 * n + (c - 48)) z (dec_loop (S fuel) n) =
       z * 10 ^ Z.of_nat (length (dec_loop (S fuel) n)) + n.
Proof.
  revert n. induction fuel as [|fuel IH]; intros n Hn.
  all: assert (is_ascii_digit (48 + n mod 10) = true) as Hdig
    by (unfold is_ascii_digit; pose proof (Z.mod_pos_bound n 10); lia).
  - cbn [dec_loop]. change (10 ^ Z.of_nat 1) with 10 in Hn. rewrite (proj2 (Z.ltb_lt n 10)) by lia.
    split_and!; [by repeat constructor|done|]. intros z. cbn. rewrite Z.mod_small by lia. lia.
  - remember (S fuel) as f eqn:Ef. cbn [dec_loop]. destruct (Z.ltb_spec n 10) as [Hlt|Hge].
    + split_and!; [by repeat constructor|done|]. intros z. cbn. rewrite Z.mod_small by lia. lia.
    + rewrite Nat2Z.inj_succ, Z.pow_succ_r in Hn by lia.
      destruct (IH (n / 10)) as (Hd & Hne & Hv).
      { split; [apply Z.div_pos; lia|apply Z.div_lt_upper_bound; lia]. }
      split_and!; [apply Forall_app; split; [done|by repeat constructor]|by destruct (dec_loop f (n / 10))|].
      intros z. rewrite foldl_app, Hv, length_app. cbn [foldl length].
      rewrite Nat2Z.inj_add, Z.pow_add_r by lia. change (10 ^ Z.of_nat 1) with 10.
      pose proof (Z.div_mod n 10 ltac:(lia)). lia.
Qed.

Lemma span_app P t X : Forall (λ c, P c = true) t → match X with [] => True | c :: _ => P c = false end →
  span P (t ++ X) = (t, X).
Proof.
  intros Ht HX. induction Ht as [|c t Hc Ht IH]; cbn.
  - destruct X as [|c X]; cbn; [done|]. by rewrite HX.
  - by rewrite Hc, IH.
Qed.

Lemma digit_plain c : is_ascii_digit c = true → 48 ≤ c ≤ 57.
Proof. unfold is_ascii_digit. intros [?%Z.leb_le ?%Z.leb_le]%andb_true_iff. lia. Qed.

Lemma lex_number n X : int_ok n → delim X → next_token (dec n ++ X) = (Token.Integer n, X).
Proof.
  intros Hn HX. unfold int_ok in Hn. unfold dec. rewrite (proj2 (Z.ltb_ge n 0)) by lia.
  destruct (dec_loop_spec 19 n) as (Hd & Hne & Hv); [change (10 ^ Z.of_nat 20) with 100000000000000000000; lia|].
  specialize (Hv 0). rewrite Z.mul_0_l, Z.add_0_l in Hv. fold (digits_value (dec_loop 20 n)) in Hv.
  set (t := dec_loop 20 n) in *. clearbody t.
  assert (parse_i64 t = Some n) as Hp.
  { rewrite parse_i64_unsigned by done. unfold parse_digits. destruct t as [|c t]; [done|].
    rewrite (proj2 (forallb_forall _ _)).
    - rewrite Hv. by rewrite (proj2 (Z.leb_le _ _)), (proj2 (Z.leb_le _ _)) by lia.
    - intros x Hx%list_elem_of_In. rewrite Forall_forall in Hd. by apply Hd. }
  assert (read_number (t ++ X) = (Token.Integer n, X)) as Hr.
  { unfold read_number. rewrite span_app; [by rewrite Hp|done|]. destruct X as [|c X]; [done|].
    cbn in HX. unfold is_ident_char, is_ascii_alphanumeric in HX. apply orb_false_iff in HX as [[[_ HX]%orb_false_iff _]%orb_false_iff _]. done. }
  destruct t as [|c t]; [done|]. apply Forall_cons in Hd as [Hc _]. rewrite <- Hr. cbn [app next_token].
  pose proof (digit_plain c Hc). unfold NL, CR, QUOTE. rewrite Hc.
  by repeat rewrite (proj2 (Z.eqb_neq c _)) by lia.
Qed.

(** *** Names, strings and keywords *)

Lemma upper_id s : Forall (λ c, is_ident_char c = true ∧ is_lower c = false) s → to_ascii_uppercase s = s.
Proof. induction 1 as [|c s [_ Hc] Hs IH]; cbn; [done|]. rewrite Hc. by f_equal. Qed.

Lemma read_ident_at c s : is_upper c = true → next_token (c :: s) = read_identifier_or_keyword (c :: s).
Proof.
  intros Hc. assert (65 ≤ c ≤ 90) by (unfold is_upper in Hc; lia). cbn [next_token].
  unfold NL, CR, QUOTE, is_ascii_digit, is_ascii_alphabetic. rewrite Hc.
  repeat rewrite (proj2 (Z.eqb_neq c _)) by lia. by rewrite (proj2 (Z.leb_gt c 57)), andb_false_r by lia.
Qed.

Lemma lex_ident name X : ident_ok name → delim X → next_token (name ++ X) = (Token.Identifier name, X).
Proof.
  intros ((c & s & -> & Hc) & Hall & Hkw) HX. cbn [app]. rewrite (read_ident_at c) by done.
  unfold read_identifier_or_keyword. change (c :: s ++ X) with ((c :: s) ++ X).
  rewrite span_app; [by rewrite upper_id, Hkw|eapply Forall_impl; [done|by intros ? [? _]]|done].
Qed.

Lemma string_loop_app s X : string_ok s → string_loop (s ++ QUOTE :: X) = (s, X).
Proof.
  induction 1 as [|c s (H1 & H2 & H3) Hs IH]; cbn; [done|].
  by rewrite (proj2 (Z.eqb_neq c QUOTE)), (proj2 (Z.eqb_neq c NL)), (proj2 (Z.eqb_neq c CR)), IH by done.
Qed.
Lemma lex_string s X : string_ok s → next_token (quoted s ++ X) = (Token.StringLit s, X).
Proof.
  intros Hs. unfold quoted. rewrite <- !app_assoc. cbn [app].
  transitivity (read_string (QUOTE :: s ++ QUOTE :: X)); [reflexivity|].
  unfold read_string. change (drop 1 (QUOTE :: s ++ QUOTE :: X)) with (s ++ QUOTE :: X). by rewrite string_loop_app.
Qed.

(** A space, an operator and a space. *)
Lemma lex_op op X : next_token (chars " " ++ op_str op ++ chars " " ++ X) = (op_token op, 32 :: X).
Proof. by destruct op. Qed.

Lemma delim_chars s X : delim (chars s) → chars s ≠ [] → delim (chars s ++ X).
Proof. by destruct (chars s). Qed.

(** [f(a)], [f(a, b)] and [f(a, b, c)]. *)
Lemma lexes_call kw t (body : list Token) s X :
  (∀ Y, next_token (chars kw ++ 40 :: Y) = (t, 40 :: Y)) → lexes s (body ++ [Token.RParen]) X →
  lexes (chars kw ++ 40 :: s) (t :: Token.LParen :: body ++ [Token.RParen]) X.
Proof. intros Hk Hb. exists (40 :: s). split; [apply Hk|]. by exists s. Qed.

Lemma lexes_close s ts X : lexes s ts (41 :: X) → lexes s (ts ++ [Token.RParen]) X.
Proof. intros H. eapply lexes_app; [done|]. by exists X. Qed.

Lemma etoks_nonempty e : ∃ t ts, etoks e = t :: ts.
Proof. induction e; cbn; eauto. destruct IHe1 as (t & ts & ->). cbn. eauto. Qed.

Lemma lexes_comma s1 ts1 s2 e2 ts X :
  lexes (s1 ++ chars ", " ++ s2) ts1 (chars ", " ++ s2) → lexes s2 (etoks e2 ++ ts) X →
  lexes (s1 ++ chars ", " ++ s2) (ts1 ++ Token.Comma :: etoks e2 ++ ts) X.
Proof.
  intros H1 H2. eapply lexes_app; [done|]. exists (32 :: s2). split; [done|].
  destruct (etoks_nonempty e2) as (t & l & E). rewrite E in *. by apply lexes_blank.
Qed.

Definition lex_expr_prop (e : Expr) : Prop := ∀ X, delim X → lexes (format_expr e ++ X) (etoks e) X.

Lemma lex_args1 kw t a X : (∀ Y, next_token (chars kw ++ 40 :: Y) = (t, 40 :: Y)) → lex_expr_prop a →
  lexes (chars kw ++ 40 :: format_expr a ++ 41 :: X) (t :: Token.LParen :: etoks a ++ [Token.RParen]) X.
Proof. intros Hk Ha. apply lexes_call; [done|]. apply lexes_close, Ha. done. Qed.

Lemma lex_args2 kw t a b X : (∀ Y, next_token (chars kw ++ 40 :: Y) = (t, 40 :: Y)) → lex_expr_prop a → lex_expr_prop b →
  lexes (chars kw ++ 40 :: format_expr a ++ chars ", " ++ format_expr b ++ 41 :: X)
    (t :: Token.LParen :: etoks a ++ Token.Comma :: etoks b ++ [Token.RParen]) X.
Proof.
  intros Hk Ha Hb. exists (40 :: format_expr a ++ chars ", " ++ format_expr b ++ 41 :: X). split; [apply Hk|].
  eexists. split; [done|]. apply lexes_comma; [by apply Ha|]. apply lexes_close, Hb. done.
Qed.

Lemma lex_expr e : expr_wf e → lex_expr_prop e.
Proof.
  induction e; cbn [expr_wf]; intros Hwf; destruct_and?;
    repeat match goal with IH : expr_wf ?e → _ |- _ => specialize (IH ltac:(assumption)) end;
    intros X HX; cbn [format_expr etoks]; rewrite <- ?app_assoc; cbn [app].
  - exists X. by rewrite lex_number.
  - exists X. by rewrite lex_string.
  - exists X. by rewrite lex_ident.
  - eapply lexes_app; [apply IHe1; done|]. eexists. split; [apply lex_op|].
    destruct (etoks_nonempty e2) as (t & l & E). rewrite E. apply lexes_blank. rewrite <- E. by apply IHe2.
  - exists (format_expr e ++ X). split; [done|]. by apply IHe.
  - by apply (lex_args1 "MEM").
  - by apply (lex_args1 "CHR$").
  - by apply (lex_args1 "ASC").
  - by apply (lex_args1 "LEN").
  - eexists. split; [reflexivity|]. eexists. split; [reflexivity|].
    apply lexes_comma; [by apply IHe1|]. apply lexes_comma; [by apply IHe2|]. by apply lexes_close, IHe3.
  - by apply (lex_args2 "LEFT$").
  - by apply (lex_args2 "INSTR").
  - by apply (lex_args1 "STR$").
  - by apply (lex_args1 "VAL").
  - eexists. split; [reflexivity|]. eexists. split; [reflexivity|]. by exists X.
  - by apply (lex_args2 "LISTEN").
  - by apply (lex_args1 "ACCEPT").
  - by apply (lex_args1 "RECV$").
  - by apply (lex_args1 "SOCKSTATE").
  - eexists. split; [apply lex_ident; done|]. eexists. split; [reflexivity|]. by apply lexes_close, IHe.
Qed.

(** ** Reading the tokens back *)

Lemma new_eq s t s' : next_token s = (t, s') → new s = mkParser s' t.
Proof. intros E. unfold new. by rewrite E. Qed.
Lemma new_size s t s' : next_token s = (t, s') → t ≠ Token.Eof → (size (new s') < size (new s))%nat.
Proof.
  intros E Ht. rewrite (new_eq _ _ _ E). destruct (new_good s') as [_ Hs]. unfold size at 2. cbn. case_match; first [lia|done].
Qed.

Lemma reads_current {B} (f : Token → parserM B) s t s' :
  next_token s = (t, s') → (current_token ≫= f) (new s) = f t (new s).
Proof. intros E. rewrite (new_eq _ _ _ E). done. Qed.
Lemma reads_advance {B} (f : unit → parserM B) s t s' :
  next_token s = (t, s') → (advance ≫= f) (new s) = f () (new s').
Proof. intros E. rewrite (new_eq _ _ _ E). unfold mbind, parserM_bind. by rewrite advance_new. Qed.
Lemma reads_expect {B} t msg (f : unit → parserM B) s s' :
  next_token s = (t, s') → is_token t t = true → (expect t msg ≫= f) (new s) = f () (new s').
Proof.
  intros E Ht. rewrite (new_eq _ _ _ E). unfold mbind, parserM_bind at 1, expect, current_token, mbind, parserM_bind. cbn.
  rewrite Ht. by rewrite advance_new.
Qed.
Lemma reads_bind {A B} (m : parserM A) (f : A → parserM B) p a p' : m p = POk a p' → (m ≫= f) p = f a p'.
Proof. intros E. unfold mbind, parserM_bind. by rewrite E. Qed.
Lemma reads_remaining {B} (f : nat → parserM B) p :
  ∃ n, (size p < n)%nat ∧ (remaining ≫= f) p = f n p.
Proof. exists (S (S (length (rest p)))). split; [unfold size; case_match; lia|done]. Qed.

(** The next token does not continue an expression read at level [k]. *)
Definition follow (k : nat) (X : list Z) : Prop :=
  is_token Token.LParen (current (new X)) = false ∧ ∀ op, current (new X) = op_token op → (prec op < k)%nat.

Lemma follow_mono k k' X : follow k X → (k ≤ k')%nat → follow k' X.
Proof. intros [H1 H2] Hk. split; [done|]. intros op Hop. specialize (H2 op Hop). lia. Qed.
Lemma follow_token k X t X' : next_token X = (t, X') → is_token Token.LParen t = false →
  (∀ op, t ≠ op_token op) → follow k X.
Proof. intros E H1 H2. unfold follow. rewrite (new_eq _ _ _ E). split; [done|]. intros op Hop. by destruct (H2 op). Qed.
Lemma follow_op k X op X' : next_token X = (op_token op, X') → (prec op < k)%nat → follow k X.
Proof.
  intros E H1. unfold follow. rewrite (new_eq _ _ _ E). cbn [current]. split; [by destruct op|].
  intros op' Hop. by destruct op, op'.
Qed.

(** [m] reads back the expressions of level [k] from states with fewer than [n] tokens. *)
Definition ereads (n k : nat) (m : parserM Expr) : Prop :=
  ∀ e s X, canon k e = true → lexes s (etoks e) X → (size (new s) < n)%nat → follow k X →
  m (new s) = POk e (new X).

Lemma lexes_size s ts X : lexes s ts X → Forall (λ t, t ≠ Token.Eof) ts → (size (new X) ≤ size (new s))%nat.
Proof.
  revert s. induction ts as [|t ts IH]; intros s; cbn; [by intros ->|]. intros (s' & E & Hl) [Ht Hts]%Forall_cons.
  pose proof (new_size _ _ _ E Ht). specialize (IH s' Hl Hts). lia.
Qed.
Lemma op_token_not_eof op : op_token op ≠ Token.Eof.
Proof. by destruct op. Qed.
Lemma etoks_not_eof e : Forall (λ t, t ≠ Token.Eof) (etoks e).
Proof.
  induction e; cbn; repeat first [apply Forall_app; split | apply Forall_cons; split | apply Forall_nil; exact Logic.I]; try done.
  apply op_token_not_eof.
Qed.

Section levels.
Context (n : nat).

(** A binary operator of level [k] splits the expression at the last operator. *)
Lemma canon_level k e : (k ≤ 2)%nat → canon k e = true →
  canon (S k) e = true ∨ ∃ l op r, e = Expr.BinaryOp l op r ∧ prec op = k ∧ canon k l = true ∧ canon (S k) r = true.
Proof.
  intros Hk Hc. destruct e; try (by left); cbn [canon] in Hc |- *.
  - apply andb_true_iff in Hc as [[Hp%Nat.leb_le Hl]%andb_true_iff Hr].
    destruct (decide (prec op = k)) as [<-|]; [right; eauto 10|]. left.
    rewrite (proj2 (Nat.leb_le (S k) (prec op))) by lia. by rewrite Hl, Hr.
  - left. apply andb_true_iff in Hc as [_ Hc]. rewrite Hc. do 3 (destruct k as [|k]; [done|]). lia.
Qed.

Context (k : nat) (op_of : Token → option BinaryOp) (operand : parserM Expr).
Context (Hk : (k ≤ 2)%nat) (Hop : ∀ op, prec op = k → op_of (op_token op) = Some op).
Context (Hnone : ∀ t, (∀ op, t = op_token op → (prec op < k)%nat) → op_of t = None).
Context (Hoperand : ereads n (S k) operand).

(** Reading [e] brings the loop to the point after [e], with [e] accumulated. *)
Lemma level_loop e s X : canon k e = true → lexes s (etoks e) X → (size (new s) < n)%nat → follow (S k) X →
  ∃ fuel, (size (new X) < fuel)%nat ∧
  parse_level op_of operand (new s) = binop_loop op_of operand fuel e (new X).
Proof.
  revert X. induction e as [| | |l IHl op r IHr| | | | | | | | | | | | | | | |]; intros X Hc Hl Hs HX;
    (destruct (canon_level k _ Hk Hc) as [Hc'|(l' & op' & r' & E & Hp & Hcl & Hcr)]; [|try done]).
  all: try (unfold parse_level; erewrite reads_bind by (by eapply Hoperand); apply reads_remaining).
  injection E as <- <- <-. cbn [etoks] in Hl. apply lexes_app_inv in Hl as (Y & Hl & (Y' & EY & Hr)).
  destruct (IHl Y) as (fuel & Hf & E); [done|done|done|by eapply follow_op; [done|lia]|].
  rewrite E. destruct fuel as [|fuel]; [lia|]. exists fuel.
  assert (size (new Y) ≤ size (new s))%nat by (eapply lexes_size; [done|apply etoks_not_eof]).
  pose proof (new_size _ _ _ EY (op_token_not_eof op)).
  assert (size (new X) ≤ size (new Y'))%nat by (eapply lexes_size; [done|apply etoks_not_eof]).
  split; [lia|]. cbn [binop_loop]. rewrite (reads_current _ _ _ _ EY), (Hop op Hp), (reads_advance _ _ _ _ EY).
  erewrite reads_bind; [done|]. apply Hoperand; [done|done|lia|done].
Qed.

Lemma level_reads : ereads n k (parse_level op_of operand).
Proof.
  intros e s X Hc Hl Hs HX. destruct (level_loop e s X Hc Hl Hs) as (fuel & Hf & ->).
  { eapply follow_mono; [done|lia]. }
  destruct fuel as [|fuel]; [lia|]. cbn [binop_loop].
  assert ((current_token ≫= λ c, match op_of c with
    | Some op => _ ← advance; right ← operand; binop_loop op_of operand fuel (Expr.BinaryOp e op right)
    | None => mret e end) (new X) = match op_of (current (new X)) with
    | Some op => _ ← advance; right ← operand; binop_loop op_of operand fuel (Expr.BinaryOp e op right)
    | None => mret e end (new X)) as -> by done.
  by rewrite Hnone by apply HX.
Qed.
End levels.

Lemma op_level_spec op_of k :
  (∀ op, (prec op = k → op_of (op_token op) = Some op) ∧ (prec op ≠ k → op_of (op_token op) = None)) →
  (∀ t, (∀ op, t ≠ op_token op) → op_of t = None) →
  (∀ t, (∀ op, t = op_token op → (prec op < k)%nat) → op_of t = None).
Proof.
  intros Hop Hn t Ht.
  assert ((∃ op, t = op_token op) ∨ ∀ op, t ≠ op_token op) as [[op ->]|Hno].
  { destruct t; try (by right; intros []); left.
    - by exists BinaryOp.Add. - by exists BinaryOp.Sub. - by exists BinaryOp.Mul. - by exists BinaryOp.Div.
    - by exists BinaryOp.Eq. - by exists BinaryOp.Ne. - by exists BinaryOp.Lt. - by exists BinaryOp.Gt.
    - by exists BinaryOp.Le. - by exists BinaryOp.Ge. }
  - specialize (Ht op eq_refl). apply Hop. lia.
  - auto.
Qed.

Lemma not_op_none op_of : op_of = multiplicative_op ∨ op_of = additive_op ∨ op_of = comparison_op →
  ∀ t, (∀ op, t ≠ op_token op) → op_of t = None.
Proof.
  intros Hop t Ht. destruct t; try (by destruct Hop as [->|[->| ->]]); exfalso.
  - by apply (Ht BinaryOp.Add). - by apply (Ht BinaryOp.Sub). - by apply (Ht BinaryOp.Mul). - by apply (Ht BinaryOp.Div).
  - by apply (Ht BinaryOp.Eq). - by apply (Ht BinaryOp.Ne). - by apply (Ht BinaryOp.Lt). - by apply (Ht BinaryOp.Gt).
  - by apply (Ht BinaryOp.Le). - by apply (Ht BinaryOp.Ge).
Qed.

Section primary.
Context (n : nat) (primary : parserM Expr) (Hprim : ereads n 4 primary).

Lemma unary_reads : ereads n 3 (parse_unary primary).
Proof.
  intros e s X Hc Hl Hs HX. pose proof (follow_mono 3 4 X HX ltac:(lia)) as HX'. unfold parse_unary.
  destruct (match e with Expr.Negate _ => true | _ => false end) eqn:En.
  - destruct e as [| | | |e| | | | | | | | | | | | | | |]; try done. destruct Hl as (s' & E & Hl). cbn [canon] in Hc.
    rewrite (reads_current _ _ _ _ E). cbn [is_token]. rewrite (reads_advance _ _ _ _ E).
    pose proof (new_size _ _ _ E ltac:(done)). erewrite reads_bind; [done|]. apply Hprim; [done|done|lia|done].
  - assert (canon 4 e = true) as Hc' by (by destruct e as [| | |? []| | | | | | | | | | | | | | | |]).
    destruct (etoks_nonempty e) as (t & ts & Et). assert (is_token Token.Minus t = false) as Hm.
    { destruct e as [| | |? []| | | | | | | | | | | | | | | |]; try done; by injection Et as <- <-. }
    pose proof Hl as Hl'. rewrite Et in Hl'. destruct Hl' as (s' & E & _).
    rewrite (reads_current _ _ _ _ E), Hm. by apply Hprim.
Qed.

Lemma comparison_reads : ereads n 0 (parse_comparison primary).
Proof.
  unfold parse_comparison, parse_additive, parse_multiplicative.
  apply level_reads; [lia|by intros []|apply op_level_spec; [by intros []|apply not_op_none; tauto]|].
  apply level_reads; [lia|by intros []|apply op_level_spec; [by intros []|apply not_op_none; tauto]|].
  apply level_reads; [lia|by intros []|apply op_level_spec; [by intros []|apply not_op_none; tauto]|].
  apply unary_reads.
Qed.

(** Reading an argument that a comma or a parenthesis ends. *)
Lemma arg_reads {B} (f : Expr → parserM B) e s t ts X :
  canon 0 e = true → lexes s (etoks e ++ t :: ts) X → (size (new s) < n)%nat →
  t = Token.Comma ∨ t = Token.RParen →
  ∃ Y Y', next_token Y = (t, Y') ∧ lexes Y' ts X ∧ (size (new Y') < size (new s))%nat ∧
  (parse_comparison primary ≫= f) (new s) = f e (new Y).
Proof.
  intros Hc (Y & Hl & Y' & E & HY)%lexes_app_inv Hs Ht. exists Y, Y'. split_and!; [done|done| |].
  - assert (size (new Y) ≤ size (new s))%nat by (eapply lexes_size; [done|apply etoks_not_eof]).
    pose proof (new_size _ _ _ E ltac:(by destruct Ht as [->| ->])). lia.
  - apply reads_bind, comparison_reads; [done|done|done|].
    eapply follow_token; [done|by destruct Ht as [->| ->]|intros []; by destruct Ht as [->| ->]].
Qed.

Lemma call1_reads lp rp f e t s X :
  canon 0 e = true → lexes s (t :: Token.LParen :: etoks e ++ [Token.RParen]) X → t ≠ Token.Eof →
  (size (new s) ≤ n)%nat → call1 primary lp rp f (new s) = POk (f e) (new X).
Proof.
  intros Hc (s1 & E1 & s2 & E2 & Hl) Ht Hs. pose proof (new_size _ _ _ E1 Ht). pose proof (new_size _ _ _ E2 ltac:(done)).
  unfold call1. rewrite (reads_advance _ _ _ _ E1), (reads_expect _ _ _ _ _ E2) by done.
  edestruct (arg_reads (λ a, _ ← expect Token.RParen rp; mret (f a)) e s2) as (Y & Y' & E3 & HX & _ & ->);
    [done|done|lia|by right|]. rewrite (reads_expect _ _ _ _ _ E3) by done. cbn in HX. by subst.
Qed.

Lemma call2_reads lp comma rp f a b t s X :
  canon 0 a && canon 0 b = true →
  lexes s (t :: Token.LParen :: etoks a ++ Token.Comma :: etoks b ++ [Token.RParen]) X → t ≠ Token.Eof →
  (size (new s) ≤ n)%nat → call2 primary lp comma rp f (new s) = POk (f a b) (new X).
Proof.
  intros [Ha Hb]%andb_true_iff (s1 & E1 & s2 & E2 & Hl) Ht Hs.
  pose proof (new_size _ _ _ E1 Ht). pose proof (new_size _ _ _ E2 ltac:(done)).
  unfold call2. rewrite (reads_advance _ _ _ _ E1), (reads_expect _ _ _ _ _ E2) by done.
  edestruct (arg_reads (λ a, _ ← expect Token.Comma comma; b ← parse_comparison primary;
      _ ← expect Token.RParen rp; mret (f a b)) a s2) as (Y & Y' & E3 & HX & ? & ->); [done|done|lia|by left|].
  rewrite (reads_expect _ _ _ _ _ E3) by done.
  edestruct (arg_reads (λ b, _ ← expect Token.RParen rp; mret (f a b)) b Y') as (Z1 & Z2 & E4 & HX2 & _ & ->);
    [done|done|lia|by right|]. rewrite (reads_expect _ _ _ _ _ E4) by done. cbn in HX2. by subst.
Qed.
End primary.

(** Read an argument of a call and the comma or parenthesis after it. *)
Ltac read_arg n IH Hc Hl :=
  let E := fresh "E" in let Hl' := fresh in
  match goal with |- (parse_comparison _ ≫= ?f) (new ?s) = _ =>
    destruct (arg_reads n _ IH f _ s _ _ _ Hc Hl ltac:(lia) ltac:(first [by left|by right])) as (? & ? & E & Hl' & ? & ->) end;
  rewrite (reads_expect _ _ _ _ _ E) by done; clear Hl; rename Hl' into Hl.

Lemma primary_reads n : ereads n 4 (parse_primary n).
Proof.
  induction n as [|n IH]; intros e s X Hc Hl Hs HX; [lia|]. cbn [parse_primary].
  destruct (etoks_nonempty e) as (t & ts & Et). pose proof Hl as Hl0. rewrite Et in Hl0. destruct Hl0 as (s' & E & Hl0).
  rewrite (reads_current _ _ _ _ E).
  assert (∀ e : Expr, s' = X → (advance ≫= λ _, mret e) (new s) = POk e (new X)) as Hleaf.
  { intros e1 <-. by rewrite (reads_advance _ _ _ _ E). }
  destruct e; cbn [canon] in Hc; try done; try (by destruct op); cbn [etoks] in Et; injection Et as <- <-.
  all: try (apply Hleaf; exact Hl0).
  all: try (apply (call1_reads n _ IH _ _ _ _ _ _ _ Hc Hl ltac:(done)); lia).
  all: try (apply (call2_reads n _ IH _ _ _ _ _ _ _ _ _ Hc Hl ltac:(done)); lia).
  all: pose proof (new_size _ _ _ E ltac:(done)); rewrite (reads_advance _ _ _ _ E).
  - cbn in Hl0. subst s'. destruct HX as [HX _]. destruct (next_token X) as [t' X'] eqn:EX.
    rewrite (reads_current _ _ _ _ EX). rewrite (new_eq _ _ _ EX) in HX. cbn [current] in HX. by rewrite HX.
  - apply andb_true_iff in Hc as [[H1 H2]%andb_true_iff H3]. destruct Hl0 as (s2 & E2 & Hl2).
    pose proof (new_size _ _ _ E2 ltac:(done)). rewrite (reads_expect _ _ _ _ _ E2) by done.
    read_arg n IH H1 Hl2. read_arg n IH H2 Hl2. read_arg n IH H3 Hl2. cbn in Hl2. by subst.
  - destruct Hl0 as (s2 & E2 & s3 & E3 & <-).
    by rewrite (reads_expect _ _ _ _ _ E2), (reads_expect _ _ _ _ _ E3) by done.
  - destruct Hl0 as (s2 & E2 & Hl2). pose proof (new_size _ _ _ E2 ltac:(done)).
    rewrite (reads_current _ _ _ _ E2). cbn [is_token]. rewrite (reads_advance _ _ _ _ E2).
    read_arg n IH Hc Hl2. cbn in Hl2. by subst.
Qed.

Lemma expression_reads e s X :
  canon 0 e = true → lexes s (etoks e) X → follow 0 X → parse_expression (new s) = POk e (new X).
Proof.
  intros Hc Hl HX. unfold parse_expression.
  destruct (reads_remaining (λ fuel, parse_comparison (parse_primary fuel)) (new s)) as (fuel & Hf & ->).
  eapply comparison_reads; [apply primary_reads|done|done|done|done].
Qed.

(** ** Statements *)

Lemma new_blank s : new (32 :: s) = new s.
Proof. done. Qed.

Lemma expr_at {B} (f : Expr → parserM B) e Y :
  expr_wf e → canon 0 e = true → delim Y → follow 0 Y →
  (parse_expression ≫= f) (new (format_expr e ++ Y)) = f e (new Y).
Proof. intros Hwf Hc HY Hf. apply reads_bind, expression_reads; [done|by apply lex_expr|done]. Qed.

Lemma ident_at {B} msg (f : list Z → parserM B) name Y :
  ident_ok name → delim Y → (identifier msg ≫= f) (new (name ++ Y)) = f name (new Y).
Proof.
  intros Hn HY. pose proof (lex_ident name Y Hn HY) as E. apply reads_bind. unfold identifier.
  rewrite (reads_current _ _ _ _ E), (reads_advance _ _ _ _ E). done.
Qed.

Lemma line_at {B} msg (f : Z → parserM B) n Y :
  line_ok n → delim Y → (line_number msg ≫= f) (new (dec n ++ Y)) = f n (new Y).
Proof.
  intros Hn HY. unfold line_ok in Hn. assert (next_token (dec n ++ Y) = (Token.Integer n, Y)) as E
    by (apply lex_number; [unfold int_ok; lia|done]).
  apply reads_bind. unfold line_number. rewrite (reads_current _ _ _ _ E), (reads_advance _ _ _ _ E).
  by rewrite u32_small by lia.
Qed.

(** The tokens between the parts of a statement end an expression. *)
Lemma follow_kw t Y s : next_token s = (t, Y) →
  match t with Token.Comma | Token.RParen | Token.Semicolon | Token.Then | Token.To | Token.Step | Token.Newline => True | _ => False end →
  follow 0 s.
Proof. intros E Ht. eapply follow_token; [done|by destruct t|intros []; by destruct t]. Qed.

Ltac fkw := eapply follow_kw; [reflexivity|exact Logic.I].
(** Consume the token [t] that a literal starts with; what remains is the text after
    the literal, or a blank and that text. *)
Ltac lex_lit s t k :=
  lazymatch s with
  | chars ?str ++ ?Y => first [k (32 :: Y) | k Y | k (chars " = " ++ Y)]
  | ?c :: ?Y => k Y
  end.
Ltac rd_current t :=
  lazymatch goal with |- (current_token ≫= _) (new ?s) = _ =>
    lex_lit s t ltac:(fun r => rewrite (reads_current _ s t r eq_refl)) end; cbn [is_token orb].
Ltac rd_advance t :=
  lazymatch goal with |- (advance ≫= _) (new ?s) = _ =>
    lex_lit s t ltac:(fun r => rewrite (reads_advance _ s t r eq_refl)) end.
Ltac rd_expect :=
  lazymatch goal with |- (expect ?t _ ≫= _) (new ?s) = _ =>
    lex_lit s t ltac:(fun r => rewrite (reads_expect t _ _ s r eq_refl eq_refl)) end.
Ltac rd_expr := rewrite ?new_blank, expr_at by first [assumption|fkw|done].
Ltac rd_ident := rewrite ?new_blank, ident_at by first [assumption|done].
Ltac rd_line := rewrite ?new_blank, line_at by first [assumption|done].

Lemma etoks_head e : ∃ t ts, etoks e = t :: ts ∧ is_token Token.Newline t || is_token Token.Eof t = false.
Proof. induction e; cbn; eauto. destruct IHe1 as (t & ts & -> & ?). cbn. eauto. Qed.

(** An item of PRINT is read by one iteration of the loop. *)
Lemma print_item e acc fuel Y : expr_wf e → canon 0 e = true → delim Y → follow 0 Y →
  print_loop (S fuel) acc (new (format_expr e ++ Y)) =
  (c ← current_token;
   if is_token Token.Semicolon c then _ ← advance; print_loop fuel (acc ++ [e]) else mret (acc ++ [e])) (new Y) ∧
  (size (new Y) ≤ size (new (format_expr e ++ Y)))%nat.
Proof.
  intros He Hc HY HF. pose proof (lex_expr e He Y HY) as Hl. split.
  - destruct (etoks_head e) as (t & ts & Et & Ht). pose proof Hl as Hl'. rewrite Et in Hl'. destruct Hl' as (s' & E & _).
    cbn [print_loop]. rewrite (reads_current _ _ _ _ E), Ht. by rewrite expr_at.
  - eapply lexes_size; [exact Hl|apply etoks_not_eof].
Qed.

Lemma print_items es acc fuel X : Forall expr_wf es → forallb (canon 0) es = true →
  let s := format_items (chars "; ") (format_expr <$> es) ++ NL :: X in
  (size (new s) < fuel)%nat → print_loop fuel acc (new s) = POk (acc ++ es) (new (NL :: X)).
Proof.
  intros Hwf. revert acc fuel. induction Hwf as [|e es He Hes IH]; intros acc fuel Hc s Hf; subst s;
    (destruct fuel as [|fuel]; [lia|]).
  - cbn [fmap list_fmap format_items app print_loop]. rd_current Token.Newline. by rewrite app_nil_r.
  - cbn [forallb] in Hc. apply andb_true_iff in Hc as [Hce Hces]. destruct es as [|e2 es].
    + cbn [fmap list_fmap format_items] in *.
      destruct (print_item e acc fuel (NL :: X)) as [-> _]; [done|done|done|fkw|]. by rd_current Token.Newline.
    + specialize (IH (acc ++ [e]) fuel Hces). cbn zeta in IH.
      change (format_items (chars "; ") (format_expr <$> e :: e2 :: es))
        with (format_expr e ++ chars "; " ++ format_items (chars "; ") (format_expr <$> e2 :: es)) in *.
      set (r := format_items (chars "; ") (format_expr <$> e2 :: es)) in *. rewrite <- ?app_assoc in *.
      destruct (print_item e acc fuel (chars "; " ++ r ++ NL :: X)) as [-> Hs]; [done|done|done|fkw|].
      rd_current Token.Semicolon. rd_advance Token.Semicolon.
      assert (next_token (chars "; " ++ r ++ NL :: X) = (Token.Semicolon, 32 :: r ++ NL :: X)) as E by done.
      pose proof (new_size _ _ _ E ltac:(done)) as Hlt. rewrite new_blank in *. rewrite IH by lia. by rewrite <- ?app_assoc.
Qed.

Lemma spawn_args args acc fuel X : Forall string_ok args →
  let s := (args ≫= λ a, chars ", " ++ quoted a) ++ NL :: X in
  (size (new s) < fuel)%nat → spawn_loop fuel acc (new s) = POk (acc ++ args) (new (NL :: X)).
Proof.
  intros Hwf. revert acc fuel. induction Hwf as [|a args Ha Has IH]; intros acc fuel s Hf; subst s;
    (destruct fuel as [|fuel]; [lia|]); cbn [spawn_loop].
  - cbn [mbind list_bind app]. rd_current Token.Newline. by rewrite app_nil_r.
  - specialize (IH (acc ++ [a]) fuel). cbn zeta in IH. rewrite bind_cons, <- ?app_assoc in *.
    set (r := (args ≫= λ a, chars ", " ++ quoted a) ++ NL :: X) in *.
    assert (next_token (chars ", " ++ quoted a ++ r) = (Token.Comma, 32 :: quoted a ++ r)) as E1 by done.
    pose proof (lex_string a r Ha) as E2. pose proof (new_size _ _ _ E1 ltac:(done)). pose proof (new_size _ _ _ E2 ltac:(done)).
    rewrite (reads_current _ _ _ _ E1). cbn [is_token]. rewrite (reads_advance _ _ _ _ E1), new_blank in *.
    rewrite (reads_current _ _ _ _ E2), (reads_advance _ _ _ _ E2). rewrite IH by lia. by rewrite <- ?app_assoc.
Qed.

Lemma statement_reads st X : stmt_wf st → stmt_canon st = true →
  parse_statement (new (format_statement st ++ NL :: X)) = POk st (new (NL :: X)).
Proof.
  intros Hwf Hc. unfold parse_statement.
  destruct st; cbn [stmt_wf stmt_canon format_statement] in *; try done;
    destruct_and?; rewrite ?andb_true_iff in Hc; destruct_and?; rewrite <- ?app_assoc.
  - rd_current Token.Print. unfold parse_print. rd_advance Token.Print. rewrite new_blank.
    match goal with |- (remaining ≫= ?f) ?p = _ => destruct (reads_remaining f p) as (fuel & Hf & ->) end.
    erewrite reads_bind; [|by apply print_items]. done.
  - rd_current Token.Let. unfold parse_let. rd_advance Token.Let. rd_ident. rd_expect. rd_expr. done.
  - rd_current Token.If. unfold parse_if. rd_advance Token.If. rd_expr. rd_expect. rd_line. done.
  - rd_current Token.Goto. unfold parse_goto. rd_advance Token.Goto. rd_line. done.
  - rd_current Token.For. unfold parse_for. rd_advance Token.For. rd_ident. rd_expect. rd_expr. rd_expect. rd_expr.
    rd_current Token.Step. erewrite reads_bind; [|rd_advance Token.Step; rewrite new_blank].
    2: { apply expression_reads; [done|by apply lex_expr|fkw]. }
    done.
  - rd_current Token.Next. unfold parse_next. rd_advance Token.Next. rd_ident. done.
  - rd_current Token.Sleep. unfold parse_sleep. rd_advance Token.Sleep. rd_expr. done.
  - rd_current Token.Spawn. unfold parse_spawn. rd_advance Token.Spawn. rewrite new_blank.
    pose proof (lex_string name ((args ≫= λ a, chars ", " ++ quoted a) ++ NL :: X) ltac:(assumption)) as E.
    rewrite (reads_current _ _ _ _ E), (reads_advance _ _ _ _ E).
    match goal with |- (remaining ≫= ?f) ?p = _ => destruct (reads_remaining f p) as (fuel & Hf & ->) end.
    erewrite reads_bind; [|by apply spawn_args]. done.
  - rd_current Token.Gosub. unfold parse_gosub. rd_advance Token.Gosub. rd_line. done.
  - rd_current Token.Dim. unfold parse_dim. rd_advance Token.Dim. rd_ident. rd_expect. rd_expr. rd_expect. done.
  - match goal with |- context [name ++ chars "(" ++ ?Y] =>
      pose proof (lex_ident name (chars "(" ++ Y) ltac:(assumption) ltac:(done)) as E end.
    rewrite (reads_current _ _ _ _ E). unfold parse_assign. rewrite (reads_advance _ _ _ _ E).
    rd_current Token.LParen. rd_advance Token.LParen. rd_expr. rd_expect. rd_expect. rd_expr. done.
  - rd_current Token.Send. unfold parse_send. rd_advance Token.Send. rd_expr. rd_expect. rd_expr. done.
  - rd_current Token.Close. unfold parse_close. rd_advance Token.Close. rd_expr. done.
Qed.

(** ** Lines and programs *)

Definition line_text (p : Z * Statement) : list Z := dec p.1 ++ chars " " ++ format_statement p.2 ++ [NL].

Lemma line_reads n st X : line_ok n → stmt_wf st → stmt_canon st = true →
  parse_line (new (line_text (n, st) ++ X)) = POk (Some (Some n, st)) (new X) ∧
  (size (new X) < size (new (line_text (n, st) ++ X)))%nat.
Proof.
  intros Hn Hwf Hc. pose proof (parse_line_total _ (proj1 (new_good (line_text (n, st) ++ X)))) as Ht.
  assert (parse_line (new (line_text (n, st) ++ X)) = POk (Some (Some n, st)) (new X)) as Hp.
  { clear Ht. unfold line_text. cbn [fst snd]. rewrite <- !app_assoc. cbn [app].
    assert (next_token (dec n ++ chars " " ++ format_statement st ++ NL :: X)
            = (Token.Integer n, chars " " ++ format_statement st ++ NL :: X)) as E.
    { apply lex_number; [|done]. unfold line_ok in Hn. unfold int_ok. lia. }
    unfold parse_line.
    match goal with |- (remaining ≫= ?f) ?p = _ => destruct (reads_remaining f p) as (fuel & Hf & ->) end.
    destruct fuel as [|fuel]; [lia|].
    erewrite reads_bind by (cbn [skip_newlines]; rewrite (reads_current _ _ _ _ E); reflexivity).
    rewrite (reads_current _ _ _ _ E). cbn [is_token].
    erewrite reads_bind by (rewrite (reads_advance _ _ _ _ E); reflexivity).
    change (chars " " ++ ?s) with (32 :: s). rewrite new_blank. erewrite reads_bind by by apply statement_reads.
    rd_current Token.Newline. rd_advance Token.Newline. unfold line_ok in Hn. by rewrite u32_small by lia. }
  split; [done|]. unfold prun in Ht. rewrite Hp in Ht. apply Ht.
Qed.

Lemma bt_insert_last {V} (m : btree V) k v : Forall (λ p, p.1 < k) m → bt_insert m k v = m ++ [(k, v)].
Proof.
  induction 1 as [|[k' v'] m Hk Hm IH]; cbn; [done|]. cbn in Hk.
  by rewrite (proj2 (Z.ltb_ge k k')), (proj2 (Z.eqb_neq k k')), IH by lia.
Qed.

Lemma u64_add_l a b : u64 (u64 a + b) = u64 (a + b).
Proof. unfold u64. apply Zplus_mod_idemp_l. Qed.

Lemma load_lines prog acc fuel count :
  bt_sorted (acc ++ prog) → Forall (λ p, line_ok p.1 ∧ stmt_wf p.2) prog →
  Forall (λ p, stmt_canon p.2 = true) prog → 0 ≤ count < 18446744073709551616 →
  (size (new (prog ≫= line_text)) < fuel)%nat →
  load_loop fuel (new (prog ≫= line_text)) acc count = Ret (acc ++ prog, Ok (u64 (count + Z.of_nat (length prog)))).
Proof.
  intros Hs Hwf. revert acc fuel count Hs. induction Hwf as [|[n st] prog [Hn Hst] Hwf IH];
    intros acc fuel count Hs Hc Hcount Hf; (destruct fuel as [|fuel]; [lia|]); cbn [load_loop].
  - cbn [length Z.of_nat]. rewrite Z.add_0_r, (u64_small count) by done. by rewrite app_nil_r.
  - apply Forall_cons in Hc as [Hc Hcs]. rewrite bind_cons in *.
    destruct (line_reads n st (prog ≫= line_text) Hn Hst Hc) as [-> Hlt].
    assert (Forall (λ p, p.1 < n) acc) as Hlast.
    { clear -Hs. induction acc as [|p acc IH]; [constructor|]. apply StronglySorted_inv in Hs as [Hs Hp].
      constructor; [|by apply IH]. apply Forall_app in Hp as [_ Hp]. by apply Forall_cons in Hp as [Hp _]. }
    rewrite bt_insert_last by done. rewrite IH.
    + rewrite <- app_assoc, u64_add_l. cbn [length app].
      by replace (count + 1 + Z.of_nat (length prog)) with (count + Z.of_nat (S (length prog))) by lia.
    + by rewrite <- app_assoc.
    + done.
    + apply u64_range.
    + lia.
Qed.

Lemma listing_text i : interp_ok i → line_order i = (program i).*1 → listing i = program i ≫= line_text.
Proof.
  intros Hi Ho. unfold listing. rewrite Ho. pose proof (io_sorted _ Hi) as Hs.
  assert (∀ l, Forall (λ p, bt_get (program i) p.1 = Some p.2) l →
    concat (l.*1 ≫= list_pieces i) = l ≫= line_text) as Hl.
  { induction 1 as [|[n st] l Hg Hl IH]; [done|]. rewrite fmap_cons, !bind_cons, concat_app, IH. f_equal.
    unfold list_pieces. cbn in Hg. cbn [fst]. rewrite Hg. unfold line_text. cbn [concat fst snd]. by rewrite app_nil_r. }
  apply Hl, Forall_forall. intros [n st] Hin. by apply bt_elem_get.
Qed.

Lemma list_load_ok i : interp_ok i → line_order i = (program i).*1 →
  Forall (λ p, stmt_canon p.2 = true) (program i) →
  load_program Interpreter_new (listing i) =
    Ret (rebuild_line_order (set_program Interpreter_new (program i)), Ok (u64 (Z.of_nat (length (program i))))).
Proof.
  intros Hi Ho Hc. rewrite listing_text by done. unfold load_program.
  rewrite (load_lines (program i) []); [done|apply Hi|apply Hi|done|lia|].
  destruct (new_good (program i ≫= line_text)) as [_ H]. lia.
Qed.

(** After a successful load the lines are those of the program. *)
Lemma load_order i0 src i n : load_program i0 src = Ret (i, Ok n) → line_order i = (program i).*1.
Proof.
  unfold load_program. destruct (load_loop _ _ _ _) as [[prog [m|e]]| |]; [|done..]. by intros [= <- <-].
Qed.
