(* ===== verification/BasicRepl.v ===== *)
(** The users of the interpreter (src/basic/mod.rs, src/basic/terminal.rs): the
    interactive loop with its line editor and commands, and the headless runner.
    A BASIC program need not terminate, so the loop that steps it takes fuel; the
    loops that wait for input take fuel for the polls. *)

From stdpp Require Import strings.
From S2P Require Import Prelude BTreeMap Utf8 Tcp BasicLexer BasicParser BasicInterp BasicSafe BasicPrint.
#[local] Open Scope Z_scope.

Inductive ReadStatus : Type := Byte (b : Z) | NoData | Eof.

(** What the REPL needs besides the interpreter's host: [poll] is
    [Terminal::poll_byte], [yield_now] and [sleep_ms] are the scheduler's, [read] is
    [executable::read] with the text of its error, [memstats] is [print_memstats]. *)
Class Terminal (W : Type) := {
  t_poll : W → outcome (W * ReadStatus);
  t_yield_now : W → outcome (W * unit);
  t_sleep_ms : Z → W → outcome (W * unit);
  t_read : list Z → W → outcome (W * result (list Z) (list Z));
  t_memstats : W → outcome (W * unit);
}.

Section repl.
Context {W : Type} `{Host W, Terminal W}.
(** The text of a [ParseError], which prints a token with [{:?}]. *)
Context (error_text : ParseError → list Z).

(** [write!], one [write_str] per piece. *)
Fixpoint write_all (l : list (list Z)) (w : W) : outcome W :=
  match l with
  | [] => Ret w
  | s :: l => '(w, _) ← h_write s w; write_all l w
  end.

(** The loop of [run_headless] and of RUN. *)
Fixpoint run_loop (fuel : nat) (i : Interpreter) (w : W) : outcome (Interpreter * W) :=
  match fuel with
  | O => Diverge
  | S fuel =>
      if negb (running i) then Ret (i, w)
      else
        '(i, w, s) ← step i w;
        match s with
        | Status.Sleeping ms => '(w, _) ← t_sleep_ms ms w; run_loop fuel i w
        | Status.Ready => '(w, _) ← t_yield_now w; run_loop fuel i w
        | Status.Finished | Status.Error _ | Status.WaitingForInput => Ret (i, w)
        end
  end.

Definition report (prefix : list Z) (i : Interpreter) (w : W) : outcome W :=
  match status i with
  | Status.Error e => write_all [prefix; e; [NL]] w
  | _ => Ret w
  end.

Definition run_headless (fuel : nat) (source : list Z) (w : W) : outcome W :=
  '(i, r) ← load_program Interpreter_new source;
  match r with
  | Err e => write_all [chars "BASIC load error: "; error_text e; [NL]] w
  | Ok _ =>
      '(i, w) ← run_loop fuel (run i) w;
      report (chars "BASIC Error: ") i w
  end.

(** [read_line]: echo and editing. *)
Fixpoint read_line (fuel : nat) (line : list Z) (w : W) : outcome (W * option (list Z)) :=
  match fuel with
  | O => Diverge
  | S fuel =>
      '(w, r) ← t_poll w;
      match r with
      | NoData => '(w, _) ← t_yield_now w; read_line fuel line w
      | Eof => Ret (w, None)
      | Byte b =>
          if (b =? CR) || (b =? NL) then '(w, _) ← h_write [NL] w; Ret (w, Some line)
          else if (b =? 8) || (b =? 127) then
            if (length line =? 0)%nat then read_line fuel line w
            else '(w, _) ← h_write [8; 32; 8] w; read_line fuel (take (length line - 1) line) w
          else if (32 <=? b) && (b <? 127) then '(w, _) ← h_write [b] w; read_line fuel (line ++ [b]) w
          else read_line fuel line w
      end
  end.

(** [splitn(2, char::is_whitespace)]: the parts before and after the first blank. *)
Fixpoint split_blank (s : list Z) : list Z * list Z :=
  match s with
  | [] => ([], [])
  | c :: s => if is_whitespace c then ([], s) else let '(a, b) := split_blank s in (c :: a, b)
  end.
(** [stripped.find]: the text before the first quote, if there is one. *)
Fixpoint before_quote (s : list Z) : option (list Z) :=
  match s with
  | [] => None
  | c :: s => if c =? QUOTE then Some [] else cons c <$> before_quote s
  end.
Definition to_ascii_lowercase (s : list Z) : list Z := (λ c, if is_upper c then c + 32 else c) <$> s.
Definition ends_with (s suffix : list Z) : bool := bool_decide (drop (length s - length suffix) s = suffix).

Definition usage : list Z := chars "Usage: LOAD " ++ quoted (chars "name").

(** The file name that a LOAD command names. *)
Definition load_name (input : list Z) : result (list Z) (list Z) :=
  let arg := trim (split_blank (trim input)).2 in
  match arg with
  | [] => Err usage
  | c :: stripped =>
      let name :=
        if c =? QUOTE then match before_quote stripped with
                           | Some s => Ok (trim s)
                           | None => Err (chars "Unterminated string")
                           end
        else Ok (split_blank (trim_start arg)).1 in
      match name with
      | Err e => Err e
      | Ok [] => Err usage
      | Ok name =>
          Ok (if ends_with (to_ascii_lowercase name) (chars ".bas") then name else name ++ chars ".bas")
      end
  end.

Definition load_bas_program (i : Interpreter) (input : list Z) (w : W) :
    outcome (Interpreter * W * result (list Z) (list Z)) :=
  match load_name input with
  | Err e => Ret (i, w, Err e)
  | Ok filename =>
      '(w, r) ← t_read filename w;
      match r with
      | Err e => Ret (i, w, Err e)
      | Ok bytes =>
          match from_utf8 bytes with
          | None => Ret (i, w, Err (chars "File is not valid UTF-8"))
          | Some src =>
              '(i, r) ← load_program (clear i) src;
              Ret (i, w, match r with
                         | Err e => Err (error_text e)
                         | Ok loaded =>
                             if loaded =? 0 then Err (chars "Loaded 0 lines (file has no numbered program lines?)")
                             else Ok filename
                         end)
          end
      end
  end.

(** One round of [run_repl_on_terminal] on the trimmed, non-empty line; [fuel]
    bounds a program that RUN starts. *)
Definition repl_command (fuel : nat) (i : Interpreter) (line : list Z) (w : W) : outcome (Interpreter * W) :=
  match current (new line) with
  | Token.Run =>
      '(i, w) ← run_loop fuel (run i) w;
      w ← report (chars "Error: ") i w;
      Ret (i, w)
  | Token.List =>
      w ← write_all (line_order i ≫= list_pieces i) w;
      Ret (i, w)
  | Token.New =>
      w ← write_all [chars "Program cleared"; [NL]] w;
      Ret (clear i, w)
  | Token.Load =>
      '(i, w, r) ← load_bas_program i line w;
      w ← match r with
          | Ok filename => write_all [chars "Loaded "; filename; [NL]] w
          | Err e => write_all [chars "Error: "; e; [NL]] w
          end;
      Ret (i, w)
  | Token.Memstats => '(w, _) ← t_memstats w; Ret (i, w)
  | _ =>
      match parse_line (new line) with
      | POk (Some (Some num, stmt)) _ => Ret (set_line i num stmt, w)
      | POk (Some (None, stmt)) _ =>
          '(i, w, s) ← execute_immediate i stmt w;
          match s with
          | Status.Sleeping ms => '(w, _) ← t_sleep_ms ms w; Ret (i, w)
          | Status.Error e => w ← write_all [chars "Error: "; e; [NL]] w; Ret (i, w)
          | _ => Ret (i, w)
          end
      | POk None _ => Ret (i, w)
      | PErr e => w ← write_all [chars "Syntax error: "; error_text e; [NL]] w; Ret (i, w)
      | PFuel => Diverge
      end
  end.

(** [rounds] bounds the number of lines entered, [fuel] the polls of one line and
    the steps of one run; the loop returns when the terminal reaches its end. *)
Fixpoint repl_loop (rounds fuel : nat) (i : Interpreter) (w : W) : outcome W :=
  match rounds with
  | O => Diverge
  | S rounds =>
      w ← write_all [chars "> "] w;
      '(w, l) ← read_line fuel [] w;
      match l with
      | None => Ret w
      | Some line =>
          match trim line with
          | [] => repl_loop rounds fuel i w
          | line => '(i, w) ← repl_command fuel i line w; repl_loop rounds fuel i w
          end
      end
  end.

Definition run_repl_on_terminal (rounds fuel : nat) (w : W) : outcome W :=
  w ← write_all [chars "Ralph BASIC v1.0"; [NL];
                 chars "Type RUN to execute, LIST to show program, NEW to clear"; [NL];
                 chars "Type LOAD " ++ quoted (chars "name") ++ chars " to load name.bas"; [NL]; [NL]] w;
  repl_loop rounds fuel Interpreter_new w.
End repl.

(** [memstats_task] runs this program headlessly. *)
Definition memstats_program : list Z :=
  [NL] ++ chars "10 REM Memory monitor - runs in background" ++ [NL]
  ++ chars "20 LET U = MEM(0)" ++ [NL]
  ++ chars "30 LET F = MEM(1)" ++ [NL]
  ++ chars "40 PRINT " ++ quoted (chars "Heap: ") ++ chars "; U; " ++ quoted (chars " used, ")
  ++ chars "; F; " ++ quoted (chars " free") ++ [NL]
  ++ chars "50 SLEEP 10000" ++ [NL]
  ++ chars "60 GOTO 20" ++ [NL].
