(* ===== verification/BasicKernel.v ===== *)
(** The BASIC interpreter on the kernel: the interpreter's interface implemented by
    the TCP stack of [Tcp], and the main theorems about BASIC. *)

From stdpp Require Import strings.
From S2P Require Import Prelude BTreeMap Utf8 NetBase Ipv4 Tcp TcpInv TcpSafe.
From S2P Require Import BasicLexer BasicParser BasicInterp BasicSafe BasicPrint BasicRepl.
#[local] Open Scope Z_scope.

(** The kernel as a BASIC task sees it.  The sockets are those of the TCP stack; the
    environment answers the successive readings of the heap statistics, the
    successive SPAWNs, the polls of the terminal and the requests to the heap, in any way;
    [k_out] is what has been printed. *)
Record Kernel : Type := mkKernel {
  k_tcp : Tcp;
  k_out : list Z;
  k_heap : nat → Z * Z;
  k_spawn : nat → result (list Z) Z;
  k_poll : nat → ReadStatus;
  k_files : list Z → result (list Z) (list Z);
  k_room : nat → Z → bool;
  k_calls : nat;
}.
Definition set_tcp (k : Kernel) (t : Tcp) : Kernel :=
  mkKernel t (k_out k) (k_heap k) (k_spawn k) (k_poll k) (k_files k) (k_room k) (k_calls k).
Definition set_out (k : Kernel) (s : list Z) : Kernel :=
  mkKernel (k_tcp k) s (k_heap k) (k_spawn k) (k_poll k) (k_files k) (k_room k) (k_calls k).
Definition set_calls (k : Kernel) (n : nat) : Kernel :=
  mkKernel (k_tcp k) (k_out k) (k_heap k) (k_spawn k) (k_poll k) (k_files k) (k_room k) n.

Definition on_tcp {A} (m : tcpM A) (k : Kernel) : outcome (Kernel * A) :=
  '(t, a) ← m (k_tcp k); Ret (set_tcp k t, a).
Definition ask {A} (f : nat → A) (k : Kernel) : outcome (Kernel * A) := Ret (set_calls k (S (k_calls k)), f (k_calls k)).

#[export] Instance kernel_host : Host Kernel := {|
  h_write s k := Ret (set_out k (k_out k ++ s), ());
  h_socket := on_tcp socket;
  h_listen s p := on_tcp (listen s p);
  h_accept s := on_tcp (accept s);
  h_recv s n := on_tcp (Tcp.recv s n);
  h_send s d := on_tcp (send s d);
  h_close s := on_tcp (close s);
  h_get_state s := on_tcp (get_state s);
  h_heap_stats k := ask (k_heap k) k;
  h_spawn _ _ k := ask (k_spawn k) k;
  h_alloc n k := ask (λ c, k_room k c n) k;
|}.

#[export] Instance kernel_terminal : Terminal Kernel := {|
  t_poll k := ask (k_poll k) k;
  t_yield_now k := Ret (k, ());
  t_sleep_ms _ k := Ret (k, ());
  t_read f k := Ret (k, k_files k f);
  t_memstats k := Ret (k, ());
|}.

Definition kernel_inv (k : Kernel) : Prop := tcp_inv (k_tcp k).

Lemma on_tcp_ok {A} (m : tcpM A) k Q :
  tsafe m (k_tcp k) Q → kernel_inv k → ∃ k' r, on_tcp m k = Ret (k', r) ∧ kernel_inv k'.
Proof. intros Hm Hk. destruct (Hm Hk) as (t & a & E & Ht & _). unfold on_tcp. rewrite E. by eexists _, a. Qed.

#[export] Instance kernel_laws : HostLaws Kernel kernel_inv.
Proof.
  split; cbn; intros.
  - by eexists.
  - by eapply on_tcp_ok; [apply tsafe_socket|].
  - by eapply on_tcp_ok; [apply tsafe_listen|].
  - by eapply on_tcp_ok; [apply tsafe_accept|].
  - by eapply on_tcp_ok; [apply tsafe_recv|].
  - by eapply on_tcp_ok; [apply tsafe_send|].
  - destruct (on_tcp_ok (close s) w _ (tsafe_close s _) ltac:(assumption)) as (k' & [] & ? & ?). by exists k'.
  - eapply (on_tcp_ok _ _ (λ _ _, True)); [|done]. apply tsafe_with_socket; [done|]. intros c _ _ _. by apply tsafe_ret.
  - by eexists _, _.
  - by eexists _, _.
  - by eexists _, _.
Qed.

Definition demo_kernel : Kernel :=
  mkKernel (Tcp_initial (gateway_net 1)) [] (λ _, (0, 0)) (λ _, Err (chars "NotFound")) (λ _, Eof)
    (λ _, Err (chars "NotFound")) (λ _ _, true) 0.
Lemma demo_kernel_inv : kernel_inv demo_kernel.
Proof. apply Tcp_initial_inv, gateway_net_inv. lia. Qed.

(** ** A counting loop, from its text to its output *)

(** The kernel has printed [s] more, and the heap still satisfies every request. *)
Definition printed (k : Kernel) (s : list Z) (k' : Kernel) : Prop :=
  k_out k' = k_out k ++ s ∧ k_room k' = k_room k.
Definition roomy (k : Kernel) : Prop := ∀ c n, k_room k c n = true.
Lemma printed_roomy k s k' : printed k s k' → roomy k → roomy k'.
Proof. intros [_ Hr] Hk c n. by rewrite Hr. Qed.

(** With room, a request changes nothing but the count of requests. *)
Lemma alloc_ok e (k : Kernel) n : roomy k → ∃ c, alloc n e k = Ret (e, set_calls k c, Ok ()).
Proof.
  intros Hk. unfold alloc. destruct (n =? 0); [exists (k_calls k); by destruct k|].
  exists (S (k_calls k)). unfold mbind, basicM_bind, host. cbn. by rewrite Hk.
Qed.
Lemma insert_ok e (k : Kernel) x v : roomy k → ∃ c, insert_variable x v e k = Ret (set_variable e x v, set_calls k c, Ok ()).
Proof.
  intros Hk. destruct (alloc_ok e k (str_size x) Hk) as [c E]. exists c.
  unfold insert_variable, mbind, basicM_bind, get_env, put_env. by rewrite E.
Qed.

Section counting.
Context (n : Z) (Hn : 1 ≤ n < 9223372036854775807).

Definition I_ : list Z := chars "I".
Definition count_prog : btree Statement :=
  [(10, Statement.For I_ (Expr.Integer 1) (Expr.Integer n) (Expr.Integer 1));
   (20, Statement.Print [Expr.Variable_ I_]);
   (30, Statement.Next I_)].
(** In the body of the loop, before the print of [x]. *)
Definition counting (x : Z) : Interpreter :=
  mkInterpreter count_prog [10; 20; 30] (Some 1%nat)
    (mkEnv {[I_ := Value.Integer x]} [mkForState I_ n 1 20] []) Status.Ready true.
Lemma step_at (i : Interpreter) (k k' : Kernel) idx l stmt e a :
  running i = true → current_idx i = Some idx → line_order i !! idx = Some l → bt_get (program i) l = Some stmt →
  execute_statement (line_order i) stmt l idx (env i) k = Ret (e, k', Ok a) →
  step i k = Ret (after_action (set_env i e) idx (Ok a), k', status (after_action (set_env i e) idx (Ok a))).
Proof. intros Hr Hi Hl Hs He. unfold step. rewrite Hr, Hi, Hl, Hs, He. done. Qed.

Lemma exec_print_var lines l idx e (k : Kernel) x : variables e !! I_ = Some (Value.Integer x) →
  ∃ k', execute_statement lines (Statement.Print [Expr.Variable_ I_]) l idx e k = Ret (e, k', Ok Continue) ∧
    printed k (dec x ++ [NL]) k'.
Proof.
  intros Hx. cbn [execute_statement print_exprs eval_expr]. unfold mbind, basicM_bind, get_env. rewrite Hx.
  eexists. split; [cbn -[dec]; reflexivity|]. split; [|done]. cbn -[dec]. by rewrite <- app_assoc.
Qed.

Lemma exec_next_var lines l idx e (k : Kernel) x f : roomy k → variables e !! I_ = Some (Value.Integer x) →
  for_stack e = [f] → fs_var f = I_ → fs_step f = 1 → 1 ≤ x ≤ end_value f → end_value f < 9223372036854775807 →
  ∃ k', printed k [] k' ∧ execute_statement lines (Statement.Next I_) l idx e k =
  if x <? end_value f then Ret (set_variable e I_ (Value.Integer (x + 1)), k', Ok (Jump (body_line f)))
  else Ret (set_for_stack e [], k', Ok Continue).
Proof.
  intros Hk Hx Hf Hv Hs Hr Hm. cbn [execute_statement]. unfold exec_next, mbind, basicM_bind, get_env. rewrite Hf.
  cbn [rposition]. rewrite bool_decide_true by done. cbn [lookup list_lookup]. rewrite Hx, Hs.
  destruct (alloc_ok e k (str_size (fs_var f)) Hk) as [c ->].
  cbn [mbind option_bind as_integer ok_or]. unfold mret, basicM_ret. rewrite i64_small by lia.
  destruct (Z.ltb_spec x (end_value f)) as [Hlt|Hge].
  - rewrite (proj2 (Z.leb_le (x + 1) _)) by lia. cbn [Z.ltb Z.compare].
    destruct (insert_ok e (set_calls k c) I_ (Value.Integer (x + 1)) Hk) as [c' ->].
    eexists. split; [|reflexivity]. split; [|done]. cbn. by rewrite app_nil_r.
  - rewrite (proj2 (Z.leb_gt (x + 1) _)) by lia. eexists. split; [|reflexivity]. split; [|done]. cbn. by rewrite app_nil_r.
Qed.

Lemma step_print x k :
  ∃ k', step (counting x) k =
    Ret (set_status (set_current (counting x) (Some 2%nat)) Status.Ready, k', Status.Ready) ∧
  printed k (dec x ++ [NL]) k'.
Proof.
  destruct (exec_print_var [10; 20; 30] 20 1 (env (counting x)) k x (lookup_singleton_eq _ _)) as (k' & E & Hk').
  exists k'. split; [|done]. by erewrite step_at; [|done..|exact E].
Qed.

Definition count_done (x : Z) : Interpreter :=
  mkInterpreter count_prog [10; 20; 30] (Some 3%nat) (mkEnv {[I_ := Value.Integer x]} [] []) Status.Finished false.

Lemma step_next x k : 1 ≤ x ≤ n → roomy k →
  ∃ k', printed k [] k' ∧ step (set_status (set_current (counting x) (Some 2%nat)) Status.Ready) k =
  if x <? n then Ret (counting (x + 1), k', Status.Ready) else Ret (count_done x, k', Status.Finished).
Proof.
  intros Hx Hk.
  destruct (exec_next_var [10; 20; 30] 30 2 (env (counting x)) k x (mkForState I_ n 1 20) Hk) as (k' & Hk' & E);
    [apply lookup_singleton_eq|done|done|done|done|cbn; lia|].
  exists k'. split; [done|]. cbn [end_value] in E. destruct (x <? n).
  - erewrite step_at; [|done..|exact E].
    assert (set_variable (env (counting x)) I_ (Value.Integer (x + 1)) = env (counting (x + 1))) as ->; [|done].
    unfold set_variable. change (variables _) with ({[I_ := Value.Integer x]} : gmap (list Z) Value).
    by rewrite insert_singleton_eq.
  - by erewrite step_at; [|done..|exact E].
Qed.

(** Printing [x], [x + 1], ... up to [n]: the remaining runs of the loop. *)
Fixpoint count_out (x : Z) (runs : nat) : list Z :=
  match runs with
  | O => []
  | S runs => dec x ++ [NL] ++ count_out (x + 1) runs
  end.

Lemma run_counting runs x k fuel : 1 ≤ x → x + Z.of_nat runs = n → (2 * runs + 2 ≤ fuel)%nat → roomy k →
  ∃ i k', run_loop fuel (counting x) k = Ret (i, k') ∧ status i = Status.Finished ∧ printed k (count_out x (S runs)) k'.
Proof.
  revert x k fuel. induction runs as [|runs IH]; intros x k fuel Hx Hr Hf Hk;
    (destruct fuel as [|[|fuel]]; [lia..|]);
    destruct (step_print x k) as (k1 & E1 & Hk1);
    (destruct (step_next x k1) as (k2 & Hk2 & E2); [lia|by eapply printed_roomy|]);
    cbn [run_loop]; change (running (counting x)) with true; cbn [negb]; rewrite E1; cbn [mbind outcome_bind];
    cbn [t_yield_now kernel_terminal]; cbn [mbind outcome_bind]; cbn [running set_status set_current counting negb];
    fold (counting x); rewrite E2; destruct Hk1 as [Ho1 Hr1], Hk2 as [Ho2 Hr2].
  - rewrite (proj2 (Z.ltb_ge x n)) by lia. cbn [mbind outcome_bind]. eexists _, k2. split; [reflexivity|]. split; [done|].
    split; [|congruence]. rewrite Ho2, Ho1. cbn [count_out]. by rewrite !app_nil_r.
  - rewrite (proj2 (Z.ltb_lt x n)) by lia. cbn [mbind outcome_bind t_yield_now kernel_terminal].
    destruct (IH (x + 1) k2 fuel) as (i & k3 & -> & Hi & Ho3 & Hr3); [lia..|intros c m; rewrite Hr2, Hr1; apply Hk|].
    exists i, k3. split; [done|]. split; [done|]. split; [|congruence].
    rewrite Ho3, Ho2, Ho1. cbn [count_out]. by rewrite !app_nil_r, <- !app_assoc.
Qed.

Definition count_source : list Z :=
  chars "10 FOR I = 1 TO " ++ dec n ++ chars " STEP 1" ++ [NL]
  ++ chars "20 PRINT I" ++ [NL] ++ chars "30 NEXT I" ++ [NL].

Lemma count_source_text : count_source = count_prog ≫= line_text.
Proof.
  unfold count_prog, count_source. rewrite !bind_cons. unfold line_text. cbn [fst snd format_statement format_expr].
  rewrite <- !app_assoc. reflexivity.
Qed.

Lemma I_ok : ident_ok I_.
Proof. split_and!; [by eexists _, _|by repeat constructor|done]. Qed.

Lemma load_counting : load_program Interpreter_new count_source =
  Ret (rebuild_line_order (set_program Interpreter_new count_prog), Ok 3).
Proof.
  rewrite count_source_text. unfold load_program. rewrite (load_lines count_prog []); [done|..].
  - repeat constructor; cbn; lia.
  - pose proof I_ok. assert (int_ok 1 ∧ int_ok n) as [? ?] by (unfold int_ok; lia).
    do 3 (apply Forall_cons; split; [split; [unfold line_ok; cbn; lia|cbn; by auto]|]). constructor.
  - repeat constructor.
  - lia.
  - pose proof (new_good (count_prog ≫= line_text)) as [_ H]. lia.
Qed.

Lemma step_for k : roomy k → ∃ k', printed k [] k' ∧
  step (run (rebuild_line_order (set_program Interpreter_new count_prog))) k = Ret (counting 1, k', Status.Ready).
Proof.
  intros Hk. pose (e := mkEnv ∅ [] []).
  destruct (insert_ok e k I_ (Value.Integer 1) Hk) as [c1 E1].
  destruct (alloc_ok (set_variable e I_ (Value.Integer 1)) (set_calls k c1) (48 + str_size I_) Hk) as [c2 E2].
  exists (set_calls (set_calls k c1) c2). split; [split; [cbn; by rewrite app_nil_r|done]|].
  assert (execute_statement [10; 20; 30] (Statement.For I_ (Expr.Integer 1) (Expr.Integer n) (Expr.Integer 1)) 10 0 e k =
    Ret (env (counting 1), set_calls (set_calls k c1) c2, Ok Continue)) as E.
  { change (execute_statement _ _ _ _ e k) with
      ((_ ← insert_variable I_ (Value.Integer 1);
        _ ← alloc (48 + str_size I_);
        e ← get_env;
        _ ← put_env (set_for_stack e (for_stack e ++ [mkForState I_ n 1 20]));
        mret Continue) e k).
    unfold mbind, basicM_bind. rewrite E1. cbv beta iota. rewrite E2. reflexivity. }
  by erewrite step_at; [|done..|exact E].
Qed.

Lemma run_counting_program error_text k fuel : (2 * Z.to_nat n + 1 ≤ fuel)%nat → roomy k →
  ∃ k', run_headless error_text fuel count_source k = Ret k' ∧ k_out k' = k_out k ++ count_out 1 (Z.to_nat n).
Proof.
  intros Hf Hk. unfold run_headless. rewrite load_counting. cbn [mbind outcome_bind].
  destruct fuel as [|fuel]; [lia|]. cbn [run_loop].
  change (running (run (rebuild_line_order (set_program Interpreter_new count_prog)))) with true. cbn [negb].
  destruct (step_for k Hk) as (k1 & Hk1 & ->). cbn [mbind outcome_bind t_yield_now kernel_terminal].
  destruct (run_counting (Z.to_nat (n - 1)) 1 k1 fuel) as (i & k2 & -> & Hi & Ho2 & _); [lia..|by eapply printed_roomy|].
  exists k2. cbn [mbind outcome_bind]. unfold report. rewrite Hi. split; [done|]. destruct Hk1 as [Ho1 _].
  rewrite Ho2, Ho1, app_nil_r. by replace (S (Z.to_nat (n - 1))) with (Z.to_nat n) by lia.
Qed.
End counting.

(** ** Main theorems *)

(** C10: loading a source text always returns: the parser reads every input to its end
    or to a syntax error, without exhausting its fuel, and the interpreter that
    results is consistent (its lines are sorted and all in the program, and every
    statement is one the parser can produce). *)
Theorem load_program_total i src : interp_ok i →
  ∃ i' r, load_program i src = Ret (i', r) ∧ interp_ok i' ∧
    (∀ n, r = Ok n → line_order i' = (program i').*1) ∧
    (∀ e, r = Err e → line_order i' = line_order i).
Proof.
  intros Hi. destruct (load_program_ok i src Hi) as (i' & r & E & Hi'). exists i', r. split_and!; [done|done| |].
  - intros n ->. by eapply load_order.
  - intros e ->. unfold load_program in E. destruct (load_loop _ _ _ _) as [[prog [m|e']]| |]; [done| |done..].
    by injection E as <- <-.
Qed.

(** C9: the text that LIST prints for a loaded program loads back to the same program,
    if no statement is a REM and no expression needs parentheses. *)
Theorem list_load_roundtrip src i n :
  load_program Interpreter_new src = Ret (i, Ok n) → Forall (λ p, stmt_canon p.2 = true) (program i) →
  ∃ i' m, load_program Interpreter_new (listing i) = Ret (i', Ok m) ∧
    program i' = program i ∧ line_order i' = line_order i.
Proof.
  intros E Hc. pose proof (load_order _ _ _ _ E) as Ho.
  destruct (load_program_ok Interpreter_new src) as (i2 & r2 & E2 & Hi).
  { split; [constructor..|apply empty_env_ok]. }
  rewrite E in E2. injection E2 as <- <-. eexists _, _. split; [by apply list_load_ok|]. by rewrite Ho.
Qed.


(** The program that counts from 1 to [n], run from its text, prints exactly the
    numbers 1 to [n] and ends, in two statements per number, for every [n] below the
    largest integer, if the heap satisfies the requests. *)
Lemma counting_program_spec n error_text k fuel :
  1 ≤ n < 9223372036854775807 → (2 * Z.to_nat n + 1 ≤ fuel)%nat → roomy k →
  ∃ k', run_headless error_text fuel (count_source n) k = Ret k' ∧ k_out k' = k_out k ++ count_out 1 (Z.to_nat n).
Proof. intros Hn Hf Hk. by apply run_counting_program. Qed.

Lemma load_program_total_witness :
  ∃ i r, load_program Interpreter_new (chars "10 PRINT") = Ret (i, r).
Proof.
  destruct (load_program_total Interpreter_new (chars "10 PRINT")) as (i & r & E & _).
  - split; [constructor..|apply empty_env_ok].
  - by exists i, r.
Defined.

Definition demo_source : list Z := chars "20 LET A = 1 + 2 * X(3)" ++ [NL] ++ chars "10 DIM X(5)".
Lemma list_load_roundtrip_witness :
  ∃ i i' m, load_program Interpreter_new (listing i) = Ret (i', Ok m) ∧ program i' = program i ∧ length (program i) = 2%nat.
Proof.
  destruct (load_program Interpreter_new demo_source) as [[i [n|e]]| |] eqn:E; [|vm_compute in E; discriminate E..].
  destruct (list_load_roundtrip demo_source i n E) as (i' & m & H & Hp & _).
  - vm_compute in E. injection E as <- <-. repeat constructor.
  - exists i, i', m. split; [exact H|]. split; [exact Hp|]. vm_compute in E. injection E as <- <-. reflexivity.
Defined.


(** ** Limits of the interpreter *)

(** A REM without text swallows the line after it. *)
Lemma rem_swallows_line :
  ∃ i, load_program Interpreter_new (chars "10 REM" ++ [NL] ++ chars "20 PRINT 1" ++ [NL] ++ chars "30 END") = Ret (i, Ok 2) ∧
  line_order i = [10; 30].
Proof. eexists. split; [vm_compute; reflexivity|]. vm_compute. reflexivity. Qed.

(** LIST drops the parentheses: the listing of this line is another expression. *)
Lemma list_drops_parentheses :
  ∃ i, load_program Interpreter_new (chars "10 PRINT (1 + 2) * 3") = Ret (i, Ok 1) ∧
  listing i = chars "10 PRINT 1 + 2 * 3" ++ [NL].
Proof. eexists. split; [vm_compute; reflexivity|]. vm_compute. reflexivity. Qed.

(** The statement of a text, executed at once in a fresh interpreter. *)
Definition immediate (s : list Z) : option (outcome (Interpreter * Kernel * ExecutionStatus)) :=
  match parse_line (new s) with
  | POk (Some (None, stmt)) _ => Some (execute_immediate Interpreter_new stmt demo_kernel)
  | _ => None
  end.

(** Dividing the smallest integer by -1 panics the kernel. *)
Lemma division_panics : immediate (chars "PRINT (0-9223372036854775807-1)/(0-1)") = Some Panic.
Proof. vm_compute. reflexivity. Qed.

(** DIM with a negative size asks for an array of almost 2^64 elements and panics. *)
Lemma dim_panics : immediate (chars "DIM A(0-5)") = Some Panic.
Proof. vm_compute. reflexivity. Qed.

(** A program can exhaust the heap: a line that doubles a string asks for ever more, and
    the request that is refused panics the kernel. *)
Definition small_heap : Kernel :=
  mkKernel (Tcp_initial (gateway_net 1)) [] (λ _, (0, 0)) (λ _, Err (chars "NotFound")) (λ _, Eof)
    (λ _, Err (chars "NotFound")) (λ _ n, n <=? 100) 0.
Lemma doubling_exhausts_heap :
  run_headless (λ _, []) 100 (chars "10 LET A$ = " ++ [QUOTE] ++ chars "X" ++ [QUOTE; NL] ++ chars "20 LET A$ = A$ + A$" ++ [NL]
    ++ chars "30 GOTO 20") small_heap = Panic.
Proof. vm_compute. reflexivity. Qed.

(** A loop up to the largest integer never ends: the counter wraps around. *)
Lemma for_wraps lines l idx e (k : Kernel) :
  roomy k → variables e !! I_ = Some (Value.Integer 9223372036854775807) →
  for_stack e = [mkForState I_ 9223372036854775807 1 l] →
  ∃ k', execute_statement lines (Statement.Next I_) l idx e k =
    Ret (set_variable e I_ (Value.Integer (-9223372036854775808)), k', Ok (Jump l)).
Proof.
  intros Hk Hx Hf. cbn [execute_statement]. unfold exec_next, mbind, basicM_bind, get_env. rewrite Hf.
  cbn [rposition]. rewrite bool_decide_true by done. cbn [lookup list_lookup]. rewrite Hx.
  destruct (alloc_ok e k (str_size (fs_var (mkForState I_ 9223372036854775807 1 l))) Hk) as [c ->].
  destruct (insert_ok e (set_calls k c) I_ (Value.Integer (-9223372036854775808)) Hk) as [c' E].
  cbn [mbind option_bind as_integer ok_or fs_step end_value body_line]. unfold mret, basicM_ret.
  change (i64 (9223372036854775807 + 1)) with (-9223372036854775808).
  change (if 0 <? 1 then _ else _) with true. cbv beta iota. rewrite E. by eexists.
Qed.
