(* ===== verification/Telnet.v ===== *)
(** The telnet server (src/telnet.rs): the terminal that carries a BASIC session over
    a TCP connection.  Output is escaped and buffered, input goes through the
    protocol's state machine; both are specified independently of how TCP splits
    the byte stream. *)

From stdpp Require Import strings.
From S2P Require Import Prelude NetBase Utf8 BasicLexer BasicParser BasicInterp BasicRepl.
#[local] Open Scope Z_scope.

Definition TELNET_PORT : Z := 23.
Definition IAC : Z := 255.
Definition DONT : Z := 254.
Definition DO : Z := 253.
Definition WONT : Z := 252.
Definition WILL : Z := 251.
Definition SB : Z := 250.
Definition SE : Z := 240.
Definition OPT_ECHO : Z := 1.
Definition OPT_SUPPRESS_GO_AHEAD : Z := 3.
Definition OPT_LINEMODE : Z := 34.

Inductive RxState : Type :=
  | RxData
  | RxIac
  | RxIacCommand (cmd : Z)
  | RxSubnegotiation
  | RxSubnegotiationIac.

Record TelnetTerminal : Type := mkTelnet {
  rx_buf : list Z;
  rx_pos : nat;
  rx_len : nat;
  rx_state : RxState;
  swallow_lf : bool;
  closed : bool;
}.
Definition TelnetTerminal_new : TelnetTerminal := mkTelnet (replicate 128 0) 0 0 RxData false false.
Definition set_closed (t : TelnetTerminal) : TelnetTerminal :=
  mkTelnet (rx_buf t) (rx_pos t) (rx_len t) (rx_state t) (swallow_lf t) true.
Definition set_rx (t : TelnetTerminal) (s : RxState) (lf : bool) : TelnetTerminal :=
  mkTelnet (rx_buf t) (rx_pos t) (rx_len t) s lf (closed t).
Definition set_pos (t : TelnetTerminal) (p : nat) : TelnetTerminal :=
  mkTelnet (rx_buf t) p (rx_len t) (rx_state t) (swallow_lf t) (closed t).
Definition set_buf (t : TelnetTerminal) (b : list Z) (n : nat) : TelnetTerminal :=
  mkTelnet b 0 n (rx_state t) (swallow_lf t) (closed t).

(** The session's socket: [tcp::send], [tcp::recv] (the result and the bytes stored)
    and [scheduler::yield_now]. *)
Class Socket (W : Type) := {
  s_send : list Z → W → outcome (W * Z);
  s_recv : nat → W → outcome (W * (Z * list Z));
  s_yield : W → outcome W;
}.

Section telnet.
Context {W : Type} `{Socket W}.

(** [send_bytes]; [fuel] bounds the attempts. *)
Fixpoint send_bytes (fuel : nat) (bs : list Z) (t : TelnetTerminal) (w : W) :
    outcome (TelnetTerminal * W * bool) :=
  match bs with
  | [] => Ret (t, w, true)
  | _ =>
      match fuel with
      | O => Diverge
      | S fuel =>
          '(w, n) ← s_send bs w;
          if n <? 0 then Ret (set_closed t, w, false)
          else if n =? 0 then w ← s_yield w; send_bytes fuel bs t w
          else send_bytes fuel (drop (Z.to_nat n) bs) t w
      end
  end.

Definition negotiate (fuel : nat) (t : TelnetTerminal) (w : W) : outcome (TelnetTerminal * W) :=
  '(t, w, _) ← send_bytes fuel [IAC; WILL; OPT_ECHO] t w;
  '(t, w, _) ← send_bytes fuel [IAC; WILL; OPT_SUPPRESS_GO_AHEAD] t w;
  '(t, w, _) ← send_bytes fuel [IAC; DO; OPT_SUPPRESS_GO_AHEAD] t w;
  '(t, w, _) ← send_bytes fuel [IAC; WONT; OPT_LINEMODE] t w;
  Ret (t, w).

Definition reply_for (cmd opt : Z) : option (Z * Z) :=
  if (cmd =? DO) && (opt =? OPT_ECHO) then Some (WILL, OPT_ECHO)
  else if (cmd =? DO) && (opt =? OPT_SUPPRESS_GO_AHEAD) then Some (WILL, OPT_SUPPRESS_GO_AHEAD)
  else if (cmd =? WILL) && (opt =? OPT_SUPPRESS_GO_AHEAD) then Some (DO, OPT_SUPPRESS_GO_AHEAD)
  else if cmd =? DO then Some (WONT, opt)
  else if cmd =? DONT then Some (WONT, opt)
  else if cmd =? WILL then Some (DONT, opt)
  else if cmd =? WONT then Some (DONT, opt)
  else None.
Definition reply_to_command (fuel : nat) (cmd opt : Z) (t : TelnetTerminal) (w : W) : outcome (TelnetTerminal * W) :=
  match reply_for cmd opt with
  | None => Ret (t, w)
  | Some (c, o) => '(t, w, _) ← send_bytes fuel [IAC; c; o] t w; Ret (t, w)
  end.

(** The bytes that [write_str] emits for one byte of the text. *)
Definition escape (b : Z) : list Z :=
  if b =? 10 then [13; 10] else if b =? 13 then [13; 0] else if b =? IAC then [IAC; IAC] else [b].

(** The loop of [write_str] over the bytes, with the output buffer of 256 bytes. *)
Fixpoint write_loop (fuel : nat) (bs out : list Z) (t : TelnetTerminal) (w : W) :
    outcome (TelnetTerminal * W * bool) :=
  match bs with
  | [] => match out with [] => Ret (t, w, true) | _ => send_bytes fuel out t w end
  | b :: bs =>
      if (256 <? length out + length (escape b))%nat then
        '(t, w, ok) ← send_bytes fuel out t w;
        if ok : bool then write_loop fuel bs (escape b) t w else Ret (t, w, false)
      else write_loop fuel bs (out ++ escape b) t w
  end.
Definition write_str (fuel : nat) (s : list Z) (t : TelnetTerminal) (w : W) : outcome (TelnetTerminal * W * bool) :=
  if closed t then Ret (t, w, false) else write_loop fuel (as_bytes s) [] t w.

(** One iteration of [poll_byte] on a byte: the byte it returns, if any. *)
Definition on_byte (fuel : nat) (b : Z) (t : TelnetTerminal) (w : W) : outcome (TelnetTerminal * W * option Z) :=
  if swallow_lf t && (b =? 10) then Ret (set_rx t (rx_state t) false, w, None)
  else
    let t := set_rx t (rx_state t) false in
    match rx_state t with
    | RxData =>
        if b =? IAC then Ret (set_rx t RxIac false, w, None)
        else if b =? 13 then Ret (set_rx t RxData true, w, Some 10)
        else Ret (t, w, Some b)
    | RxIac =>
        if b =? IAC then Ret (set_rx t RxData false, w, Some IAC)
        else if (b =? DO) || (b =? DONT) || (b =? WILL) || (b =? WONT) then
          Ret (set_rx t (RxIacCommand b) false, w, None)
        else if b =? SB then Ret (set_rx t RxSubnegotiation false, w, None)
        else Ret (set_rx t RxData false, w, None)
    | RxIacCommand cmd =>
        '(t, w) ← reply_to_command fuel cmd b t w;
        Ret (set_rx t RxData false, w, None)
    | RxSubnegotiation =>
        Ret (set_rx t (if b =? IAC then RxSubnegotiationIac else RxSubnegotiation) false, w, None)
    | RxSubnegotiationIac =>
        Ret (set_rx t (if b =? SE then RxData else if b =? IAC then RxSubnegotiationIac else RxSubnegotiation) false,
             w, None)
    end.

(** The loop of [poll_byte]; [fuel] bounds its iterations and those of a reply. *)
Fixpoint poll_loop (fuel : nat) (t : TelnetTerminal) (w : W) : outcome (TelnetTerminal * W * ReadStatus) :=
  match fuel with
  | O => Diverge
  | S fuel =>
      if (rx_len t <=? rx_pos t)%nat then
        '(w, (n, bs)) ← s_recv (length (rx_buf t)) w;
        let t := set_buf t (blit (rx_buf t) 0 bs) 0 in
        if n <? 0 then Ret (set_closed t, w, Eof)
        else if n =? 0 then Ret (t, w, NoData)
        else poll_loop fuel (set_buf t (rx_buf t) (Z.to_nat n)) w
      else
        match rx_buf t !! rx_pos t with
        | None => Panic
        | Some b =>
            '(t, w, r) ← on_byte fuel b (set_pos t (S (rx_pos t))) w;
            match r with
            | Some b => Ret (t, w, Byte b)
            | None => poll_loop fuel t w
            end
        end
  end.
Definition poll_byte (fuel : nat) (t : TelnetTerminal) (w : W) : outcome (TelnetTerminal * W * ReadStatus) :=
  if closed t then Ret (t, w, Eof) else poll_loop fuel t w.
End telnet.

(** ** Sessions *)

Section session.
Context {W : Type} `{Host W, Terminal W} (error_text : ParseError → list Z).

(** The socket [sock] of the kernel. *)
Definition host_socket (sock : nat) : Socket W := {|
  s_send := h_send sock;
  s_recv := h_recv sock;
  s_yield w := '(w, _) ← t_yield_now w; Ret w;
|}.

Definition lift_host {A} (f : W → outcome (W * A)) (s : TelnetTerminal * W) : outcome (TelnetTerminal * W * A) :=
  '(w, a) ← f s.2; Ret (s.1, w, a).

(** A BASIC session whose terminal is the connection: [fmt::Write] and [Terminal]
    of [TelnetTerminal]; [fuel] bounds the attempts of one write or poll. *)
Definition telnet_host (fuel sock : nat) : Host (TelnetTerminal * W) := {|
  h_write s '(t, w) := '(t, w, _) ← write_str (H := host_socket sock) fuel s t w; Ret (t, w, ());
  h_socket := lift_host h_socket;
  h_listen s p := lift_host (h_listen s p);
  h_accept s := lift_host (h_accept s);
  h_recv s n := lift_host (h_recv s n);
  h_send s d := lift_host (h_send s d);
  h_close s := lift_host (h_close s);
  h_get_state s := lift_host (h_get_state s);
  h_heap_stats := lift_host h_heap_stats;
  h_spawn n a := lift_host (h_spawn n a);
  h_alloc n := lift_host (h_alloc n);
|}.
Definition telnet_terminal (fuel sock : nat) : Terminal (TelnetTerminal * W) := {|
  t_poll '(t, w) := poll_byte (H := host_socket sock) fuel t w;
  t_yield_now := lift_host t_yield_now;
  t_sleep_ms ms := lift_host (t_sleep_ms ms);
  t_read f := lift_host (t_read f);
  t_memstats := lift_host t_memstats;
|}.

(** [telnet_session_task], without its messages on the console. *)
Definition telnet_session_task (rounds fuel sock : nat) (w : W) : outcome W :=
  '(t, w) ← negotiate (H := host_socket sock) fuel TelnetTerminal_new w;
  '(_, w) ← run_repl_on_terminal (H := telnet_host fuel sock) (H0 := telnet_terminal fuel sock)
              error_text rounds fuel (t, w);
  '(w, _) ← h_close sock w;
  Ret w.

(** [telnetd_task]: the listener, and one round of its loop; [spawn] is
    [scheduler::spawn_with_arg] for a session. *)
Definition telnetd_start (w : W) : outcome (W * option nat) :=
  '(w, s) ← h_socket w;
  match s with
  | None => Ret (w, None)
  | Some listener =>
      '(w, ok) ← h_listen listener TELNET_PORT w;
      Ret (w, if ok : bool then Some listener else None)
  end.
Definition telnetd_round (spawn : nat → W → outcome (W * option Z)) (listener : nat) (w : W) : outcome W :=
  '(w, s) ← h_accept listener w;
  match s with
  | Some sock =>
      '(w, id) ← spawn sock w;
      match id with
      | Some _ => Ret w
      | None => '(w, _) ← h_close sock w; Ret w
      end
  | None => '(w, _) ← t_sleep_ms 25 w; Ret w
  end.
End session.

(** ** The other end of the connection *)

(** [grants] answers the successive attempts to send (negative: the connection is
    gone; otherwise the room in the send buffer), [chunks] are the pieces in which
    the input arrives ([None]: the connection is gone), [wire] is what was sent. *)
Record Peer : Type := mkPeer { grants : nat → Z; tries : nat; chunks : list (option (list Z)); wire : list Z }.

#[export] Instance peer_socket : Socket Peer := {|
  s_send bs w :=
    let g := grants w (tries w) in
    let n := Nat.min (Z.to_nat g) (length bs) in
    Ret (if g <? 0 then (mkPeer (grants w) (S (tries w)) (chunks w) (wire w), -1)
         else (mkPeer (grants w) (S (tries w)) (chunks w) (wire w ++ take n bs), Z.of_nat n));
  s_recv k w :=
    Ret (match chunks w with
         | [] => (w, (0, []))
         | None :: _ => (w, (-1, []))
         | Some c :: cs =>
             let rest := if (length c <=? k)%nat then cs else Some (drop k c) :: cs in
             (mkPeer (grants w) (tries w) rest (wire w), (Z.of_nat (length (take k c)), take k c))
         end);
  s_yield w := Ret w;
|}.

(** [w'] is [w] after the bytes [bs] were sent. *)
Definition sent_to (w w' : Peer) (bs : list Z) : Prop :=
  grants w' = grants w ∧ chunks w' = chunks w ∧ wire w' = wire w ++ bs.

Lemma sent_to_trans w w1 w2 a b : sent_to w w1 a → sent_to w1 w2 b → sent_to w w2 (a ++ b).
Proof. intros (?&?&E1) (?&?&E2). unfold sent_to. rewrite E2, E1, <- app_assoc. split_and!; congruence. Qed.
Lemma sent_to_refl w : sent_to w w [].
Proof. unfold sent_to. by rewrite app_nil_r. Qed.

Lemma send_bytes_ok fuel bs t (w : Peer) :
  match send_bytes fuel bs t w with
  | Ret (t', w', true) => t' = t ∧ sent_to w w' bs
  | Ret (t', w', false) => t' = set_closed t ∧ ∃ k, sent_to w w' (take k bs)
  | Panic => False
  | Diverge => True
  end.
Proof.
  revert bs w. induction fuel as [|fuel IH]; intros bs w; (destruct bs as [|b0 bs0]; [cbn|]); [|done| |].
  1, 2: split; [done|apply sent_to_refl].
  set (bs := b0 :: bs0) in *. cbn [send_bytes]. change (match bs with [] => _ | _ :: _ => ?x end) with x.
  cbn [s_send peer_socket mbind outcome_bind].
  destruct (Z.ltb_spec (grants w (tries w)) 0) as [Hneg|Hpos].
  { cbn. split; [done|]. exists 0%nat. cbn. split_and!; [done|done|by rewrite app_nil_r]. }
  set (n := Nat.min (Z.to_nat (grants w (tries w))) (length bs)).
  rewrite (proj2 (Z.ltb_ge (Z.of_nat n) 0)) by lia.
  set (w1 := mkPeer _ _ _ _). assert (sent_to w w1 (take n bs)) as Hw1 by done.
  destruct (Z.eqb_spec (Z.of_nat n) 0) as [Hz|Hnz].
  - cbn [s_yield peer_socket mbind outcome_bind]. specialize (IH bs w1). replace n with 0%nat in Hw1 by lia. cbn [take] in Hw1.
    destruct (send_bytes fuel bs t w1) as [[[t' w'] []]| |]; [|destruct IH as (-> & k & Hk); split; [done|]; exists k|done..].
    + destruct IH as [-> Hs]. split; [done|]. by apply (sent_to_trans _ _ _ [] bs Hw1).
    + by apply (sent_to_trans _ _ _ [] _ Hw1).
  - rewrite Nat2Z.id. specialize (IH (drop n bs) w1).
    destruct (send_bytes fuel (drop n bs) t w1) as [[[t' w'] []]| |]; [|destruct IH as (-> & k & Hk); split; [done|]|done..].
    + destruct IH as [-> Hs]. split; [done|]. rewrite <- (take_drop n bs). by eapply sent_to_trans.
    + exists (n + k)%nat. rewrite <- take_take_drop. by eapply sent_to_trans.
Qed.

(** The connection stays up and, among any [K] successive attempts, one makes progress. *)
Definition fair (K : nat) (w : Peer) : Prop :=
  (∀ i, 0 ≤ grants w i) ∧ ∀ i, ∃ j, (j < K)%nat ∧ 0 < grants w (i + j)%nat.

Lemma send_bytes_live K fuel bs t (w : Peer) : fair K w → (K * length bs ≤ fuel)%nat →
  ∃ w', send_bytes fuel bs t w = Ret (t, w', true).
Proof.
  intros [Hp Hf]. assert (∀ d fuel bs (w : Peer), (∀ i, 0 ≤ grants w i) →
      (∀ i, ∃ j, (j < K)%nat ∧ 0 < grants w (i + j)%nat) →
      (bs ≠ [] → ∃ j, (j < d)%nat ∧ 0 < grants w (tries w + j)%nat) →
      (bs ≠ [] → d + K * (length bs - 1) ≤ fuel)%nat → ∃ w', send_bytes fuel bs t w = Ret (t, w', true)) as Hgen.
  2: { intros Hfu. destruct (Hf (tries w)) as (j & Hj & Hg). apply (Hgen K); [done|done|by eauto|].
       intros Hne. destruct bs; [done|]. cbn in *. nia. }
  clear fuel bs w Hp Hf. intros d fuel. revert d. induction fuel as [|fuel IH]; intros d bs w Hp Hf Hd Hfu;
    (destruct bs as [|b0 bs0]; [by exists w|]);
    destruct (Hd ltac:(done)) as (j & Hj & Hg); specialize (Hfu ltac:(done)); [nia|].
  set (bs := b0 :: bs0) in *. cbn [send_bytes]. change (match bs with [] => _ | _ :: _ => ?x end) with x.
  cbn [s_send peer_socket mbind outcome_bind]. pose proof (Hp (tries w)) as Hp0.
  rewrite (proj2 (Z.ltb_ge (grants w (tries w)) 0)) by lia.
  set (n := Nat.min (Z.to_nat (grants w (tries w))) (length bs)).
  rewrite (proj2 (Z.ltb_ge (Z.of_nat n) 0)) by lia.
  destruct (Z.eqb_spec (Z.of_nat n) 0) as [Hz|Hnz].
  - assert (grants w (tries w) = 0) as Hg0 by (cbn in n; lia). destruct j as [|j]; [rewrite Nat.add_0_r in Hg; lia|].
    cbn [s_yield peer_socket mbind outcome_bind]. apply (IH (d - 1)%nat); [done|done| |lia].
    intros _. exists j. cbn. split; [lia|]. by rewrite <- Nat.add_succ_r.
  - rewrite Nat2Z.id. apply (IH K); [done|done|cbn; intros _; destruct (Hf (S (tries w))) as (i & ? & ?); by exists i|].
    intros Hne. rewrite length_drop. assert (n < length bs)%nat; [|nia].
    destruct (decide (n < length bs)%nat) as [|Hge]; [done|]. exfalso. apply Hne. apply drop_ge. lia.
Qed.

(** ** Output *)

Definition escaped (bs : list Z) : list Z := bs ≫= escape.

Lemma write_loop_ok fuel bs out t (w : Peer) :
  match write_loop fuel bs out t w with
  | Ret (t', w', true) => t' = t ∧ sent_to w w' (out ++ escaped bs)
  | Ret (t', w', false) => t' = set_closed t ∧ ∃ k, sent_to w w' (take k (out ++ escaped bs))
  | Panic => False
  | Diverge => True
  end.
Proof.
  revert out w. induction bs as [|b bs IH]; intros out w; cbn [write_loop].
  - destruct out as [|o out]; [split; [done|apply sent_to_refl]|]. rewrite app_nil_r. apply send_bytes_ok.
  - unfold escaped. rewrite bind_cons. fold (escaped bs).
    destruct (256 <? length out + length (escape b))%nat.
    + pose proof (send_bytes_ok fuel out t w) as Hs.
      destruct (send_bytes fuel out t w) as [[[t1 w1] []]| |]; cbn [mbind outcome_bind]; [| |done..].
      * destruct Hs as [-> Hs]. specialize (IH (escape b) w1).
        destruct (write_loop fuel bs (escape b) t w1) as [[[t' w'] []]| |]; [| |done..].
        -- destruct IH as [-> IH]. split; [done|]. by eapply sent_to_trans.
        -- destruct IH as (-> & k & IH). split; [done|]. exists (length out + k)%nat.
           rewrite take_app_add. by eapply sent_to_trans.
      * destruct Hs as (-> & k & Hs). split; [done|]. exists (Nat.min k (length out)).
        rewrite take_app_le by lia. replace (take (k `min` length out) out) with (take k out); [done|].
        destruct (Nat.min_spec k (length out)) as [[_ ->]|[? ->]]; [done|]. by rewrite !take_ge by lia.
    + specialize (IH (out ++ escape b) w). by rewrite <- app_assoc in IH.
Qed.

Lemma escape_length b : (1 ≤ length (escape b) ≤ 2)%nat.
Proof. unfold escape. repeat case_match; cbn; lia. Qed.

Lemma fair_sent K w w' bs : fair K w → sent_to w w' bs → fair K w'.
Proof. intros [Hp Hf] (Hg & _ & _). unfold fair. by rewrite Hg. Qed.

Lemma write_loop_live K fuel bs out t (w : Peer) : fair K w → (K * 256 ≤ fuel)%nat → (length out ≤ 256)%nat →
  ∃ w', write_loop fuel bs out t w = Ret (t, w', true).
Proof.
  intros Hf Hfu. revert out w Hf. induction bs as [|b bs IH]; intros out w Hf Ho; cbn [write_loop].
  - destruct out as [|o out]; [by exists w|]. eapply send_bytes_live; [done|nia].
  - pose proof (escape_length b). destruct (Nat.ltb_spec 256 (length out + length (escape b))).
    + destruct (send_bytes_live K fuel out t w Hf ltac:(nia)) as (w1 & E).
      pose proof (send_bytes_ok fuel out t w) as Hs. rewrite E in *. destruct Hs as [_ Hs].
      cbn [mbind outcome_bind]. apply IH; [by eapply fair_sent|lia].
    + apply IH; [done|]. rewrite length_app. lia.
Qed.

(** ** Input *)

(** The state machine of [poll_byte] alone: the new state, the byte delivered and the
    reply sent. *)
Definition decode_step (st : RxState * bool) (b : Z) : RxState * bool * option Z * list Z :=
  let '(s, lf) := st in
  if lf && (b =? 10) then (s, false, None, [])
  else match s with
  | RxData =>
      if b =? IAC then (RxIac, false, None, [])
      else if b =? 13 then (RxData, true, Some 10, [])
      else (RxData, false, Some b, [])
  | RxIac =>
      if b =? IAC then (RxData, false, Some IAC, [])
      else if (b =? DO) || (b =? DONT) || (b =? WILL) || (b =? WONT) then (RxIacCommand b, false, None, [])
      else if b =? SB then (RxSubnegotiation, false, None, [])
      else (RxData, false, None, [])
  | RxIacCommand cmd =>
      (RxData, false, None, match reply_for cmd b with Some (c, o) => [IAC; c; o] | None => [] end)
  | RxSubnegotiation => (if b =? IAC then RxSubnegotiationIac else RxSubnegotiation, false, None, [])
  | RxSubnegotiationIac =>
      (if b =? SE then RxData else if b =? IAC then RxSubnegotiationIac else RxSubnegotiation, false, None, [])
  end.

(** The bytes delivered and the replies sent for a byte stream, and the final state. *)
Fixpoint decode (st : RxState * bool) (bs : list Z) : RxState * bool * list Z * list Z :=
  match bs with
  | [] => (st.1, st.2, [], [])
  | b :: bs =>
      let '(s, lf, o, r) := decode_step st b in
      let '(s', lf', os, rs) := decode (s, lf) bs in
      (s', lf', option_list o ++ os, r ++ rs)
  end.

Lemma decode_app st a b :
  decode st (a ++ b) =
  let '(s, lf, o1, r1) := decode st a in
  let '(s', lf', o2, r2) := decode (s, lf) b in
  (s', lf', o1 ++ o2, r1 ++ r2).
Proof.
  revert st. induction a as [|x a IH]; intros [s lf]; cbn [app decode fst snd].
  - by destruct (decode (s, lf) b) as [[[? ?] ?] ?].
  - destruct (decode_step (s, lf) x) as [[[s1 lf1] o] r]. rewrite IH.
    destruct (decode (s1, lf1) a) as [[[s2 lf2] o1] r1]. destruct (decode (s2, lf2) b) as [[[? ?] ?] ?]. by rewrite !app_assoc.
Qed.

(** The decoder undoes the escaping of text without carriage returns. *)
Lemma decode_escaped bs : Forall (λ b, b ≠ 13) bs → decode (RxData, false) (escaped bs) = (RxData, false, bs, []).
Proof.
  induction 1 as [|b bs Hb Hbs IH]; [done|].
  unfold escaped. rewrite bind_cons, decode_app. fold (escaped bs). unfold escape.
  rewrite (proj2 (Z.eqb_neq b 13)) by done.
  destruct (Z.eqb_spec b 10) as [->|H10]; [by cbn; rewrite IH|].
  destruct (Z.eqb_spec b IAC) as [->|Hiac]; [by cbn; rewrite IH|].
  cbn [decode decode_step andb]. rewrite (proj2 (Z.eqb_neq b IAC)), (proj2 (Z.eqb_neq b 13)) by done.
  cbn [decode fst snd option_list app]. by rewrite IH.
Qed.

(** The unread part of the receive buffer. *)
Definition pending (t : TelnetTerminal) : list Z := drop (rx_pos t) (take (rx_len t) (rx_buf t)).
Definition rx_ok (t : TelnetTerminal) : Prop := length (rx_buf t) = 128%nat ∧ (rx_len t ≤ 128)%nat ∧ closed t = false.

(** Every reply fits in the send buffer. *)
Definition roomy (w : Peer) : Prop := ∀ i, 3 ≤ grants w i.

Lemma send_three fuel a b c t (w : Peer) : roomy w →
  ∃ w', send_bytes (S fuel) [a; b; c] t w = Ret (t, w', true) ∧ sent_to w w' [a; b; c].
Proof.
  intros Hr. specialize (Hr (tries w)). cbn [send_bytes s_send peer_socket mbind outcome_bind].
  rewrite (proj2 (Z.ltb_ge (grants w (tries w)) 0)) by lia. rewrite Nat.min_r by (cbn; lia). cbn.
  destruct fuel; by eexists.
Qed.

(** One byte: the terminal follows [decode_step]. *)
Lemma on_byte_ok fuel b t (w : Peer) : roomy w →
  let '(s, lf, o, r) := decode_step (rx_state t, swallow_lf t) b in
  ∃ w', on_byte (S fuel) b t w = Ret (set_rx t s lf, w', o) ∧ sent_to w w' r.
Proof.
  intros Hr. unfold on_byte, decode_step. pose proof (sent_to_refl w).
  destruct (swallow_lf t && (b =? 10)); [by exists w|]. cbn [rx_state set_rx].
  destruct (rx_state t) as [| |cmd| |].
  - destruct (b =? IAC); [by exists w|]. destruct (b =? 13); by exists w.
  - destruct (b =? IAC); [by exists w|]. destruct (_ || _); [by exists w|]. destruct (b =? SB); by exists w.
  - unfold reply_to_command. destruct (reply_for cmd b) as [[c o]|]; [|by exists w].
    match goal with |- context [send_bytes _ _ ?t0 w] => destruct (send_three fuel IAC c o t0 w Hr) as (w' & -> & Hs) end.
    by exists w'.
  - by exists w.
  - by exists w.
Qed.

Definition poll_good (t : TelnetTerminal) (w : Peer) (cs : list (list Z)) : Prop :=
  rx_ok t ∧ roomy w ∧ chunks w = Some <$> cs ∧ Forall (λ c, c ≠ []) cs.
Definition stream (t : TelnetTerminal) (cs : list (list Z)) : list Z := pending t ++ concat cs.

(** From [t] to [t'] the terminal has read a part of its stream, delivered [out] and
    replied as the decoder says. *)
Definition advances (t : TelnetTerminal) (w : Peer) (cs : list (list Z))
    (t' : TelnetTerminal) (w' : Peer) (cs' : list (list Z)) (out : list Z) : Prop :=
  poll_good t' w' cs' ∧ ∃ A r, stream t cs = A ++ stream t' cs' ∧
    decode (rx_state t, swallow_lf t) A = (rx_state t', swallow_lf t', out, r) ∧ wire w' = wire w ++ r.

Lemma advances_trans t w cs t1 w1 cs1 t2 w2 cs2 o1 o2 :
  advances t w cs t1 w1 cs1 o1 → advances t1 w1 cs1 t2 w2 cs2 o2 → advances t w cs t2 w2 cs2 (o1 ++ o2).
Proof.
  intros (_ & A1 & r1 & S1 & D1 & W1) (Hg & A2 & r2 & S2 & D2 & W2). split; [done|].
  exists (A1 ++ A2), (r1 ++ r2). split_and!; [by rewrite S1, S2, app_assoc|by rewrite decode_app, D1, D2|].
  by rewrite W2, W1, app_assoc.
Qed.

Lemma byte_step fuel t w cs b : poll_good t w cs → (rx_pos t < rx_len t)%nat → rx_buf t !! rx_pos t = Some b →
  ∃ t' w' o, on_byte (S fuel) b (set_pos t (S (rx_pos t))) w = Ret (t', w', o) ∧
    advances t w cs t' w' cs (option_list o) ∧ (length (stream t' cs) < length (stream t cs))%nat.
Proof.
  intros (Hrx & Hr & Hcs & Hne) Hlt Hb. set (t1 := set_pos t (S (rx_pos t))).
  pose proof (on_byte_ok fuel b t1 w Hr) as H.
  change (rx_state t1) with (rx_state t) in H. change (swallow_lf t1) with (swallow_lf t) in H.
  destruct (decode_step (rx_state t, swallow_lf t) b) as [[[s lf] o] r] eqn:E.
  destruct H as (w' & -> & Hg & Hc & Hw). exists (set_rx t1 s lf), w', o. split; [done|].
  assert (stream t cs = [b] ++ stream (set_rx t1 s lf) cs) as Hs.
  { unfold stream, pending. cbn [rx_pos rx_len rx_buf set_rx set_pos t1].
    rewrite (drop_S (take (rx_len t) (rx_buf t)) b (rx_pos t)); [done|]. by rewrite lookup_take_lt. }
  split; [|rewrite Hs; cbn; lia]. split.
  - split_and!; [exact Hrx|unfold roomy; by rewrite Hg|by rewrite Hc|done].
  - exists [b], r. split_and!; [done| |done]. cbn [decode]. rewrite E. cbn. by rewrite !app_nil_r.
Qed.

Lemma recv_step t w cs c : poll_good t w (c :: cs) → (rx_len t ≤ rx_pos t)%nat →
  ∃ w' n bs cs', s_recv (length (rx_buf t)) w = Ret (w', (Z.of_nat n, bs)) ∧ (0 < n)%nat ∧
    advances t w (c :: cs) (set_buf t (blit (rx_buf t) 0 bs) n) w' cs' [] ∧
    length (stream (set_buf t (blit (rx_buf t) 0 bs) n) cs') = length (stream t (c :: cs)).
Proof.
  intros ((Hl & Hn & Hcl) & Hr & Hcs & [Hc Hne]%Forall_cons) Hge. rewrite Hl. cbn [s_recv peer_socket]. rewrite Hcs. cbn [fmap list_fmap].
  set (bs := take 128 c). set (n := length bs).
  set (cs' := if (length c <=? 128)%nat then cs else drop 128 c :: cs).
  assert (n ≤ 128)%nat by (unfold n, bs; rewrite length_take; lia).
  assert (pending (set_buf t (blit (rx_buf t) 0 bs) n) = bs) as Hp.
  { unfold pending. cbn [rx_pos rx_len rx_buf set_buf]. rewrite drop_0.
    rewrite blit_eq by (rewrite Hl; unfold n in *; cbn; lia). rewrite take_0. cbn [app]. by rewrite take_app_length'. }
  assert (stream t (c :: cs) = stream (set_buf t (blit (rx_buf t) 0 bs) n) cs') as Hs.
  { unfold stream. rewrite Hp. unfold pending. rewrite drop_ge by (rewrite length_take; lia). cbn [app concat].
    unfold cs', bs. case_match eqn:E; [apply Nat.leb_le in E; by rewrite take_ge by lia|].
    cbn [concat]. by rewrite app_assoc, take_drop. }
  assert (bs ≠ []) as Hbs by (unfold bs; by destruct c).
  assert (0 < n)%nat by (unfold n; revert Hbs; generalize bs; intros [|? ?]; cbn; [done|lia]).
  eexists _, n, bs, cs'. split; [reflexivity|]. split_and!; [done| |by rewrite Hs].
  split.
  - split_and!; [split_and!; cbn; [by rewrite length_blit|done|done]|done| |].
    + unfold cs'. by case_match.
    + unfold cs'. case_match eqn:E; [done|]. apply Nat.leb_gt in E. constructor; [|done].
      intros Hd. apply (f_equal length) in Hd. rewrite length_drop in Hd. cbn in Hd. lia.
  - exists [], []. split_and!; [done|done|]. cbn. by rewrite app_nil_r.
Qed.

Lemma poll_loop_ok fuel t w cs : poll_good t w cs →
  (2 * length (stream t cs) + (if (rx_len t <=? rx_pos t)%nat then 2 else 1) ≤ fuel)%nat →
  ∃ t' w' cs' r, poll_loop fuel t w = Ret (t', w', r) ∧
    match r with
    | Byte b => advances t w cs t' w' cs' [b] ∧ (length (stream t' cs') < length (stream t cs))%nat
    | NoData => advances t w cs t' w' cs' [] ∧ stream t' cs' = []
    | Eof => False
    end.
Proof.
  revert t w cs. induction fuel as [|fuel IH]; intros t w cs Hg Hf; [case_match; lia|]. cbn [poll_loop].
  destruct (Nat.leb_spec (rx_len t) (rx_pos t)) as [Hge|Hlt].
  - destruct cs as [|c cs].
    + pose proof Hg as ((Hl & Hn & Hcl) & Hr & Hcs & _). cbn [s_recv peer_socket]. rewrite Hcs.
      cbn [fmap list_fmap mbind outcome_bind Z.ltb Z.eqb Z.compare]. eexists _, _, [], NoData. split; [reflexivity|].
      assert (pending t = []) as Hp by (unfold pending; rewrite drop_ge; [done|rewrite length_take; lia]).
      split; [|done]. split; [split_and!; [split_and!; cbn; [done|lia|done]|done|done|done]|].
      exists [], []. unfold stream. rewrite Hp. split_and!; [done|done|by rewrite app_nil_r].
    + destruct (recv_step t w cs c Hg Hge) as (w1 & n & bs & cs1 & -> & Hn & Hadv & Hlen).
      cbn [mbind outcome_bind]. rewrite (proj2 (Z.ltb_ge (Z.of_nat n) 0)), (proj2 (Z.eqb_neq (Z.of_nat n) 0)) by lia.
      rewrite Nat2Z.id. set (t1 := set_buf t (blit (rx_buf t) 0 bs) n) in *.
      match goal with |- context [poll_loop fuel ?x w1] => change x with t1 end.
      destruct (IH t1 w1 cs1) as (t' & w' & cs' & r & -> & Hr); [apply Hadv| |].
      { rewrite Hlen. cbn [t1 set_buf rx_len rx_pos]. rewrite (proj2 (Nat.leb_gt n 0)) by lia. lia. }
      exists t', w', cs', r. split; [done|]. rewrite Hlen in Hr.
      destruct r as [b| |]; [destruct Hr as [Hr ?]|destruct Hr as [Hr ?]|done]; split; try done;
        by apply (advances_trans _ _ _ _ _ _ _ _ _ [] _ Hadv Hr).
  - pose proof Hg as ((Hl & Hn & Hcl) & _). destruct (lookup_lt_is_Some_2 (rx_buf t) (rx_pos t)) as [b Hb]; [lia|].
    rewrite Hb. assert (0 < length (stream t cs))%nat as Hpos.
    { unfold stream, pending. rewrite length_app, length_drop, length_take. lia. }
    destruct fuel as [|fuel]; [lia|].
    destruct (byte_step fuel t w cs b Hg Hlt Hb) as (t1 & w1 & o & -> & Hadv & Hlen). cbn [mbind outcome_bind].
    destruct o as [b'|]; [by eexists _, _, cs, (Byte b')|].
    destruct (IH t1 w1 cs) as (t' & w' & cs' & r & -> & Hr); [apply Hadv|case_match; lia|].
    exists t', w', cs', r. split; [done|].
    destruct r as [b'| |]; [destruct Hr as [Hr ?]|destruct Hr as [Hr ?]|done];
      (split; [by apply (advances_trans _ _ _ _ _ _ _ _ _ [] _ Hadv Hr)|first [done|lia]]).
Qed.

(** Successive polls until there is no data: the bytes delivered. *)
Fixpoint poll_all (polls fuel : nat) (t : TelnetTerminal) (w : Peer) : outcome (TelnetTerminal * Peer * list Z) :=
  match polls with
  | O => Diverge
  | S polls =>
      '(t, w, r) ← poll_byte fuel t w;
      match r with
      | Byte b => '(t, w, l) ← poll_all polls fuel t w; Ret (t, w, b :: l)
      | _ => Ret (t, w, [])
      end
  end.

Lemma poll_all_ok polls fuel t w cs : poll_good t w cs →
  (2 * length (stream t cs) + 2 ≤ fuel)%nat → (length (stream t cs) < polls)%nat →
  ∃ t' w' cs' l, poll_all polls fuel t w = Ret (t', w', l) ∧ advances t w cs t' w' cs' l ∧ stream t' cs' = [].
Proof.
  revert t w cs. induction polls as [|polls IH]; intros t w cs Hg Hf Hp; [lia|]. cbn [poll_all].
  unfold poll_byte. pose proof Hg as ((_ & _ & ->) & _).
  destruct (poll_loop_ok fuel t w cs Hg) as (t1 & w1 & cs1 & r & -> & Hr); [case_match; lia|]. cbn [mbind outcome_bind].
  destruct r as [b| |]; [|by eexists _, _, cs1, []|done]. destruct Hr as [Hadv Hlt].
  destruct (IH t1 w1 cs1) as (t' & w' & cs' & l & -> & Hl & Hnil); [apply Hadv|lia|lia|].
  eexists _, _, cs', (b :: l). split; [done|]. split; [|done]. by eapply (advances_trans _ _ _ _ _ _ _ _ _ [b] l).
Qed.

(** ** Properties *)

(** A text written to the terminal goes to the connection as its bytes, escaped, in
    order and without loss, however the connection splits the writes; if the
    connection fails, a prefix went out and the terminal is closed; and if the
    connection keeps making progress, the write completes. *)
Lemma telnet_write_spec fuel s t (w : Peer) :
  closed t = false →
  match write_str fuel s t w with
  | Ret (t', w', true) => t' = t ∧ sent_to w w' (escaped (as_bytes s))
  | Ret (t', w', false) => t' = set_closed t ∧ ∃ k, sent_to w w' (take k (escaped (as_bytes s)))
  | Panic => False
  | Diverge => True
  end ∧
  ∀ K, fair K w → (K * 256 ≤ fuel)%nat → ∃ w', write_str fuel s t w = Ret (t, w', true).
Proof.
  intros Hc. unfold write_str. rewrite Hc. split; [apply (write_loop_ok fuel (as_bytes s) [] t w)|].
  intros K Hf Hfu. by eapply write_loop_live; [|done|cbn; lia].
Qed.

(** C36: polling a terminal until no data is left delivers the decoding of the input
    stream and answers its option requests, however the stream was split into
    pieces; what another terminal of this kind wrote is delivered unchanged if
    it holds no carriage return. *)
Theorem telnet_read_spec cs (w : Peer) polls fuel :
  roomy w → chunks w = Some <$> cs → Forall (λ c, c ≠ []) cs →
  (2 * length (concat cs) + 2 ≤ fuel)%nat → (length (concat cs) < polls)%nat →
  ∃ t' w' l r, poll_all polls fuel TelnetTerminal_new w = Ret (t', w', l) ∧
    decode (RxData, false) (concat cs) = (rx_state t', swallow_lf t', l, r) ∧
    wire w' = wire w ++ r ∧
    ∀ text, concat cs = escaped text → Forall (λ b, b ≠ 13) text → l = text.
Proof.
  intros Hr Hc Hne Hf Hp.
  destruct (poll_all_ok polls fuel TelnetTerminal_new w cs) as (t' & w' & cs' & l & E & (_ & A & r & HA & Hd & Hw) & Hnil);
    [split_and!; [split_and!; cbn; [done|lia|done]|done|done|done]|done|done|].
  rewrite Hnil, app_nil_r in HA. change (stream TelnetTerminal_new cs) with (concat cs) in HA. subst A.
  exists t', w', l, r. split_and!; [done|done|done|]. intros text Ht Hcr. rewrite Ht, decode_escaped in Hd by done. by simplify_eq.
Qed.

Lemma telnet_read_spec_witness :
  ∃ t' w' l, poll_all 5 9 TelnetTerminal_new (mkPeer (λ _, 3) 0 [Some [72; 13]; Some [10]] []) = Ret (t', w', l) ∧ l = [72; 10].
Proof.
  destruct (telnet_read_spec [[72; 13]; [10]] (mkPeer (λ _, 3) 0 [Some [72; 13]; Some [10]] []) 5 9)
    as (t' & w' & l & r & H & _ & _ & Hl).
  - intros i. cbn. lia.
  - reflexivity.
  - repeat constructor; discriminate.
  - cbn. lia.
  - cbn. lia.
  - exists t', w', l. split; [exact H|]. apply Hl; [reflexivity|]. repeat constructor; discriminate.
Defined.

(** ** Limits *)

(** CR NUL, the protocol's encoding of a carriage return, delivers a NUL byte. *)
Lemma telnet_cr_nul : decode (RxData, false) (escaped [13]) = (RxData, false, [10; 0], []).
Proof. reflexivity. Qed.

(** An escaped 255 followed by 240 inside a subnegotiation ends it: the rest of
    the option's data is delivered as input. *)
Lemma telnet_subnegotiation_leaks :
  decode (RxData, false) [IAC; SB; 31; IAC; IAC; SE; 65; IAC; SE] = (RxData, false, [65], []).
Proof. reflexivity. Qed.
