(* ===== verification/Interrupts.v ===== *)
(** Interrupts: the 8259 controllers (src/pic.rs), the descriptor table
    (src/idt.rs), the handlers and their assembly stubs (src/interrupts.rs).  The
    controllers are a parameter with the documented effect of their command and data
    ports; the stubs are instruction lists run on a small register machine. *)

From S2P Require Import Prelude PortIO Timer Vga Memvis Mouse Cursor.
#[local] Open Scope Z_scope.

(** ** The 8259 driver (src/pic.rs) *)

Definition PIC1_COMMAND : Z := 0x20.
Definition PIC1_DATA : Z := 0x21.
Definition PIC2_COMMAND : Z := 0xA0.
Definition PIC2_DATA : Z := 0xA1.
Definition ICW1_INIT : Z := 0x10.
Definition ICW1_ICW4 : Z := 0x01.
Definition ICW4_8086 : Z := 0x01.
Definition PIC_EOI : Z := 0x20.
Definition PIC1_OFFSET : Z := 32.
Definition PIC2_OFFSET : Z := 40.

(** [!(1 << n)] and [1 << n] of a [u8]. *)
Definition bit8 (n : Z) : Z := u8 (Z.shiftl 1 n).
Definition unbit8 (n : Z) : Z := 255 - bit8 n.

Section pic.
Context {D : Type} `{!Ports D}.

Definition pic_init : ioM D unit :=
  mask1 ← inb PIC1_DATA;
  mask2 ← inb PIC2_DATA;
  _ ← outb PIC1_COMMAND (Z.lor ICW1_INIT ICW1_ICW4);
  _ ← io_wait;
  _ ← outb PIC2_COMMAND (Z.lor ICW1_INIT ICW1_ICW4);
  _ ← io_wait;
  _ ← outb PIC1_DATA PIC1_OFFSET;
  _ ← io_wait;
  _ ← outb PIC2_DATA PIC2_OFFSET;
  _ ← io_wait;
  _ ← outb PIC1_DATA 0x04;
  _ ← io_wait;
  _ ← outb PIC2_DATA 0x02;
  _ ← io_wait;
  _ ← outb PIC1_DATA ICW4_8086;
  _ ← io_wait;
  _ ← outb PIC2_DATA ICW4_8086;
  _ ← io_wait;
  _ ← outb PIC1_DATA mask1;
  outb PIC2_DATA mask2.

Definition enable_irq (irq : Z) : ioM D unit :=
  if irq <? 8 then
    mask ← inb PIC1_DATA;
    outb PIC1_DATA (Z.land mask (unbit8 irq))
  else
    mask ← inb PIC2_DATA;
    _ ← outb PIC2_DATA (Z.land mask (unbit8 (irq - 8)));
    mask1 ← inb PIC1_DATA;
    outb PIC1_DATA (Z.land mask1 (unbit8 2)).

Definition disable_irq (irq : Z) : ioM D unit :=
  if irq <? 8 then
    mask ← inb PIC1_DATA;
    outb PIC1_DATA (Z.lor mask (bit8 irq))
  else
    mask ← inb PIC2_DATA;
    outb PIC2_DATA (Z.lor mask (bit8 (irq - 8))).

Definition send_eoi (irq : Z) : ioM D unit :=
  _ ← (if 8 <=? irq then outb PIC2_COMMAND PIC_EOI else mret ());
  outb PIC1_COMMAND PIC_EOI.

Definition disable_all : ioM D unit :=
  _ ← outb PIC1_DATA 0xFF;
  outb PIC2_DATA 0xFF.

Definition is_spurious (irq : Z) : ioM D bool :=
  if irq =? 7 then
    _ ← outb PIC1_COMMAND 0x0B;
    isr ← inb PIC1_COMMAND;
    mret (Z.land isr 0x80 =? 0)
  else if irq =? 15 then
    _ ← outb PIC2_COMMAND 0x0B;
    isr ← inb PIC2_COMMAND;
    if Z.land isr 0x80 =? 0 then _ ← outb PIC1_COMMAND PIC_EOI; mret true else mret false
  else mret false.

(** ** The handlers (src/interrupts.rs, [tick] of src/timer.rs) *)

Definition pure_io {A} (o : outcome A) : ioM D A := λ d, a ← o; Ret (d, a).

Definition timer_tick (count : Z) (w : Desktop) : ioM D (Z * Desktop) :=
  let count := tick count in
  if is_enabled (vga (vis w)) then
    '(m, _) ← mouse_poll (mouse w);
    w ← pure_io (cursor_update (mkDesktop (vis w) m (ms w)));
    mret (count, w)
  else mret (count, w).

Definition timer_handler (count : Z) (w : Desktop) : ioM D (Z * Desktop) :=
  r ← timer_tick count w;
  _ ← send_eoi 0;
  mret r.

Definition spurious_handler : ioM D unit :=
  b ← is_spurious 7;
  if b : bool then mret () else send_eoi 7.

Definition keyboard_handler : ioM D unit :=
  _ ← inb 0x60;
  send_eoi 1.

(** [handle_interrupt] of the network driver is an argument. *)
Definition ne2000_handler (handle_interrupt : ioM D unit) : ioM D unit :=
  _ ← handle_interrupt;
  send_eoi 10.

Definition mouse_handler (m : Mouse) : ioM D Mouse :=
  m ← mouse_handle_interrupt m;
  _ ← send_eoi 12;
  mret m.
End pic.

(** ** What the driver relies on: two 8259s

    The documented behaviour of one controller: mask, in-service bits, vector offset,
    the position in the initialization sequence and the register that a read of
    the command port returns. *)
Record Pic : Type := mkPic { imr : Z; in_service : Z; offset : Z; icw : nat; read_isr : bool; irr : Z }.

(** A non-specific end of interrupt clears the in-service bit of highest priority. *)
Fixpoint clear_lowest (fuel : nat) (k isr : Z) : Z :=
  match fuel with
  | O => isr
  | S fuel => if Z.testbit isr k then Z.ldiff isr (Z.shiftl 1 k) else clear_lowest fuel (k + 1) isr
  end.
Definition pic_command (v : Z) (p : Pic) : Pic :=
  if Z.testbit v 4 then mkPic 0 0 (offset p) 1 false (irr p)
  else if v =? 0x20 then mkPic (imr p) (clear_lowest 8 0 (in_service p)) (offset p) (icw p) (read_isr p) (irr p)
  else if v =? 0x0B then mkPic (imr p) (in_service p) (offset p) (icw p) true (irr p)
  else p.
Definition pic_data (v : Z) (p : Pic) : Pic :=
  match icw p with
  | 1%nat => mkPic (imr p) (in_service p) (Z.land v 0xF8) 2 (read_isr p) (irr p)
  | 2%nat => mkPic (imr p) (in_service p) (offset p) 3 (read_isr p) (irr p)
  | 3%nat => mkPic (imr p) (in_service p) (offset p) 0 (read_isr p) (irr p)
  | _ => mkPic v (in_service p) (offset p) 0 (read_isr p) (irr p)
  end.

Class Pics (D : Type) `{Ports D} := {
  pic1 : D → Pic;
  pic2 : D → Pic;
  out_pic1_command v d : let d' := port_outb PIC1_COMMAND v d in pic1 d' = pic_command v (pic1 d) ∧ pic2 d' = pic2 d;
  out_pic1_data v d : let d' := port_outb PIC1_DATA v d in pic1 d' = pic_data v (pic1 d) ∧ pic2 d' = pic2 d;
  out_pic2_command v d : let d' := port_outb PIC2_COMMAND v d in pic2 d' = pic_command v (pic2 d) ∧ pic1 d' = pic1 d;
  out_pic2_data v d : let d' := port_outb PIC2_DATA v d in pic2 d' = pic_data v (pic2 d) ∧ pic1 d' = pic1 d;
  out_wait d : let d' := port_outb 0x80 0 d in pic1 d' = pic1 d ∧ pic2 d' = pic2 d;
  in_pic1_data d : port_inb PIC1_DATA d = (d, imr (pic1 d));
  in_pic2_data d : port_inb PIC2_DATA d = (d, imr (pic2 d));
  in_pic1_command d : port_inb PIC1_COMMAND d = (d, if read_isr (pic1 d) then in_service (pic1 d) else irr (pic1 d));
  in_pic2_command d : port_inb PIC2_COMMAND d = (d, if read_isr (pic2 d) then in_service (pic2 d) else irr (pic2 d));
  in_ps2 p d : p = PS2_DATA ∨ p = PS2_STATUS → let d' := (port_inb p d).1 in pic1 d' = pic1 d ∧ pic2 d' = pic2 d;
}.

(** ** The descriptor table (src/idt.rs) *)

Record IdtEntry : Type := mkIdtEntry {
  offset_low : Z; selector : Z; ist : Z; type_attr : Z; offset_mid : Z; offset_high : Z; reserved : Z }.
Definition IdtEntry_null : IdtEntry := mkIdtEntry 0 0 0 0 0 0 0.
Definition IdtEntry_new (handler sel i : Z) : IdtEntry :=
  mkIdtEntry (u16 (Z.land handler 0xFFFF)) sel (Z.land i 0x7) 0x8E
    (u16 (Z.land (Z.shiftr handler 16) 0xFFFF)) (u32 (Z.land (Z.shiftr handler 32) 0xFFFFFFFF)) 0.
Definition KERNEL_CS : Z := 0x18.

Inductive Stub : Type := isr_timer | isr_keyboard | isr_ne2000 | isr_mouse | isr_spurious.

(** [init]: [addr] gives the addresses that the linker chose for the stubs. *)
Definition idt_init (addr : Stub → Z) (idt : list IdtEntry) : list IdtEntry :=
  let gate s := IdtEntry_new (addr s) KERNEL_CS 0 in
  <[47%nat := gate isr_spurious]> (<[44%nat := gate isr_mouse]> (<[42%nat := gate isr_ne2000]>
  (<[39%nat := gate isr_spurious]> (<[33%nat := gate isr_keyboard]> (<[32%nat := gate isr_timer]> idt))))).
Definition IDT_initial : list IdtEntry := replicate 256 IdtEntry_null.

(** What the processor makes of a gate: present (bit 7 of [type_attr]), type 14 at
    privilege 0, and the address of the handler. *)
Definition gate_target (e : IdtEntry) : option (Z * Z) :=
  if type_attr e =? 0x8E then
    Some (selector e, offset_low e + 65536 * offset_mid e + 4294967296 * offset_high e)
  else None.

(** ** The stubs *)

Inductive reg : Type :=
  | RAX | RCX | RDX | RBX | RSP | RBP | RSI | RDI | R8 | R9 | R10 | R11 | R12 | R13 | R14 | R15.
#[global] Instance reg_eq_dec : EqDecision reg.
Proof. solve_decision. Defined.

Inductive instr : Type := Push (r : reg) | Pop (r : reg) | Call | Iretq.

Definition caller_saved : list reg := [RAX; RCX; RDX; RSI; RDI; R8; R9; R10; R11].
Definition all_saved : list reg :=
  [RAX; RBX; RCX; RDX; RSI; RDI; RBP; R8; R9; R10; R11; R12; R13; R14; R15].

Definition isr_timer_code : list instr :=
  [Push RAX; Push RCX; Push RDX; Push RSI; Push RDI; Push R8; Push R9; Push R10; Push R11;
   Call;
   Pop R11; Pop R10; Pop R9; Pop R8; Pop RDI; Pop RSI; Pop RDX; Pop RCX; Pop RAX;
   Iretq].
Definition isr_keyboard_code : list instr :=
  [Push RAX; Push RCX; Push RDX; Push RSI; Push RDI; Push R8; Push R9; Push R10; Push R11;
   Call;
   Pop R11; Pop R10; Pop R9; Pop R8; Pop RDI; Pop RSI; Pop RDX; Pop RCX; Pop RAX;
   Iretq].
Definition isr_ne2000_code : list instr :=
  [Push RAX; Push RCX; Push RDX; Push RSI; Push RDI; Push R8; Push R9; Push R10; Push R11;
   Call;
   Pop R11; Pop R10; Pop R9; Pop R8; Pop RDI; Pop RSI; Pop RDX; Pop RCX; Pop RAX;
   Iretq].
Definition isr_mouse_code : list instr :=
  [Push RAX; Push RCX; Push RDX; Push RSI; Push RDI; Push R8; Push R9; Push R10; Push R11;
   Call;
   Pop R11; Pop R10; Pop R9; Pop R8; Pop RDI; Pop RSI; Pop RDX; Pop RCX; Pop RAX;
   Iretq].
Definition isr_spurious_code : list instr :=
  [Push RAX; Push RBX; Push RCX; Push RDX; Push RSI; Push RDI; Push RBP; Push R8; Push R9; Push R10;
   Push R11; Push R12; Push R13; Push R14; Push R15;
   Call;
   Pop R15; Pop R14; Pop R13; Pop R12; Pop R11; Pop R10; Pop R9; Pop R8; Pop RBP; Pop RDI; Pop RSI;
   Pop RDX; Pop RCX; Pop RBX; Pop RAX;
   Iretq].
Definition stub_code (s : Stub) : list instr :=
  match s with
  | isr_timer => isr_timer_code
  | isr_keyboard => isr_keyboard_code
  | isr_ne2000 => isr_ne2000_code
  | isr_mouse => isr_mouse_code
  | isr_spurious => isr_spurious_code
  end.

(** General registers, vector registers (XMM0 to XMM15: the loader enables SSE and the
    target does not disable it) and memory words (at multiples of 8 bytes). *)
Record cpu : Type := mkCpu { regs : reg → Z; xmm : nat → Z; words : Z → Z; rip : Z; rflags : Z }.
Definition set_reg (c : cpu) (r : reg) (v : Z) : cpu :=
  mkCpu (λ x, if decide (x = r) then v else regs c x) (xmm c) (words c) (rip c) (rflags c).
Definition set_word (c : cpu) (a v : Z) : cpu :=
  mkCpu (regs c) (xmm c) (λ x, if x =? a then v else words c x) (rip c) (rflags c).
Definition push_word (c : cpu) (v : Z) : cpu :=
  let sp := regs c RSP - 8 in set_word (set_reg c RSP sp) sp v.

(** [handler] is the effect of the compiled Rust handler, from its call to its return. *)
Definition exec_instr (handler : cpu → cpu) (i : instr) (c : cpu) : cpu :=
  match i with
  | Push r => push_word c (regs c r)
  | Pop r => let sp := regs c RSP in set_reg (set_reg c RSP (sp + 8)) r (words c sp)
  | Call => handler c
  | Iretq =>
      let sp := regs c RSP in
      mkCpu (λ x, if decide (x = RSP) then words c (sp + 24) else regs c x) (xmm c) (words c) (words c sp) (words c (sp + 16))
  end.
Definition exec (handler : cpu → cpu) (code : list instr) (c : cpu) : cpu :=
  foldl (λ c i, exec_instr handler i c) c code.

(** Delivery of an interrupt: the stack is aligned and SS, RSP, RFLAGS, CS and RIP
    are pushed; [target] is the handler's address. *)
Definition set_rip (c : cpu) (v : Z) : cpu := mkCpu (regs c) (xmm c) (words c) v (rflags c).
Definition deliver (target : Z) (c : cpu) : cpu :=
  let c1 := set_reg c RSP (regs c RSP / 16 * 16) in
  set_rip (push_word (push_word (push_word (push_word (push_word c1 0) (regs c RSP)) (rflags c)) KERNEL_CS) (rip c)) target.

(** The calling convention: the handler returns with the callee-saved registers, the
    stack pointer and the interrupted stack (from the stack pointer up to the stack's
    [top]) unchanged, if it is entered on an aligned stack; the rest of memory and the
    vector registers, all of them caller-saved, are the handler's to change. *)
Definition abi (top : Z) (handler : cpu → cpu) : Prop :=
  ∀ c, regs c RSP mod 16 = 0 →
    (∀ r, r ∉ caller_saved → regs (handler c) r = regs c r) ∧
    (∀ a, regs c RSP ≤ a < top → words (handler c) a = words c a).

(** ** The stubs are transparent *)

Section stubs.
Context (handler : cpu → cpu).

Lemma exec_app a b c : exec handler (a ++ b) c = exec handler b (exec handler a c).
Proof. apply foldl_app. Qed.

Lemma exec_push l c : RSP ∉ l →
  let c' := exec handler (Push <$> l) c in
  regs c' RSP = regs c RSP - 8 * Z.of_nat (length l) ∧ (∀ r, r ≠ RSP → regs c' r = regs c r) ∧
  (∀ a, regs c RSP ≤ a → words c' a = words c a) ∧
  (∀ i r, l !! i = Some r → words c' (regs c RSP - 8 * (Z.of_nat i + 1)) = regs c r).
Proof.
  revert c. induction l as [|r l IH]; intros c Hl; cbn [fmap list_fmap].
  { cbn. split_and!; [lia|done|done|done]. }
  apply not_elem_of_cons in Hl as [Hr Hl]. change (exec handler (Push r :: (Push <$> l)) c)
    with (exec handler (Push <$> l) (push_word c (regs c r))).
  set (c1 := push_word c (regs c r)). destruct (IH c1 Hl) as (H1 & H2 & H3 & H4).
  assert (regs c1 RSP = regs c RSP - 8) as E1 by done.
  assert (∀ x, x ≠ RSP → regs c1 x = regs c x) as E2 by (intros x Hx; cbn; by rewrite decide_False).
  assert (∀ a, words c1 a = if a =? regs c RSP - 8 then regs c r else words c a) as E3 by done.
  rewrite E1 in *. cbn [length]. split_and!.
  - rewrite H1. lia.
  - intros x Hx. by rewrite H2, E2.
  - intros a Ha. rewrite H3, E3 by lia. by rewrite (proj2 (Z.eqb_neq a _)) by lia.
  - intros [|i] x Hx; cbn in Hx.
    + injection Hx as <-. rewrite H3, E3 by lia. by rewrite (proj2 (Z.eqb_eq _ _)) by lia.
    + rewrite <- (E2 x) by (intros ->; by apply Hl; eapply list_elem_of_lookup_2).
      rewrite <- (H4 i x Hx). f_equal. lia.
Qed.

Lemma exec_pop l c : RSP ∉ l → NoDup l →
  let c' := exec handler (Pop <$> l) c in
  regs c' RSP = regs c RSP + 8 * Z.of_nat (length l) ∧ (∀ r, r ≠ RSP → r ∉ l → regs c' r = regs c r) ∧
  (∀ a, words c' a = words c a) ∧
  (∀ i r, l !! i = Some r → regs c' r = words c (regs c RSP + 8 * Z.of_nat i)).
Proof.
  revert c. induction l as [|r l IH]; intros c Hl Hnd; cbn [fmap list_fmap].
  { cbn. split_and!; [lia|done|done|done]. }
  apply not_elem_of_cons in Hl as [Hr Hl]. apply NoDup_cons in Hnd as [Hrl Hnd].
  change (exec handler (Pop r :: (Pop <$> l)) c) with (exec handler (Pop <$> l) (exec_instr handler (Pop r) c)).
  set (c1 := exec_instr handler (Pop r) c). destruct (IH c1 Hl Hnd) as (H1 & H2 & H3 & H4).
  assert (regs c1 RSP = regs c RSP + 8) as E1 by (cbn; by rewrite decide_False, decide_True).
  assert (∀ x, x ≠ RSP → x ≠ r → regs c1 x = regs c x) as E2 by (intros x Hx Hxr; cbn; by rewrite !decide_False).
  assert (regs c1 r = words c (regs c RSP)) as E3 by (cbn; by rewrite decide_True).
  rewrite E1 in *. cbn [length]. split_and!.
  - rewrite H1. lia.
  - intros x Hx [Hxr Hxl]%not_elem_of_cons. by rewrite H2, E2.
  - intros a. by rewrite H3.
  - intros [|i] x Hx; cbn in Hx.
    + injection Hx as <-. rewrite H2, E3 by done. f_equal. lia.
    + rewrite (H4 i x Hx). change (words c1) with (words c). f_equal. lia.
Qed.

(** The stubs do not touch the vector registers. *)
Lemma exec_xmm l c : (∀ i, i ∈ l → i ≠ Call) → xmm (exec handler l c) = xmm c.
Proof.
  revert c. induction l as [|i l IH]; intros c Hl; [done|]. change (exec handler (i :: l) c) with (exec handler l (exec_instr handler i c)).
  rewrite IH by set_solver. destruct i; [done..|by destruct (Hl Call ltac:(left))|done].
Qed.

Lemma push_sp c v : regs (push_word c v) RSP = regs c RSP - 8.
Proof. done. Qed.
Lemma push_reg c v r : r ≠ RSP → regs (push_word c v) r = regs c r.
Proof. intros Hr. cbn. by rewrite decide_False. Qed.
Lemma push_words c v a : words (push_word c v) a = if a =? regs c RSP - 8 then v else words c a.
Proof. done. Qed.

(** Five words pushed. *)
Lemma push_five c v1 v2 v3 v4 v5 :
  let c5 := push_word (push_word (push_word (push_word (push_word c v1) v2) v3) v4) v5 in let sp := regs c RSP in
  regs c5 RSP = sp - 40 ∧ (∀ r, r ≠ RSP → regs c5 r = regs c r) ∧
  words c5 (sp - 40) = v5 ∧ words c5 (sp - 24) = v3 ∧ words c5 (sp - 16) = v2 ∧
  ∀ a, sp ≤ a → words c5 a = words c a.
Proof.
  cbv zeta. split_and!.
  - rewrite !push_sp. lia.
  - intros r Hr. by rewrite !push_reg.
  - rewrite push_words, !push_sp. by rewrite (proj2 (Z.eqb_eq _ _)) by lia.
  - rewrite !push_words, !push_sp. rewrite !(proj2 (Z.eqb_neq _ _)) by lia. by rewrite (proj2 (Z.eqb_eq _ _)) by lia.
  - rewrite !push_words, !push_sp. do 3 rewrite (proj2 (Z.eqb_neq _ _)) by lia. by rewrite (proj2 (Z.eqb_eq _ _)) by lia.
  - intros a Ha. rewrite !push_words, !push_sp. by rewrite !(proj2 (Z.eqb_neq _ _)) by lia.
Qed.

(** The interrupt frame. *)
Lemma deliver_spec target c : let sp := regs c RSP / 16 * 16 in let c0 := deliver target c in
  regs c0 RSP = sp - 40 ∧ (∀ r, r ≠ RSP → regs c0 r = regs c r) ∧
  words c0 (sp - 40) = rip c ∧ words c0 (sp - 24) = rflags c ∧ words c0 (sp - 16) = regs c RSP ∧
  ∀ a, sp ≤ a → words c0 a = words c a.
Proof.
  cbv zeta. unfold deliver. cbv zeta. set (c1 := set_reg c RSP (regs c RSP / 16 * 16)).
  assert (regs c1 RSP = regs c RSP / 16 * 16) as E by done. rewrite <- E.
  assert (∀ r, r ≠ RSP → regs c1 r = regs c r) as E1 by (intros r Hr; cbn; by rewrite decide_False).
  assert (∀ a, words c1 a = words c a) as E2 by done. clearbody c1.
  pose proof (push_five c1 0 (regs c RSP) (rflags c) KERNEL_CS (rip c)) as H5. cbv zeta in H5.
  revert H5. generalize (push_word (push_word (push_word (push_word (push_word c1 0) (regs c RSP)) (rflags c)) KERNEL_CS) (rip c)).
  intros c5 (H1 & H2 & H3 & H4 & H5 & H6). split_and!; [done| |done|done|done|].
  - intros r Hr. by rewrite <- E1, <- H2.
  - intros a Ha. rewrite <- E2. by apply H6.
Qed.

(** The alignment of the stack at the call, for an odd number of saved registers. *)
Lemma call_aligned l target c : RSP ∉ l → Z.of_nat (length l) mod 2 = 1 →
  regs (exec handler (Push <$> l) (deliver target c)) RSP mod 16 = 0.
Proof.
  intros Hsp Hodd. destruct (exec_push l (deliver target c) Hsp) as (-> & _).
  destruct (deliver_spec target c) as (-> & _). rewrite (Z.div_mod (Z.of_nat (length l)) 2), Hodd by lia.
  replace (regs c RSP / 16 * 16 - 40 - 8 * (2 * (Z.of_nat (length l) / 2) + 1))
    with (0 + (regs c RSP / 16 - Z.of_nat (length l) / 2 - 3) * 16) by lia. by rewrite Z.mod_add by lia.
Qed.

(** A stub that saves at least the caller-saved registers. *)
Lemma stub_ok l top target c :
  abi top handler → regs c RSP ≤ top → RSP ∉ l → NoDup l → (∀ r, r ∈ caller_saved → r ∈ l) → Z.of_nat (length l) mod 2 = 1 →
  let c' := exec handler ((Push <$> l) ++ [Call] ++ (Pop <$> reverse l) ++ [Iretq]) (deliver target c) in
  (∀ r, regs c' r = regs c r) ∧ rip c' = rip c ∧ rflags c' = rflags c ∧
  ∀ a, regs c RSP ≤ a < top → words c' a = words c a.
Proof.
  intros Habi Htop Hsp Hnd Hcs Hodd. set (c0 := deliver target c). set (sp := regs c RSP / 16 * 16).
  assert (sp ≤ regs c RSP) as Hsp0 by (unfold sp; pose proof (Z.mul_div_le (regs c RSP) 16); lia).
  destruct (deliver_spec target c) as (S0 & R0 & W1 & W2 & W3 & W0). fold c0 sp in S0, R0, W1, W2, W3, W0.
  rewrite !exec_app. destruct (exec_push l c0 Hsp) as (P1 & P2 & P3 & P4).
  set (c1 := exec handler (Push <$> l) c0) in *. change (exec handler [Call] c1) with (handler c1).
  assert (regs c1 RSP mod 16 = 0) as Hal by by apply call_aligned.
  destruct (Habi c1 Hal) as [A1 A2]. set (c2 := handler c1) in *.
  assert (regs c2 RSP = regs c1 RSP) as S2 by (apply A1; unfold caller_saved; set_solver).
  destruct (exec_pop (reverse l) c2) as (Q1 & Q2 & Q3 & Q4);
    [by rewrite elem_of_reverse|by rewrite <- reverse_Permutation in Hnd|].
  set (c3 := exec handler (Pop <$> reverse l) c2) in *.
  rewrite length_reverse, S2, P1, S0 in Q1. assert (regs c3 RSP = sp - 40) as S3 by lia.
  assert (∀ a, sp - 40 ≤ a < top → words c3 a = words c0 a) as Hw.
  { intros a Ha. rewrite Q3, A2 by lia. apply P3. lia. }
  assert (∀ r, r ≠ RSP → regs c3 r = regs c r) as Hr.
  { intros r Hr. rewrite <- (R0 r Hr). destruct (decide (r ∈ l)) as [Hin|Hin].
    - apply elem_of_reverse, list_elem_of_lookup in Hin as [i Hi]. rewrite (Q4 i r Hi).
      pose proof (lookup_lt_Some _ _ _ Hi) as Hlt. rewrite length_reverse in Hlt. rewrite reverse_lookup in Hi by done.
      rewrite A2, <- (P4 _ r Hi), S2, P1 by lia. f_equal. lia.
    - rewrite Q2, A1, P2; [done|done| |done|by rewrite elem_of_reverse]. intros Hc. by apply Hin, Hcs. }
  cbn [exec foldl exec_instr regs words rip rflags]. rewrite S3. split_and!.
  - intros r. destruct (decide (r = RSP)) as [->|Hne]; [|by apply Hr]. rewrite Hw by lia. by replace (sp - 40 + 24) with (sp - 16) by lia.
  - by rewrite Hw by lia.
  - rewrite Hw by lia. by replace (sp - 40 + 16) with (sp - 24) by lia.
  - intros a Ha. rewrite Hw by lia. apply W0. lia.
Qed.

Definition stub_saved (s : Stub) : list reg := match s with isr_spurious => all_saved | _ => caller_saved end.
Lemma stub_code_eq s : stub_code s = (Push <$> stub_saved s) ++ [Call] ++ (Pop <$> reverse (stub_saved s)) ++ [Iretq].
Proof. by destruct s. Qed.

(** The processor when the stub calls its handler. *)
Definition at_call (s : Stub) (target : Z) (c : cpu) : cpu := exec handler (Push <$> stub_saved s) (deliver target c).

Lemma stubs_ok s top target c : abi top handler → regs c RSP ≤ top →
  let c' := exec handler (stub_code s) (deliver target c) in
  (∀ r, regs c' r = regs c r) ∧ rip c' = rip c ∧ rflags c' = rflags c ∧
  (∀ a, regs c RSP ≤ a < top → words c' a = words c a).
Proof.
  intros Habi Htop. assert ((RSP ∉ caller_saved) ∧ NoDup caller_saved ∧ (RSP ∉ all_saved) ∧ NoDup all_saved) as (H1 & H2 & H3 & H4).
  { by split_and!; apply (bool_decide_unpack _); vm_compute. }
  destruct s; [apply (stub_ok caller_saved top)..|apply (stub_ok all_saved top)]; try done.
  unfold caller_saved, all_saved. intros r. set_solver.
Qed.
Lemma stub_xmm s target c : xmm (exec handler (stub_code s) (deliver target c)) = xmm (handler (at_call s target c)).
Proof.
  rewrite stub_code_eq, !exec_app. rewrite (exec_xmm [Iretq]), (exec_xmm (Pop <$> _)); [done|..].
  - intros i (r & -> & _)%list_elem_of_fmap. done.
  - intros i ->%list_elem_of_singleton. done.
Qed.
Lemma at_call_aligned s target c : regs (at_call s target c) RSP mod 16 = 0.
Proof.
  unfold at_call. apply call_aligned; [|by destruct s].
  destruct s; by apply (bool_decide_unpack _); vm_compute.
Qed.
Lemma at_call_xmm s target c : xmm (at_call s target c) = xmm c.
Proof. unfold at_call. rewrite exec_xmm; [done|]. intros i (r & -> & _)%list_elem_of_fmap. done. Qed.
End stubs.

(** ** The controllers *)

Section pics.
Context {D : Type} `{Ports D, !Pics D}.

(** The two controllers are out of initialization. *)
Definition ready (d : D) : Prop := icw (pic1 d) = 0%nat ∧ icw (pic2 d) = 0%nat.
Definition set_imr (p : Pic) (v : Z) : Pic := mkPic v (in_service p) (offset p) (icw p) (read_isr p) (irr p).

Lemma pic_data_ready v p : icw p = 0%nat → pic_data v p = set_imr p v.
Proof. intros E. unfold pic_data, set_imr. by rewrite E. Qed.

(** The effect of every port write of the driver on the two controllers. *)
Ltac pic_writes :=
  repeat first
    [ rewrite (proj1 (out_pic1_command _ _)) | rewrite (proj2 (out_pic1_command _ _))
    | rewrite (proj1 (out_pic1_data _ _)) | rewrite (proj2 (out_pic1_data _ _))
    | rewrite (proj1 (out_pic2_command _ _)) | rewrite (proj2 (out_pic2_command _ _))
    | rewrite (proj1 (out_pic2_data _ _)) | rewrite (proj2 (out_pic2_data _ _))
    | rewrite (proj1 (out_wait _)) | rewrite (proj2 (out_wait _)) ].
(** Run a driver program port by port. *)
Ltac run_ports :=
  unfold inb, outb, io_wait, mbind, ioM_bind, mret, ioM_ret;
  repeat (cbn [mbind outcome_bind];
          first [rewrite in_pic1_data | rewrite in_pic2_data | rewrite in_pic1_command | rewrite in_pic2_command]);
  unfold outb; cbn [mbind outcome_bind].

Lemma pic_init_ok d : ∃ d', pic_init d = Ret (d', ()) ∧
  pic1 d' = mkPic (imr (pic1 d)) 0 PIC1_OFFSET 0 false (irr (pic1 d)) ∧
  pic2 d' = mkPic (imr (pic2 d)) 0 PIC2_OFFSET 0 false (irr (pic2 d)).
Proof. unfold pic_init. run_ports. eexists. split; [reflexivity|]. pic_writes. done. Qed.

Lemma enable_irq_ok irq d : ready d → ∃ d', enable_irq irq d = Ret (d', ()) ∧
  pic1 d' = set_imr (pic1 d) (Z.land (imr (pic1 d)) (unbit8 (if irq <? 8 then irq else 2))) ∧
  pic2 d' = (if irq <? 8 then pic2 d else set_imr (pic2 d) (Z.land (imr (pic2 d)) (unbit8 (irq - 8)))).
Proof.
  intros [H1 H2]. unfold enable_irq. destruct (irq <? 8).
  - run_ports. eexists. split; [reflexivity|]. pic_writes. by rewrite pic_data_ready.
  - run_ports. eexists. split; [reflexivity|]. pic_writes. by rewrite !pic_data_ready.
Qed.

Lemma send_eoi_ok irq d : ∃ d', send_eoi irq d = Ret (d', ()) ∧
  pic1 d' = pic_command PIC_EOI (pic1 d) ∧
  pic2 d' = (if 8 <=? irq then pic_command PIC_EOI (pic2 d) else pic2 d).
Proof.
  unfold send_eoi. destruct (8 <=? irq); run_ports; (eexists; split; [reflexivity|]); pic_writes; done.
Qed.

(** The interrupt is in service: at its controller and, for the second one, at the
    cascade input of the first; nothing else is. *)
Definition serving (irq : Z) (d : D) : Prop :=
  if irq <? 8 then in_service (pic1 d) = bit8 irq
  else in_service (pic2 d) = bit8 (irq - 8) ∧ in_service (pic1 d) = bit8 2.
Definition idle (irq : Z) (d : D) : Prop :=
  in_service (pic1 d) = 0 ∧ (8 ≤ irq → in_service (pic2 d) = 0).

Lemma clear_only n : 0 ≤ n < 8 → clear_lowest 8 0 (bit8 n) = 0.
Proof.
  intros Hn. assert (n = 0 ∨ n = 1 ∨ n = 2 ∨ n = 3 ∨ n = 4 ∨ n = 5 ∨ n = 6 ∨ n = 7) as Hc by lia.
  destruct_or! Hc; by subst.
Qed.

Lemma send_eoi_serving irq d : 0 ≤ irq < 16 → serving irq d →
  ∃ d', send_eoi irq d = Ret (d', ()) ∧ idle irq d'.
Proof.
  intros Hi Hs. destruct (send_eoi_ok irq d) as (d' & -> & E1 & E2). exists d'. split; [done|].
  unfold serving in Hs. unfold idle. rewrite E1, E2. destruct (Z.ltb_spec irq 8).
  - rewrite (proj2 (Z.leb_gt 8 irq)) by lia. cbn -[clear_lowest]. rewrite Hs. split; [apply clear_only; lia|lia].
  - rewrite (proj2 (Z.leb_le 8 irq)) by lia. destruct Hs as [Hs1 Hs2]. cbn -[clear_lowest]. rewrite Hs1, Hs2.
    split; [done|]. intros _. apply clear_only. lia.
Qed.

(** Reading the keyboard controller does not touch the interrupt controllers. *)
Lemma inb_ps2 {A} p (f : Z → ioM D A) d : p = PS2_DATA ∨ p = PS2_STATUS →
  ∃ d' v, (inb p ≫= f) d = f v d' ∧ pic1 d' = pic1 d ∧ pic2 d' = pic2 d.
Proof.
  intros Hp. destruct (in_ps2 p d Hp) as [E1 E2]. exists (port_inb p d).1, (port_inb p d).2.
  split; [|done]. unfold inb, mbind, ioM_bind. cbn [mbind outcome_bind]. by destruct (port_inb p d).
Qed.

Ltac read_ps2 d v E1 E2 :=
  match goal with
  | |- context [mbind ?f (inb ?p) ?d0] =>
      destruct (inb_ps2 p f d0) as (d & v & -> & E1 & E2); [by (left + right)|]
  end.

Lemma serving_eq irq d d' : pic1 d' = pic1 d → pic2 d' = pic2 d → serving irq d → serving irq d'.
Proof. intros E1 E2. unfold serving. by rewrite E1, E2. Qed.

Lemma keyboard_handler_ok d : serving 1 d → ∃ d', keyboard_handler d = Ret (d', ()) ∧ idle 1 d'.
Proof.
  intros Hs. unfold keyboard_handler.
  read_ps2 d1 v E1 E2.
  apply send_eoi_serving; [lia|by eapply serving_eq].
Qed.

Lemma mouse_handle_interrupt_ok m d : mouse_ok m →
  ∃ d' m', mouse_handle_interrupt m d = Ret (d', m') ∧ mouse_ok m' ∧ pic1 d' = pic1 d ∧ pic2 d' = pic2 d.
Proof.
  intros Hm. unfold mouse_handle_interrupt.
  read_ps2 d1 v E1 E2. case_match; [by exists d1, m|].
  read_ps2 d2 b E3 E4.
  exists d2, (accept_byte m b). split; [done|]. split; [by apply accept_byte_ok|]. by rewrite E3, E4.
Qed.

Lemma mouse_poll_ok m d : mouse_ok m →
  ∃ d' r, mouse_poll m d = Ret (d', r) ∧ mouse_ok r.1 ∧ pic1 d' = pic1 d ∧ pic2 d' = pic2 d.
Proof.
  intros Hm. unfold mouse_poll.
  read_ps2 d1 v E1 E2. case_match; [|by exists d1, (m, false)].
  destruct (mouse_handle_interrupt_ok m d1 Hm) as (d2 & m' & E & Hm' & E3 & E4).
  rewrite (ioM_bind_Ret _ _ _ _ _ E). exists d2, (m', true). split; [done|]. split; [done|]. by rewrite E3, E4.
Qed.

Lemma mouse_handler_ok m d : serving 12 d → mouse_ok m →
  ∃ d' m', mouse_handler m d = Ret (d', m') ∧ mouse_ok m' ∧ idle 12 d'.
Proof.
  intros Hs Hm. unfold mouse_handler. destruct (mouse_handle_interrupt_ok m d Hm) as (d1 & m' & E & Hm' & E1 & E2).
  rewrite (ioM_bind_Ret _ _ _ _ _ E). destruct (send_eoi_serving 12 d1) as (d2 & E3 & Hi); [lia|by eapply serving_eq|].
  rewrite (ioM_bind_Ret _ _ _ _ _ E3). by exists d2, m'.
Qed.

(** The tooltip can be drawn for every position of the mouse. *)
Definition redrawable (w : Desktop) : Prop :=
  ∀ m, mouse_ok m → ∃ w', cursor_update (mkDesktop (vis w) m (ms w)) = Ret w'.

Lemma timer_handler_ok count w d : serving 0 d → mouse_ok (mouse w) → redrawable w →
  ∃ d' w', timer_handler count w d = Ret (d', (tick count, w')) ∧ idle 0 d'.
Proof.
  intros Hs Hm Hw. unfold timer_handler.
  assert (∃ d1 w', timer_tick count w d = Ret (d1, (tick count, w')) ∧ pic1 d1 = pic1 d ∧ pic2 d1 = pic2 d)
    as (d1 & w' & E & E1 & E2).
  { unfold timer_tick. case_match; [|by exists d, w].
    destruct (mouse_poll_ok (mouse w) d Hm) as (d1 & [m b] & E & Hm' & E1 & E2).
    rewrite (ioM_bind_Ret _ _ _ _ _ E). destruct (Hw m Hm') as [w' Ew]. exists d1, w'.
    unfold pure_io, mbind, ioM_bind. rewrite Ew. done. }
  rewrite (ioM_bind_Ret _ _ _ _ _ E). destruct (send_eoi_serving 0 d1) as (d2 & E3 & Hi); [lia|by eapply serving_eq|].
  rewrite (ioM_bind_Ret _ _ _ _ _ E3). by exists d2, w'.
Qed.

Lemma ne2000_handler_ok handle_interrupt d : serving 10 d →
  (∃ d1, handle_interrupt d = Ret (d1, ()) ∧ pic1 d1 = pic1 d ∧ pic2 d1 = pic2 d) →
  ∃ d', ne2000_handler handle_interrupt d = Ret (d', ()) ∧ idle 10 d'.
Proof.
  intros Hs (d1 & E & E1 & E2). unfold ne2000_handler. rewrite (ioM_bind_Ret _ _ _ _ _ E).
  apply send_eoi_serving; [lia|by eapply serving_eq].
Qed.

(** IRQ 7 in service is acknowledged; a spurious IRQ 7 is not, and ends nothing. *)
Lemma spurious_handler_ok d : ∃ d', spurious_handler d = Ret (d', ()) ∧ pic2 d' = pic2 d ∧
  in_service (pic1 d') = if Z.testbit (in_service (pic1 d)) 7 then clear_lowest 8 0 (in_service (pic1 d)) else in_service (pic1 d).
Proof.
  assert (∀ z, (Z.land z 0x80 =? 0) = negb (Z.testbit z 7)) as Hb by (intros z; by apply (land_bit z 7)).
  unfold spurious_handler, is_spurious. cbn [Z.eqb Pos.eqb]. unfold send_eoi. cbn [Z.leb Z.compare Pos.compare Pos.compare_cont].
  run_ports. pic_writes. rewrite Hb.
  change (if read_isr (pic_command 11 (pic1 d)) then in_service (pic_command 11 (pic1 d)) else irr (pic_command 11 (pic1 d)))
    with (in_service (pic1 d)).
  destruct (Z.testbit (in_service (pic1 d)) 7) eqn:E; cbn [negb];
    (eexists; split; [reflexivity|]); pic_writes; done.
Qed.

(** ** From the controllers to the handlers *)

Definition masked (d : D) (irq : Z) : bool :=
  if irq <? 8 then Z.testbit (imr (pic1 d)) irq else Z.testbit (imr (pic2 d)) (irq - 8).
Definition vector (d : D) (irq : Z) : Z :=
  if irq <? 8 then offset (pic1 d) + irq else offset (pic2 d) + (irq - 8).

(** What [kernel_main] does to the controllers; [card] and [mouse]: whether
    [ne2000::init] and, in graphics mode, [mouse::init] succeed. *)
Definition boot_irqs (card mouse : bool) : ioM D unit :=
  _ ← pic_init;
  _ ← enable_irq 0;
  _ ← (if card then enable_irq 10 else mret ());
  if mouse then enable_irq 12 else mret ().
Definition enabled_irqs (card mouse : bool) : list Z :=
  0 :: (if card then [2; 10] else []) ++ (if mouse then [2; 12] else []).

Lemma enable_if b irq d : 8 ≤ irq → ready d →
  ∃ d', (if b : bool then enable_irq irq else mret ()) d = Ret (d', ()) ∧
    pic1 d' = set_imr (pic1 d) (if b then Z.land (imr (pic1 d)) (unbit8 2) else imr (pic1 d)) ∧
    pic2 d' = set_imr (pic2 d) (if b then Z.land (imr (pic2 d)) (unbit8 (irq - 8)) else imr (pic2 d)).
Proof.
  intros Hi Hd. destruct b; [|exists d; by destruct (pic1 d), (pic2 d)].
  destruct (enable_irq_ok irq d Hd) as (d' & E & A & B). rewrite (proj2 (Z.ltb_ge irq 8)) in A, B by lia. by exists d'.
Qed.

Lemma boot_irqs_ok card mouse d : ∃ d', boot_irqs card mouse d = Ret (d', ()) ∧ ready d' ∧
  offset (pic1 d') = PIC1_OFFSET ∧ offset (pic2 d') = PIC2_OFFSET ∧
  imr (pic1 d') = Z.land (imr (pic1 d)) (if card || mouse then 0xFA else 0xFE) ∧
  imr (pic2 d') = Z.land (imr (pic2 d)) (Z.land (if card then 0xFB else -1) (if mouse then 0xEF else -1)).
Proof.
  unfold boot_irqs. destruct (pic_init_ok d) as (d1 & E1 & A1 & B1). rewrite (ioM_bind_Ret _ _ _ _ _ E1).
  destruct (enable_irq_ok 0 d1) as (d2 & E2 & A2 & B2); [by split; rewrite ?A1, ?B1|].
  cbn in B2. rewrite (ioM_bind_Ret _ _ _ _ _ E2).
  destruct (enable_if card 10 d2) as (d3 & E3 & A3 & B3); [lia|by split; rewrite ?A2, ?B2, ?A1, ?B1|].
  rewrite (ioM_bind_Ret _ _ _ _ _ E3).
  destruct (enable_if mouse 12 d3) as (d4 & E4 & A4 & B4); [lia|by split; rewrite ?A3, ?B3, ?A2, ?B2, ?A1, ?B1|].
  exists d4. split; [done|]. unfold ready. rewrite A4, B4, A3, B3, A2, B2, A1, B1.
  destruct card, mouse; cbn -[Z.land]; rewrite <- ?Z.land_assoc; rewrite ?Z.land_m1_r; done.
Qed.
End pics.

Lemma land_shift_split h : 0 ≤ h < 18446744073709551616 →
  u16 (Z.land h 0xFFFF) + 65536 * u16 (Z.land (Z.shiftr h 16) 0xFFFF)
    + 4294967296 * u32 (Z.land (Z.shiftr h 32) 0xFFFFFFFF) = h.
Proof.
  intros Hh. change 0xFFFF with (Z.ones 16). change 0xFFFFFFFF with (Z.ones 32).
  rewrite !Z.land_ones, !Z.shiftr_div_pow2 by lia.
  change (2 ^ 16) with 65536. change (2 ^ 32) with 4294967296.
  unfold u16, u32. rewrite !Z.mod_mod by lia.
  pose proof (Z.div_mod h 65536). pose proof (Z.div_mod (h / 65536) 65536).
  rewrite Z.div_div in * by lia. change (65536 * 65536) with 4294967296 in *.
  assert (0 ≤ h / 4294967296 < 4294967296) by (split; [apply Z.div_pos; lia|apply Z.div_lt_upper_bound; lia]).
  rewrite (Z.mod_small (h / 4294967296)) by lia. lia.
Qed.

Lemma gate_new h sel i : 0 ≤ h < 18446744073709551616 → gate_target (IdtEntry_new h sel i) = Some (sel, h).
Proof. intros Hh. unfold gate_target. cbn -[Z.land Z.shiftr u16 u32 Z.mul Z.add]. by rewrite land_shift_split. Qed.

(** The interrupt request and the stub of each line that the kernel handles. *)
Definition wiring : list (Z * Stub) :=
  [(0, isr_timer); (1, isr_keyboard); (7, isr_spurious); (10, isr_ne2000); (12, isr_mouse); (15, isr_spurious)].

Lemma idt_init_lookup addr v : (v < 256)%nat →
  idt_init addr IDT_initial !! v =
  Some match list_find (λ p, 32 + p.1 = Z.of_nat v) wiring with
       | Some (_, p) => IdtEntry_new (addr p.2) KERNEL_CS 0
       | None => IdtEntry_null
       end.
Proof.
  intros Hv. unfold idt_init.
  assert (length IDT_initial = 256%nat) as Hl by apply length_replicate.
  assert (∀ k e (l : list IdtEntry), length l = 256%nat → (k < 256)%nat →
    (<[k := e]> l !! v = if decide (v = k) then Some e else l !! v)) as Hi.
  { intros k e l Hl' Hk. destruct (decide (v = k)) as [->|Hne].
    - by rewrite list_lookup_insert_eq by lia.
    - by rewrite list_lookup_insert_ne. }
  rewrite !Hi by (rewrite ?length_insert; lia).
  assert (IDT_initial !! v = Some IdtEntry_null) as -> by (by apply lookup_replicate_2).
  cbn [wiring list_find]. repeat case_decide; cbn in *; try done; try lia.
Qed.

Lemma small_cases n : 0 ≤ n < 16 → n ∈ seqZ 0 16.
Proof. intros. apply elem_of_seqZ. lia. Qed.

(** A board with the two controllers and a keyboard controller with data waiting. *)
Record Board : Type := mkBoard { b_pic1 : Pic; b_pic2 : Pic }.
Definition on_pic1 (f : Pic → Pic) (b : Board) : Board := mkBoard (f (b_pic1 b)) (b_pic2 b).
Definition on_pic2 (f : Pic → Pic) (b : Board) : Board := mkBoard (b_pic1 b) (f (b_pic2 b)).
Definition status_of (p : Pic) : Z := if read_isr p then in_service p else irr p.
#[global] Instance board_ports : Ports Board := {
  port_inb p b :=
    (b, if p =? PIC1_DATA then imr (b_pic1 b) else if p =? PIC2_DATA then imr (b_pic2 b)
        else if p =? PIC1_COMMAND then status_of (b_pic1 b) else if p =? PIC2_COMMAND then status_of (b_pic2 b)
        else if p =? PS2_STATUS then 0x21 else 0x08);
  port_outb p v b :=
    if p =? PIC1_DATA then on_pic1 (pic_data v) b else if p =? PIC2_DATA then on_pic2 (pic_data v) b
    else if p =? PIC1_COMMAND then on_pic1 (pic_command v) b
    else if p =? PIC2_COMMAND then on_pic2 (pic_command v) b else b;
  port_inw _ b := (b, 0);
  port_outw _ _ b := b }.
#[global] Program Instance board_pics : Pics Board := { pic1 := b_pic1; pic2 := b_pic2 }.
Solve Obligations with done.

(** What the firmware leaves: only the timer, the keyboard and the cascade unmasked. *)
Definition firmware : Board := mkBoard (mkPic 0xF8 0 8 0 false 0) (mkPic 0xFF 0 0x70 0 false 0).

(** ** Properties *)

(** C14: an interrupt is transparent to integer code.  Whatever the handler
    does within the calling convention, each of the five stubs, entered through
    the interrupt frame that the processor pushes on a stack of any alignment,
    calls its handler on an aligned stack and returns with the sixteen general registers,
    the flags, the instruction pointer and the interrupted stack as they were.  The
    vector registers are not saved: they are what the handler left in them, and so
    unchanged if the handler uses none. *)
Theorem isr_transparent handler s top target c :
  abi top handler → regs c RSP ≤ top →
  let c' := exec handler (stub_code s) (deliver target c) in
  (∀ r, regs c' r = regs c r) ∧ rip c' = rip c ∧ rflags c' = rflags c ∧
  (∀ a, regs c RSP ≤ a < top → words c' a = words c a) ∧
  regs (at_call handler s target c) RSP mod 16 = 0 ∧
  xmm c' = xmm (handler (at_call handler s target c)) ∧
  ((∀ x, xmm (handler x) = xmm x) → xmm c' = xmm c).
Proof.
  intros Habi Htop c'. destruct (stubs_ok handler s top target c Habi Htop) as (Hr & Hi & Hf & Hw).
  split_and!; [done..|apply at_call_aligned|apply stub_xmm|].
  intros Hx. unfold c'. by rewrite stub_xmm, Hx, at_call_xmm.
Qed.

(** A handler that clobbers every caller-saved register and writes below the stack. *)
Definition rude_handler (c : cpu) : cpu :=
  mkCpu (λ r, if decide (r ∈ caller_saved) then 0xDEAD else regs c r) (λ _, 0xDEAD)
    (λ a, if a <? regs c RSP then 0xBEEF else words c a) (rip c) (rflags c).
Lemma rude_handler_abi top : abi top rude_handler.
Proof.
  intros c _. split.
  - intros r Hr. cbn. by rewrite decide_False.
  - intros a [Ha _]. cbn. by rewrite (proj2 (Z.ltb_ge _ _)).
Qed.
Definition some_cpu : cpu := mkCpu (λ r, if decide (r = RSP) then 0x8FFF1 else 7) (λ _, 1) (λ a, a) 0x101234 0x202.

(** A handler within the calling convention after whose interrupt the interrupted code
    finds its vector registers changed. *)
Lemma isr_loses_xmm :
  abi 0x90000 rude_handler ∧
  xmm (exec rude_handler (stub_code isr_timer) (deliver 0x100000 some_cpu)) 0%nat ≠ xmm some_cpu 0%nat.
Proof. split; [apply rude_handler_abi|]. by rewrite stub_xmm. Qed.

Lemma isr_transparent_witness :
  regs (exec rude_handler (stub_code isr_timer) (deliver 0x100000 some_cpu)) RAX = 7 ∧
  rip (exec rude_handler (stub_code isr_timer) (deliver 0x100000 some_cpu)) = 0x101234.
Proof.
  destruct (isr_transparent rude_handler isr_timer 0x90000 0x100000 some_cpu) as (H1 & H2 & _).
  - apply rude_handler_abi.
  - change (regs some_cpu RSP) with 0x8FFF1. lia.
  - split; [exact (H1 RAX)|exact H2].
Defined.

(** C15: after boot, a request of one of the six lines with a handler reaches it.  The
    controllers end out of initialization with line 0 unmasked, lines 2 and 10 if
    there is a network card, lines 2 and 12 if there is a mouse, and every other line
    as the firmware left it; the request's vector is 32 plus its line; and for the
    lines 0, 1, 7, 10, 12 and 15 the descriptor that the processor finds there is
    a present interrupt gate with the kernel's code selector and the address of the
    stub of that line.  Every other descriptor is absent, those of line 2 and of
    the other lines that the firmware may have left unmasked included. *)
Theorem irq_delivery_spec {D} `{Pics D} (addr : Stub → Z) card mouse (d : D) :
  (∀ s, 0 ≤ addr s < 18446744073709551616) →
  ∃ d', boot_irqs card mouse d = Ret (d', ()) ∧ ready d' ∧
    (∀ irq, 0 ≤ irq < 16 → masked d' irq = masked d irq && negb (bool_decide (irq ∈ enabled_irqs card mouse)) ∧
       vector d' irq = 32 + irq) ∧
    (∀ irq s, (irq, s) ∈ wiring → ∃ e,
       idt_init addr IDT_initial !! Z.to_nat (vector d' irq) = Some e ∧ gate_target e = Some (KERNEL_CS, addr s)) ∧
    (∀ v, (v < 256)%nat → (Z.of_nat v - 32 ∉ wiring.*1) → ∃ e,
       idt_init addr IDT_initial !! v = Some e ∧ gate_target e = None).
Proof.
  intros Haddr. destruct (boot_irqs_ok card mouse d) as (d' & E & Hr & O1 & O2 & M1 & M2). exists d'.
  split; [done|]. split; [done|].
  assert (∀ irq, 0 ≤ irq < 16 → vector d' irq = 32 + irq) as Hv.
  { intros irq Hi. unfold vector. rewrite O1, O2. unfold PIC1_OFFSET, PIC2_OFFSET. destruct (Z.ltb_spec irq 8); lia. }
  split_and!.
  - intros irq Hi. split; [|by apply Hv]. unfold masked. rewrite M1, M2, !Z.land_spec.
    apply small_cases in Hi. destruct card, mouse;
      (repeat (apply elem_of_cons in Hi as [->|Hi]; [by cbn|])); by apply elem_of_nil in Hi.
  - intros irq s Hw. repeat (apply elem_of_cons in Hw as [[= -> ->]|Hw];
      [rewrite Hv, idt_init_lookup by (cbn; lia); eexists; split; [reflexivity|by apply gate_new]|]).
    by apply elem_of_nil in Hw.
  - intros v Hlt Hw. rewrite idt_init_lookup by done. eexists. split; [reflexivity|].
    destruct (list_find _ _) as [[i [irq s]]|] eqn:E'; [|done]. exfalso. apply Hw.
    apply list_find_Some in E' as (Hi & Hp & _). cbn in Hp. replace (Z.of_nat v - 32) with irq by lia.
    apply (list_elem_of_fmap_2 fst _ (irq, s)). by eapply list_elem_of_lookup_2.
Qed.

Lemma irq_delivery_spec_witness : ∃ b e,
  boot_irqs true true firmware = Ret (b, ()) ∧ masked b 12 = false ∧ masked b 3 = true ∧
  idt_init (λ _, 0x123456789) IDT_initial !! 44%nat = Some e ∧ gate_target e = Some (KERNEL_CS, 0x123456789).
Proof.
  destruct (irq_delivery_spec (λ _, 0x123456789) true true firmware) as (b & E & _ & H1 & H2 & _); [lia|].
  destruct (H1 12) as [M12 V12]; [lia|]. destruct (H1 3) as [M3 _]; [lia|].
  destruct (H2 12 isr_mouse) as (e & E1 & E2); [unfold wiring; set_solver|].
  exists b, e. split; [exact E|]. split; [by rewrite M12|]. split; [by rewrite M3|].
  split; [|exact E2]. rewrite <- E1, V12. reflexivity.
Defined.

(** C16: the handlers of lines 0, 1, 10 and 12 end their interrupts.  If the line is in
    service when the handler runs, the handler returns with the controllers idle again, so
    the next request of the line can be delivered: the timer (with the tick counted, and
    the cursor updated if it can be), the keyboard, the network card (whatever its driver
    does, if it leaves the controllers alone) and the mouse (its state kept well
    formed).  The handler that lines 7 and 15 share ends the interrupt exactly when line 7
    is in service; an interrupt of line 15 it never ends, at either controller. *)
Theorem irq_handlers_spec {D} `{Pics D} (d : D) :
  (∀ count w, serving 0 d → mouse_ok (mouse w) → redrawable w →
     ∃ d' w', timer_handler count w d = Ret (d', (tick count, w')) ∧ idle 0 d') ∧
  (serving 1 d → ∃ d', keyboard_handler d = Ret (d', ()) ∧ idle 1 d') ∧
  (∀ handle_interrupt, serving 10 d →
     (∃ d1, handle_interrupt d = Ret (d1, ()) ∧ pic1 d1 = pic1 d ∧ pic2 d1 = pic2 d) →
     ∃ d', ne2000_handler handle_interrupt d = Ret (d', ()) ∧ idle 10 d') ∧
  (∀ m, serving 12 d → mouse_ok m →
     ∃ d' m', mouse_handler m d = Ret (d', m') ∧ mouse_ok m' ∧ idle 12 d') ∧
  (∃ d', spurious_handler d = Ret (d', ()) ∧ (serving 7 d → in_service (pic1 d') = 0) ∧
     (Z.testbit (in_service (pic1 d)) 7 = false → in_service (pic1 d') = in_service (pic1 d)) ∧
     (serving 15 d → serving 15 d')).
Proof.
  split_and!.
  - intros. by apply timer_handler_ok.
  - apply keyboard_handler_ok.
  - intros. by apply ne2000_handler_ok.
  - intros. by apply mouse_handler_ok.
  - destruct (spurious_handler_ok d) as (d' & E & E2 & Hs). exists d'. split; [done|].
    unfold serving. cbn [Z.ltb Z.compare Pos.compare Pos.compare_cont]. split_and!.
    + intros Hi. rewrite Hs, Hi. by apply clear_only.
    + intros Hb. by rewrite Hs, Hb.
    + intros [H15 H2]. by rewrite E2, Hs, H2.
Qed.

(** The board while the mouse interrupt is in service. *)
Definition mouse_interrupted : Board := mkBoard (mkPic 0xF8 (bit8 2) 32 0 false 0) (mkPic 0xEF (bit8 4) 40 0 false 0).

Lemma irq_handlers_spec_witness : ∃ b m,
  mouse_handler Mouse_initial mouse_interrupted = Ret (b, m) ∧ PACKET_BYTE_INDEX m = 1 ∧ idle 12 b.
Proof.
  destruct (irq_handlers_spec mouse_interrupted) as (_ & _ & _ & H & _).
  destruct (H Mouse_initial) as (b & m & E & _ & Hi).
  - split; reflexivity.
  - unfold mouse_ok, SCREEN_WIDTH, SCREEN_HEIGHT. cbn. lia.
  - exists b, m. split; [exact E|]. split; [|exact Hi]. vm_compute in E. injection E as <- <-. reflexivity.
Defined.

(** A spurious request of line 15 shares the handler of line 7, which asks the first
    controller about line 7 only: the cascade input stays in service, and the lines
    3 to 15 stay blocked. *)
Lemma spurious15_blocks {D} `{Pics D} (d : D) : in_service (pic1 d) = bit8 2 → in_service (pic2 d) = 0 →
  ∃ d', spurious_handler d = Ret (d', ()) ∧ in_service (pic1 d') = bit8 2.
Proof. intros E _. destruct (spurious_handler_ok d) as (d' & ? & _ & Hs). exists d'. split; [done|]. by rewrite Hs, E. Qed.
