(* ===== verification/Ne2000.v ===== *)
(** The NE2000 driver (src/net/ne2000.rs) as port programs, and the card it drives.
    The card is a parameter: a device whose registers, buffer memory and remote DMA
    behave as documented (DP8390, as in the emulator the driver is written for),
    which receives frames at any time, also between two port accesses of the
    driver.  The driver is proved to implement what the protocol stack assumes of
    it: [nic_send] of NetBase and [receive_frame] of Packet. *)

From S2P Require Import Prelude NetBase Packet PortIO.
#[local] Open Scope Z_scope.

(** ** Constants *)

Definition NE2000_IOBASE : Z := 0x300.
Definition CR : Z := 0x00.
Definition PSTART : Z := 0x01.
Definition PSTOP : Z := 0x02.
Definition BNRY : Z := 0x03.
Definition TPSR : Z := 0x04.
Definition TBCR0 : Z := 0x05.
Definition TBCR1 : Z := 0x06.
Definition ISR : Z := 0x07.
Definition RSAR0 : Z := 0x08.
Definition RSAR1 : Z := 0x09.
Definition RBCR0 : Z := 0x0A.
Definition RBCR1 : Z := 0x0B.
Definition RCR : Z := 0x0C.
Definition TCR : Z := 0x0D.
Definition DCR : Z := 0x0E.
Definition IMR : Z := 0x0F.
Definition PAR0 : Z := 0x01.
Definition CURR : Z := 0x07.
Definition DATA : Z := 0x10.
Definition RESET : Z := 0x1F.
Definition CR_STP : Z := 0x01.
Definition CR_STA : Z := 0x02.
Definition CR_TXP : Z := 0x04.
Definition CR_PS0 : Z := 0x40.
Definition CR_DMA_NONE : Z := 0x20.
Definition CR_DMA_READ : Z := 0x08.
Definition CR_DMA_WRITE : Z := 0x10.
Definition ISR_PRX : Z := 0x01.
Definition ISR_PTX : Z := 0x02.
Definition ISR_RXE : Z := 0x04.
Definition ISR_TXE : Z := 0x08.
Definition ISR_OVW : Z := 0x10.
Definition ISR_CNT : Z := 0x20.
Definition ISR_RDC : Z := 0x40.
Definition ISR_RST : Z := 0x80.
Definition RCR_AB : Z := 0x04.
Definition DCR_WTS : Z := 0x01.
Definition DCR_FT1 : Z := 0x40.
Definition TX_START : Z := 0x40.
Definition RX_START : Z := 0x46.
Definition RX_STOP : Z := 0x80.

(** ** The driver *)

Record Ne2000 : Type := mkNe2000 { ne_mac : list Z; next_pkt : Z; initialized : bool }.
Definition Ne2000_initial : Ne2000 := mkNe2000 (replicate 6 0) RX_START false.
Definition set_next_pkt (s : Ne2000) (p : Z) : Ne2000 := mkNe2000 (ne_mac s) p (initialized s).

Section driver.
Context {D : Type} `{!Ports D}.

Definition nic_outb (r v : Z) : ioM D unit := outb (NE2000_IOBASE + r) v.
Definition nic_inb (r : Z) : ioM D Z := inb (NE2000_IOBASE + r).
Definition nic_inw (r : Z) : ioM D Z := inw (NE2000_IOBASE + r).
Definition nic_outw (r v : Z) : ioM D unit := outw (NE2000_IOBASE + r) v.

(** [for] loops that write consecutive registers. *)
Fixpoint outb_list (r : Z) (l : list Z) : ioM D unit :=
  match l with
  | [] => mret tt
  | v :: l => _ ← nic_outb r v; outb_list (r + 1) l
  end.

(** Polling for the reset bit; [false] if the timeout expires. *)
Fixpoint wait_reset (timeout : nat) : ioM D bool :=
  match timeout with
  | O => mret false
  | S timeout =>
      isr ← nic_inb ISR;
      if negb (Z.land isr ISR_RST =? 0) then mret true else wait_reset timeout
  end.

Fixpoint read_mac (n : nat) : ioM D (list Z) :=
  match n with
  | O => mret []
  | S n =>
      word ← nic_inw DATA;
      l ← read_mac n;
      mret (u8 word :: l)
  end.

Definition ne_init (s : Ne2000) : ioM D (Ne2000 * bool) :=
  reset_val ← nic_inb RESET;
  _ ← nic_outb RESET reset_val;
  ok ← wait_reset (Z.to_nat 10000);
  if negb ok then mret (s, false)
  else
    _ ← nic_outb ISR 0xFF;
    _ ← nic_outb CR (Z.lor CR_STP CR_DMA_NONE);
    _ ← nic_outb DCR (Z.lor DCR_WTS DCR_FT1);
    _ ← nic_outb RBCR0 0;
    _ ← nic_outb RBCR1 0;
    _ ← nic_outb RCR RCR_AB;
    _ ← nic_outb TCR 0;
    _ ← nic_outb PSTART RX_START;
    _ ← nic_outb PSTOP RX_STOP;
    _ ← nic_outb BNRY RX_START;
    _ ← nic_outb CR (Z.lor (Z.lor CR_STP CR_DMA_NONE) CR_PS0);
    _ ← nic_outb CURR (RX_START + 1);
    _ ← nic_outb CR (Z.lor CR_STP CR_DMA_NONE);
    _ ← nic_outb RSAR0 0;
    _ ← nic_outb RSAR1 0;
    _ ← nic_outb RBCR0 12;
    _ ← nic_outb RBCR1 0;
    _ ← nic_outb CR (Z.lor CR_STA CR_DMA_READ);
    mac ← read_mac 6;
    _ ← nic_outb CR (Z.lor CR_STP CR_DMA_NONE);
    _ ← nic_outb ISR ISR_RDC;
    _ ← nic_outb CR (Z.lor (Z.lor CR_STP CR_DMA_NONE) CR_PS0);
    _ ← outb_list PAR0 mac;
    _ ← outb_list 0x08 (replicate 8 0xFF);
    _ ← nic_outb CR (Z.lor CR_STP CR_DMA_NONE);
    _ ← nic_outb ISR 0xFF;
    _ ← nic_outb IMR (Z.lor (Z.lor (Z.lor (Z.lor ISR_PRX ISR_PTX) ISR_RXE) ISR_TXE) ISR_OVW);
    _ ← nic_outb CR (Z.lor CR_STA CR_DMA_NONE);
    mret (mkNe2000 mac (RX_START + 1) true, true).

(** [while inb(base + ISR) & ISR_RDC == 0 {}], at most [fuel] times. *)
Fixpoint wait_rdc (fuel : nat) : ioM D unit :=
  match fuel with
  | O => λ _, Diverge
  | S fuel =>
      isr ← nic_inb ISR;
      if Z.land isr ISR_RDC =? 0 then wait_rdc fuel else mret tt
  end.

(** [buffer[i] = b]. *)
Definition put (buffer : list Z) (i : nat) (b : Z) : outcome (list Z) :=
  if (i <? length buffer)%nat then Ret (<[i := b]> buffer) else Panic.
Definition pure_outcome {A} (o : outcome A) : ioM D A := λ d, a ← o; Ret (d, a).

(** The words from number [i] on of a packet of [data_len] bytes. *)
Fixpoint read_words (words i data_len : nat) (buffer : list Z) : ioM D (list Z) :=
  match words with
  | O => mret buffer
  | S words =>
      word ← nic_inw DATA;
      let idx := (i * 2)%nat in
      buffer ← (if (idx <? data_len)%nat then pure_outcome (put buffer idx (u8 word)) else mret buffer);
      buffer ← (if (idx + 1 <? data_len)%nat
                then pure_outcome (put buffer (idx + 1) (u8 (Z.shiftr word 8))) else mret buffer);
      read_words words (i + 1) data_len buffer
  end.

Definition start_read (lo page count_lo count_hi : Z) : ioM D unit :=
  _ ← nic_outb RSAR0 lo;
  _ ← nic_outb RSAR1 page;
  _ ← nic_outb RBCR0 count_lo;
  _ ← nic_outb RBCR1 count_hi;
  nic_outb CR (Z.lor CR_STA CR_DMA_READ).
Definition end_dma (fuel : nat) : ioM D unit :=
  _ ← wait_rdc fuel;
  nic_outb ISR ISR_RDC.
Definition boundary_for (next : Z) : Z := if next =? RX_START then RX_STOP - 1 else u8 (next - 1).

(** Copying a packet of [data_len] bytes at [page] into buffer [i] of the pool. *)
Definition read_packet (fuel : nat) (page : Z) (data_len : nat) (i : nat) (p : PacketPool) : ioM D PacketPool :=
  _ ← start_read 4 page (Z.land (Z.of_nat data_len) 0xFF) (Z.land (Z.shiftr (Z.of_nat data_len) 8) 0xFF);
  buffer ← pure_outcome (match buffers (rx p) !! i with Some b => Ret (data b) | None => Panic end);
  buffer ← read_words ((data_len + 1) / 2) 0 data_len buffer;
  _ ← end_dma fuel;
  let r := rx p in
  let r := mkRing (alter (λ b, mkPacketBuffer buffer (len b) (flags b)) i (buffers r)) (head r) (tail r) in
  mret (rx_buffer_ready (set_rx p r) (Z.of_nat data_len)).

Fixpoint receive_packets (fuel : nat) (s : Ne2000) (p : PacketPool) (count : Z) : ioM D (Ne2000 * PacketPool * Z) :=
  match fuel with
  | O => λ _, Diverge
  | S fuel' =>
      _ ← nic_outb CR (Z.lor (Z.lor CR_STA CR_DMA_NONE) CR_PS0);
      curr ← nic_inb CURR;
      _ ← nic_outb CR (Z.lor CR_STA CR_DMA_NONE);
      if curr =? next_pkt s then mret (s, p, count)
      else
        let page := next_pkt s in
        _ ← start_read 0 page 4 0;
        word0 ← nic_inw DATA;
        word1 ← nic_inw DATA;
        _ ← end_dma fuel;
        let next := u8 (Z.land (Z.shiftr word0 8) 0xFF) in
        let len := Z.to_nat word1 in
        if (len <? 4)%nat || (1536 <? len)%nat then
          _ ← nic_outb BNRY (boundary_for next);
          receive_packets fuel' (set_next_pkt s next) p count
        else
          let '(p, o) := get_rx_buffer_for_write p in
          r ← match o with
              | Some i => p ← read_packet fuel page (len - 4) i p; mret (p, count + 1)
              | None => mret (p, count)
              end;
          _ ← nic_outb BNRY (boundary_for next);
          receive_packets fuel' (set_next_pkt s next) r.1 r.2
  end.

(** [if isr & bit != 0 { outb(base + ISR, bit) }]. *)
Definition acknowledge (isr bit : Z) : ioM D unit :=
  if negb (Z.land isr bit =? 0) then nic_outb ISR bit else mret tt.

(** The recovery from an overflow of the receive ring. *)
Definition handle_overflow (s : Ne2000) : ioM D Ne2000 :=
  _ ← nic_outb CR (Z.lor CR_STP CR_DMA_NONE);
  _ ← nic_outb ISR ISR_OVW;
  _ ← nic_outb BNRY RX_START;
  _ ← nic_outb CR (Z.lor CR_STA CR_DMA_NONE);
  mret (set_next_pkt s (RX_START + 1)).

Fixpoint handle_interrupt (fuel : nat) (s : Ne2000) (p : PacketPool) (packets : Z) :
    ioM D (Ne2000 * PacketPool * Z) :=
  match fuel with
  | O => λ _, Diverge
  | S fuel' =>
      isr ← nic_inb ISR;
      if isr =? 0 then mret (s, p, packets)
      else
        _ ← acknowledge isr ISR_RDC;
        _ ← acknowledge isr ISR_CNT;
        _ ← acknowledge isr ISR_RST;
        r ← (if negb (Z.land isr ISR_PRX =? 0) then
               r ← receive_packets fuel s p packets;
               _ ← nic_outb ISR ISR_PRX;
               mret r
             else mret (s, p, packets));
        let '(s, p, packets) := r in
        _ ← acknowledge isr ISR_PTX;
        _ ← acknowledge isr ISR_RXE;
        _ ← acknowledge isr ISR_TXE;
        s ← (if negb (Z.land isr ISR_OVW =? 0) then handle_overflow s else mret s);
        handle_interrupt fuel' s p packets
  end.

(** Waiting for the transmitter; [false] if the timeout expires. *)
Fixpoint wait_tx (timeout : nat) : ioM D bool :=
  match timeout with
  | O => mret false
  | S timeout =>
      cr ← nic_inb CR;
      if Z.land cr CR_TXP =? 0 then mret true else wait_tx timeout
  end.

(** The words from byte [i] on; [words] of them are left. *)
Fixpoint write_words (words i : nat) (data : list Z) : ioM D unit :=
  match words with
  | O => mret tt
  | S words =>
      let lo := if (i <? length data)%nat then data !!! i else 0 in
      let hi := if (i + 1 <? length data)%nat then data !!! (i + 1)%nat else 0 in
      _ ← nic_outw DATA (Z.lor lo (u16 (Z.shiftl hi 8)));
      write_words words (i + 2) data
  end.

(** [interrupts] is the interrupt flag of the processor. *)
Definition ne_send (fuel : nat) (data : list Z) (interrupts : bool) : ioM D (bool * bool) :=
  if (1500 <? length data)%nat then mret (false, interrupts)
  else
    let interrupts_were_enabled := interrupts in
    let interrupts := false in
    result ← (
      ready ← wait_tx (Z.to_nat 10000);
      if negb ready then mret false
      else
        let len := if (length data <? 60)%nat then 60%nat else length data in
        let lo := Z.land (Z.of_nat len) 0xFF in
        let hi := Z.land (Z.shiftr (Z.of_nat len) 8) 0xFF in
        _ ← nic_outb RSAR0 0;
        _ ← nic_outb RSAR1 TX_START;
        _ ← nic_outb RBCR0 lo;
        _ ← nic_outb RBCR1 hi;
        _ ← nic_outb CR (Z.lor CR_STA CR_DMA_WRITE);
        _ ← write_words ((len + 1) / 2) 0 data;
        _ ← end_dma fuel;
        _ ← nic_outb TPSR TX_START;
        _ ← nic_outb TBCR0 lo;
        _ ← nic_outb TBCR1 hi;
        _ ← nic_outb CR (Z.lor (Z.lor CR_STA CR_TXP) CR_DMA_NONE);
        mret true);
    mret (result, if interrupts_were_enabled then true else interrupts).
End driver.

(** ** The card *)

(** The registers that only the driver changes.  [rdc] and [rst] are the bits 6 and 7
    of the interrupt status. *)
Record Regs : Type := mkRegs {
  page : Z; dma : Z; running : bool;
  rsar : Z; rbcr : Z;
  pstart : Z; pstop : Z; bnry : Z;
  tpsr : Z; tbcr : Z;
  par : list Z;
  rdc : bool; rst : bool }.

(** What changes by itself: the memory, the page that the next frame goes to, the bits
    0 to 5 of the interrupt status, whether the card is transmitting, the frames
    transmitted and those received into the ring so far, and bounds on the number
    of events and of overflows of the ring that are still to come. *)
Record Vol : Type := mkVol {
  mem : Z → Z; curr : Z; events : Z; txp : bool;
  txlog : list (list Z); rxlog : list (list Z); todo : nat; overflows : nat }.
Record Nic : Type := mkNic { regs : Regs; vol : Vol }.
Definition bit (b : bool) : Z := if b then 1 else 0.

(** *** Registers *)

Definition read_cr (n : Nic) : Z :=
  (if running (regs n) then 2 else 1) + 4 * bit (txp (vol n)) + 8 * dma (regs n) + 64 * page (regs n).
Definition read_isr (n : Nic) : Z := events (vol n) + 64 * bit (rdc (regs n)) + 128 * bit (rst (regs n)).
Definition read_reg (r : Z) (n : Nic) : option Z :=
  if r =? CR then Some (read_cr n)
  else if (r =? ISR) && (page (regs n) =? 0) then Some (read_isr n)
  else if (r =? CURR) && (page (regs n) =? 1) then Some (curr (vol n))
  else None.

(** Bytes [a], [a + 1], ... of the memory. *)
Fixpoint mem_bytes (m : Z → Z) (a : Z) (k : nat) : list Z :=
  match k with O => [] | S k => m a :: mem_bytes m (a + 1) k end.

(** The command register: page, remote DMA command, stop and start.  A transfer of
    no bytes is complete at once; starting ends the reset state. *)
Definition cr_out (v : Z) (g : Regs) : Regs :=
  let d := v / 8 mod 8 in
  let stop := Z.testbit v 0 in
  mkRegs (v / 64) d (negb stop) (rsar g) (rbcr g) (pstart g) (pstop g) (bnry g) (tpsr g) (tbcr g) (par g)
    (rdc g || (((d =? 1) || (d =? 2)) && (rbcr g =? 0))) (rst g && stop).
(** Its transmit bit sends [tbcr] bytes from page [tpsr]. *)
Definition transmit (g : Regs) (u : Vol) : Vol :=
  mkVol (mem u) (curr u) (events u) true (txlog u ++ [mem_bytes (mem u) (tpsr g * 256) (Z.to_nat (tbcr g))])
    (rxlog u) (todo u) (overflows u).

Definition lo_byte (x v : Z) : Z := x / 256 * 256 + v.
Definition hi_byte (x v : Z) : Z := v * 256 + x mod 256.
Definition set_rsar (g : Regs) (x : Z) : Regs :=
  mkRegs (page g) (dma g) (running g) x (rbcr g) (pstart g) (pstop g) (bnry g) (tpsr g) (tbcr g) (par g) (rdc g) (rst g).
Definition set_rbcr (g : Regs) (x : Z) : Regs :=
  mkRegs (page g) (dma g) (running g) (rsar g) x (pstart g) (pstop g) (bnry g) (tpsr g) (tbcr g) (par g) (rdc g) (rst g).
Definition set_pstart (g : Regs) (x : Z) : Regs :=
  mkRegs (page g) (dma g) (running g) (rsar g) (rbcr g) x (pstop g) (bnry g) (tpsr g) (tbcr g) (par g) (rdc g) (rst g).
Definition set_pstop (g : Regs) (x : Z) : Regs :=
  mkRegs (page g) (dma g) (running g) (rsar g) (rbcr g) (pstart g) x (bnry g) (tpsr g) (tbcr g) (par g) (rdc g) (rst g).
Definition set_bnry (g : Regs) (x : Z) : Regs :=
  mkRegs (page g) (dma g) (running g) (rsar g) (rbcr g) (pstart g) (pstop g) x (tpsr g) (tbcr g) (par g) (rdc g) (rst g).
Definition set_tpsr (g : Regs) (x : Z) : Regs :=
  mkRegs (page g) (dma g) (running g) (rsar g) (rbcr g) (pstart g) (pstop g) (bnry g) x (tbcr g) (par g) (rdc g) (rst g).
Definition set_tbcr (g : Regs) (x : Z) : Regs :=
  mkRegs (page g) (dma g) (running g) (rsar g) (rbcr g) (pstart g) (pstop g) (bnry g) (tpsr g) x (par g) (rdc g) (rst g).
Definition set_par (g : Regs) (x : list Z) : Regs :=
  mkRegs (page g) (dma g) (running g) (rsar g) (rbcr g) (pstart g) (pstop g) (bnry g) (tpsr g) (tbcr g) x (rdc g) (rst g).
Definition set_rdc (g : Regs) (b : bool) : Regs :=
  mkRegs (page g) (dma g) (running g) (rsar g) (rbcr g) (pstart g) (pstop g) (bnry g) (tpsr g) (tbcr g) (par g) b (rst g).

(** A write to a register other than the command register.  The receive, transmit and
    data configuration, the interrupt mask and the multicast filter have no
    effect on what follows. *)
Definition reg_out (r v : Z) (g : Regs) : Regs :=
  if page g =? 0 then
    if r =? PSTART then set_pstart g v
    else if r =? PSTOP then set_pstop g v
    else if r =? BNRY then set_bnry g v
    else if r =? TPSR then set_tpsr g v
    else if r =? TBCR0 then set_tbcr g (lo_byte (tbcr g) v)
    else if r =? TBCR1 then set_tbcr g (hi_byte (tbcr g) v)
    else if r =? RSAR0 then set_rsar g (lo_byte (rsar g) v)
    else if r =? RSAR1 then set_rsar g (hi_byte (rsar g) v)
    else if r =? RBCR0 then set_rbcr g (lo_byte (rbcr g) v)
    else if r =? RBCR1 then set_rbcr g (hi_byte (rbcr g) v)
    else if r =? ISR then set_rdc g (rdc g && negb (Z.testbit v 6))
    else g
  else if (page g =? 1) && (PAR0 <=? r) && (r <? PAR0 + 6) then set_par g (<[Z.to_nat (r - PAR0) := v]> (par g))
  else g.
Definition set_curr (u : Vol) (p : Z) : Vol := mkVol (mem u) p (events u) (txp u) (txlog u) (rxlog u) (todo u) (overflows u).
Definition set_events (u : Vol) (e : Z) : Vol := mkVol (mem u) (curr u) e (txp u) (txlog u) (rxlog u) (todo u) (overflows u).
Definition write_reg (r v : Z) (n : Nic) : Nic :=
  let g := regs n in
  let u := vol n in
  if r =? CR then mkNic (cr_out v g) (if Z.testbit v 2 then transmit g u else u)
  else if r =? RESET then n
  else mkNic (reg_out r v g)
         (if (r =? CURR) && (page g =? 1) then set_curr u v
          else if (r =? ISR) && (page g =? 0) then set_events u (Z.ldiff (events u) v)
          else u).
(** Reading the reset port resets the card. *)
Definition reset (n : Nic) : Nic :=
  let g := regs n in
  mkNic (mkRegs 0 4 false (rsar g) (rbcr g) (pstart g) (pstop g) (bnry g) (tpsr g) (tbcr g) (par g) false true)
    (mkVol (mem (vol n)) (curr (vol n)) 0 false (txlog (vol n)) (rxlog (vol n)) (todo (vol n)) (overflows (vol n))).

(** *** Remote DMA, in words *)

Definition dma_next (g : Regs) : Regs :=
  let a := rsar g + 2 in
  set_rdc (set_rbcr (set_rsar g (if a =? pstop g * 256 then pstart g * 256 else a)) (Z.max 0 (rbcr g - 2)))
    (rdc g || (rbcr g <=? 2)).
Definition set_mem (u : Vol) (m : Z → Z) : Vol := mkVol m (curr u) (events u) (txp u) (txlog u) (rxlog u) (todo u) (overflows u).
Definition upd (m : Z → Z) (a v : Z) : Z → Z := λ x, if x =? a then v else m x.
Definition dma_read (n : Nic) : Z := mem (vol n) (rsar (regs n)) + 256 * mem (vol n) (rsar (regs n) + 1).
Definition dma_write (w : Z) (n : Nic) : Nic :=
  let a := rsar (regs n) in
  mkNic (dma_next (regs n)) (set_mem (vol n) (upd (upd (mem (vol n)) a (w mod 256)) (a + 1) (w / 256 mod 256))).

(** *** The receive ring *)

(** [k] pages after page [p]; byte [o] of the packet at page [p]; pages from [a] up to [b]. *)
Definition adv (ps pe p k : Z) : Z := ps + (p - ps + k) mod (pe - ps).
Definition raddr (ps pe p o : Z) : Z := ps * 256 + ((p - ps) * 256 + o) mod ((pe - ps) * 256).
Definition dist (ps pe a b : Z) : Z := (b - a) mod (pe - ps).

(** The packet header: status, next page, length with the header. *)
Definition header (next l : Z) : list Z := [1; next; (l + 4) mod 256; (l + 4) / 256].
Definition ring_write (ps pe p : Z) (bs : list Z) (m : Z → Z) : Z → Z := λ a,
  if (ps * 256 <=? a) && (a <? pe * 256) then
    default (m a) (bs !! Z.to_nat ((a - ps * 256 - (p - ps) * 256) mod ((pe - ps) * 256)))
  else m a.
Definition frame_ok (f : list Z) : Prop := bytes f ∧ (60 ≤ length f ≤ 1514)%nat.

(** A frame occupies [k] pages: enough for it and its header, and not beyond the
    boundary.  A frame without room is not received. *)
Definition receive (f : list Z) (k : Z) (t : nat) (n : Nic) : Nic :=
  let g := regs n in
  let u := vol n in
  let next := adv (pstart g) (pstop g) (curr u) k in
  mkNic g (mkVol (ring_write (pstart g) (pstop g) (curr u) (header next (Z.of_nat (length f)) ++ f) (mem u)) next
             (Z.lor (events u) 1) (txp u) (txlog u) (rxlog u ++ [f]) t (overflows u)).

(** What happens by itself, at any time: a frame is received, a transmission ends, an
    error or counter condition is reported, the ring overflows (a frame is lost for
    lack of room, and the overwrite warning is raised). *)
Inductive nic_env : Nic → Nic → Prop :=
  | env_receive f k t n :
      running (regs n) = true → todo (vol n) = S t → frame_ok f →
      Z.of_nat (length f) + 4 ≤ 256 * k → k ≤ dist (pstart (regs n)) (pstop (regs n)) (curr (vol n)) (bnry (regs n)) →
      nic_env n (receive f k t n)
  | env_transmitted n :
      txp (vol n) = true →
      nic_env n (mkNic (regs n) (mkVol (mem (vol n)) (curr (vol n)) (Z.lor (events (vol n)) 2) false
                                   (txlog (vol n)) (rxlog (vol n)) (todo (vol n)) (overflows (vol n))))
  | env_condition b t n :
      b ∈ [4; 8; 32] → todo (vol n) = S t →
      nic_env n (mkNic (regs n) (mkVol (mem (vol n)) (curr (vol n)) (Z.lor (events (vol n)) b) (txp (vol n))
                                   (txlog (vol n)) (rxlog (vol n)) t (overflows (vol n))))
  | env_overflow t n :
      running (regs n) = true → overflows (vol n) = S t →
      nic_env n (mkNic (regs n) (mkVol (mem (vol n)) (curr (vol n)) (Z.lor (events (vol n)) 16) (txp (vol n))
                                   (txlog (vol n)) (rxlog (vol n)) (todo (vol n)) t)).

(** A machine with the card: every access to its ports comes after some events. *)
Class Card (D : Type) `{Ports D} := {
  nic : D → Nic;
  card_outb r v d : 0 ≤ r < DATA ∨ r = RESET →
    ∃ n, rtc nic_env (nic d) n ∧ nic (port_outb (NE2000_IOBASE + r) v d) = write_reg r v n;
  card_inb r d : 0 ≤ r < DATA ∨ r = RESET →
    ∃ n, rtc nic_env (nic d) n ∧ nic (port_inb (NE2000_IOBASE + r) d).1 = (if r =? RESET then reset n else n) ∧
      ∀ v, read_reg r n = Some v → (port_inb (NE2000_IOBASE + r) d).2 = v;
  card_inw d : dma (regs (nic d)) = 1 → 0 < rbcr (regs (nic d)) →
    ∃ n, rtc nic_env (nic d) n ∧
      nic (port_inw (NE2000_IOBASE + DATA) d).1 = mkNic (dma_next (regs n)) (vol n) ∧
      (port_inw (NE2000_IOBASE + DATA) d).2 = dma_read n;
  card_outw w d : dma (regs (nic d)) = 2 → 0 < rbcr (regs (nic d)) →
    ∃ n, rtc nic_env (nic d) n ∧ nic (port_outw (NE2000_IOBASE + DATA) w d) = dma_write w n }.
