(* ===== verification/NicSafe.v ===== *)
(** The NE2000 driver meets its contract: it hands every received frame to the packet
    pool once, unchanged and in order, whatever happens on the card between its
    port accesses, and transmits exactly the frame it is given. *)

From S2P Require Import Prelude NetBase Packet PortIO Ne2000.
#[local] Open Scope Z_scope.

(** ** The receive ring *)

Abbreviation N_adv := (adv RX_START RX_STOP).
Abbreviation N_raddr := (raddr RX_START RX_STOP).
Abbreviation N_dist := (dist RX_START RX_STOP).
Definition page_ok (p : Z) : Prop := RX_START ≤ p < RX_STOP.

(** A packet at page [p]: its header, then its bytes. *)
Definition stored (m : Z → Z) (p : Z) (s : list Z * Z) : Prop :=
  ∀ i b, (header (N_adv p s.2) (Z.of_nat (length s.1)) ++ s.1) !! i = Some b → m (N_raddr p (Z.of_nat i)) = b.
(** Packets, with their numbers of pages, one after the other from page [p] to [q]. *)
Fixpoint chain (m : Z → Z) (p : Z) (l : list (list Z * Z)) (q : Z) : Prop :=
  match l with
  | [] => p = q
  | s :: l => stored m p s ∧ chain m (N_adv p s.2) l q
  end.
Definition slot_ok (s : list Z * Z) : Prop := frame_ok s.1 ∧ Z.of_nat (length s.1) + 4 ≤ 256 * s.2.
Definition used (l : list (list Z * Z)) : Z := sumZ l.*2.

(** The packets from page [np] on are the frames received but not yet taken, [taken]
    being those that were; they begin with [h]. *)
Definition rx_ok (b np : Z) (taken : list (list Z)) (h : list (list Z * Z)) (u : Vol) : Prop :=
  ∃ l, h `prefix_of` l ∧ rxlog u = taken ++ l.*1 ∧ chain (mem u) np l (curr u) ∧ Forall slot_ok l ∧
    page_ok np ∧ page_ok (curr u) ∧ used l + N_dist (curr u) b ≤ 57.

Lemma adv_ok p k : page_ok (N_adv p k).
Proof. unfold page_ok, adv, RX_START, RX_STOP. pose proof (Z.mod_pos_bound (p - 70 + k) (128 - 70) ltac:(lia)). lia. Qed.

Lemma adv_adv p j k : N_adv (N_adv p j) k = N_adv p (j + k).
Proof.
  unfold adv. f_equal. replace (RX_START + (p - RX_START + j) mod (RX_STOP - RX_START) - RX_START + k)
    with ((p - RX_START + j) mod (RX_STOP - RX_START) + k) by lia.
  rewrite Zplus_mod_idemp_l. f_equal. lia.
Qed.

Lemma adv_0 p : page_ok p → N_adv p 0 = p.
Proof. unfold page_ok, adv, RX_START, RX_STOP. intros. rewrite Z.mod_small; lia. Qed.

Lemma dist_adv p k b : page_ok p → 0 ≤ k → k ≤ N_dist p b → N_dist (N_adv p k) b = N_dist p b - k.
Proof.
  unfold dist, adv. intros Hp Hk Hd.
  set (N := RX_STOP - RX_START) in *. assert (N = 58) as EN by done.
  pose proof (Z.mod_pos_bound (b - p) N ltac:(lia)).
  replace (b - (RX_START + (p - RX_START + k) mod N)) with ((b - RX_START) - (p - RX_START + k) mod N) by lia.
  rewrite Zminus_mod_idemp_r. replace (b - RX_START - (p - RX_START + k)) with ((b - p) - k) by lia.
  rewrite <- (Zminus_mod_idemp_l (b - p) k N). apply Z.mod_small. lia.
Qed.

Lemma chain_end m p l q : page_ok p → chain m p l q → q = N_adv p (used l).
Proof.
  unfold used. revert p. induction l as [|s l IH]; intros p Hp Hc; cbn [chain fmap list_fmap] in *.
  - by rewrite <- Hc, adv_0.
  - destruct Hc as [_ Hc]. rewrite (IH _ (adv_ok p s.2) Hc), adv_adv. done.
Qed.

Lemma used_pos l : Forall slot_ok l → Z.of_nat (length l) ≤ used l.
Proof.
  unfold used. induction 1 as [|s l [_ Hs] _ IH]; cbn [fmap list_fmap length]; [done|].
  rewrite sumZ_cons. lia.
Qed.

(** The ring is empty exactly when the pages meet. *)
Lemma chain_empty m p l q : page_ok p → chain m p l q → Forall slot_ok l → used l ≤ 57 → p = q → l = [].
Proof.
  intros Hp Hc Hl Hu <-. pose proof (chain_end _ _ _ _ Hp Hc) as E. pose proof (used_pos l Hl).
  destruct l as [|s l]; [done|]. exfalso. cbn [length] in *. set (x := used (s :: l)) in *.
  unfold adv, page_ok, RX_START, RX_STOP in *.
  change (128 - 70) with 58 in *. assert ((p - 70 + x) mod 58 = p - 70) as E1 by lia. pose proof (Z.div_mod (p - 70 + x) 58 ltac:(lia)).
  assert (x = 58 * ((p - 70 + x) / 58)) by lia. lia.
Qed.

(** Writing a packet at the end of the ring keeps those before it. *)
Lemma ring_index p q o : page_ok p → page_ok q → 0 ≤ o →
  (N_raddr p o - RX_START * 256 - (q - RX_START) * 256) mod ((RX_STOP - RX_START) * 256)
  = (256 * N_dist q p + o) mod ((RX_STOP - RX_START) * 256).
Proof.
  intros Hp Hq Ho. unfold raddr, dist, RX_START, RX_STOP. change ((128 - 70) * 256) with 14848. change (128 - 70) with 58.
  replace (70 * 256 + ((p - 70) * 256 + o) mod 14848 - 70 * 256 - (q - 70) * 256)
    with (((p - 70) * 256 + o) mod 14848 - (q - 70) * 256) by lia.
  rewrite Zminus_mod_idemp_l. pose proof (Z.div_mod (p - q) 58 ltac:(lia)) as E.
  replace ((p - 70) * 256 + o - (q - 70) * 256) with (256 * ((p - q) mod 58) + o + ((p - q) / 58) * 14848) by lia.
  by rewrite Z.mod_add by lia.
Qed.

Lemma raddr_range p o : RX_START * 256 ≤ N_raddr p o < RX_STOP * 256.
Proof.
  unfold raddr, RX_START, RX_STOP. pose proof (Z.mod_pos_bound ((p - 70) * 256 + o) ((128 - 70) * 256) ltac:(lia)). lia.
Qed.

Lemma ring_write_at q p o bs m : page_ok p → page_ok q → 0 ≤ o →
  ring_write RX_START RX_STOP q bs m (N_raddr p o)
  = default (m (N_raddr p o)) (bs !! Z.to_nat ((256 * N_dist q p + o) mod 14848)).
Proof.
  intros Hp Hq Ho. unfold ring_write. pose proof (raddr_range p o).
  rewrite (proj2 (Z.leb_le _ _)), (proj2 (Z.ltb_lt _ _)) by lia. cbn [andb].
  by rewrite (ring_index p q o Hp Hq Ho).
Qed.

Lemma dist_nonneg p q : 0 ≤ N_dist p q.
Proof. by apply Z.mod_pos_bound. Qed.
Lemma dist_refl p : N_dist p p = 0.
Proof. unfold dist. by rewrite Z.sub_diag. Qed.

Lemma write_stored m p s : page_ok p → slot_ok s →
  stored (ring_write RX_START RX_STOP p (header (N_adv p s.2) (Z.of_nat (length s.1)) ++ s.1) m) p s.
Proof.
  intros Hp [[_ Hl] _] i b Hi. pose proof (lookup_lt_Some _ _ _ Hi) as Hlt. rewrite length_app in Hlt. cbn [header length] in Hlt.
  rewrite ring_write_at, dist_refl by (done || lia). rewrite Z.mod_small by lia.
  replace (Z.to_nat (256 * 0 + Z.of_nat i)) with i by lia. by rewrite Hi.
Qed.

Lemma write_keeps m p l q bs k : page_ok p → page_ok q → chain m p l q → Forall slot_ok l →
  used l + k ≤ 57 → Z.of_nat (length bs) ≤ 256 * k → chain (ring_write RX_START RX_STOP q bs m) p l q.
Proof.
  revert p. induction l as [|s l IH]; intros p Hp Hq Hc Hl Hu Hb; [done|].
  apply Forall_cons in Hl as [Hs Hl]. unfold used in Hu. cbn [fmap list_fmap] in Hu. rewrite sumZ_cons in Hu.
  fold (used l) in Hu. pose proof (chain_end _ _ _ _ Hp Hc) as Eq. destruct Hc as [H1 H2].
  pose proof (used_pos l Hl). destruct Hs as [[_ Hlen] Hs]. split; [|apply IH; try done; [apply adv_ok|lia]].
  intros i b Hi. rewrite ring_write_at by (done || lia). rewrite lookup_ge_None_2; [by apply H1|].
  pose proof (lookup_lt_Some _ _ _ Hi) as Hlt. rewrite length_app in Hlt. cbn [header length] in Hlt.
  assert (N_dist q p = 58 - (s.2 + used l)) as ->.
  { rewrite Eq. unfold used at 1. cbn [fmap list_fmap]. rewrite sumZ_cons. fold (used l). unfold dist, adv.
    set (x := s.2 + used l) in *. unfold page_ok, RX_START, RX_STOP in *.
    replace (p - (70 + (p - 70 + x) mod (128 - 70))) with ((p - 70) - (p - 70 + x) mod (128 - 70)) by lia.
    rewrite Zminus_mod_idemp_r. replace (p - 70 - (p - 70 + x)) with (58 - x + (-1) * (128 - 70)) by lia.
    rewrite Z.mod_add by lia. apply Z.mod_small. lia. }
  rewrite Z.mod_small; lia.
Qed.

(** ** What the events of the card keep *)

Lemma env_regs n n' : nic_env n n' → regs n' = regs n.
Proof. by destruct 1. Qed.

Definition ring_regs (b : Z) (g : Regs) : Prop := pstart g = RX_START ∧ pstop g = RX_STOP ∧ bnry g = b.
(** A property of the volatile state that events keep, while the registers satisfy [R]. *)
Definition stable (R : Regs → Prop) (V : Vol → Prop) : Prop :=
  ∀ n n', nic_env n n' → R (regs n) → V (vol n) → V (vol n').

Lemma stable_and R V W : stable R V → stable R W → stable R (λ u, V u ∧ W u).
Proof. intros HV HW n n' He Hr [H1 H2]. split; [by eapply HV|by eapply HW]. Qed.

Lemma rx_ok_stable b np taken h : stable (ring_regs b) (rx_ok b np taken h).
Proof.
  intros n n' He (E1 & E2 & E3) (l & Hh & Hlog & Hc & Hl & Hp & Hq & Hu).
  destruct He as [f k t n Hrun Htodo Hf Hk Hroom|n Htx|x t n Hx Htodo|t n Hrun Hov]; [|by exists l..].
  rewrite E1, E2, E3 in Hroom. set (u := vol n) in *.
  assert (slot_ok (f, k)) as Hs by done. destruct Hf as [Hfb Hfl]. cbn in Hk.
  exists (l ++ [(f, k)]). unfold receive. cbn [regs vol mem curr rxlog]. fold u. rewrite E1, E2.
  assert (used (l ++ [(f, k)]) = used l + k) as Eu.
  { unfold used. rewrite fmap_app, sumZ_app. cbn. unfold sumZ. cbn. lia. }
  split_and!.
  - by apply prefix_app_r.
  - by rewrite Hlog, fmap_app, app_assoc.
  - assert (chain (ring_write RX_START RX_STOP (curr u) (header (N_adv (curr u) k) (Z.of_nat (length f)) ++ f) (mem u)) np l (curr u)) as Hc'.
    { apply (write_keeps _ _ _ _ _ k); try done; [lia|]. rewrite length_app. cbn [header length]. lia. }
    pose proof (write_stored (mem u) (curr u) (f, k) Hq Hs) as Hw. cbn [fst snd] in Hw. revert Hc' Hw.
    generalize (ring_write RX_START RX_STOP (curr u) (header (N_adv (curr u) k) (Z.of_nat (length f)) ++ f) (mem u)).
    intros m. clear. revert np. induction l as [|s l IH]; intros np; cbn [chain app]; [by intros -> ?|].
    intros [H1 H2] H3. split; [done|by apply IH].
  - apply Forall_app. split; [done|by constructor].
  - done.
  - apply adv_ok.
  - rewrite Eu, dist_adv by (done || lia). lia.
Qed.

(** The memory outside the ring. *)
Lemma outside_stable b a v : a < RX_START * 256 → stable (ring_regs b) (λ u, mem u a = v).
Proof.
  intros Ha n n' He (E1 & E2 & E3) Hm. destruct He; cbn [receive vol mem]; try done.
  unfold ring_write. rewrite E1, (proj2 (Z.leb_gt _ _)) by lia. done.
Qed.

Lemma txlog_stable b l : stable (ring_regs b) (λ u, txlog u = l).
Proof. intros n n' He _ H. by destruct He. Qed.

(** ** Running the driver *)

Section wp.
Context {D : Type} `{Card D}.

Definition wp {A} (m : ioM D A) (d : D) (Q : D → A → Prop) : Prop := ∃ d' a, m d = Ret (d', a) ∧ Q d' a.

Lemma wp_ret {A} (a : A) d (Q : D → A → Prop) : Q d a → wp (mret a) d Q.
Proof. intros. by exists d, a. Qed.
Lemma wp_bind {A B} (m : ioM D A) (f : A → ioM D B) d Q :
  wp m d (λ d' a, wp (f a) d' Q) → wp (m ≫= f) d Q.
Proof. intros (d1 & a & E & d2 & b & E2 & HQ). exists d2, b. split; [|done]. by rewrite (ioM_bind_Ret _ _ _ _ _ E). Qed.
Lemma wp_mono {A} (m : ioM D A) d (P Q : D → A → Prop) :
  wp m d P → (∀ d' a, P d' a → Q d' a) → wp m d Q.
Proof. intros (d1 & a & E & HP) HPQ. exists d1, a. auto. Qed.

(** The card has the registers [g] and its volatile state satisfies [V]. *)
Definition st (g : Regs) (V : Vol → Prop) (d : D) : Prop := regs (nic d) = g ∧ V (vol (nic d)).

Lemma st_env g R V n n' : R g → stable R V → rtc nic_env n n' →
  regs n = g → V (vol n) → regs n' = g ∧ V (vol n').
Proof.
  intros Hr HV Henv. induction Henv as [|n n1 n2 He _ IH]; intros Hg Hv; [done|].
  apply IH; [by rewrite (env_regs _ _ He)|]. eapply HV; [done|by rewrite Hg|done].
Qed.

(** A write to an ordinary register. *)
Definition plain (r : Z) (g : Regs) : bool :=
  (0 <=? r) && (r <? DATA) && negb (r =? CR) && negb ((r =? CURR) && (page g =? 1)) && negb ((r =? ISR) && (page g =? 0)).
Lemma wp_reg r v g R V d Q : R g → stable R V → st g V d → plain r g = true →
  (∀ d', st (reg_out r v g) V d' → Q d' tt) → wp (nic_outb r v) d Q.
Proof.
  intros Hr HV [Hg Hv] Hp HQ. unfold plain in Hp. rewrite !andb_true_iff, !negb_true_iff in Hp.
  destruct Hp as ((((H1 & H2) & H3) & H4) & H5).
  destruct (card_outb r v d) as (n & Henv & En); [left; lia|].
  destruct (st_env g R V _ _ Hr HV Henv Hg Hv) as [Eg Ev].
  eexists _, tt. split; [reflexivity|]. apply HQ. unfold st. rewrite En. unfold write_reg.
  rewrite H3, Eg, H4, H5. destruct (Z.eqb_spec r RESET) as [->|]; [unfold DATA, RESET in H2; lia|]. done.
Qed.

(** The command register, without the transmit bit. *)
Lemma wp_cr v g R V d Q : R g → stable R V → st g V d → Z.testbit v 2 = false →
  (∀ d', st (cr_out v g) V d' → Q d' tt) → wp (nic_outb CR v) d Q.
Proof.
  intros Hr HV [Hg Hv] Hp HQ. destruct (card_outb CR v d) as (n & Henv & En); [left; unfold CR, DATA; lia|].
  destruct (st_env g R V _ _ Hr HV Henv Hg Hv) as [Eg Ev].
  eexists _, tt. split; [reflexivity|]. apply HQ. unfold st. rewrite En. unfold write_reg. rewrite Hp, Eg. done.
Qed.

(** Acknowledging interrupts. *)
Lemma wp_isr v g R V (W : Vol → Prop) d Q : R g → stable R V → st g V d → page g = 0 →
  (∀ u, V u → W (set_events u (Z.ldiff (events u) v))) →
  (∀ d', st (reg_out ISR v g) W d' → Q d' tt) → wp (nic_outb ISR v) d Q.
Proof.
  intros Hr HV [Hg Hv] Hp HW HQ. destruct (card_outb ISR v d) as (n & Henv & En); [left; unfold ISR, DATA; lia|].
  destruct (st_env g R V _ _ Hr HV Henv Hg Hv) as [Eg Ev].
  eexists _, tt. split; [reflexivity|]. apply HQ. unfold st. rewrite En. unfold write_reg. rewrite Eg, Hp. cbn [Z.eqb].
  split; [done|]. by apply HW.
Qed.

(** Reading a register of the current page. *)
Lemma wp_in r g R V d Q : R g → stable R V → st g V d → 0 ≤ r < DATA →
  is_Some (read_reg r (mkNic g (vol (nic d)))) →
  (∀ d' v, st g V d' → read_reg r (mkNic g (vol (nic d'))) = Some v → Q d' v) → wp (nic_inb r) d Q.
Proof.
  intros Hr HV [Hg Hv] Hp Hrd HQ. destruct (card_inb r d) as (n & Henv & En & Ev); [by left|].
  destruct (st_env g R V _ _ Hr HV Henv Hg Hv) as [Eg Evol].
  rewrite (proj2 (Z.eqb_neq r RESET)) in En by (unfold DATA, RESET in *; lia).
  eexists _, _. split; [unfold nic_inb, inb; by rewrite (surjective_pairing (port_inb _ d))|].
  assert (mkNic g (vol n) = n) as Emk by (destruct n; cbn in *; by subst).
  assert (is_Some (read_reg r n)) as [v Hrv].
  { revert Hrd. unfold read_reg. cbn [regs vol]. rewrite Eg.
    destruct (r =? CR); [eauto|]. destruct (_ && _); [eauto|]. destruct (_ && _); eauto. }
  rewrite (Ev v Hrv). apply HQ; [by split; rewrite En|]. by rewrite En, Emk.
Qed.

(** A word of remote DMA. *)
Lemma wp_inw g R V d Q : R g → stable R V → st g V d → dma g = 1 → 0 < rbcr g →
  (∀ d', st (dma_next g) V d' → Q d' (dma_read (mkNic g (vol (nic d'))))) → wp (nic_inw DATA) d Q.
Proof.
  intros Hr HV [Hg Hv] Hd Hb HQ. destruct (card_inw d) as (n & Henv & En & Ev); [by rewrite Hg..|].
  destruct (st_env g R V _ _ Hr HV Henv Hg Hv) as [Eg Evol].
  eexists _, _. split; [unfold nic_inw, inw; by rewrite (surjective_pairing (port_inw _ d))|].
  rewrite Ev. assert (n = mkNic g (vol (nic (port_inw (NE2000_IOBASE + DATA) d).1))) as En'.
  { rewrite En. destruct n; cbn in *; by subst. }
  rewrite En' at 1. apply HQ. unfold st. rewrite En. cbn [regs vol]. by rewrite Eg.
Qed.

Lemma wp_outw w g R V (W : Vol → Prop) d Q : R g → stable R V → st g V d → dma g = 2 → 0 < rbcr g →
  (∀ u, V u → W (vol (dma_write w (mkNic g u)))) →
  (∀ d', st (dma_next g) W d' → Q d' tt) → wp (nic_outw DATA w) d Q.
Proof.
  intros Hr HV [Hg Hv] Hd Hb HW HQ. destruct (card_outw w d) as (n & Henv & En); [by rewrite Hg..|].
  destruct (st_env g R V _ _ Hr HV Henv Hg Hv) as [Eg Evol].
  eexists _, tt. split; [reflexivity|]. apply HQ. unfold st. rewrite En. cbn [dma_write regs]. rewrite Eg.
  split; [done|]. specialize (HW _ Evol). cbn [dma_write vol regs] in *. by rewrite Eg.
Qed.

(** *** Remote DMA *)

(** The registers of the running card; [b] is the boundary. *)
Definition G (pg dm ra rb b tp tb : Z) (pr : list Z) (rd : bool) : Regs :=
  mkRegs pg dm true ra rb RX_START RX_STOP b tp tb pr rd false.
Lemma G_ring pg dm ra rb b tp tb pr rd : ring_regs b (G pg dm ra rb b tp tb pr rd).
Proof. done. Qed.

(** What the transfers need of the volatile state. *)
Record good (b : Z) (V : Vol → Prop) : Prop := mkGood {
  good_stable : stable (ring_regs b) V;
  good_ack : ∀ u, V u → V (set_events u (Z.ldiff (events u) ISR_RDC));
  good_small : ∀ u, V u → 0 ≤ events u < 64 }.

Lemma hi_lo x v w : 0 ≤ v < 256 → hi_byte (lo_byte x v) w = w * 256 + v.
Proof.
  intros. unfold hi_byte, lo_byte. f_equal. rewrite Z.add_comm, Z.mod_add by lia. by apply Z.mod_small.
Qed.

Lemma isr_rdc e r s : 0 ≤ e < 64 → (Z.land (e + 64 * bit r + 128 * bit s) ISR_RDC =? 0) = negb r.
Proof.
  intros He. change ISR_RDC with (2 ^ 6). rewrite land_bit by lia. f_equal.
  rewrite Z.testbit_odd, Z.shiftr_div_pow2 by lia.
  rewrite <- (Z.div_unique (e + 64 * bit r + 128 * bit s) (2 ^ 6) (bit r + 2 * bit s) e) by (change (2 ^ 6) with 64; lia).
  by destruct r, s.
Qed.

Lemma wp_start_read lo pg clo chi dm ra rb b tp tb pr rd V d Q :
  good b V → st (G 0 dm ra rb b tp tb pr rd) V d → 0 ≤ lo < 256 → 0 ≤ clo < 256 → 0 < chi * 256 + clo →
  (∀ d', st (G 0 1 (pg * 256 + lo) (chi * 256 + clo) b tp tb pr rd) V d' → Q d' tt) →
  wp (start_read lo pg clo chi) d Q.
Proof.
  intros [Hs _ _] Hd Hlo Hclo Hc HQ. unfold start_read.
  do 4 (apply wp_bind; eapply (wp_reg _ _ _ (ring_regs b)); [apply G_ring|exact Hs|exact Hd|reflexivity|]; clear d Hd; intros d Hd;
    cbn [reg_out page G Z.eqb Pos.eqb PSTART PSTOP BNRY TPSR TBCR0 TBCR1 RSAR0 RSAR1 RBCR0 RBCR1] in Hd).
  eapply (wp_cr _ _ (ring_regs b)); [|exact Hs|exact Hd|reflexivity|]; [done|]. intros d' Hd'. apply HQ. revert Hd'.
  unfold cr_out. cbn. rewrite !hi_lo by done. rewrite (proj2 (Z.eqb_neq _ 0)) by lia. by rewrite orb_false_r.
Qed.

Lemma wp_end_dma fuel dm ra rb b tp tb pr V d Q :
  good b V → (1 ≤ fuel)%nat → st (G 0 dm ra rb b tp tb pr true) V d →
  (∀ d', st (G 0 dm ra rb b tp tb pr false) V d' → Q d' tt) → wp (end_dma fuel) d Q.
Proof.
  intros [Hs Ha Hsm] Hf Hd HQ. unfold end_dma. apply wp_bind. destruct fuel as [|fuel]; [lia|]. cbn [wait_rdc].
  apply wp_bind. eapply (wp_in _ _ (ring_regs b)); [apply G_ring|exact Hs|exact Hd|unfold ISR, DATA; lia|by eexists|].
  intros d1 v Hd1 Hv. injection Hv as <-. unfold read_isr. cbn [regs vol].
  rewrite isr_rdc by (apply Hsm, Hd1). cbn [negb G rdc]. apply wp_ret.
  eapply (wp_isr _ _ (ring_regs b) _ V); [apply G_ring|exact Hs|exact Hd1|done|exact Ha|]. intros d2 Hd2. by apply HQ.
Qed.

Lemma raddr_even p o : o mod 2 = 0 →
  (if N_raddr p o + 2 =? RX_STOP * 256 then RX_START * 256 else N_raddr p o + 2) = N_raddr p (o + 2) ∧
  N_raddr p o + 1 = N_raddr p (o + 1).
Proof.
  intros Ho. unfold raddr, RX_START, RX_STOP. change ((128 - 70) * 256) with 14848.
  set (x := (p - 70) * 256 + o). pose proof (Z.div_mod x 14848 ltac:(lia)) as E.
  pose proof (Z.mod_pos_bound x 14848 ltac:(lia)) as Hx.
  assert (x mod 14848 mod 2 = 0) as Hev.
  { assert (x = 2 * (7424 * (x / 14848)) + x mod 14848) as E' by lia.
    assert (x mod 2 = 0) as H2.
    { unfold x. rewrite (Z.div_mod o 2), Ho by lia. replace ((p - 70) * 256 + (2 * (o / 2) + 0)) with (((p - 70) * 128 + o / 2) * 2) by lia.
      by apply Z.mod_mul. }
    rewrite E', Z.add_comm, Z.mul_comm, Z.mod_add in H2 by lia. done. }
  pose proof (Z.div_mod (x mod 14848) 2 ltac:(lia)).
  replace ((p - 70) * 256 + (o + 2)) with (x + 2) by (unfold x; lia).
  replace ((p - 70) * 256 + (o + 1)) with (x + 1) by (unfold x; lia). split.
  - destruct (Z.eqb_spec (70 * 256 + x mod 14848 + 2) (128 * 256)).
    + replace (x + 2) with (0 + (x / 14848 + 1) * 14848) by lia. by rewrite Z.mod_add by lia.
    + rewrite <- (Z.mod_unique (x + 2) 14848 (x / 14848) (x mod 14848 + 2)); lia.
  - rewrite <- (Z.mod_unique (x + 1) 14848 (x / 14848) (x mod 14848 + 1)); lia.
Qed.

Lemma wp_dma_word p o rb b tp tb pr rd V d Q : o mod 2 = 0 →
  good b V → st (G 0 1 (N_raddr p o) rb b tp tb pr rd) V d → 0 < rb →
  (∀ d', st (G 0 1 (N_raddr p (o + 2)) (Z.max 0 (rb - 2)) b tp tb pr (rd || (rb <=? 2))) V d' →
     Q d' (mem (vol (nic d')) (N_raddr p o) + 256 * mem (vol (nic d')) (N_raddr p (o + 1)))) →
  wp (nic_inw DATA) d Q.
Proof.
  intros Ho [Hs _ _] Hd Hrb HQ. destruct (raddr_even p o Ho) as [E1 E2].
  eapply (wp_inw _ (ring_regs b)); [apply G_ring|exact Hs|exact Hd|done|exact Hrb|]. intros d' Hd'.
  unfold dma_read. cbn [regs vol G rsar]. rewrite E2. apply HQ. revert Hd'. unfold dma_next.
  cbn [G set_rdc set_rbcr set_rsar page dma running rsar rbcr pstart pstop bnry tpsr tbcr par rdc rst]. by rewrite E1.
Qed.

Definition fill (f buf : list Z) (j : nat) : list Z := take j f ++ drop j buf.
Lemma put_fill f buf j b : f !! j = Some b → (length f ≤ length buf)%nat → put (fill f buf j) j b = Ret (fill f buf (S j)).
Proof.
  intros Hj Hl. pose proof (lookup_lt_Some _ _ _ Hj). unfold put, fill.
  rewrite (proj2 (Nat.ltb_lt _ _)) by (rewrite length_app, length_take, length_drop; lia). f_equal.
  rewrite insert_app_r_alt by (rewrite length_take; lia). rewrite length_take, Nat.min_l, Nat.sub_diag by lia.
  assert (is_Some (buf !! j)) as [x Hx] by (apply lookup_lt_is_Some; lia).
  rewrite (drop_S buf x j Hx). cbn [insert list_insert]. by rewrite (take_S_r f j b), <- app_assoc.
Qed.

Lemma word_bytes x y : 0 ≤ x < 256 → u8 (x + 256 * y) = x ∧ (0 ≤ y < 256 → u8 (Z.shiftr (x + 256 * y) 8) = y).
Proof.
  intros Hx. split.
  - unfold u8. rewrite Z.mul_comm, Z.mod_add by lia. by apply Z.mod_small.
  - intros Hy. rewrite Z.shiftr_div_pow2 by lia. change (2 ^ 8) with 256.
    rewrite Z.mul_comm, Z.div_add, Z.div_small by lia. by apply u8_small.
Qed.

Lemma wp_read_words f k p b tp tb pr V buf words : ∀ i rd d Q,
  good b V → (∀ u, V u → stored (mem u) p (f, k)) → bytes f → (length f ≤ length buf)%nat →
  (length f ≤ 2 * (i + words) ≤ length f + 1)%nat →
  st (G 0 1 (N_raddr p (4 + 2 * Z.of_nat i)) (Z.max 0 (Z.of_nat (length f) - 2 * Z.of_nat i)) b tp tb pr rd) V d →
  (∀ d' ra rb, st (G 0 1 ra rb b tp tb pr (rd || (0 <? words)%nat)) V d' → Q d' (fill f buf (length f))) →
  wp (read_words words i (length f) (fill f buf (Nat.min (2 * i) (length f)))) d Q.
Proof.
  induction words as [|words IH]; intros i rd d Q HV Hst Hfb Hlen Hw Hd HQ; cbn [read_words].
  { apply wp_ret. rewrite Nat.min_r by lia. rewrite orb_false_r in HQ. by eapply HQ. }
  apply wp_bind. eapply wp_dma_word; [|exact HV|exact Hd|lia|].
  { replace (4 + 2 * Z.of_nat i) with ((2 + Z.of_nat i) * 2) by lia. by apply Z.mod_mul. }
  intros d1 Hd1. pose proof (Hst _ (proj2 Hd1)) as Hs1.
  assert (∀ j x, f !! j = Some x → mem (vol (nic d1)) (N_raddr p (4 + Z.of_nat j)) = x ∧ 0 ≤ x < 256) as Hbyte.
  { intros j x Hj. split; [|by eapply Forall_lookup_1 in Hfb].
    rewrite <- (Hs1 (4 + j)%nat x); [f_equal; f_equal; lia|]. done. }
  destruct (f !! (i * 2)%nat) as [x|] eqn:Ex; [|apply lookup_ge_None in Ex; lia].
  destruct (Hbyte _ _ Ex) as [Mx Rx]. replace (4 + Z.of_nat (i * 2)) with (4 + 2 * Z.of_nat i) in Mx by lia.
  rewrite Mx. set (hi := mem _ _). destruct (word_bytes x hi Rx) as [E1 E2]. rewrite E1.
  rewrite Nat.min_l by (apply lookup_lt_Some in Ex; lia). replace (2 * i)%nat with (i * 2)%nat by lia.
  rewrite (proj2 (Nat.ltb_lt (i * 2) (length f))) by (by eapply lookup_lt_Some).
  apply wp_bind. exists d1, (fill f buf (S (i * 2))). split; [unfold pure_outcome; by rewrite (put_fill _ _ _ _ Ex)|].
  apply wp_bind. replace (S (i * 2)) with (i * 2 + 1)%nat by lia.
  assert (wp (read_words words (i + 1) (length f) (fill f buf (Nat.min (2 * (i + 1)) (length f)))) d1 Q) as Hrec.
  { eapply (IH (i + 1)%nat); [done..|lia| |].
    - replace (4 + 2 * Z.of_nat (i + 1)) with (4 + 2 * Z.of_nat i + 2) by lia.
      replace (Z.max 0 (Z.of_nat (length f) - 2 * Z.of_nat (i + 1)))
        with (Z.max 0 (Z.max 0 (Z.of_nat (length f) - 2 * Z.of_nat i) - 2)) by lia. exact Hd1.
    - intros d2 ra rb Hd2. apply (HQ d2 ra rb). revert Hd2. change (0 <? S words)%nat with true. rewrite orb_true_r.
      destruct (Z.leb_spec (Z.max 0 (Z.of_nat (length f) - 2 * Z.of_nat i)) 2); [by rewrite orb_true_r|].
      rewrite (proj2 (Nat.ltb_lt 0 words)) by lia. by rewrite orb_true_r. }
  destruct (f !! (i * 2 + 1)%nat) as [y|] eqn:Ey.
  - destruct (Hbyte _ _ Ey) as [My Ry]. rewrite (proj2 (Nat.ltb_lt _ _)) by (by eapply lookup_lt_Some).
    replace (4 + Z.of_nat (i * 2 + 1)) with (4 + 2 * Z.of_nat i + 1) in My by lia. fold hi in My.
    rewrite E2 by lia. rewrite My. eexists d1, _.
    split; [unfold pure_outcome; by rewrite (put_fill _ _ _ _ Ey)|].
    apply lookup_lt_Some in Ey. by replace (S (i * 2 + 1)) with (Nat.min (2 * (i + 1)) (length f)) by lia.
  - apply lookup_ge_None in Ey. rewrite (proj2 (Nat.ltb_ge _ _)) by done. apply wp_ret.
    apply lookup_lt_Some in Ex. by replace (i * 2 + 1)%nat with (Nat.min (2 * (i + 1)) (length f)) by lia.
Qed.

(** *** One packet *)

Lemma raddr_small p o : page_ok p → 0 ≤ o < 256 → N_raddr p o = p * 256 + o.
Proof. unfold raddr, page_ok, RX_START, RX_STOP. intros. rewrite Z.mod_small; lia. Qed.

Lemma boundary_ok np l q b : page_ok np → q = N_adv np (used l) → 0 ≤ used l ≤ 57 →
  N_dist q b + used l ≤ 57 → used l + N_dist q (boundary_for np) ≤ 57.
Proof.
  intros Hp -> Hu _. unfold boundary_for. assert (N_dist (N_adv np (used l)) (np - 1) = 57 - used l) as E.
  { unfold dist, adv. set (x := used l) in *. unfold page_ok, RX_START, RX_STOP in *. change (128 - 70) with 58.
    replace (np - 1 - (70 + (np - 70 + x) mod 58)) with ((np - 71) - (np - 70 + x) mod 58) by lia.
    rewrite Zminus_mod_idemp_r. replace (np - 71 - (np - 70 + x)) with (57 - x + (-1) * 58) by lia.
    rewrite Z.mod_add by lia. apply Z.mod_small. lia. }
  destruct (Z.eqb_spec np RX_START) as [->|Hne].
  - replace (N_dist (N_adv RX_START (used l)) (RX_STOP - 1)) with (N_dist (N_adv RX_START (used l)) (RX_START - 1)); [lia|].
    unfold dist. rewrite <- (Z.mod_add (RX_START - 1 - N_adv RX_START (used l)) 1 (RX_STOP - RX_START)) by done.
    f_equal. lia.
  - rewrite u8_small, E by (unfold page_ok, RX_START, RX_STOP in Hp; lia). lia.
Qed.

Lemma rx_ok_head b np taken u : rx_ok b np taken [] u → curr u ≠ np →
  ∃ f k, rx_ok b np taken [(f, k)] u.
Proof.
  intros (l & _ & Hlog & Hc & Hl & Hp & Hq & Hu) Hne. destruct l as [|[f k] l]; [by cbn in Hc|].
  exists f, k, ((f, k) :: l). split_and!; try done. by exists l.
Qed.
Lemma rx_ok_empty b np taken u : rx_ok b np taken [] u → curr u = np → rxlog u = taken.
Proof.
  intros (l & _ & Hlog & Hc & Hl & Hp & Hq & Hu) E.
  assert (l = []) as ->; [|by rewrite app_nil_r in Hlog].
  pose proof (dist_nonneg (curr u) b). apply (chain_empty (mem u) np l (curr u)); [done..|lia|done].
Qed.
Lemma rx_ok_take b np taken f k u : rx_ok b np taken [(f, k)] u →
  stored (mem u) np (f, k) ∧ slot_ok (f, k) ∧ page_ok np ∧
  rx_ok (boundary_for (N_adv np k)) (N_adv np k) (taken ++ [f]) [] u.
Proof.
  intros (l & [l' ->] & Hlog & [Hst Hc] & Hl & Hp & Hq & Hu). cbn [app] in *.
  apply Forall_cons in Hl as [Hs Hl]. split_and!; try done. exists l'. split_and!; try done.
  - apply prefix_nil.
  - rewrite Hlog. cbn. by rewrite <- app_assoc.
  - apply adv_ok.
  - pose proof (used_pos l' Hl). destruct Hs as [_ Hs]. cbn in Hs. unfold used in Hu. cbn [fmap list_fmap snd] in Hu.
    rewrite sumZ_cons in Hu. fold (used l') in Hu.
    pose proof (dist_nonneg (curr u) b).
    apply (boundary_ok _ _ _ b); [apply adv_ok|by eapply chain_end; [apply adv_ok|]|lia|lia].
Qed.

Lemma stored_header m np f k : page_ok np → stored m np (f, k) →
  m (N_raddr np 0) = 1 ∧ m (N_raddr np 1) = N_adv np k ∧
  m (N_raddr np 2) = (Z.of_nat (length f) + 4) mod 256 ∧ m (N_raddr np 3) = (Z.of_nat (length f) + 4) / 256.
Proof. intros Hp Hs. split_and!; [apply (Hs 0%nat)|apply (Hs 1%nat)|apply (Hs 2%nat)|apply (Hs 3%nat)]; done. Qed.

Lemma wp_header {A} fuel np f k dm ra rb b tp tb pr V d (K : Z → Z → ioM D A) Q :
  good b V → (∀ u, V u → stored (mem u) np (f, k)) → page_ok np → (1 ≤ fuel)%nat →
  st (G 0 dm ra rb b tp tb pr false) V d →
  (∀ d' ra rb, st (G 0 1 ra rb b tp tb pr false) V d' → wp (K (1 + 256 * N_adv np k) (Z.of_nat (length f) + 4)) d' Q) →
  wp (_ ← start_read 0 np 4 0; word0 ← nic_inw DATA; word1 ← nic_inw DATA; _ ← end_dma fuel; K word0 word1) d Q.
Proof.
  intros HV Hst Hp Hf Hd HQ. apply wp_bind. eapply wp_start_read; [exact HV|exact Hd|lia..|].
  clear d Hd. intros d Hd. rewrite <- raddr_small in Hd by (done || lia).
  apply wp_bind. eapply wp_dma_word; [|exact HV|exact Hd|lia|]; [done|]. clear d Hd. intros d Hd.
  change (0 + 1) with 1. change (0 + 2) with 2 in Hd.
  destruct (stored_header _ _ _ _ Hp (Hst _ (proj2 Hd))) as (-> & -> & _).
  apply wp_bind. eapply wp_dma_word; [|exact HV|exact Hd|lia|]; [done|]. clear d Hd. intros d Hd.
  change (2 + 1) with 3. destruct (stored_header _ _ _ _ Hp (Hst _ (proj2 Hd))) as (_ & _ & -> & ->).
  apply wp_bind. eapply wp_end_dma; [exact HV|exact Hf|exact Hd|]. clear d Hd. intros d Hd.
  replace ((Z.of_nat (length f) + 4) mod 256 + 256 * ((Z.of_nat (length f) + 4) / 256)) with (Z.of_nat (length f) + 4)
    by (pose proof (Z.div_mod (Z.of_nat (length f) + 4) 256 ltac:(lia)); lia).
  by eapply HQ.
Qed.

Lemma len_split l : 0 ≤ l < 65536 →
  Z.land l 0xFF = l mod 256 ∧ Z.land (Z.shiftr l 8) 0xFF = l / 256.
Proof.
  intros Hl. change 0xFF with (Z.ones 8). rewrite !Z.land_ones, Z.shiftr_div_pow2 by lia. change (2 ^ 8) with 256.
  split; [done|]. apply Z.mod_small. split; [apply Z.div_pos; lia|apply Z.div_lt_upper_bound; lia].
Qed.

Lemma wp_read_packet fuel np f k i (p : PacketPool) buf dm ra rb b tp tb pr V d Q :
  good b V → (∀ u, V u → stored (mem u) np (f, k)) → page_ok np → frame_ok f → (1 ≤ fuel)%nat →
  buffers (rx p) !! i = Some buf → length (data buf) = PACKET_SIZE →
  st (G 0 dm ra rb b tp tb pr false) V d →
  (∀ d' ra rb, st (G 0 1 ra rb b tp tb pr false) V d' →
     Q d' (rx_buffer_ready (set_rx p (ring_fill (rx p) i f)) (Z.of_nat (length f)))) →
  wp (read_packet fuel np (length f) i p) d Q.
Proof.
  intros HV Hst Hp [Hfb Hfl] Hf Hi Hlen Hd HQ. unfold read_packet.
  destruct (len_split (Z.of_nat (length f)) ltac:(lia)) as [-> ->].
  pose proof (Z.div_mod (Z.of_nat (length f)) 256 ltac:(lia)). pose proof (Z.mod_pos_bound (Z.of_nat (length f)) 256 ltac:(lia)).
  apply wp_bind. eapply wp_start_read; [exact HV|exact Hd|lia|lia|lia|]. clear d Hd. intros d Hd.
  apply wp_bind. exists d, (data buf). split; [unfold pure_outcome; by rewrite Hi|].
  rewrite <- raddr_small in Hd by (done || lia).
  apply wp_bind. change (data buf) with (fill f (data buf) (Nat.min (2 * 0) (length f))) at 1.
  eapply wp_read_words; [exact HV|exact Hst|exact Hfb|unfold PACKET_SIZE in Hlen; lia| | |].
  { pose proof (Nat.div_mod (length f + 1) 2 ltac:(lia)). pose proof (Nat.mod_upper_bound (length f + 1) 2 ltac:(lia)). lia. }
  { rewrite Z.mul_0_r, Z.add_0_r, Z.sub_0_r, Z.max_r by lia.
    replace (Z.of_nat (length f) / 256 * 256 + Z.of_nat (length f) mod 256) with (Z.of_nat (length f)) in Hd by lia. exact Hd. }
  clear d Hd. intros d ra' rb' Hd. rewrite (proj2 (Nat.ltb_lt 0 _)) in Hd.
  2: { apply Nat.div_str_pos. lia. }
  apply wp_bind. eapply wp_end_dma; [exact HV|exact Hf|exact Hd|]. clear d Hd. intros d Hd.
  apply wp_ret. eassert (rx_buffer_ready _ _ = _) as ->; [|by eapply HQ].
  do 2 f_equal. unfold ring_fill. f_equal. apply list_alter_ext; [|done]. intros x Hx. rewrite Hi in Hx. injection Hx as <-.
  f_equal. unfold fill. rewrite firstn_all, blit_eq by (unfold PACKET_SIZE in Hlen; lia). by rewrite take_0.
Qed.

(** *** The receive loop

    the frames [M] were received before, at most [F] will ever be; [E] says something
    about the interrupt status. *)
Definition RV (E : Vol → Prop) (M : list (list Z)) (F : nat) (b np : Z) (taken : list (list Z)) (h : list (list Z * Z)) (u : Vol) : Prop :=
  rx_ok b np taken h u ∧ (M `prefix_of` rxlog u ∧ (length (rxlog u) + todo u ≤ F)%nat) ∧ E u.

Lemma count_stable b M F : stable (ring_regs b) (λ u, M `prefix_of` rxlog u ∧ (length (rxlog u) + todo u ≤ F)%nat).
Proof.
  intros n n' He _ [H1 H2]. destruct He; cbn [receive vol rxlog todo] in *; try rewrite length_app; cbn [length];
    (split; [by try apply prefix_app_r|lia]).
Qed.
Lemma RV_good E M F b np taken h : good b E → good b (RV E M F b np taken h).
Proof.
  intros [Hs Ha Hsm]. split.
  - apply stable_and; [apply rx_ok_stable|]. apply stable_and; [apply count_stable|done].
  - intros u (H1 & H2 & H3). split; [done|]. split; [done|by apply Ha].
  - intros u (_ & _ & H3). by apply Hsm.
Qed.

Lemma st_weaken g (V W : Vol → Prop) d : (∀ u, V u → W u) → st g V d → st g W d.
Proof. intros HVW [H1 H2]. split; auto. Qed.

Lemma receive_frame_some p f : ∀ p' i, get_rx_buffer_for_write p = (p', Some i) →
  receive_frame p f = rx_buffer_ready (set_rx p' (ring_fill (rx p') i f)) (Z.of_nat (length f)).
Proof. intros p' i E. unfold receive_frame. by rewrite E. Qed.

Lemma reserved_buffer p spec p' i : rx_inv p spec → get_rx_buffer_for_write p = (p', Some i) →
  p' = p ∧ ∃ buf, buffers (rx p) !! i = Some buf ∧ length (data buf) = PACKET_SIZE.
Proof.
  intros (Hr & _) E. unfold get_rx_buffer_for_write in E.
  rewrite (ring_reserve_spec RX_BUFFER_COUNT ltac:(solve_len) _ _ Hr) in E.
  destruct (_ <? _)%nat; [|done]. injection E as <- <-. split; [done|].
  destruct (lookup_lt_is_Some_2 (buffers (rx p)) (slot RX_BUFFER_COUNT (rx p) (length (queue spec)))) as [buf Hb].
  { rewrite (ri_count _ _ _ Hr). apply packet_slot_lt. solve_len. }
  exists buf. split; [done|]. eapply Forall_lookup_1 in Hb; [|exact (ri_size _ _ _ Hr)]. done.
Qed.

Lemma next_of_word np : page_ok np → u8 (Z.land (Z.shiftr (1 + 256 * np) 8) 0xFF) = np.
Proof.
  unfold page_ok, RX_START, RX_STOP. intros Hp. rewrite Z.shiftr_div_pow2 by lia. change (2 ^ 8) with 256.
  rewrite Z.mul_comm, Z.div_add, Z.div_small, Z.add_0_l by lia. change 0xFF with (Z.ones 8).
  rewrite Z.land_ones by lia. unfold u8. change (2 ^ 8) with 256. by rewrite !(Z.mod_small np) by lia.
Qed.

Lemma wp_receive E M F tp tb pr fuel : (∀ b, good b E) → ∀ s p count spec taken b dm ra rb d Q,
  rx_inv p spec → (F < length taken + fuel)%nat →
  st (G 0 dm ra rb b tp tb pr false) (RV E M F b (next_pkt s) taken []) d →
  (∀ d' new count' spec' np' b' dm ra rb, rx_inv (foldl receive_frame p new) spec' → M `prefix_of` taken ++ new →
     st (G 0 dm ra rb b' tp tb pr false) (RV E M F b' np' (taken ++ new) []) d' →
     Q d' (set_next_pkt s np', foldl receive_frame p new, count')) →
  wp (receive_packets fuel s p count) d Q.
Proof.
  intros HE. induction fuel as [|fuel IH]; intros s p count spec taken b dm ra rb d Q Hp HF Hd HQ.
  { destruct (proj2 Hd) as ((l & _ & Hlog & _) & [_ Hc] & _). rewrite Hlog, length_app in Hc. lia. }
  cbn [receive_packets]. pose proof (λ h, RV_good E M F b (next_pkt s) taken h (HE b)) as HV. pose proof (λ h, good_stable _ _ (HV h)) as Hs.
  apply wp_bind. eapply (wp_cr _ _ (ring_regs b)); [|apply Hs|exact Hd|done|]; [done|]. clear d Hd. intros d Hd.
  apply wp_bind. eapply (wp_in _ _ (ring_regs b)); [|apply Hs|exact Hd|unfold CURR, DATA; lia|by eexists|]; [done|].
  clear d Hd. intros d cur Hd Hcur. injection Hcur as <-.
  destruct (Z.eqb_spec (curr (vol (nic d))) (next_pkt s)) as [Ecur|Hne].
  - (* nothing is left *)
    apply wp_bind. assert (M `prefix_of` taken) as HM.
    { destruct (proj2 Hd) as (Hrx & [HM _] & _). by rewrite <- (rx_ok_empty _ _ _ _ Hrx Ecur). }
    eapply (wp_cr _ _ (ring_regs b)); [|apply Hs|exact Hd|done|]; [done|]. clear d Hd Ecur. intros d Hd.
    apply wp_ret. replace s with (set_next_pkt s (next_pkt s)) by (by destruct s).
    eapply (HQ d [] _ spec (next_pkt s) b); [done|by rewrite app_nil_r|]. rewrite app_nil_r. exact Hd.
  - apply wp_bind. destruct Hd as [Hg Hv]. destruct Hv as (Hrx & Hc & He).
    destruct (rx_ok_head _ _ _ _ Hrx Hne) as (f & k & Hrx'). clear Hrx Hne.
    assert (st (G 1 4 ra rb b tp tb pr false) (RV E M F b (next_pkt s) taken [(f, k)]) d) as Hd by done. clear Hg Hrx' Hc He.
    eapply (wp_cr _ _ (ring_regs b)); [|apply Hs|exact Hd|done|]; [done|]. clear d Hd. intros d Hd.
    assert (∀ u, RV E M F b (next_pkt s) taken [(f, k)] u → stored (mem u) (next_pkt s) (f, k)) as Hst.
    { intros u [Hu _]. by apply rx_ok_take in Hu as [? _]. }
    destruct (rx_ok_take _ _ _ _ _ _ (proj1 (proj2 Hd))) as (_ & [Hfok Hk] & Hpage & _).
    eapply (wp_header _ _ f k); [apply HV|exact Hst|exact Hpage|lia|exact Hd|]. clear d Hd. intros d ra' rb' Hd.
    cbn [fst snd] in Hfok, Hk. pose proof (adv_ok (next_pkt s) k) as Hpage'. set (np' := N_adv (next_pkt s) k) in *.
    rewrite (next_of_word np' Hpage').
    replace (Z.to_nat (Z.of_nat (length f) + 4)) with (length f + 4)%nat by lia.
    assert (((length f + 4 <? 4)%nat || (1536 <? length f + 4)%nat) = false) as ->.
    { destruct Hfok. apply orb_false_iff. split; apply Nat.ltb_ge; lia. }
    replace (length f + 4 - 4)%nat with (length f) by lia.
    set (V := RV E M F b (next_pkt s) taken [(f, k)]) in *.
    assert (∀ d ra rb count, st (G 0 1 ra rb b tp tb pr false) V d →
      wp (_ ← nic_outb BNRY (boundary_for np'); receive_packets fuel (set_next_pkt s np') (receive_frame p f) count) d Q) as Hrest.
    { clear d Hd. intros d ra1 rb1 count1 Hd. apply wp_bind.
      eapply (wp_reg _ _ _ (ring_regs b)); [|apply Hs|exact Hd|done|]; [done|]. clear d Hd. intros d Hd.
      apply (st_weaken _ _ (RV E M F (boundary_for np') np' (taken ++ [f]) [])) in Hd.
      2: { intros u (Hu & Hrest). split; [by apply rx_ok_take in Hu as (_ & _ & _ & Hu)|done]. }
      eapply (IH (set_next_pkt s np') (receive_frame p f) _ _ (taken ++ [f])); [|rewrite length_app; cbn [length]; lia|exact Hd|].
      - apply (receive_frame_inv _ _ f Hp). destruct Hfok. unfold PACKET_SIZE. lia.
      - intros d' new count' spec' np2 b' dm' ra2 rb2 Hp' HM Hd'. rewrite <- app_assoc in HM, Hd'. cbn [app] in HM, Hd'.
        apply (HQ d' (f :: new) count' spec' np2 b' dm' ra2 rb2); done. }
    destruct (get_rx_buffer_for_write p) as [p' [i|]] eqn:Eget.
    + destruct (reserved_buffer _ _ _ _ Hp Eget) as [-> (buf & Hbuf & Hlen)].
      apply wp_bind, wp_bind. eapply wp_read_packet; [apply HV|exact Hst|exact Hpage|exact Hfok|lia|exact Hbuf|exact Hlen|exact Hd|].
      intros d1 ra1 rb1 Hd1. apply wp_ret. cbn [fst snd]. rewrite <- (receive_frame_some p f p i Eget). by eapply Hrest.
    + apply wp_bind, wp_ret. cbn [fst snd]. replace p' with (receive_frame p f) by (unfold receive_frame; by rewrite Eget).
      by eapply Hrest.
Qed.

(** *** The interrupt status *)

(** Only the bits the card sets by itself, without the overflow bit. *)
Definition bits_ok (e : Z) : Prop := 0 ≤ e ∧ ∀ k, k = 4 ∨ 6 ≤ k → Z.testbit e k = false.

Lemma bits_ok_small e : bits_ok e → 0 ≤ e < 64.
Proof.
  intros [Hn0 Hb]. split; [done|]. assert (e = Z.land e (Z.ones 6)) as ->; [|rewrite Z.land_ones by lia; apply Z.mod_pos_bound; lia].
  apply Z.bits_inj'. intros n Hn. rewrite Z.land_spec. destruct (Z_lt_le_dec n 6).
  - by rewrite Z.ones_spec_low, andb_true_r by lia.
  - by rewrite (Hb n) by lia.
Qed.
Lemma bits_ok_lor e v : bits_ok e → v ∈ [1; 2; 4; 8; 32] → bits_ok (Z.lor e v).
Proof.
  intros [Hn0 Hb] Hv. assert (bits_ok v) as [H1 Hb'].
  { assert (∀ j, 0 ≤ j < 6 → j ≠ 4 → bits_ok (2 ^ j)) as Hj.
    { intros j Hj1 Hj2. split; [apply Z.pow_nonneg; lia|]. intros k Hk. apply Z.pow2_bits_false. lia. }
    repeat (apply elem_of_cons in Hv as [->|Hv];
      [by (apply (Hj 0) || apply (Hj 1) || apply (Hj 2) || apply (Hj 3) || apply (Hj 5))|]). by apply elem_of_nil in Hv. }
  split; [by apply Z.lor_nonneg|]. intros k Hk. by rewrite Z.lor_spec, Hb, Hb'.
Qed.
Lemma bits_ok_ldiff e v : bits_ok e → bits_ok (Z.ldiff e v).
Proof.
  intros [Hn0 Hb]. split; [apply Z.ldiff_nonneg; lia|]. intros k Hk. by rewrite Z.ldiff_spec, Hb.
Qed.
Lemma ldiff_clear e k : 0 ≤ k → Z.testbit e k = false → Z.ldiff e (2 ^ k) = e.
Proof.
  intros Hk E. apply Z.bits_inj'. intros n Hn. rewrite Z.ldiff_spec, Z.pow2_bits_eqb by lia.
  destruct (Z.eqb_spec k n) as [<-|]; [by rewrite E|by rewrite andb_true_r].
Qed.

(** No overflow is pending or to come. *)
Definition calm (u : Vol) : Prop := bits_ok (events u) ∧ overflows u = 0%nat.
Lemma calm_small u : calm u → 0 ≤ events u < 64.
Proof. intros [? _]. by apply bits_ok_small. Qed.
Lemma calm_ldiff u v : calm u → calm (set_events u (Z.ldiff (events u) v)).
Proof. intros [? ?]. split; [by apply bits_ok_ldiff|done]. Qed.
Lemma calm_lor n g v t txp' rx m c : calm (vol n) → v ∈ [1; 2; 4; 8; 32] →
  calm (vol (mkNic g (mkVol m c (Z.lor (events (vol n)) v) txp' (txlog (vol n)) rx t (overflows (vol n))))).
Proof. intros [? ?] ?. split; [by apply bits_ok_lor|done]. Qed.

(** Events to come, and a weight that every event and every acknowledgement lowers. *)
Definition phi (u : Vol) : nat := todo u + (if txp u then 1 else 0).
Definition weight (u : Vol) : nat := 2 * phi u + (if events u =? 0 then 0 else 1).

Section status.
Context (T : list (list Z)).

(** The status is [e], unless there were events since. *)
Definition status (f0 : nat) (e : Z) (u : Vol) : Prop :=
  calm u ∧ txlog u = T ∧ ((phi u < f0)%nat ∨ phi u = f0 ∧ events u = e).
Definition pending (K : nat) (B : bool) (u : Vol) : Prop :=
  calm u ∧ txlog u = T ∧ (weight u ≤ K)%nat ∧ (B = true → Z.testbit (events u) 0 = true).

Lemma env_status n n' : nic_env n n' → calm (vol n) →
  calm (vol n') ∧ txlog (vol n') = txlog (vol n) ∧ (phi (vol n') < phi (vol n))%nat ∧
  (Z.testbit (events (vol n)) 0 = true → Z.testbit (events (vol n')) 0 = true).
Proof.
  intros He Hb. unfold phi. destruct He as [f k t n Hrun Htodo Hf Hk Hroom|n Htx|x t n Hx Htodo|t n Hrun Hov];
    [| | |by destruct Hb; congruence]; (split; [apply calm_lor; [done|set_solver]|]);
    unfold receive; cbn [vol events txlog todo txp] in *; rewrite ?Htodo; rewrite ?Htx; split_and!; try done; try lia;
    intros E; by rewrite Z.lor_spec, E.
Qed.

Lemma weight_bounds u : (2 * phi u ≤ weight u ≤ 2 * phi u + 1)%nat.
Proof. unfold weight. destruct (_ =? _); lia. Qed.

Lemma status_good f0 e b : good b (status f0 e).
Proof.
  split.
  - intros n n' He _ (H1 & H2 & H3). destruct (env_status _ _ He H1) as (? & E2 & ? & _).
    split; [done|]. split; [by rewrite E2|]. left. destruct H3; lia.
  - intros u (H1 & H2 & H3). change (set_events u _) with (set_events u (Z.ldiff (events u) (2 ^ 6))).
    rewrite ldiff_clear by (lia || (apply H1; lia)). by destruct u.
  - intros u (H1 & _). by apply calm_small.
Qed.
Lemma pending_good K B b : good b (pending K B).
Proof.
  split.
  - intros n n' He _ (H1 & H2 & H3 & H4). destruct (env_status _ _ He H1) as (? & E2 & ? & E4).
    split; [done|]. split; [by rewrite E2|]. split; [|auto]. pose proof (weight_bounds (vol n)). pose proof (weight_bounds (vol n')). lia.
  - intros u (H1 & H2 & H3 & H4). change (set_events u _) with (set_events u (Z.ldiff (events u) (2 ^ 6))).
    rewrite ldiff_clear by (lia || (apply H1; lia)). by destruct u.
  - intros u (H1 & _). by apply calm_small.
Qed.
End status.

Lemma wp_ack T M F k isr f0 e b np taken dm ra rb tp tb pr d Q : 0 ≤ k →
  (Z.testbit isr k = false → Z.testbit e k = false) →
  st (G 0 dm ra rb b tp tb pr false) (RV (status T f0 e) M F b np taken []) d →
  (∀ d', st (G 0 dm ra rb b tp tb pr false) (RV (status T f0 (Z.ldiff e (2 ^ k))) M F b np taken []) d' → Q d' tt) →
  wp (acknowledge isr (2 ^ k)) d Q.
Proof.
  intros Hk Hisr Hd HQ. unfold acknowledge. rewrite land_bit, negb_involutive by done.
  destruct (Z.testbit isr k).
  - eapply (wp_isr _ _ (ring_regs b) _ (RV (status T f0 (Z.ldiff e (2 ^ k))) M F b np taken []));
      [|apply good_stable, RV_good, status_good|exact Hd|done| |]; [done| |intros d' Hd'; by apply HQ].
    intros u (H1 & H2 & H3 & H4 & H5). split; [done|]. split; [done|]. split; [by apply calm_ldiff|]. split; [done|].
    destruct H5 as [H5|[H5 H6]]; [by left|right]. split; [done|]. cbn [set_events events]. by rewrite H6.
  - apply wp_ret, HQ. by rewrite ldiff_clear by auto.
Qed.

(** Acknowledging everything but the overflow bit leaves nothing. *)
Lemma all_clear e : bits_ok e →
  Z.ldiff (Z.ldiff (Z.ldiff (Z.ldiff (Z.ldiff (Z.ldiff (Z.ldiff e (2 ^ 6)) (2 ^ 5)) (2 ^ 7)) (2 ^ 0)) (2 ^ 1)) (2 ^ 2)) (2 ^ 3) = 0.
Proof.
  intros [Hn0 Hb]. apply Z.bits_inj'. intros n Hn. rewrite !Z.ldiff_spec, !Z.pow2_bits_eqb, Z.bits_0 by lia.
  assert (n = 0 ∨ n = 1 ∨ n = 2 ∨ n = 3 ∨ n = 5 ∨ n = 4 ∨ 6 ≤ n) as Hc by lia.
  destruct_or! Hc; [subst; cbn [Z.eqb Pos.eqb negb]; rewrite ?andb_false_r; done..|by rewrite (Hb n) by lia|by rewrite (Hb n) by lia].
Qed.

Lemma ldiff_other e j k : 0 ≤ j → j ≠ k → 0 ≤ k → Z.testbit (Z.ldiff e (2 ^ j)) k = Z.testbit e k.
Proof.
  intros. rewrite Z.ldiff_spec, Z.pow2_bits_eqb by lia. rewrite (proj2 (Z.eqb_neq _ _)) by done. apply andb_true_r.
Qed.

Lemma wp_handle T M F tp tb pr fuel : ∀ K B s p packets spec taken b dm ra rb d Q,
  rx_inv p spec → (K + F < length taken + fuel)%nat →
  st (G 0 dm ra rb b tp tb pr false) (RV (pending T K B) M F b (next_pkt s) taken []) d →
  (∀ d' new packets' spec' np' b' dm ra rb, rx_inv (foldl receive_frame p new) spec' →
     (B = true → M `prefix_of` taken ++ new) →
     st (G 0 dm ra rb b' tp tb pr false) (RV (λ u, calm u ∧ txlog u = T) M F b' np' (taken ++ new) []) d' →
     Q d' (set_next_pkt s np', foldl receive_frame p new, packets')) →
  wp (handle_interrupt fuel s p packets) d Q.
Proof.
  induction fuel as [|fuel IH]; intros K B s p packets spec taken b dm ra rb d Q Hp HF Hd HQ.
  { destruct (proj2 Hd) as ((l & _ & Hlog & _) & [_ Hc] & _). rewrite Hlog, length_app in Hc. lia. }
  cbn [handle_interrupt]. apply wp_bind.
  eapply (wp_in _ _ (ring_regs b)); [|apply good_stable, RV_good, pending_good|exact Hd|unfold ISR, DATA; lia|by eexists|]; [done|].
  clear d Hd. intros d v Hd Hv. injection Hv as <-. unfold read_isr. cbn [regs vol G rdc rst bit].
  rewrite !Z.mul_0_r, !Z.add_0_r. destruct Hd as [Hg (Hrx & Hc & Hb & HT & HW & HB)].
  set (u := vol (nic d)) in *. set (e := events u) in *. destruct (Z.eqb_spec e 0) as [He|He].
  { apply wp_ret. replace s with (set_next_pkt s (next_pkt s)) by (by destruct s).
    eapply (HQ d [] _ spec (next_pkt s) b); [done| |by rewrite app_nil_r].
    intros ->. rewrite He in HB. by specialize (HB eq_refl). }
  assert (weight u = 2 * phi u + 1)%nat as HWu by (unfold weight; fold e; by rewrite (proj2 (Z.eqb_neq _ _) He)).
  assert (st (G 0 dm ra rb b tp tb pr false) (RV (status T (phi u) e) M F b (next_pkt s) taken []) d) as Hd.
  { split; [done|]. split; [done|]. split; [done|]. split; [done|]. split; [done|]. by right. }
  destruct Hb as [Hb _]. fold e in Hb.
  assert (2 * phi u + 1 ≤ K)%nat as HK by lia. clear HW HWu Hrx Hc Hg HT. clearbody e. generalize dependent (phi u).
  clear u. intros f0 Hd HK. change ISR_RDC with (2 ^ 6). change ISR_CNT with (2 ^ 5). change ISR_RST with (2 ^ 7).
  change ISR_PTX with (2 ^ 1). change ISR_RXE with (2 ^ 2). change ISR_TXE with (2 ^ 3). change ISR_OVW with (2 ^ 4).
  change ISR_PRX with (2 ^ 0). rewrite !land_bit, !negb_involutive by lia. rewrite (proj2 Hb 4) by lia.
  apply wp_bind. eapply (wp_ack T M F 6); [lia| |exact Hd|]; [done|]. clear d Hd. intros d Hd.
  apply wp_bind. eapply (wp_ack T M F 5); [lia| |exact Hd|]; [by rewrite !ldiff_other by lia|]. clear d Hd. intros d Hd.
  apply wp_bind. eapply (wp_ack T M F 7); [lia| |exact Hd|]; [by rewrite !ldiff_other by lia|]. clear d Hd. intros d Hd.
  set (e3 := Z.ldiff (Z.ldiff (Z.ldiff e (2 ^ 6)) (2 ^ 5)) (2 ^ 7)) in *.
  (* what follows the receive branch *)
  assert (∀ d new packets spec np b dm ra rb, rx_inv (foldl receive_frame p new) spec →
    (B = true → M `prefix_of` taken ++ new) →
    st (G 0 dm ra rb b tp tb pr false) (RV (status T f0 (Z.ldiff e3 (2 ^ 0))) M F b np (taken ++ new) []) d →
    wp (_ ← acknowledge e (2 ^ 1); _ ← acknowledge e (2 ^ 2); _ ← acknowledge e (2 ^ 3);
        s ← mret (set_next_pkt s np); handle_interrupt fuel s (foldl receive_frame p new) packets) d Q) as Hrest.
  { clear d Hd dm ra rb b packets spec Hp. intros d new packets spec np b dm ra rb Hp HM Hd. unfold e3 in Hd.
    apply wp_bind. eapply (wp_ack T M F 1); [lia| |exact Hd|]; [by rewrite !ldiff_other by lia|]. clear d Hd. intros d Hd.
    apply wp_bind. eapply (wp_ack T M F 2); [lia| |exact Hd|]; [by rewrite !ldiff_other by lia|]. clear d Hd. intros d Hd.
    apply wp_bind. eapply (wp_ack T M F 3); [lia| |exact Hd|]; [by rewrite !ldiff_other by lia|]. clear d Hd. intros d Hd.
    rewrite all_clear in Hd by done. apply wp_bind, wp_ret.
    eapply (IH (2 * f0)%nat false (set_next_pkt s np) _ _ _ (taken ++ new)); [exact Hp|rewrite length_app; lia| |].
    - eapply st_weaken; [|exact Hd]. intros u (H1 & H2 & H3 & H4 & H5). split; [done|]. split; [done|].
      split; [done|]. split; [done|]. split; [|done]. destruct H5 as [H5|[H5 H6]].
      + pose proof (weight_bounds u). lia.
      + unfold weight. rewrite H6, H5. cbn. lia.
    - intros d' new' packets' spec' np' b' dm' ra' rb' Hp' _ Hd'. rewrite <- foldl_app, <- app_assoc in *.
      apply (HQ d' (new ++ new') packets' spec' np' b' dm' ra' rb'); [done| |done].
      intros HB'. rewrite app_assoc. by apply prefix_app_r, HM. }
  destruct (Z.testbit e 0) eqn:E0.
  - apply wp_bind, wp_bind. eapply (wp_receive (status T f0 e3) M F tp tb pr (S fuel));
      [intros; apply status_good|exact Hp| |exact Hd|]; [lia|].
    clear d Hd. intros d new count spec' np' b' dm' ra' rb' Hp' HM Hd.
    apply wp_bind. eapply (wp_isr _ _ (ring_regs b') _ (RV (status T f0 (Z.ldiff e3 (2 ^ 0))) M F b' np' (taken ++ new) []));
      [|apply good_stable, RV_good, status_good|exact Hd|done| |]; [done| |].
    { intros u (H1 & H2 & H3 & H4 & H5). split; [done|]. split; [done|]. split; [by apply calm_ldiff|]. split; [done|].
      destruct H5 as [H5|[H5 H6]]; [by left|right]. split; [done|]. cbn [set_events events]. by rewrite H6. }
    clear d Hd. intros d Hd. apply wp_ret. cbn beta iota. eapply Hrest; [exact Hp'|by intros _|exact Hd].
  - apply wp_bind, wp_ret. cbn beta iota. specialize (Hrest d [] packets spec (next_pkt s) b dm ra rb).
    replace (set_next_pkt s (next_pkt s)) with s in Hrest by (by destruct s). apply Hrest; [exact Hp| |].
    + intros HB'. by specialize (HB HB').
    + rewrite app_nil_r, ldiff_clear; [exact Hd|lia|]. unfold e3. by rewrite !ldiff_other by lia.
Qed.

(** *** Sending *)

(** The driver's invariant, with the frames transmitted so far, a bound on the events to
    come and a further property [P]. *)
Definition SV (T : list (list Z)) (K : nat) (b np : Z) (taken : list (list Z)) (P : Vol → Prop) (u : Vol) : Prop :=
  rx_ok b np taken [] u ∧ calm u ∧ (txlog u = T ∧ (todo u ≤ K)%nat) ∧ P u.

Lemma SV_good T K b np taken P : stable (ring_regs b) P → (∀ u e, P u → P (set_events u e)) → good b (SV T K b np taken P).
Proof.
  intros HP He. split.
  - intros n n' Hn Hr (H1 & H2 & H3 & H4). destruct (env_status _ _ Hn H2) as (? & E2 & _ & _).
    split; [by eapply rx_ok_stable|]. split; [done|]. split; [|by eapply HP]. rewrite E2. split; [apply H3|].
    destruct H3 as [_ H3]. destruct Hn; cbn [receive vol todo] in *; lia.
  - intros u (H1 & H2 & H3 & H4). split; [done|]. split; [by apply calm_ldiff|]. split; [done|by apply He].
  - intros u (_ & H2 & _). by apply calm_small.
Qed.

Lemma cr_txp n : (Z.land (read_cr n) CR_TXP =? 0) = negb (txp (vol n)).
Proof.
  change CR_TXP with (2 ^ 2). rewrite land_bit by lia. f_equal. unfold read_cr.
  rewrite Z.testbit_odd, Z.shiftr_div_pow2 by lia. change (2 ^ 2) with 4.
  set (r := if running (regs n) then 2 else 1). assert (0 ≤ r < 4) by (unfold r; destruct (running (regs n)); lia).
  set (x := dma (regs n) + 8 * page (regs n)).
  rewrite <- (Z.div_unique _ 4 (bit (txp (vol n)) + 2 * x) r) by (unfold x; lia).
  rewrite Z.add_comm, Z.odd_add, Z.odd_mul. by destruct (txp (vol n)).
Qed.

(** [X]: the transmitter is known to be idle. *)
Lemma wp_wait_tx g R V X timeout : ∀ d Q, R g → stable R V → (∀ u, V u → X = true → txp u = false) →
  st g V d → (X = true → (0 < timeout)%nat) →
  (∀ d' ok, st g V d' → (X = true → ok = true) → Q d' ok) → wp (wait_tx timeout) d Q.
Proof.
  induction timeout as [|timeout IH]; intros d Q Hr HV Hidle Hd HX HQ; cbn [wait_tx].
  { apply wp_ret, HQ; [done|]. intros Hx. specialize (HX Hx). lia. }
  apply wp_bind. eapply (wp_in _ _ R); [done|exact HV|exact Hd|unfold CR, DATA; lia|by eexists|].
  clear d Hd. intros d v Hd Hv. injection Hv as <-. rewrite cr_txp. cbn [vol].
  destruct (txp (vol (nic d))) eqn:Etx; cbn [negb]; [|by apply wp_ret, HQ].
  assert (X = false) as -> by (destruct X; [by rewrite (Hidle _ (proj2 Hd) eq_refl) in Etx|done]).
  by apply IH.
Qed.

(** The bytes of the frame, padded with zeros. *)
Definition byte_at (data : list Z) (j : nat) : Z := if (j <? length data)%nat then data !!! j else 0.
Definition loaded (data : list Z) (k : nat) (u : Vol) : Prop :=
  ∀ j, (j < k)%nat → mem u (TX_START * 256 + Z.of_nat j) = byte_at data j.

Lemma loaded_stable b data k : (k ≤ 1502)%nat → stable (ring_regs b) (loaded data k).
Proof.
  intros Hk n n' He Hr HP j Hj. eapply (outside_stable b _ (byte_at data j)); [|done|done|by apply HP].
  unfold TX_START, RX_START. lia.
Qed.

Lemma byte_at_range data j : bytes data → 0 ≤ byte_at data j < 256.
Proof.
  intros Hb. unfold byte_at. destruct (Nat.ltb_spec j (length data)); [|lia].
  assert (is_Some (data !! j)) as [x Hx] by (by apply lookup_lt_is_Some). erewrite list_lookup_total_correct by done.
  by eapply Forall_lookup_1 in Hb.
Qed.

Lemma rx_ok_mem b np taken h u m : (∀ a, RX_START * 256 ≤ a → m a = mem u a) →
  rx_ok b np taken h u → rx_ok b np taken h (set_mem u m).
Proof.
  intros Hm (l & Hh & Hlog & Hc & Hrest). exists l. split; [done|]. split; [done|]. split; [|done]. cbn [set_mem mem curr].
  clear Hlog Hrest Hh. revert np Hc. induction l as [|s l IH]; intros np; cbn [chain]; [done|].
  intros [H1 H2]. split; [|by apply IH]. intros i x Hi. rewrite Hm; [by apply H1|apply raddr_range].
Qed.

Lemma word_of lo hi : 0 ≤ lo < 256 → 0 ≤ hi < 256 → Z.lor lo (u16 (Z.shiftl hi 8)) = lo + 256 * hi.
Proof.
  intros Hl Hh. rewrite Z.shiftl_mul_pow2 by lia. change (2 ^ 8) with 256. rewrite u16_small by lia.
  rewrite <- Z.add_nocarry_lor; [lia|]. apply Z.bits_inj'. intros n Hn. rewrite Z.land_spec, Z.bits_0.
  destruct (Z_lt_le_dec n 8).
  - change 256 with (2 ^ 8). rewrite Z.mul_pow2_bits_low by lia. apply andb_false_r.
  - rewrite <- (Z.mod_small lo (2 ^ 8)) by (change (2 ^ 8) with 256; lia). by rewrite Z.mod_pow2_bits_high by lia.
Qed.

Lemma wp_write_words T K b np taken data len tp tb pr words : bytes data → (len ≤ 1500)%nat → ∀ i rd d Q,
  (len ≤ i + 2 * words ≤ len + 1)%nat → (i mod 2 = 0)%nat →
  st (G 0 2 (TX_START * 256 + Z.of_nat i) (Z.max 0 (Z.of_nat len - Z.of_nat i)) b tp tb pr rd) (SV T K b np taken (loaded data i)) d →
  (∀ d' ra rb, st (G 0 2 ra rb b tp tb pr (rd || (0 <? words)%nat)) (SV T K b np taken (loaded data len)) d' → Q d' tt) →
  wp (write_words words i data) d Q.
Proof.
  intros Hb Hlen. induction words as [|words IH]; intros i rd d Q Hw Hev Hd HQ; cbn [write_words].
  { apply wp_ret. rewrite orb_false_r in HQ. eapply HQ. eapply st_weaken; [|exact Hd].
    intros u (H1 & H2 & H3 & H4). split; [done|]. split; [done|]. split; [done|]. intros j Hj. apply H4. lia. }
  fold (byte_at data i) (byte_at data (i + 1)). set (lo := byte_at data i). set (hi := byte_at data (i + 1)).
  pose proof (byte_at_range data i Hb) as Rlo. pose proof (byte_at_range data (i + 1) Hb) as Rhi. fold lo in Rlo. fold hi in Rhi.
  rewrite (word_of lo hi Rlo Rhi). apply wp_bind.
  eapply (wp_outw _ _ (ring_regs b) (SV T K b np taken (loaded data i)) (SV T K b np taken (loaded data (i + 2))));
    [|apply good_stable, SV_good; [apply loaded_stable; lia|by intros u e ?]|exact Hd|done|cbn [G rbcr]; lia| |]; [done| |].
  - intros u (H1 & H2 & H3 & H4). cbn [dma_write vol regs G rsar]. rewrite (Z.mul_comm 256 hi), Z.mod_add, Z.div_add by lia.
    rewrite (Z.mod_small lo), (Z.div_small lo), Z.add_0_l, (Z.mod_small hi) by lia.
    split; [|split; [done|split; [done|]]].
    + apply rx_ok_mem; [|done]. intros a Ha. unfold upd, TX_START, RX_START in *. rewrite !(proj2 (Z.eqb_neq _ _)) by lia. done.
    + intros j Hj. cbn [set_mem mem]. unfold upd.
      destruct (Z.eqb_spec (TX_START * 256 + Z.of_nat j) (TX_START * 256 + Z.of_nat i + 1)).
      { unfold hi. f_equal. lia. }
      destruct (Z.eqb_spec (TX_START * 256 + Z.of_nat j) (TX_START * 256 + Z.of_nat i)).
      { unfold lo. f_equal. lia. }
      apply H4. lia.
  - clear d Hd. intros d Hd.
    assert (dma_next (G 0 2 (TX_START * 256 + Z.of_nat i) (Z.max 0 (Z.of_nat len - Z.of_nat i)) b tp tb pr rd)
      = G 0 2 (TX_START * 256 + Z.of_nat (i + 2)) (Z.max 0 (Z.of_nat len - Z.of_nat (i + 2))) b tp tb pr
          (rd || (Z.max 0 (Z.of_nat len - Z.of_nat i) <=? 2))) as E.
    { unfold dma_next, G. cbn [set_rdc set_rbcr set_rsar page dma running rsar rbcr pstart pstop bnry tpsr tbcr par rdc rst].
      rewrite (proj2 (Z.eqb_neq (TX_START * 256 + Z.of_nat i + 2) (RX_STOP * 256))) by (unfold TX_START, RX_STOP; lia).
      replace (Z.max 0 (Z.max 0 (Z.of_nat len - Z.of_nat i) - 2)) with (Z.max 0 (Z.of_nat len - Z.of_nat (i + 2))) by lia.
      by replace (TX_START * 256 + Z.of_nat i + 2) with (TX_START * 256 + Z.of_nat (i + 2)) by lia. }
    rewrite E in Hd. eapply (IH (i + 2)%nat); [lia| |exact Hd|].
    { rewrite <- Nat.Div0.add_mod_idemp_l, Hev. done. }
    intros d2 ra rb Hd2. apply (HQ d2 ra rb). revert Hd2. change (0 <? S words)%nat with true. rewrite orb_true_r.
    destruct (Z.leb_spec (Z.max 0 (Z.of_nat len - Z.of_nat i)) 2); [by rewrite orb_true_r|].
    rewrite (proj2 (Nat.ltb_lt 0 words)) by lia. by rewrite orb_true_r.
Qed.

Definition padded (data : list Z) : list Z :=
  data ++ replicate ((if (length data <? 60)%nat then 60 else length data) - length data) 0.

Lemma mem_bytes_lookup m a k j : (j < k)%nat → mem_bytes m a k !! j = Some (m (a + Z.of_nat j)).
Proof.
  revert a j. induction k as [|k IH]; intros a [|j] Hj; [lia..| |]; cbn [mem_bytes].
  - by rewrite Z.add_0_r.
  - change ((m a :: mem_bytes m (a + 1) k) !! S j) with (mem_bytes m (a + 1) k !! j). rewrite IH by lia. do 2 f_equal. lia.
Qed.
Lemma length_mem_bytes m a k : length (mem_bytes m a k) = k.
Proof. revert a. induction k as [|k IH]; intros a; cbn; [done|]. by rewrite IH. Qed.

Lemma loaded_frame data u k : loaded data k u → k = length (padded data) →
  mem_bytes (mem u) (TX_START * 256) k = padded data.
Proof.
  intros Hl Ek. apply list_eq_same_length with k; [done|by rewrite length_mem_bytes|].
  intros j x y Hj Hx Hy. rewrite mem_bytes_lookup in Hx by done. injection Hx as <-. rewrite (Hl j Hj). unfold byte_at, padded in *.
  destruct (Nat.ltb_spec j (length data)).
  - rewrite lookup_app_l in Hy by done. by apply list_lookup_total_correct.
  - rewrite lookup_app_r in Hy by done. by apply lookup_replicate_1 in Hy as [-> _].
Qed.

Lemma length_padded data : length (padded data) = if (length data <? 60)%nat then 60%nat else length data.
Proof. unfold padded. rewrite length_app, length_replicate. destruct (Nat.ltb_spec (length data) 60); lia. Qed.

(** The transmit command. *)
Lemma wp_transmit v g R V (W : Vol → Prop) d Q : R g → stable R V → st g V d → Z.testbit v 2 = true →
  (∀ u, V u → W (transmit g u)) → (∀ d', st (cr_out v g) W d' → Q d' tt) → wp (nic_outb CR v) d Q.
Proof.
  intros Hr HV [Hg Hv] Hp HW HQ. destruct (card_outb CR v d) as (n & Henv & En); [left; unfold CR, DATA; lia|].
  destruct (st_env g R V _ _ Hr HV Henv Hg Hv) as [Eg Ev].
  eexists _, tt. split; [reflexivity|]. apply HQ. unfold st. rewrite En. unfold write_reg. rewrite Hp, Eg. split; [done|].
  by apply HW.
Qed.

Lemma idle_stable b X : stable (ring_regs b) (λ u, X = true → txp u = false).
Proof. intros n n' He _ HX Hx. specialize (HX Hx). destruct He; cbn [receive vol txp] in *; congruence. Qed.
Lemma true_stable b : stable (ring_regs b) (λ _, True).
Proof. done. Qed.

Lemma wp_send T K X fuel data interrupts b np taken dm ra rb tp tb pr d Q :
  bytes data → (1 ≤ fuel)%nat →
  st (G 0 dm ra rb b tp tb pr false) (SV T K b np taken (λ u, X = true → txp u = false)) d →
  (∀ d' ok dm ra rb tp tb, (ok = true → (length data ≤ 1500)%nat) → ((length data ≤ 1500)%nat → X = true → ok = true) →
     st (G 0 dm ra rb b tp tb pr false) (SV (T ++ if ok : bool then [padded data] else []) K b np taken (λ _, True)) d' →
     Q d' (ok, interrupts)) →
  wp (ne_send fuel data interrupts) d Q.
Proof.
  intros Hb Hf Hd HQ. unfold ne_send.
  destruct (Nat.ltb_spec 1500 (length data)) as [Hl|Hl].
  { apply wp_ret. eapply HQ; [done|lia|]. rewrite app_nil_r. eapply st_weaken; [|exact Hd]. by intros u (? & ? & ? & _). }
  assert (∀ P, stable (ring_regs b) P → (∀ u e, P u → P (set_events u e)) → good b (SV T K b np taken P)) as HV by (intros; by apply SV_good).
  apply wp_bind, wp_bind. eapply (wp_wait_tx _ (ring_regs b) _ X);
    [apply G_ring|apply good_stable, HV; [apply idle_stable|by intros u e ?]|by intros u (_ & _ & _ & ?)|exact Hd|lia|].
  clear d Hd. intros d ok Hd Hok.
  apply (st_weaken _ _ (SV T K b np taken (loaded data 0))) in Hd; [|intros u (? & ? & ? & _); split; [done|]; split; [done|]; split; [done|]; intros j Hj; lia].
  destruct ok; cbn [negb]; [|apply wp_ret, wp_ret].
  2: { assert (X = false) as -> by (destruct X; [by specialize (Hok eq_refl)|done]).
    eassert (Q d (false, interrupts)) as HQ'; [|by destruct interrupts].
    eapply HQ; [done|done|]. rewrite app_nil_r. eapply st_weaken; [|exact Hd]. by intros u (? & ? & ? & _). }
  rewrite <- !length_padded. assert (60 ≤ length (padded data) ≤ 1500)%nat as Hlen.
  { rewrite length_padded. destruct (Nat.ltb_spec (length data) 60); lia. }
  set (len := length (padded data)) in *. destruct (len_split (Z.of_nat len) ltac:(lia)) as [-> ->].
  pose proof (Z.mod_pos_bound (Z.of_nat len) 256 ltac:(lia)) as Hmod.
  assert (Z.of_nat len / 256 * 256 + Z.of_nat len mod 256 = Z.of_nat len) as Elen
    by (pose proof (Z.div_mod (Z.of_nat len) 256 ltac:(lia)); lia).
  assert (stable (ring_regs b) (SV T K b np taken (loaded data 0))) as Hs0.
  { apply good_stable, HV; [apply loaded_stable; lia|by intros u e ?]. }
  assert (good b (SV T K b np taken (loaded data len))) as Hg.
  { apply HV; [apply loaded_stable; lia|by intros u e ?]. }
  do 4 (apply wp_bind; eapply (wp_reg _ _ _ (ring_regs b)); [|exact Hs0|exact Hd|reflexivity|]; [done|]; clear d Hd; intros d Hd;
    cbn [reg_out page G Z.eqb Pos.eqb PSTART PSTOP BNRY TPSR TBCR0 TBCR1 RSAR0 RSAR1 RBCR0 RBCR1] in Hd).
  apply wp_bind. eapply (wp_cr _ _ (ring_regs b)); [|exact Hs0|exact Hd|reflexivity|]; [done|]. clear d Hd. intros d Hd.
  unfold cr_out in Hd. cbn in Hd. rewrite !hi_lo, Elen, (proj2 (Z.eqb_neq (Z.of_nat len) 0)) in Hd by lia.
  apply wp_bind. apply (wp_write_words T K b np taken data len tp tb pr) with (i := 0%nat) (rd := false); [done|lia| |done| |].
  { pose proof (Nat.div_mod (len + 1) 2 ltac:(lia)). pose proof (Nat.mod_upper_bound (len + 1) 2 ltac:(lia)). lia. }
  { rewrite Z.add_0_r, Z.sub_0_r, Z.max_r by lia. exact Hd. }
  clear d Hd. intros d ra' rb' Hd. rewrite (proj2 (Nat.ltb_lt 0 _)) in Hd by (apply Nat.div_str_pos; lia).
  apply wp_bind. eapply wp_end_dma; [exact Hg|exact Hf|exact Hd|]. clear d Hd. intros d Hd. pose proof (good_stable _ _ Hg) as Hs.
  do 3 (apply wp_bind; eapply (wp_reg _ _ _ (ring_regs b)); [|exact Hs|exact Hd|reflexivity|]; [done|]; clear d Hd; intros d Hd;
    cbn [reg_out page G Z.eqb Pos.eqb PSTART PSTOP BNRY TPSR TBCR0 TBCR1 RSAR0 RSAR1 RBCR0 RBCR1] in Hd).
  apply wp_bind.
  eapply (wp_transmit _ _ (ring_regs b) _ (SV (T ++ [padded data]) K b np taken (λ _, True))); [|exact Hs|exact Hd|reflexivity| |]; [done| |].
  { intros u (H1 & H2 & H3 & H4). split; [done|]. split; [done|]. split; [|done]. unfold transmit.
    cbn [txlog todo]. split; [|apply H3]. change (tpsr _) with TX_START. change (tbcr _) with (hi_byte (lo_byte tb (Z.of_nat len mod 256)) (Z.of_nat len / 256)).
    rewrite hi_lo, Elen, Nat2Z.id, (proj1 H3) by lia. by rewrite (loaded_frame data u len). }
  clear d Hd. intros d Hd. apply wp_ret, wp_ret.
  eassert (Q d (true, interrupts)) as HQ'; [|by destruct interrupts]. eapply HQ; [done|done|]. exact Hd.
Qed.

(** *** Initialisation *)

Definition stopped (g : Regs) : Prop := running g = false.
(** The memory, the logs and the idle transmitter of a stopped card do not change. *)
Definition quiet (m0 : Z → Z) (R T : list (list Z)) (K : nat) (u : Vol) : Prop :=
  mem u = m0 ∧ rxlog u = R ∧ (txlog u = T ∧ (todo u ≤ K)%nat) ∧ txp u = false ∧ overflows u = 0%nat.

Lemma quiet_stable m0 R T K : stable stopped (quiet m0 R T K).
Proof.
  intros n n' He Hs (H1 & H2 & H3 & H4 & H5).
  destruct He as [f k t n Hrun Htodo Hf Hk Hroom|n Htx|x t n Hx Htodo|t n Hrun Hov]; [unfold stopped in Hs; congruence|congruence| |unfold stopped in Hs; congruence].
  unfold quiet. cbn [vol mem rxlog txlog todo txp] in *. split_and!; try done; [apply H3|]. destruct H3. lia.
Qed.
Lemma bits_stable R : stable R (λ u, calm u).
Proof. intros n n' He _ Hb. by destruct (env_status _ _ He Hb) as (? & _). Qed.

Definition reset_regs (g : Regs) : Regs := regs (reset (mkNic g (mkVol (λ _, 0) 0 0 false [] [] 0 0))).
Lemma wp_reset g R V (W : Vol → Prop) d Q : R g → stable R V → st g V d →
  (∀ u, V u → W (vol (reset (mkNic g u)))) → (∀ d' v, st (reset_regs g) W d' → Q d' v) → wp (nic_inb RESET) d Q.
Proof.
  intros Hr HV [Hg Hv] HW HQ. destruct (card_inb RESET d) as (n & Henv & En & _); [by right|].
  destruct (st_env g R V _ _ Hr HV Henv Hg Hv) as [Eg Evol].
  eexists _, _. split; [unfold nic_inb, inb; by rewrite (surjective_pairing (port_inb _ d))|]. apply HQ.
  unfold st. rewrite En. cbn [Z.eqb Pos.eqb RESET]. split; [unfold reset_regs, reset; cbn [regs]; by rewrite Eg|]. by apply HW.
Qed.
Lemma wp_reset_out v g R V d Q : R g → stable R V → st g V d → (∀ d', st g V d' → Q d' tt) → wp (nic_outb RESET v) d Q.
Proof.
  intros Hr HV [Hg Hv] HQ. destruct (card_outb RESET v d) as (n & Henv & En); [by right|].
  destruct (st_env g R V _ _ Hr HV Henv Hg Hv) as [Eg Evol].
  eexists _, tt. split; [reflexivity|]. apply HQ. unfold st. by rewrite En.
Qed.
Lemma wp_curr v g R V (W : Vol → Prop) d Q : R g → stable R V → st g V d → page g = 1 →
  (∀ u, V u → W (set_curr u v)) → (∀ d', st g W d' → Q d' tt) → wp (nic_outb CURR v) d Q.
Proof.
  intros Hr HV [Hg Hv] Hp HW HQ. destruct (card_outb CURR v d) as (n & Henv & En); [left; unfold CURR, DATA; lia|].
  destruct (st_env g R V _ _ Hr HV Henv Hg Hv) as [Eg Evol].
  eexists _, tt. split; [reflexivity|]. apply HQ. unfold st. rewrite En. unfold write_reg, reg_out. rewrite Eg, Hp.
  split; [done|]. by apply HW.
Qed.
Lemma wp_wait_reset g R V d Q : R g → stable R V → st g V d → page g = 0 → rst g = true → (∀ u, V u → 0 ≤ events u < 64) →
  (∀ d', st g V d' → Q d' true) → wp (wait_reset (Z.to_nat 10000)) d Q.
Proof.
  intros Hr HV Hd Hp Hrst Hsm HQ. replace (Z.to_nat 10000) with (S (Z.to_nat 9999)) by lia. cbn [wait_reset].
  apply wp_bind. eapply wp_in; [exact Hr|exact HV|exact Hd|unfold ISR, DATA; lia| |].
  { unfold read_reg. cbn [regs]. rewrite Hp. by eexists. }
  clear d Hd. intros d v Hd Hv. unfold read_reg in Hv. cbn [regs] in Hv. rewrite Hp in Hv. injection Hv as <-.
  unfold read_isr. cbn [regs vol]. rewrite Hrst. change ISR_RST with (2 ^ 7). rewrite land_bit, negb_involutive by lia.
  rewrite Z.testbit_odd, Z.shiftr_div_pow2 by lia. specialize (Hsm _ (proj2 Hd)).
  rewrite <- (Z.div_unique _ (2 ^ 7) 1 (events (vol (nic d)) + 64 * bit (rdc g)))
    by (change (2 ^ 7) with 128; unfold bit; destruct (rdc g); lia).
  apply wp_ret. by apply HQ.
Qed.

Ltac norm_regs Hd :=
  match type of Hd with
  | st ?g ?V ?d => let g' := eval cbv -[lo_byte hi_byte] in g in change (st g' V d) in Hd
  end.
Ltac step_reg Hs Hd :=
  apply wp_bind; eapply wp_reg; [|exact Hs|exact Hd|reflexivity|]; [done|];
  match type of Hd with st _ _ ?d => clear d Hd; intros d Hd end; norm_regs Hd; rewrite ?hi_lo in Hd by lia; norm_regs Hd.
Ltac step_cr Hs Hd :=
  apply wp_bind; eapply wp_cr; [|exact Hs|exact Hd|reflexivity|]; [done|];
  match type of Hd with st _ _ ?d => clear d Hd; intros d Hd end; norm_regs Hd.
Ltac step_isr Hs Hd :=
  apply wp_bind; eapply wp_isr; [|exact Hs|exact Hd|reflexivity| |]; [done| |];
  [|match type of Hd with st _ _ ?d => clear d Hd; intros d Hd end; norm_regs Hd].

(** The station address in the card's memory. *)
Definition prom (m : Z → Z) (mac : list Z) : Prop :=
  length mac = 6%nat ∧ bytes mac ∧ ∀ i x, mac !! i = Some x → m (2 * Z.of_nat i) = x.

Lemma below_stable b m0 : stable (ring_regs b) (λ u, ∀ a, a < RX_START * 256 → mem u a = m0 a).
Proof. intros n n' He Hr HP a Ha. eapply outside_stable; [done..|by apply HP]. Qed.

Lemma wp_read_mac T K R np b mac m0 tp tb pr n : prom m0 mac → ∀ i rd d Q, (i + n = 6)%nat →
  st (G 0 1 (2 * Z.of_nat i) (12 - 2 * Z.of_nat i) b tp tb pr rd)
    (SV T K b np R (λ u, ∀ a, a < RX_START * 256 → mem u a = m0 a)) d →
  (∀ d' rd, st (G 0 1 12 0 b tp tb pr rd) (SV T K b np R (λ u, ∀ a, a < RX_START * 256 → mem u a = m0 a)) d' →
     Q d' (drop i mac)) →
  wp (read_mac n) d Q.
Proof.
  intros (Hl & Hb & Hm). induction n as [|n IH]; intros i rd d Q Hi Hd HQ; cbn [read_mac].
  { apply wp_ret. rewrite drop_ge in HQ by lia. eapply HQ. replace (Z.of_nat i) with 6 in Hd by lia. exact Hd. }
  apply wp_bind. eapply (wp_inw _ (ring_regs b));
    [|apply good_stable, SV_good; [apply below_stable|by intros u e ?]|exact Hd|done|cbn [G rbcr]; lia|]; [done|].
  clear d Hd. intros d Hd. unfold dma_read. cbn [regs vol G rsar].
  assert (is_Some (mac !! i)) as [x Hx] by (apply lookup_lt_is_Some; lia).
  destruct Hd as [Hg (H1 & H2 & H3 & H4)]. rewrite H4 by (unfold RX_START; lia). rewrite (Hm i x Hx).
  assert (0 ≤ x < 256) as Rx by (by eapply Forall_lookup_1 in Hb).
  generalize (mem (vol (nic d)) (2 * Z.of_nat i + 1)). intros hi. apply wp_bind. eapply (IH (i + 1)%nat); [lia| |].
  - split; [|split; [exact H1|split; [exact H2|split; [exact H3|exact H4]]]]. rewrite Hg. unfold dma_next, G.
    cbn [set_rdc set_rbcr set_rsar page dma running rsar rbcr pstart pstop bnry tpsr tbcr par rdc rst].
    rewrite (proj2 (Z.eqb_neq _ _)) by (unfold RX_STOP; lia).
    replace (2 * Z.of_nat i + 2) with (2 * Z.of_nat (i + 1)) by lia.
    replace (Z.max 0 (12 - 2 * Z.of_nat i - 2)) with (12 - 2 * Z.of_nat (i + 1)) by lia. reflexivity.
  - clear d Hg H1 H2 H3 H4. intros d rd' Hd. apply wp_ret. rewrite (proj1 (word_bytes x _ Rx)).
    replace (x :: drop (i + 1) mac) with (drop i mac); [by eapply HQ|].
    rewrite (drop_S _ _ _ Hx). by rewrite Nat.add_1_r.
Qed.

Lemma curr_stable c : stable stopped (λ u, curr u = c).
Proof.
  intros n n' He Hs Hc. destruct He as [f k t n Hrun|n Htx|x t n Hx Htodo|t n Hrun]; [|done..].
  unfold stopped in Hs. congruence.
Qed.

Lemma wp_init s d g mac m0 R T K Q :
  st g (quiet m0 R T K) d → stopped g → length (par g) = 6%nat → prom m0 mac →
  (∀ d' dm ra rb tp tb, st (G 0 dm ra rb RX_START tp tb mac false) (SV T K RX_START (RX_START + 1) R (λ _, True)) d' →
     Q d' (mkNe2000 mac (RX_START + 1) true, true)) →
  wp (ne_init s) d Q.
Proof.
  intros Hd Hs Hpar Hprom HQ. unfold ne_init.
  destruct g as [pg dm rn ra rb ps pe b tp tb pr rd rs]. cbn [par] in Hpar.
  do 6 (destruct pr as [|? pr]; [done|]). destruct pr; [|done]. clear Hpar. unfold stopped in Hs. cbn in Hs. subst rn.
  set (VA := λ u, quiet m0 R T K u ∧ calm u).
  assert (stable stopped VA) as HA by (apply stable_and; [apply quiet_stable|apply bits_stable]).
  assert (∀ v u, VA u → VA (set_events u (Z.ldiff (events u) v))) as HAe by (intros v u [? ?]; split; [done|by apply calm_ldiff]).
  apply wp_bind. eapply (wp_reset _ stopped (quiet m0 R T K) VA); [|apply quiet_stable|exact Hd| |]; [done| |].
  { intros u (H1 & H2 & [H3 H3a] & H4 & H5). split; [by split_and!|]. split; [|done]. split; [done|].
    intros k _. apply Z.bits_0. }
  clear d Hd. intros d v Hd. norm_regs Hd.
  apply wp_bind. eapply wp_reset_out; [|exact HA|exact Hd|]; [done|]. clear d Hd. intros d Hd.
  apply wp_bind. eapply wp_wait_reset; [|exact HA|exact Hd|done|done| |]; [done|by intros u [_ ?]; apply calm_small|].
  clear d Hd. intros d Hd. cbn [negb].
  step_isr HA Hd; [exact (HAe _)|].
  step_cr HA Hd. do 8 step_reg HA Hd. step_cr HA Hd.
  set (VB := λ u, VA u ∧ curr u = RX_START + 1).
  assert (stable stopped VB) as HB by (apply stable_and; [done|apply curr_stable]).
  apply wp_bind. eapply (wp_curr _ _ stopped VA VB); [|exact HA|exact Hd|done| |]; [done|by intros u ?|].
  clear d Hd. intros d Hd. step_cr HB Hd. do 4 step_reg HB Hd. step_cr HB Hd.
  set (VC := SV T K RX_START (RX_START + 1) R (λ u, ∀ a, a < RX_START * 256 → mem u a = m0 a)).
  assert (good RX_START VC) as HCg by (apply SV_good; [apply below_stable|by intros u e ?]).
  pose proof (good_stable _ _ HCg) as HC.
  assert (∀ v u, VC u → VC (set_events u (Z.ldiff (events u) v))) as HCe.
  { intros w u (? & ? & ? & ?). split; [done|]. split; [by apply calm_ldiff|done]. }
  apply (st_weaken _ _ VC) in Hd.
  2: { intros u [[(Em & ER & ET & _) Hb] Ec]. split; [|split; [exact Hb|split; [exact ET|intros a _; by rewrite Em]]].
    exists []. cbn [chain]. rewrite Ec, ER, app_nil_r.
    assert (page_ok (RX_START + 1)) by (unfold page_ok, RX_START, RX_STOP; lia).
    split; [done|]. split; [done|]. split; [done|]. split; [constructor|]. by split. }
  apply wp_bind. eapply (wp_read_mac T K R _ _ mac m0 _ _ _ 6 Hprom 0); [done|exact Hd|]. fold VC. rewrite drop_0.
  clear d Hd. intros d rd' Hd. destruct Hprom as (Hl & _).
  do 6 (destruct mac as [|? mac]; [done|]). destruct mac; [|done]. unfold G in Hd. norm_regs Hd.
  step_cr HC Hd. step_isr HC Hd; [exact (HCe _)|]. step_cr HC Hd. cbn [outb_list replicate].
  apply wp_bind. do 6 step_reg HC Hd. apply wp_ret. apply wp_bind. do 8 step_reg HC Hd. apply wp_ret.
  step_cr HC Hd. step_isr HC Hd; [exact (HCe _)|]. step_reg HC Hd. step_cr HC Hd.
  apply wp_ret. eapply HQ. eapply st_weaken; [|destruct rd'; exact Hd]. by intros u (? & ? & ? & _).
Qed.

(** ** The driver between its calls *)

(** The card runs, its ring holds the frames after [taken] from the driver's page on,
    and no transfer is under way. *)
Definition card_ready (s : Ne2000) (taken : list (list Z)) (d : D) : Prop :=
  ∃ dm ra rb b tp tb, st (G 0 dm ra rb b tp tb (ne_mac s) false)
    (SV (txlog (vol (nic d))) (todo (vol (nic d))) b (next_pkt s) taken (λ _, True)) d.

Lemma ready_prefix s taken d : card_ready s taken d → taken `prefix_of` rxlog (vol (nic d)).
Proof. intros (? & ? & ? & ? & ? & ? & _ & (l & _ & -> & _) & _). by apply prefix_app_r. Qed.

Lemma ready_bound s taken d : card_ready s taken d → (length (rxlog (vol (nic d))) ≤ length taken + 57)%nat.
Proof.
  intros (? & ? & ? & b & ? & ? & _ & (l & _ & -> & _ & Hl & _ & _ & Hu) & _).
  pose proof (used_pos l Hl). pose proof (dist_nonneg (curr (vol (nic d))) b). rewrite length_app, length_fmap. lia.
Qed.

(** Enough iterations for every loop of the driver. *)
Definition enough (fuel : nat) (d : D) : Prop := (3 * todo (vol (nic d)) + 61 ≤ fuel)%nat.

Lemma ready_intro s T K taken b dm ra rb tp tb d :
  st (G 0 dm ra rb b tp tb (ne_mac s) false) (SV T K b (next_pkt s) taken (λ _, True)) d →
  card_ready s taken d ∧ txlog (vol (nic d)) = T ∧ (todo (vol (nic d)) ≤ K)%nat.
Proof.
  intros [Hg (H1 & H2 & [H3 H4] & _)]. split; [|done]. exists dm, ra, rb, b, tp, tb.
  split; [done|]. split; [done|]. split; [done|]. split; [split; [done|lia]|done].
Qed.

Lemma init_ready s d mac :
  stopped (regs (nic d)) → length (par (regs (nic d))) = 6%nat → txp (vol (nic d)) = false → overflows (vol (nic d)) = 0%nat →
  prom (mem (vol (nic d))) mac →
  wp (ne_init s) d (λ d' r, ∃ s', r = (s', true) ∧ ne_mac s' = mac ∧ initialized s' = true ∧
    card_ready s' (rxlog (vol (nic d))) d' ∧ txlog (vol (nic d')) = txlog (vol (nic d)) ∧
    (todo (vol (nic d')) ≤ todo (vol (nic d)))%nat).
Proof.
  intros H1 H2 H3 H3a H4. set (u := vol (nic d)) in *.
  eapply (wp_init s d (regs (nic d)) mac (mem u) (rxlog u) (txlog u) (todo u)); [by split|done..|].
  intros d' dm ra rb tp tb Hd. eexists. split; [done|]. split; [done|]. split; [done|].
  by eapply (ready_intro (mkNe2000 mac (RX_START + 1) true)).
Qed.

Lemma interrupt_ready fuel s p spec taken d :
  card_ready s taken d → rx_inv p spec → enough fuel d →
  wp (handle_interrupt fuel s p 0) d (λ d' r, ∃ s' new n, r = (s', foldl receive_frame p new, n) ∧ ne_mac s' = ne_mac s ∧
    (∃ spec', rx_inv (foldl receive_frame p new) spec') ∧ card_ready s' (taken ++ new) d' ∧
    (Z.testbit (events (vol (nic d))) 0 = true → rxlog (vol (nic d)) `prefix_of` taken ++ new) ∧
    txlog (vol (nic d')) = txlog (vol (nic d)) ∧ (todo (vol (nic d')) ≤ todo (vol (nic d)))%nat).
Proof.
  intros Hr Hp Hf. pose proof (ready_bound _ _ _ Hr) as Hl. destruct Hr as (dm & ra & rb & b & tp & tb & Hg & H1 & H2 & [H3 H4] & _).
  set (u := vol (nic d)) in *. unfold enough in Hf. fold u in Hf.
  eapply (wp_handle (txlog u) (rxlog u) (length (rxlog u) + todo u) tp tb (ne_mac s) fuel
    (weight u) (Z.testbit (events u) 0) s p 0 spec taken b dm ra rb); [done| | |].
  - pose proof (weight_bounds u) as Hw. unfold phi in Hw. destruct (txp u); lia.
  - split; [done|]. split; [done|]. split; [by split|]. by split_and!.
  - intros d' new n spec' np' b' dm' ra' rb' Hp' HB [Hg' (R1 & [R2 R3] & R4 & R5)].
    exists (set_next_pkt s np'), new, n. split; [done|]. split; [done|]. split; [by exists spec'|].
    assert (todo (vol (nic d')) ≤ todo u)%nat as Ht by (apply prefix_length in R2; lia).
    destruct (ready_intro (set_next_pkt s np') (txlog u) (todo u) (taken ++ new) b' dm' ra' rb' tp tb d') as (? & ? & ?).
    { split; [done|]. by split; [|split; [|split; [split|]]]. }
    by split_and!.
Qed.

Lemma send_ready fuel data interrupts s taken d :
  card_ready s taken d → bytes data → (1 ≤ fuel)%nat →
  wp (ne_send fuel data interrupts) d (λ d' r, ∃ ok : bool, r = (ok, interrupts) ∧ card_ready s taken d' ∧
    txlog (vol (nic d')) = txlog (vol (nic d)) ++ (if ok then [padded data] else []) ∧
    (ok = true → (length data ≤ 1500)%nat) ∧ ((length data ≤ 1500)%nat → txp (vol (nic d)) = false → ok = true) ∧
    (todo (vol (nic d')) ≤ todo (vol (nic d)))%nat).
Proof.
  intros (dm & ra & rb & b & tp & tb & Hg & H1 & H2 & [H3 H4] & _) Hb Hf. set (u := vol (nic d)) in *.
  eapply (wp_send (txlog u) (todo u) (negb (txp u)) fuel data interrupts b (next_pkt s) taken dm ra rb tp tb (ne_mac s)); [done|done| |].
  - split; [done|]. split; [done|]. split; [done|]. split; [by split|]. intros Hx. by apply negb_true_iff in Hx.
  - intros d' ok dm' ra' rb' tp' tb' Hok1 Hok2 Hd. exists ok. split; [done|].
    destruct (ready_intro s _ _ _ _ _ _ _ _ _ _ Hd) as (? & ? & ?). split_and!; try done.
    intros Hlen Htx. apply Hok2; [done|]. by rewrite Htx.
Qed.
End wp.
