(* ===== verification/NicFaults.v ===== *)
(** The NE2000 driver when things go wrong: on any card whatsoever the interrupt
    handler stays within the packet pool, and what it does when the receive ring has
    overflowed. *)

From S2P Require Import Prelude NetBase Packet PortIO Ne2000 NicSafe.
#[local] Open Scope Z_scope.

(** ** Any card

    Nothing is assumed of what the ports answer. *)
Section any_card.
Context {D : Type} `{Ports D}.

(** [m] does not panic, and a result of it satisfies [Q]. *)
Definition io_safe {A} (m : ioM D A) (d : D) (Q : A → Prop) : Prop :=
  match m d with Ret (_, a) => Q a | Panic => False | Diverge => True end.

Lemma io_safe_ret {A} (a : A) d (Q : A → Prop) : Q a → io_safe (mret a) d Q.
Proof. done. Qed.
Lemma io_safe_bind {A B} (m : ioM D A) (f : A → ioM D B) d (P : A → Prop) (Q : B → Prop) :
  io_safe m d P → (∀ a d', P a → io_safe (f a) d' Q) → io_safe (m ≫= f) d Q.
Proof.
  unfold io_safe, mbind, ioM_bind. destruct (m d) as [[d' a]| |]; [|done..]. intros HP Hf. by apply Hf.
Qed.
Lemma io_safe_mono {A} (m : ioM D A) d (P Q : A → Prop) :
  io_safe m d P → (∀ a, P a → Q a) → io_safe m d Q.
Proof. unfold io_safe. destruct (m d) as [[d' a]| |]; auto. Qed.

(** Port accesses never panic. *)
Lemma safe_outb r v d : io_safe (nic_outb r v) d (λ _, True).
Proof. done. Qed.
Lemma safe_inb r d : io_safe (nic_inb r) d (λ _, True).
Proof. unfold io_safe, nic_inb, inb. by destruct (port_inb _ d). Qed.
Lemma safe_inw r d : io_safe (nic_inw r) d (λ _, True).
Proof. unfold io_safe, nic_inw, inw. by destruct (port_inw _ d). Qed.
Ltac port_step :=
  eapply io_safe_bind; [first [apply safe_outb|apply safe_inb|apply safe_inw]|];
  let d := fresh "d" in let v := fresh "v" in intros v d _.

Lemma safe_wait_rdc fuel : ∀ d, io_safe (wait_rdc fuel) d (λ _, True).
Proof.
  induction fuel as [|fuel IH]; intros d; cbn [wait_rdc]; [done|]. port_step.
  destruct (_ =? 0); [apply IH|by apply io_safe_ret].
Qed.
Lemma safe_end_dma fuel d : io_safe (end_dma fuel) d (λ _, True).
Proof. eapply io_safe_bind; [apply safe_wait_rdc|]. intros _ d' _. apply safe_outb. Qed.
Lemma safe_start_read lo page cl ch d : io_safe (start_read lo page cl ch) d (λ _, True).
Proof. unfold start_read. do 4 port_step. apply safe_outb. Qed.
Lemma safe_acknowledge isr bit d : io_safe (acknowledge isr bit) d (λ _, True).
Proof. unfold acknowledge. destruct (negb _); [apply safe_outb|by apply io_safe_ret]. Qed.

(** A read fills the first [data_len] bytes of the buffer and no others. *)
Definition same_tail (n : nat) (b b' : list Z) : Prop := length b' = length b ∧ drop n b' = drop n b.
Lemma safe_put n b i x d : (i < n ≤ length b)%nat →
  io_safe (pure_outcome (put b i x)) d (same_tail n b).
Proof.
  intros Hi. unfold io_safe, pure_outcome, put. rewrite (proj2 (Nat.ltb_lt _ _)) by lia.
  split; [apply length_insert|]. apply drop_insert_lt. lia.
Qed.
Lemma safe_read_words words : ∀ i n b d, (n ≤ length b)%nat →
  io_safe (read_words words i n b) d (same_tail n b).
Proof.
  induction words as [|words IH]; intros i n b d Hn; cbn [read_words]; [by apply io_safe_ret|].
  port_step. eapply (io_safe_bind _ _ _ (same_tail n b)).
  { destruct (Nat.ltb_spec (i * 2) n); [apply safe_put; lia|by apply io_safe_ret]. }
  intros b1 d1 [L1 T1]. eapply (io_safe_bind _ _ _ (same_tail n b1)).
  { destruct (Nat.ltb_spec (i * 2 + 1) n); [apply safe_put; lia|by apply io_safe_ret]. }
  intros b2 d2 [L2 T2]. eapply io_safe_mono; [apply IH; lia|]. intros b3 [L3 T3]. split; congruence.
Qed.

(** A packet read into a buffer of the pool is a frame received. *)
Lemma safe_read_packet fuel page n i p spec d :
  rx_inv p spec → get_rx_buffer_for_write p = (p, Some i) → (n ≤ 1532)%nat →
  io_safe (read_packet fuel page n i p) d (λ p', ∃ f, p' = receive_frame p f ∧ length f = n).
Proof.
  intros Hp Eg Hn. destruct (reserved_buffer _ _ _ _ Hp Eg) as (_ & buf & Hb & Hl). unfold PACKET_SIZE in Hl.
  unfold read_packet. eapply io_safe_bind; [apply safe_start_read|]. intros _ d1 _.
  rewrite Hb. eapply (io_safe_bind _ _ _ (λ b, b = data buf)); [done|]. intros ? d2 ->.
  eapply io_safe_bind; [apply (safe_read_words _ 0 n); lia|]. intros b d3 [Lb Tb].
  eapply io_safe_bind; [apply safe_end_dma|]. intros _ d4 _. apply io_safe_ret.
  exists (take n b). assert (length (take n b) = n) as Ln by (rewrite length_take; lia). split; [|done].
  rewrite (receive_frame_some p (take n b) p i Eg), Ln. do 2 f_equal. unfold ring_fill. f_equal.
  apply list_alter_ext; [|done]. intros x Hx. rewrite Hb in Hx. injection Hx as <-. f_equal.
  rewrite blit_eq, take_0, Ln by lia. cbn [app Nat.add]. by rewrite <- Tb, take_drop.
Qed.

(** The frames put into the pool. *)
Definition short_frames (l : list (list Z)) : Prop := Forall (λ f, (length f ≤ 1532)%nat) l.
Definition pool_grows (p : PacketPool) (p' : PacketPool) : Prop :=
  ∃ new spec, p' = foldl receive_frame p new ∧ short_frames new ∧ rx_inv p' spec.
Lemma pool_grows_refl p spec : rx_inv p spec → pool_grows p p.
Proof. intros Hp. exists [], spec. by split_and!; [|constructor|]. Qed.
Lemma pool_grows_trans p p1 p2 : pool_grows p p1 → pool_grows p1 p2 → pool_grows p p2.
Proof.
  intros (n1 & s1 & -> & H1 & _) (n2 & s2 & -> & H2 & Hp2). exists (n1 ++ n2), s2.
  rewrite foldl_app in *. split_and!; [done|by apply Forall_app|done].
Qed.
Lemma pool_grows_one p spec f : rx_inv p spec → (length f ≤ 1532)%nat → pool_grows p (receive_frame p f).
Proof.
  intros Hp Hf. eexists [f], _. split; [done|]. split; [by constructor|].
  apply (receive_frame_inv _ _ f Hp). unfold PACKET_SIZE. lia.
Qed.

Lemma safe_receive_packets fuel : ∀ s p spec count d, rx_inv p spec →
  io_safe (receive_packets fuel s p count) d (λ r, pool_grows p r.1.2).
Proof.
  induction fuel as [|fuel IH]; intros s p spec count d Hp; cbn [receive_packets]; [done|].
  do 3 port_step. destruct (_ =? next_pkt s); [apply io_safe_ret; by eapply pool_grows_refl|].
  eapply io_safe_bind; [apply safe_start_read|]. intros _ d3 _. do 2 port_step.
  eapply io_safe_bind; [apply safe_end_dma|]. intros _ d6 _. cbn zeta.
  destruct (_ || _) eqn:El; [port_step; by eapply IH|].
  apply orb_false_iff in El as [_ Hlen%Nat.ltb_ge].
  assert (∀ p1 c d', pool_grows p p1 → io_safe (_ ← nic_outb BNRY (boundary_for (u8 (Z.land (Z.shiftr v2 8) 0xFF)));
    receive_packets fuel (set_next_pkt s (u8 (Z.land (Z.shiftr v2 8) 0xFF))) p1 c) d' (λ r, pool_grows p r.1.2)) as Hrest.
  { intros p1 c d' Hg. port_step. pose proof Hg as (_ & s1 & _ & _ & Hp1).
    eapply io_safe_mono; [by eapply IH|]. intros r Hr. by eapply pool_grows_trans. }
  destruct (get_rx_buffer_for_write p) as [p' [i|]] eqn:Eg.
  - destruct (reserved_buffer _ _ _ _ Hp Eg) as [-> _].
    eapply (io_safe_bind _ _ _ (λ r, pool_grows p r.1)); [|intros r d' Hr; by apply Hrest].
    eapply io_safe_bind; [eapply safe_read_packet; [done|done|lia]|].
    intros ? d' (f & -> & Hf). apply io_safe_ret. eapply pool_grows_one; [done|lia].
  - eapply (io_safe_bind _ _ _ (λ r, pool_grows p r.1)); [|intros r d' Hr; by apply Hrest].
    apply io_safe_ret. replace p' with (receive_frame p []) by (unfold receive_frame; by rewrite Eg).
    eapply pool_grows_one; [done|cbn; lia].
Qed.

Lemma safe_handle_overflow s d : io_safe (handle_overflow s) d (λ _, True).
Proof. unfold handle_overflow. do 4 port_step. by apply io_safe_ret. Qed.

Ltac ack_step :=
  eapply io_safe_bind; [apply safe_acknowledge|]; let d := fresh "d" in intros _ d _.

Lemma safe_handle_interrupt fuel : ∀ s p spec n d, rx_inv p spec →
  io_safe (handle_interrupt fuel s p n) d (λ r, pool_grows p r.1.2).
Proof.
  induction fuel as [|fuel IH]; intros s p spec n d Hp; cbn [handle_interrupt]; [done|].
  port_step. destruct (_ =? 0); [apply io_safe_ret; by eapply pool_grows_refl|].
  do 3 ack_step.
  eapply (io_safe_bind _ _ _ (λ r, pool_grows p r.1.2)).
  { destruct (negb _); [|apply io_safe_ret; by eapply pool_grows_refl].
    eapply io_safe_bind; [by eapply safe_receive_packets|]. intros r dr Hr. port_step. by apply io_safe_ret. }
  intros [[s1 p1] n1] dr Hr. cbn [fst snd] in Hr.
  do 3 ack_step.
  eapply (io_safe_bind _ _ _ (λ _, True)).
  { destruct (negb _); [apply safe_handle_overflow|by apply io_safe_ret]. }
  intros s2 ds _. pose proof Hr as (_ & spec1 & _ & _ & Hp1).
  eapply io_safe_mono; [by eapply IH|]. intros r' Hr'. by eapply pool_grows_trans.
Qed.
End any_card.

(** ** An overflow of the receive ring

    The card raised the overwrite warning together with the receive interrupt, and
    nothing happens while the handler runs. *)
Section overflow.
Context {D : Type} `{Card D}.

Lemma high_bits e n : 0 ≤ e < 64 → 6 ≤ n → Z.testbit e n = false.
Proof.
  intros He Hn. destruct (decide (e = 0)) as [->|]; [apply Z.bits_0|].
  apply Z.bits_above_log2; [lia|]. assert (Z.log2 e < 6) by (apply Z.log2_lt_pow2; lia). lia.
Qed.
Lemma ldiff_small e v : 0 ≤ e < 64 → 0 ≤ Z.ldiff e v < 64.
Proof.
  intros He. assert (Z.ldiff e v = Z.land (Z.ldiff e v) (Z.ones 6)) as ->.
  { apply Z.bits_inj'. intros n Hn. rewrite Z.land_spec, Z.ldiff_spec. destruct (Z_lt_le_dec n 6).
    - by rewrite Z.ones_spec_low, andb_true_r by lia.
    - by rewrite (high_bits e n) by lia. }
  rewrite Z.land_ones by lia. apply Z.mod_pos_bound. lia.
Qed.

Definition frozen (e : Z) (T : list (list Z)) (P : Vol → Prop) (u : Vol) : Prop :=
  events u = e ∧ txlog u = T ∧ phi u = 0%nat ∧ overflows u = 0%nat ∧ P u.
Definition blind (P : Vol → Prop) : Prop := ∀ u e, P u → P (set_events u e).

Lemma frozen_stable R e T P : stable R (frozen e T P).
Proof.
  intros n n' He _ (_ & _ & H3 & H4 & _). unfold phi in H3. exfalso.
  destruct He as [f k t n Hrun Htodo Hf Hk Hroom|n Htx|x t n Hx Htodo|t n Hrun Hov];
    [|rewrite Htx in H3|..]; lia.
Qed.
Lemma frozen_ldiff e T P v u : blind P → frozen e T P u →
  frozen (Z.ldiff e v) T P (set_events u (Z.ldiff (events u) v)).
Proof. intros HP (<- & ? & ? & ? & ?). split_and!; try done. by apply HP. Qed.
Lemma frozen_good e T P b : 0 ≤ e < 64 → blind P → good b (frozen e T P).
Proof.
  intros He HP. split; [apply frozen_stable| |by intros u (-> & _)].
  intros u Hu. apply (frozen_ldiff _ _ _ ISR_RDC _ HP) in Hu. change ISR_RDC with (2 ^ 6) in *.
  rewrite (ldiff_clear e 6) in Hu; [done|lia|]. by apply high_bits.
Qed.

Lemma wp_frozen_ack k isr e T P g d Q : 0 ≤ k → blind P →
  (Z.testbit isr k = false → Z.testbit e k = false) →
  page g = 0 → rdc g = false → st g (frozen e T P) d →
  (∀ d', st g (frozen (Z.ldiff e (2 ^ k)) T P) d' → Q d' tt) →
  wp (acknowledge isr (2 ^ k)) d Q.
Proof.
  intros Hk HP Hisr Hpg Hrd Hd HQ. unfold acknowledge. rewrite land_bit, negb_involutive by done.
  destruct (Z.testbit isr k).
  - eapply (wp_isr _ _ (λ _, True) _ (frozen (Z.ldiff e (2 ^ k)) T P));
      [done|apply frozen_stable|exact Hd|done|intros u; by apply frozen_ldiff|].
    intros d' Hd'. apply HQ. unfold reg_out in Hd'. rewrite Hpg in Hd'. cbn [Z.eqb] in Hd'.
    change (reg_out ISR (2 ^ k) g) with g. destruct g; cbn in *. by subst.
  - apply wp_ret, HQ. by rewrite ldiff_clear by auto.
Qed.

(** Acknowledging every bit leaves nothing. *)
Lemma all_clear_overflow e : 0 ≤ e < 64 →
  Z.ldiff (Z.ldiff (Z.ldiff (Z.ldiff (Z.ldiff (Z.ldiff (Z.ldiff (Z.ldiff e (2 ^ 6)) (2 ^ 5)) (2 ^ 7)) (2 ^ 0)) (2 ^ 1))
    (2 ^ 2)) (2 ^ 3)) (2 ^ 4) = 0.
Proof.
  intros He. apply Z.bits_inj'. intros n Hn. rewrite !Z.ldiff_spec, !Z.pow2_bits_eqb, Z.bits_0 by lia.
  assert (n = 0 ∨ n = 1 ∨ n = 2 ∨ n = 3 ∨ n = 5 ∨ n = 4 ∨ 6 ≤ n) as Hc by lia.
  destruct_or! Hc; [subst; cbn [Z.eqb Pos.eqb negb]; rewrite ?andb_false_r; done..|].
  by rewrite (high_bits e n).
Qed.

(** The recovery: the driver and the boundary go back to the start of the ring. *)
Lemma wp_handle_overflow s e T P dm ra rb b tp tb pr d Q : blind P →
  st (G 0 dm ra rb b tp tb pr false) (frozen e T P) d →
  (∀ d', st (G 0 4 ra rb RX_START tp tb pr false) (frozen (Z.ldiff e (2 ^ 4)) T P) d' →
     Q d' (set_next_pkt s (RX_START + 1))) →
  wp (handle_overflow s) d Q.
Proof.
  intros HP Hd HQ. pose proof (λ e, frozen_stable (λ _, True) e T P) as Hs. unfold handle_overflow.
  apply wp_bind. eapply wp_cr; [|apply Hs|exact Hd|done|]; [done|]. clear d Hd. intros d Hd.
  apply wp_bind. eapply (wp_isr _ _ _ _ (frozen (Z.ldiff e (2 ^ 4)) T P));
    [|apply Hs|exact Hd|done|intros u; by apply frozen_ldiff|]; [done|]. clear d Hd. intros d Hd.
  apply wp_bind. eapply wp_reg; [|apply Hs|exact Hd|done|]; [done|]. clear d Hd. intros d Hd.
  apply wp_bind. eapply wp_cr; [|apply Hs|exact Hd|done|]; [done|]. clear d Hd. intros d Hd.
  apply wp_ret, HQ. exact Hd.
Qed.

Definition overflow_post (s : Ne2000) (p : PacketPool) (taken : list (list Z)) (n n' : Nic)
    (r : Ne2000 * PacketPool * Z) : Prop :=
  ∃ new count, r = (set_next_pkt s (RX_START + 1), foldl receive_frame p new, count) ∧
    taken ++ new = rxlog (vol n) ∧ rxlog (vol n') = rxlog (vol n) ∧ curr (vol n') = curr (vol n) ∧
    bnry (regs n') = RX_START ∧ events (vol n') = 0 ∧ txlog (vol n') = txlog (vol n).

(** The ring holds the frames after [taken], the receive and the overflow bits are
    set and nothing more happens. *)
Definition card_overflowed (s : Ne2000) (taken : list (list Z)) (d : D) : Prop :=
  let u := vol (nic d) in
  (∃ dm ra rb b tp tb, regs (nic d) = G 0 dm ra rb b tp tb (ne_mac s) false ∧ rx_ok b (next_pkt s) taken [] u) ∧
  0 ≤ events u < 64 ∧ Z.testbit (events u) 0 = true ∧ Z.testbit (events u) 4 = true ∧
  phi u = 0%nat ∧ overflows u = 0%nat.

Lemma overflowed_bound s taken d :
  card_overflowed s taken d → (length (rxlog (vol (nic d))) ≤ length taken + 57)%nat.
Proof.
  intros ((? & ? & ? & b & ? & ? & _ & (l & _ & -> & _ & Hl & _ & _ & Hu)) & _).
  pose proof (used_pos l Hl). pose proof (dist_nonneg (curr (vol (nic d))) b). rewrite length_app, length_fmap. lia.
Qed.

(** After the receive loop the ring is empty: the driver is at the card's page. *)
Lemma ring_emptied E M b np taken new (u : Vol) :
  RV E M (length M) b np (taken ++ new) [] u → M `prefix_of` taken ++ new → rxlog u = M ∧ taken ++ new = M.
Proof.
  intros ((l & _ & Hlog & _) & [HM Hc] & _) Hpre.
  assert (rxlog u = M) as Er.
  { destruct HM as [k Hk]. rewrite Hk in Hc |- *. rewrite length_app in Hc.
    destruct k; [by rewrite app_nil_r|cbn in Hc; lia]. }
  split; [done|]. rewrite Er in Hlog. destruct Hpre as [k Hk]. rewrite Hk in Hlog.
  assert (length M = length ((M ++ k) ++ l.*1)) as Hl by congruence. rewrite !length_app in Hl.
  destruct k; [by rewrite app_nil_r in Hk|cbn in Hl; lia].
Qed.

Lemma wp_overflow_pass fuel s p spec taken M T c e b dm ra rb tp tb pr d Q :
  rx_inv p spec → 0 ≤ e < 64 → Z.testbit e 0 = true → Z.testbit e 4 = true →
  (length M ≤ length taken + 57)%nat → (61 ≤ fuel)%nat →
  st (G 0 dm ra rb b tp tb pr false) (frozen e T (λ u, rx_ok b (next_pkt s) taken [] u ∧ rxlog u = M ∧ curr u = c)) d →
  (∀ d' new count ra rb, taken ++ new = M →
     st (G 0 4 ra rb RX_START tp tb pr false) (frozen 0 T (λ u, rxlog u = M ∧ curr u = c)) d' →
     Q d' (set_next_pkt s (RX_START + 1), foldl receive_frame p new, count)) →
  wp (handle_interrupt fuel s p 0) d Q.
Proof.
  intros Hp He E0 E4 Hlen Hf Hd HQ. set (P := λ u : Vol, _ ∧ _) in Hd.
  assert (blind P) as HP by (intros u x Hu; exact Hu).
  destruct fuel as [|[|fuel]]; [lia..|]. remember (S fuel) as fuel' eqn:Ef. cbn [handle_interrupt].
  apply wp_bind. eapply (wp_in _ _ (λ _, True)); [done|apply frozen_stable|exact Hd|unfold ISR, DATA; lia|by eexists|].
  clear d Hd. intros d v Hd Hv. injection Hv as <-. unfold read_isr. cbn [regs vol G rdc rst bit].
  rewrite !Z.mul_0_r, !Z.add_0_r, (proj1 (proj2 Hd)).
  destruct (Z.eqb_spec e 0) as [->|_]; [done|].
  change ISR_RDC with (2 ^ 6). change ISR_CNT with (2 ^ 5). change ISR_RST with (2 ^ 7).
  change ISR_PTX with (2 ^ 1). change ISR_RXE with (2 ^ 2). change ISR_TXE with (2 ^ 3). change ISR_OVW with (2 ^ 4).
  change ISR_PRX with (2 ^ 0). rewrite !land_bit, !negb_involutive, E0, E4 by lia.
  apply wp_bind. eapply (wp_frozen_ack 6); [lia|exact HP| | | |exact Hd|]; [done..|]. clear d Hd. intros d Hd.
  apply wp_bind. eapply (wp_frozen_ack 5); [lia|exact HP| | | |exact Hd|]; [by rewrite !ldiff_other by lia|done..|].
  clear d Hd. intros d Hd.
  apply wp_bind. eapply (wp_frozen_ack 7); [lia|exact HP| | | |exact Hd|]; [by rewrite !ldiff_other by lia|done..|].
  clear d Hd. intros d Hd.
  set (e3 := Z.ldiff (Z.ldiff (Z.ldiff e (2 ^ 6)) (2 ^ 5)) (2 ^ 7)) in *.
  assert (0 ≤ e3 < 64) as He3.
  { unfold e3. do 3 apply ldiff_small. done. }
  apply wp_bind, wp_bind.
  eapply (wp_receive (frozen e3 T (λ u, curr u = c)) M (length M) tp tb pr (S fuel')) with (taken := taken);
    [intros b'; apply frozen_good; [done|by intros u x ?]|exact Hp|lia| |].
  { eapply st_weaken; [|exact Hd]. intros u (H1 & H2 & H3 & H4 & H5 & H6 & H7). split; [exact H5|].
    split; [|by split_and!]. rewrite H6. unfold phi in H3. split; [done|lia]. }
  clear d Hd. intros d new count spec' np' b' dm' ra' rb' _ HM Hd.
  destruct (ring_emptied _ _ _ _ _ _ _ (proj2 Hd) HM) as [_ Hnew].
  assert (blind (λ u, rxlog u = M ∧ curr u = c)) as HP' by (by intros u x ?).
  apply (st_weaken _ _ (frozen e3 T (λ u, rxlog u = M ∧ curr u = c))) in Hd.
  2: { intros u Hu. destruct (ring_emptied _ _ _ _ _ _ _ Hu HM) as [Hr _].
       destruct Hu as (_ & _ & H1 & H2 & H3 & H4 & H5). by split_and!. }
  apply wp_bind. eapply (wp_isr _ _ (λ _, True) _ (frozen (Z.ldiff e3 (2 ^ 0)) T _));
    [done|apply frozen_stable|exact Hd|done|intros u; by apply frozen_ldiff|]. clear d Hd. intros d Hd.
  apply wp_ret. cbn beta iota.
  change (reg_out ISR (2 ^ 0) ?g) with g in Hd. unfold e3 in Hd.
  apply wp_bind. eapply (wp_frozen_ack 1); [lia|exact HP'| | | |exact Hd|]; [by rewrite !ldiff_other by lia|done..|].
  clear d Hd. intros d Hd.
  apply wp_bind. eapply (wp_frozen_ack 2); [lia|exact HP'| | | |exact Hd|]; [by rewrite !ldiff_other by lia|done..|].
  clear d Hd. intros d Hd.
  apply wp_bind. eapply (wp_frozen_ack 3); [lia|exact HP'| | | |exact Hd|]; [by rewrite !ldiff_other by lia|done..|].
  clear d Hd. intros d Hd.
  apply wp_bind. eapply wp_handle_overflow; [exact HP'|exact Hd|]. clear d Hd. intros d Hd.
  rewrite all_clear_overflow in Hd by done. rewrite Ef. cbn [handle_interrupt].
  apply wp_bind. eapply (wp_in _ _ (λ _, True)); [done|apply frozen_stable|exact Hd|unfold ISR, DATA; lia|by eexists|].
  clear d Hd. intros d v Hd Hv. injection Hv as <-. unfold read_isr. cbn [regs vol G rdc rst bit].
  rewrite !Z.mul_0_r, !Z.add_0_r, (proj1 (proj2 Hd)). apply wp_ret. by eapply HQ.
Qed.

Lemma wp_overflow fuel s p spec taken d :
  card_overflowed s taken d → rx_inv p spec → (61 ≤ fuel)%nat →
  wp (handle_interrupt fuel s p 0) d (λ d' r, overflow_post s p taken (nic d) (nic d') r).
Proof.
  intros Hov Hp Hf. pose proof (overflowed_bound _ _ _ Hov) as Hlen.
  destruct Hov as ((dm & ra & rb & b & tp & tb & Hg & Hrx) & He & E0 & E4 & Hphi & Ho).
  eapply (wp_overflow_pass fuel s p spec taken (rxlog (vol (nic d))) (txlog (vol (nic d))) (curr (vol (nic d))));
    [exact Hp|exact He|done..|by split_and!|].
  intros d' new count ra' rb' Hnew [Hg' (H1 & H2 & _ & _ & H3 & H4)]. exists new, count.
  rewrite Hg'. by split_and!.
Qed.
End overflow.
