(* ===== verification/NicDriver.v ===== *)
(** The NE2000 driver as a whole: its life from power-on through any sequence of
    interrupts and transmissions, a simulated card that meets the assumptions, and
    two flaws of the interrupt handler. *)

From S2P Require Import Prelude NetBase Packet PortIO Ne2000 NicSafe NicFaults.
#[local] Open Scope Z_scope.

(** ** A simulated card

    Before each port access the next entry of a script is performed: a frame arrives,
    if the card runs and has room, or nothing.  A transmission ends at the access
    after its start. *)
Record Sim : Type := mkSim { s_nic : Nic; script : list (option (list Z)) }.

Definition byteb (b : Z) : bool := (0 <=? b) && (b <? 256).
Definition pages_for (f : list Z) : Z := (Z.of_nat (length f) + 8 + 255) / 256.
Definition accepts (n : Nic) (f : list Z) : bool :=
  running (regs n) && forallb byteb f && (60 <=? length f)%nat && (length f <=? 1514)%nat &&
  (pages_for f <=? dist (pstart (regs n)) (pstop (regs n)) (curr (vol n)) (bnry (regs n))).
Definition end_tx (n : Nic) : Nic :=
  if txp (vol n) then
    mkNic (regs n) (mkVol (mem (vol n)) (curr (vol n)) (Z.lor (events (vol n)) 2) false (txlog (vol n)) (rxlog (vol n)) (todo (vol n)) (overflows (vol n)))
  else n.
Definition arrive (n : Nic) (f : list Z) : Nic :=
  match todo (vol n) with S t => if accepts n f then receive f (pages_for f) t n else n | O => n end.
Definition sim_step (s : Sim) : Nic * list (option (list Z)) :=
  let n := end_tx (s_nic s) in
  match script s with
  | [] => (n, [])
  | None :: l => (n, l)
  | Some f :: l => (arrive n f, l)
  end.

#[export] Instance sim_ports : Ports Sim := {
  port_inb p s :=
    let '(n, l) := sim_step s in let r := p - NE2000_IOBASE in
    (mkSim (if r =? RESET then reset n else n) l, default 0 (read_reg r n));
  port_outb p v s := let '(n, l) := sim_step s in mkSim (write_reg (p - NE2000_IOBASE) v n) l;
  port_inw _ s := let '(n, l) := sim_step s in (mkSim (mkNic (dma_next (regs n)) (vol n)) l, dma_read n);
  port_outw _ w s := let '(n, l) := sim_step s in mkSim (dma_write w n) l }.

Lemma accepts_ok n f : accepts n f = true →
  running (regs n) = true ∧ frame_ok f ∧ Z.of_nat (length f) + 4 ≤ 256 * pages_for f ∧
  pages_for f ≤ dist (pstart (regs n)) (pstop (regs n)) (curr (vol n)) (bnry (regs n)).
Proof.
  unfold accepts. rewrite !andb_true_iff. intros ((((H1 & H2) & H3) & H4) & H5).
  apply Nat.leb_le in H3, H4. apply Z.leb_le in H5. split; [done|]. split; [|split; [|done]].
  - split; [|done]. apply Forall_forall. intros b Hb. apply list_elem_of_In in Hb.
    eapply (proj1 (forallb_forall _ _)) in H2; [|exact Hb]. unfold byteb in H2. unfold is_byte. blia.
  - unfold pages_for. pose proof (Z.mul_div_le (Z.of_nat (length f) + 8 + 255) 256 ltac:(lia)).
    pose proof (Z.mod_pos_bound (Z.of_nat (length f) + 8 + 255) 256 ltac:(lia)).
    pose proof (Z.div_mod (Z.of_nat (length f) + 8 + 255) 256 ltac:(lia)). lia.
Qed.

Lemma sim_step_env s : rtc nic_env (s_nic s) (sim_step s).1.
Proof.
  assert (rtc nic_env (s_nic s) (end_tx (s_nic s))) as H1.
  { unfold end_tx. destruct (txp (vol (s_nic s))) eqn:E; [|done]. by apply rtc_once, env_transmitted. }
  unfold sim_step. destruct (script s) as [|[f|] l]; [done| |done]. cbn [fst]. etrans; [exact H1|].
  unfold arrive. destruct (todo _) as [|t] eqn:Et; [done|]. destruct (accepts _ f) eqn:Ea; [|done].
  destruct (accepts_ok _ _ Ea) as (? & ? & ? & ?). by apply rtc_once, env_receive.
Qed.

#[export] Program Instance sim_card : Card Sim := { nic := s_nic }.
Next Obligation.
  intros r v s Hr. exists (sim_step s).1. split; [apply sim_step_env|]. cbn [port_outb sim_ports].
  destruct (sim_step s) as [n l]. cbn [s_nic fst]. by replace (NE2000_IOBASE + r - NE2000_IOBASE) with r by lia.
Qed.
Next Obligation.
  intros r s Hr. exists (sim_step s).1. split; [apply sim_step_env|]. cbn [port_inb sim_ports].
  destruct (sim_step s) as [n l]. cbn [s_nic fst snd]. replace (NE2000_IOBASE + r - NE2000_IOBASE) with r by lia.
  split; [done|]. by intros v ->.
Qed.
Next Obligation.
  intros s _ _. exists (sim_step s).1. split; [apply sim_step_env|]. cbn [port_inw sim_ports]. by destruct (sim_step s) as [n l].
Qed.
Next Obligation.
  intros w s _ _. exists (sim_step s).1. split; [apply sim_step_env|]. cbn [port_outw sim_ports]. by destruct (sim_step s) as [n l].
Qed.

(** ** The life of the driver *)

Inductive op : Type := Interrupt | Transmit (data : list Z).
Definition payloads (ops : list op) : list (list Z) :=
  ops ≫= (λ o, match o with Interrupt => [] | Transmit data => [data] end).

(** What the stack assumes of the transmit path: one call of [nic_send] after the other. *)
Fixpoint send_all (l : list (list Z)) : netM (list bool) :=
  match l with
  | [] => mret []
  | data :: l => ok ← nic_send data; oks ← send_all l; mret (ok :: oks)
  end.

(** The transmitter's readiness that explains the results [oks]. *)
Fixpoint explain (l : list (list Z)) (oks : list bool) : list bool :=
  match l, oks with
  | data :: l, ok :: oks => if (1500 <? length data)%nat then explain l oks else ok :: explain l oks
  | _, _ => []
  end.
Fixpoint agree (l : list (list Z)) (oks : list bool) : Prop :=
  match l, oks with
  | [], [] => True
  | data :: l, ok :: oks => (ok = true → (length data ≤ 1500)%nat) ∧ agree l oks
  | _, _ => False
  end.
Fixpoint outputs (l : list (list Z)) (oks : list bool) : list (list Z) :=
  match l, oks with
  | data :: l, ok :: oks => (if ok : bool then [padded data] else []) ++ outputs l oks
  | _, _ => []
  end.

Lemma nic_send_eq' data n : nic_send data n =
  if (1500 <? length data)%nat then Ret (n, false)
  else if tx_ready n (attempts n) then Ret (set_sent (set_attempt n) (sent n ++ [padded data]), true)
  else Ret (set_attempt n, false).
Proof. unfold nic_send, padded. destruct (1500 <? length data)%nat; [done|]. by destruct (tx_ready n (attempts n)). Qed.

Lemma send_all_explained l : ∀ oks n, agree l oks →
  (∀ i b, explain l oks !! i = Some b → tx_ready n (attempts n + i)%nat = b) →
  ∃ n', send_all l n = Ret (n', oks) ∧ sent n' = sent n ++ outputs l oks.
Proof.
  induction l as [|data l IH]; intros [|ok oks] n Ha Hr; try done.
  { exists n. split; [done|]. by rewrite app_nil_r. }
  destruct Ha as [Hok Ha]. cbn [explain] in Hr. cbn [send_all outputs].
  assert (∃ n1, nic_send data n = Ret (n1, ok) ∧ sent n1 = sent n ++ (if ok then [padded data] else []) ∧
    ∀ i b, explain l oks !! i = Some b → tx_ready n1 (attempts n1 + i)%nat = b) as (n1 & E1 & S1 & R1).
  { rewrite nic_send_eq'. destruct (Nat.ltb_spec 1500 (length data)).
    - assert (ok = false) as -> by (destruct ok; [specialize (Hok eq_refl); lia|done]).
      exists n. split; [done|]. by rewrite app_nil_r.
    - pose proof (Hr 0%nat ok eq_refl) as Hr0. rewrite Nat.add_0_r in Hr0. rewrite Hr0.
      assert (∀ i b, explain l oks !! i = Some b → tx_ready n (S (attempts n) + i)%nat = b) as HrS.
      { intros i b Hi. rewrite <- (Hr (S i) b Hi). f_equal. lia. }
      destruct ok; eexists; (split; [done|]); (split; [by rewrite ?app_nil_r|exact HrS]). }
  destruct (IH oks n1 Ha R1) as (n' & E2 & S2). exists n'.
  rewrite (netM_bind_Ret _ _ _ _ _ E1), (netM_bind_Ret _ _ _ _ _ E2). split; [done|]. by rewrite S2, S1, <- app_assoc.
Qed.

Section life.
Context {D : Type} `{Card D}.

Fixpoint run_ops (fuel : nat) (ops : list op) (s : Ne2000) (p : PacketPool) : ioM D (Ne2000 * PacketPool * list bool) :=
  match ops with
  | [] => mret (s, p, [])
  | Interrupt :: ops => r ← handle_interrupt fuel s p 0; run_ops fuel ops r.1.1 r.1.2
  | Transmit data :: ops =>
      r ← ne_send fuel data true;
      q ← run_ops fuel ops s p;
      mret (q.1, r.1 :: q.2)
  end.
Definition boot_and_run (fuel : nat) (ops : list op) (p : PacketPool) : ioM D (Ne2000 * PacketPool * list bool) :=
  r ← ne_init Ne2000_initial;
  run_ops fuel ops r.1 p.

(** A card at power-on, with the station address [mac]. *)
Definition powered_on (mac : list Z) (d : D) : Prop :=
  stopped (regs (nic d)) ∧ length (par (regs (nic d))) = 6%nat ∧ txp (vol (nic d)) = false ∧
  prom (mem (vol (nic d))) mac ∧ rxlog (vol (nic d)) = [] ∧ txlog (vol (nic d)) = [].

(** The receive ring does not overflow from now on. *)
Definition no_overflow (d : D) : Prop := overflows (vol (nic d)) = 0%nat.

Lemma run_ops_ready fuel ops : ∀ s p spec taken d,
  card_ready s taken d → rx_inv p spec → enough fuel d → Forall bytes (payloads ops) →
  wp (run_ops fuel ops s p) d (λ d' r, ∃ s' new oks, r = (s', foldl receive_frame p new, oks) ∧ ne_mac s' = ne_mac s ∧
    card_ready s' (taken ++ new) d' ∧ agree (payloads ops) oks ∧
    txlog (vol (nic d')) = txlog (vol (nic d)) ++ outputs (payloads ops) oks).
Proof.
  induction ops as [|[|data] ops IH]; intros s p spec taken d Hr Hp Hf Hb; cbn [run_ops].
  - apply wp_ret. exists s, [], []. split; [done|]. rewrite !app_nil_r. done.
  - apply wp_bind. eapply wp_mono; [eapply interrupt_ready; done|].
    intros d1 ? (s1 & new & n & -> & Hm & [spec' Hp'] & Hr' & _ & Htx & Htodo). cbn [fst snd].
    eapply wp_mono; [eapply (IH s1 _ spec' (taken ++ new)); try done; unfold enough in *; lia|].
    intros d2 ? (s2 & new2 & oks & -> & Hm2 & Hr2 & Ha & Htx2). exists s2, (new ++ new2), oks.
    rewrite foldl_app, Hm2, Htx2, Htx. split; [done|]. split; [done|]. by rewrite <- app_assoc in Hr2.
  - change (payloads (Transmit data :: ops)) with (data :: payloads ops) in *. apply Forall_cons in Hb as [Hb1 Hb].
    apply wp_bind. eapply wp_mono; [eapply send_ready; [done|done|unfold enough in Hf; lia]|].
    intros d1 ? (ok & -> & Hr' & Htx & Hok & _ & Htodo). apply wp_bind.
    eapply wp_mono; [eapply (IH s p spec taken); try done; unfold enough in *; lia|].
    intros d2 ? (s2 & new2 & oks & -> & Hm2 & Hr2 & Ha & Htx2). apply wp_ret. cbn [fst snd].
    exists s2, new2, (ok :: oks). split; [done|]. split; [done|]. split; [done|]. split; [by split|].
    cbn [outputs]. by rewrite Htx2, Htx, <- app_assoc.
Qed.

(** C5: from power-on, through any sequence of interrupts and transmissions, and
    whatever frames arrive between any two port accesses, as long as the card's
    receive ring does not overflow, the NE2000 driver implements what the protocol
    stack assumes of it.  Every loop ends; the driver knows the card's station
    address; the frames handed to the packet pool are a prefix of those the card
    received, each once, unchanged and in order, put there as [receive_frame] does;
    and the frames on the wire and the results are those of [nic_send] for some
    readiness of the transmitter. *)
Theorem ne2000_refines fuel ops p spec mac d :
  powered_on mac d → no_overflow d → enough fuel d → rx_inv p spec → Forall bytes (payloads ops) →
  ∃ d' s frames oks,
    boot_and_run fuel ops p d = Ret (d', (s, foldl receive_frame p frames, oks)) ∧ ne_mac s = mac ∧
    frames `prefix_of` rxlog (vol (nic d')) ∧
    ∀ clk cache id, ∃ ready net,
      send_all (payloads ops) (mkNet mac clk 0 ready 0 [] cache id) = Ret (net, oks) ∧ sent net = txlog (vol (nic d')).
Proof.
  intros (H1 & H2 & H3 & H4 & H5 & H6) Ho Hf Hp Hb.
  assert (wp (boot_and_run fuel ops p) d (λ d' r, ∃ s frames oks, r = (s, foldl receive_frame p frames, oks) ∧ ne_mac s = mac ∧
    card_ready s frames d' ∧ agree (payloads ops) oks ∧ txlog (vol (nic d')) = outputs (payloads ops) oks))
    as (d' & r & E & s & frames & oks & -> & Hm & Hr & Ha & Htx).
  { unfold boot_and_run. apply wp_bind. eapply wp_mono; [by eapply (init_ready Ne2000_initial)|].
    intros d1 ? (s1 & -> & Hm & _ & Hr & Htx & Htodo). rewrite H5 in Hr. rewrite H6 in Htx. cbn [fst].
    eapply wp_mono; [eapply (run_ops_ready fuel ops s1 p spec []); try done; unfold enough in *; lia|].
    intros d2 ? (s2 & new & oks & -> & Hm2 & Hr2 & Ha & Htx2). exists s2, new, oks. rewrite Htx2, Htx. by rewrite Hm2. }
  exists d', s, frames, oks. split; [done|]. split; [done|]. split; [by eapply ready_prefix|].
  intros clk cache id. set (l := explain (payloads ops) oks). exists (λ i, default false (l !! i)).
  destruct (send_all_explained (payloads ops) oks (mkNet mac clk 0 (λ i, default false (l !! i)) 0 [] cache id) Ha) as (net & E1 & S1).
  { intros i b Hi. cbn. fold l in Hi. by rewrite Hi. }
  exists net. split; [done|]. by rewrite S1, Htx.
Qed.

End life.

(** ** Witnesses *)

Definition demo_mac : list Z := [82; 84; 0; 18; 52; 86].
Definition power_on (l : list (option (list Z))) : Sim :=
  mkSim (mkNic (mkRegs 0 4 false 0 0 0 0 0 0 0 (replicate 6 0) false true)
           (mkVol (λ a, default 0 (demo_mac !! Z.to_nat (a / 2))) 0 0 false [] [] 1 0)) l.
Definition demo_frame (x : Z) : list Z := replicate 60 x.

Lemma demo_frame_ok x : 0 ≤ x < 256 → frame_ok (demo_frame x).
Proof. intros Hx. split; [by apply Forall_replicate|]. unfold demo_frame. rewrite length_replicate. lia. Qed.

Lemma demo_pool_ok : rx_inv (init PacketPool_new) (mkSpec [] 0 0).
Proof. apply init_inv; [done|]. by apply Forall_replicate. Qed.

Lemma demo_powered_on l : powered_on demo_mac (power_on l).
Proof.
  split_and!; try done. split; [done|]. split; [by repeat constructor|]. intros i x Hi. cbn [power_on nic sim_card s_nic vol mem].
  rewrite Z.mul_comm, Z.div_mul, Nat2Z.id by lia. by rewrite Hi.
Qed.

Lemma ne2000_refines_witness :
  ∃ d' s frames oks, boot_and_run 64 [Interrupt; Transmit [1; 2; 3]] (init PacketPool_new)
      (power_on (replicate 60 None ++ [Some (demo_frame 7)])) = Ret (d', (s, foldl receive_frame (init PacketPool_new) frames, oks)) ∧
    ne_mac s = demo_mac ∧ frames `prefix_of` rxlog (vol (nic d')).
Proof.
  destruct (ne2000_refines 64 [Interrupt; Transmit [1; 2; 3]] (init PacketPool_new) (mkSpec [] 0 0) demo_mac
    (power_on (replicate 60 None ++ [Some (demo_frame 7)]))) as (d' & s & frames & oks & E & Hm & Hp & _).
  - apply demo_powered_on.
  - reflexivity.
  - unfold enough. cbn. lia.
  - apply demo_pool_ok.
  - repeat constructor; unfold is_byte; lia.
  - exists d', s, frames, oks. split; [exact E|]. split; [exact Hm|exact Hp].
Defined.

(** A running card with an empty ring, and one that has received a frame. *)
Definition running_card (t : nat) : Nic :=
  mkNic (G 0 4 0 0 RX_START 0 0 demo_mac false) (mkVol (λ _, 0) (RX_START + 1) 0 false [] [] t 0).
Definition demo_driver : Ne2000 := mkNe2000 demo_mac (RX_START + 1) true.

Lemma demo_receives : nic_env (running_card 1) (receive (demo_frame 7) 1 0 (running_card 1)).
Proof. apply env_receive; try done. apply demo_frame_ok. lia. Qed.

Lemma demo_ready l : card_ready demo_driver [] (mkSim (receive (demo_frame 7) 1 0 (running_card 1)) l).
Proof.
  exists 4, 0, 0, RX_START, 0, 0. split; [done|]. split.
  - eapply (rx_ok_stable RX_START (RX_START + 1) [] [] _ _ demo_receives); [done|].
    exists []. assert (page_ok (RX_START + 1)) by (unfold page_ok, RX_START, RX_STOP; lia).
    split; [done|]. split; [done|]. split; [done|]. split; [constructor|]. by split.
  - split; [|done]. split; [|done]. split; [done|]. intros k Hk. cbn [nic sim_card s_nic receive vol events running_card].
    change (Z.lor 0 1) with (2 ^ 0). apply Z.pow2_bits_false. lia.
Qed.

(** The same card when its ring has overflowed: the receive and the overflow bits are
    set. *)
Definition overflow_card : Nic :=
  let n := receive (demo_frame 7) 1 0 (running_card 1) in mkNic (regs n) (set_events (vol n) 17).
Lemma demo_overflowed l : card_overflowed demo_driver [] (mkSim overflow_card l).
Proof.
  split_and!; try done. destruct (demo_ready l) as (dm & ra & rb & b & tp & tb & Hg & Hrx & _).
  exists dm, ra, rb, b, tp, tb. split; [exact Hg|exact Hrx].
Qed.


(** ** Two flaws of the interrupt handler *)

(** A frame that arrives after the ring was found empty and before the interrupt is
    acknowledged stays in the ring: the handler returns with no interrupt pending. *)
Definition late_arrival : Sim :=
  mkSim (receive (demo_frame 7) 1 1 (running_card 2)) (replicate 54 None ++ [Some (demo_frame 8)]).
Definition handled (d : Sim) : option (list (list Z) * Z * Z * bool) :=
  match handle_interrupt 61 demo_driver (init PacketPool_new) 0 d with
  | Ret (d', (s', p', n)) => Some (rxlog (vol (nic d')), n, events (vol (nic d')), curr (vol (nic d')) =? next_pkt s')
  | _ => None
  end.
Lemma late_frame_waits : handled late_arrival = Some ([demo_frame 7; demo_frame 8], 1, 0, false).
Proof. vm_compute. reflexivity. Qed.

(** The recovery from an overflow moves the driver back to the first page of the ring
    but leaves the card's page alone: an old frame is delivered again before the
    next one. *)
Definition overflowed : Sim :=
  let n := receive (demo_frame 7) 1 1 (running_card 2) in
  mkSim (mkNic (set_bnry (regs n) (RX_START + 1)) (set_events (vol n) ISR_OVW)) (replicate 6 None ++ [Some (demo_frame 8)]).
Definition delivered_after_overflow : option (Z * outcome (option (list Z)) * nat) :=
  match handle_interrupt 61 (set_next_pkt demo_driver (RX_START + 2)) (init PacketPool_new) 0 overflowed with
  | Ret (d, (s, p, _)) =>
      match handle_interrupt 61 s p 0 d with
      | Ret (d', (s', p', n)) => Some (n, get_rx_packet p', length (rxlog (vol (nic d'))))
      | _ => None
      end
  | _ => None
  end.
Lemma overflow_redelivers : delivered_after_overflow = Some (2, Ret (Some (demo_frame 7)), 2%nat).
Proof. vm_compute. reflexivity. Qed.
