(* ===== verification/Api.v ===== *)
(** Running programs (src/api.rs): the table of kernel functions a program gets, its
    memory, and spawning with arguments; and the program programs/hello, which reads
    the arguments back.  The network functions of the table are in NetApi. *)

From stdpp Require Import strings.
From S2P Require Import Prelude Utf8 FreeList Tiling BTreeMap ByteMem Elf RegionAllocator Executable Timer Task Scheduler.
#[local] Open Scope Z_scope.

Definition API_VERSION : Z := 4.

(** The fields of [struct KernelApi], in order.  Each takes 8 bytes ([version] is padded). *)
Inductive field : Type :=
| version | print | yield_now_fn | sleep_ms_fn | exit | alloc | free
| net_socket | net_connect | net_status | net_send | net_recv | net_available
| net_close | net_listen | net_accept.
#[export] Instance field_eq_dec : EqDecision field.
Proof. solve_decision. Defined.
Definition KernelApi : list field :=
  [version; print; yield_now_fn; sleep_ms_fn; exit; alloc; free;
   net_socket; net_connect; net_status; net_send; net_recv; net_available;
   net_close; net_listen; net_accept].

(** [api_print]: the bytes that reach the console. *)
Definition print_bytes (l : list Z) : list Z :=
  match from_utf8 l with Some _ => l | None => [] end.
Definition api_print (m : ram) (ptr len : Z) : list Z :=
  if (ptr =? 0) || (len =? 0) then [] else print_bytes (peek m ptr (Z.to_nat len)).

Section api.
Context {St : Type} `{RegionAllocator St}.
(** Addresses chosen by the linker. *)
Context (trampoline pending_program_entry_addr : Z).

(** The memory of the tasks, the scheduler, and the two statics of api.rs. *)
Record api_state : Type := mkApi {
  exec : exec_state St;
  sched : option Scheduler;
  PENDING_ENTRY : Z;
  PENDING_ARGV : Z;
}.
Definition set_exec (st : api_state) (w : exec_state St) : api_state :=
  mkApi w (sched st) (PENDING_ENTRY st) (PENDING_ARGV st).
Definition set_pending_entry (st : api_state) (e : Z) : api_state :=
  mkApi (exec st) (sched st) e (PENDING_ARGV st).
Definition set_pending_argv (st : api_state) (a : Z) : api_state :=
  mkApi (exec st) (sched st) (PENDING_ENTRY st) a.

(** [api_alloc] and [api_free] *)
Definition api_alloc (st : api_state) (size : Z) : outcome (api_state * Z) :=
  if size =? 0 then Ret (st, 0)
  else
    t ← current_task_id (sched st);
    match t with
    | None => Ret (st, 0)
    | Some task_id =>
        '(w, a) ← task_alloc (exec st) task_id size;
        match a with
        | Some addr => Ret (set_exec st w, addr)
        | None => Ret (set_exec st w, 0)
        end
    end.
Definition api_free (st : api_state) (ptr : Z) : outcome api_state :=
  if ptr =? 0 then Ret st
  else
    t ← current_task_id (sched st);
    match t with
    | None => Ret st
    | Some task_id =>
        '(w, _) ← task_free (exec st) task_id ptr;
        Ret (set_exec st w)
    end.

(** [api_yield], [api_sleep] and [api_exit] (up to its final halt): the scheduler's functions. *)
Definition api_yield (st : api_state) (cpu : Context) (now : Z) (readings : list Z) :=
  yield_now (sched st) (exec st) cpu now readings.
Definition api_sleep (st : api_state) (cpu : Context) (t0 ms now : Z) (readings : list Z) :=
  sleep_ms (sched st) (exec st) cpu t0 ms now readings.
Definition api_exit (st : api_state) (cpu : Context) (now : Z) (readings : list Z) :=
  exit_task (sched st) (exec st) cpu now readings.

(** *** Arguments *)

Definition slen (s : list Z) : Z := Z.of_nat (length s).

(** One string with its terminator at [strings_ptr], and the pointer to it in slot [i]. *)
Definition put_arg (m : ram) (argv_base i strings_ptr : Z) (s : list Z) : ram :=
  let m := poke_bytes m strings_ptr s in
  let m := write_bytes m (u64 (strings_ptr + slen s)) 0 1 in
  poke_u64 m (u64 (argv_base + 8 * i)) strings_ptr.

(** The loop over [extra_args]; [i] is the slot of the next argument. *)
Fixpoint put_args (m : ram) (argv_base i strings_ptr : Z) (args : list (list Z)) : ram :=
  match args with
  | [] => m
  | s :: args =>
      put_args (put_arg m argv_base i strings_ptr s) argv_base (i + 1) (u64 (strings_ptr + (slen s + 1))) args
  end.

Definition sum_sizes (args : list (list Z)) : Z := foldr (λ s n, slen s + 1 + n) 0 args.

Definition allocate_args_for_task (w : exec_state St) (task_id : Z) (program_name : list Z)
    (extra_args : list (list Z)) : outcome (exec_state St * option Z) :=
  let total_args := 1 + Z.of_nat (length extra_args) in
  let argv_size := u64 ((total_args + 1) * 8) in
  let strings_size := u64 (slen program_name + 1 + sum_sizes extra_args) in
  let total_size := u64 (argv_size + strings_size) in
  '(w, a) ← task_alloc w task_id total_size;
  match a with
  | None => Ret (w, None)
  | Some base =>
      let strings_ptr := u64 (base + argv_size) in
      let m := put_arg (memory w) base 0 strings_ptr program_name in
      let m := put_args m base 1 (u64 (strings_ptr + (slen program_name + 1))) extra_args in
      let m := poke_u64 m (u64 (base + 8 * total_args)) 0 in
      Ret (mkExec (cell w) (region w) m, Some base)
  end.

(** *** Spawning *)

(** [spawn_program_task] *)
Definition spawn_program_task (st : api_state) (nm : list Z) (program : LoadedProgram) :
    outcome (api_state * option Z) :=
  let st := set_pending_entry st (entry program) in
  sched_with (sched st) (λ s,
    '(s, w, t) ← spawn trampoline s (exec st) nm pending_program_entry_addr;
    Ret (mkApi w (Some s) (PENDING_ENTRY st) (PENDING_ARGV st), t)).

(** What [spawn_program] and [spawn_program_dynamic] do once the program is loaded: the
    task's name, the name to register and the first argument are given. *)
Definition spawn_loaded (st : api_state) (task_name registered name : list Z) (program : LoadedProgram)
    (extra_args : list (list Z)) : outcome (api_state * result ExecError Z) :=
  '(st, t) ← spawn_program_task st task_name program;
  match t with
  | None => Ret (st, Err AllocationFailed)
  | Some task_id =>
      w ← register_task_program (exec st) task_id (base_addr program) (lp_size program) registered;
      '(w, argv) ← allocate_args_for_task w task_id name extra_args;
      let st := set_exec st w in
      match argv with
      | None => Ret (st, Err AllocationFailed)
      | Some argv => Ret (set_pending_argv st argv, Ok task_id)
      end
  end.

Definition spawn_program (st : api_state) (name : list Z) (extra_args : list (list Z)) :
    outcome (api_state * result ExecError Z) :=
  '(w, r) ← exec_load (exec st) name;
  let st := set_exec st w in
  match r with
  | Err e => Ret (st, Err e)
  | Ok program => spawn_loaded st name name name program extra_args
  end.

Definition spawn_program_dynamic (st : api_state) (name : list Z) (extra_args : list (list Z)) :
    outcome (api_state * result ExecError Z) :=
  '(w, r) ← exec_load (exec st) name;
  let st := set_exec st w in
  match r with
  | Err e => Ret (st, Err e)
  | Ok program => spawn_loaded st (chars "program") (lp_name program) name program extra_args
  end.

(** What a new task does: the entry point it calls, and the [argv] it passes on after
    the kernel's table. *)
Definition program_wrapper (st : api_state) (entry : Z) : Z * Z := (entry, PENDING_ARGV st).
Definition pending_program_entry (st : api_state) : Z * Z := program_wrapper st (PENDING_ENTRY st).
End api.
#[global] Arguments api_state St : clear implicits.

(** ** The argument block *)

(** The string [s] with its terminator at [q]. *)
Definition cstring_at (m : ram) (q : Z) (s : list Z) : Prop :=
  peek m q (length s) = s ∧ m (q + slen s) = 0.
(** Pointers from [p] on to the strings [args], which lie one after the other from [q] on. *)
Fixpoint laid (m : ram) (p q : Z) (args : list (list Z)) : Prop :=
  match args with
  | [] => True
  | s :: args => peek_u64 m p = q ∧ cstring_at m q s ∧ laid m (p + 8) (q + (slen s + 1)) args
  end.
(** What a program may rely on: a NULL-terminated array of pointers to NUL-terminated
    strings. *)
Fixpoint argv_at (m : ram) (p : Z) (args : list (list Z)) : Prop :=
  match args with
  | [] => peek_u64 m p = 0
  | s :: args => 0 < peek_u64 m p ∧ peek_u64 m p + slen s < 18446744073709551616 ∧
      cstring_at m (peek_u64 m p) s ∧ argv_at m (p + 8) args
  end.

Lemma slen_nonneg s : 0 ≤ slen s.
Proof. unfold slen. lia. Qed.
Lemma sum_sizes_nonneg args : 0 ≤ sum_sizes args.
Proof.
  induction args as [|s args IH]; [done|]. cbn [sum_sizes foldr]. fold (sum_sizes args).
  pose proof (slen_nonneg s). lia.
Qed.

Lemma cstring_agree m m' q s :
  (∀ x, q ≤ x < q + slen s + 1 → m' x = m x) → 0 ≤ q → q + slen s + 1 ≤ 18446744073709551616 →
  cstring_at m q s → cstring_at m' q s.
Proof.
  intros Hag ? ? [H1 H2]. pose proof (slen_nonneg s). split; [|rewrite Hag by lia; done].
  etrans; [|exact H1]. apply (peek_agree m m' q (q + slen s + 1)); [done|unfold slen in *; lia..].
Qed.
Lemma peek_u64_agree m m' p :
  (∀ x, p ≤ x < p + 8 → m' x = m x) → 0 ≤ p → p + 8 ≤ 18446744073709551616 → peek_u64 m' p = peek_u64 m p.
Proof. intros Hag ? ?. unfold peek_u64. f_equal. apply (peek_agree m m' p (p + 8)); [done|lia..]. Qed.

Lemma put_arg_ok m b i sp s :
  0 ≤ b → 0 ≤ i → b + 8 * i + 8 ≤ sp → sp + slen s + 1 < 18446744073709551616 →
  let m' := put_arg m b i sp s in
  peek_u64 m' (b + 8 * i) = sp ∧ cstring_at m' sp s ∧
  ∀ x, 0 ≤ x < 18446744073709551616 → x < b + 8 * i ∨ b + 8 * i + 8 ≤ x →
    x < sp ∨ sp + slen s + 1 ≤ x → m' x = m x.
Proof.
  intros ? ? ? ?. pose proof (slen_nonneg s). unfold put_arg. rewrite !u64_small by lia.
  assert (∀ x, 0 ≤ x < 18446744073709551616 → x < b + 8 * i ∨ b + 8 * i + 8 ≤ x →
    poke_u64 (write_bytes (poke_bytes m sp s) (sp + slen s) 0 1) (b + 8 * i) sp x =
    write_bytes (poke_bytes m sp s) (sp + slen s) 0 1 x) as Hout by (intros; apply poke_u64_out; lia).
  split; [apply peek_u64_poke; lia|]. split.
  - apply (cstring_agree (write_bytes (poke_bytes m sp s) (sp + slen s) 0 1)); [intros; apply Hout; lia|lia..|].
    split; [|apply write_bytes_in; lia]. etrans; [|apply (peek_poke_bytes m sp s); unfold slen in *; lia].
    apply (peek_agree _ _ sp (sp + slen s)); [|unfold slen in *; lia..].
    intros x Hx. apply write_bytes_out; lia.
  - intros x ? ? ?. rewrite Hout, write_bytes_out by lia. apply poke_bytes_out; unfold slen in *; lia.
Qed.

Lemma laid_agree m m' p q args :
  0 ≤ p → 0 ≤ q → p + 8 * Z.of_nat (length args) < 18446744073709551616 → q + sum_sizes args < 18446744073709551616 →
  (∀ x, p ≤ x < p + 8 * Z.of_nat (length args) → m' x = m x) →
  (∀ x, q ≤ x < q + sum_sizes args → m' x = m x) → laid m p q args → laid m' p q args.
Proof.
  revert p q. induction args as [|s args IH]; intros p q ? ? Hp Hq Hap Haq; cbn [laid]; [done|].
  intros (H1 & H2 & H3). cbn [length sum_sizes foldr] in *. fold (sum_sizes args) in *.
  pose proof (slen_nonneg s). pose proof (sum_sizes_nonneg args).
  split; [|split].
  - rewrite (peek_u64_agree m m'); [done|intros; apply Hap; lia|lia..].
  - eapply cstring_agree; [|..|exact H2]; [intros; apply Haq; lia|lia..].
  - apply IH; [lia..| | |done]; intros; [apply Hap|apply Haq]; lia.
Qed.

Lemma put_args_ok b args m i sp :
  0 ≤ b → 0 ≤ i → b + 8 * (i + Z.of_nat (length args)) ≤ sp → sp + sum_sizes args < 18446744073709551616 →
  let m' := put_args m b i sp args in
  laid m' (b + 8 * i) sp args ∧
  ∀ x, 0 ≤ x < 18446744073709551616 →
    x < b + 8 * i ∨ b + 8 * (i + Z.of_nat (length args)) ≤ x →
    x < sp ∨ sp + sum_sizes args ≤ x → m' x = m x.
Proof.
  intros Hb. revert m i sp. induction args as [|s args IH]; intros m i sp Hi Hsp Hend; cbn [put_args laid].
  { by split. }
  cbn [length sum_sizes foldr] in *. fold (sum_sizes args) in *.
  pose proof (slen_nonneg s). pose proof (sum_sizes_nonneg args). rewrite u64_small by lia.
  destruct (put_arg_ok m b i sp s) as (H1 & H2 & H3); [lia..|].
  destruct (IH (put_arg m b i sp s) (i + 1) (sp + (slen s + 1))) as [Hl Hf]; [lia..|].
  split; [|intros; rewrite Hf, H3 by lia; done]. split; [|split].
  - rewrite (peek_u64_agree (put_arg m b i sp s)); [done|intros; apply Hf; lia|lia..].
  - eapply cstring_agree; [|..|exact H2]; [intros; apply Hf; lia|lia..].
  - replace (b + 8 * i + 8) with (b + 8 * (i + 1)) by lia. done.
Qed.

Lemma laid_argv m p q args :
  0 < q → q + sum_sizes args < 18446744073709551616 → laid m p q args →
  peek_u64 m (p + 8 * Z.of_nat (length args)) = 0 → argv_at m p args.
Proof.
  revert p q. induction args as [|s args IH]; intros p q Hq Hend; cbn [laid argv_at length].
  { intros _ H. by replace (p + 8 * Z.of_nat 0) with p in H by lia. }
  cbn [sum_sizes foldr] in Hend. fold (sum_sizes args) in Hend.
  pose proof (slen_nonneg s). pose proof (sum_sizes_nonneg args).
  intros (-> & H2 & H3) Hz. split; [lia|]. split; [lia|]. split; [done|].
  apply (IH _ (q + (slen s + 1))); [lia..|done|]. rewrite <- Hz. f_equal. lia.
Qed.

(** ** The memory of tasks *)
Section exec.
Context {St : Type} `{RegionAllocator St}.
Implicit Types w : exec_state St.

Lemma block_range w others t al a n :
  exec_inv w others → bt_get (allocs_of w) t = Some al → (a, n) ∈ task_blocks al →
  0 < a ∧ a + ra_rounded n < 18446744073709551616.
Proof.
  intros (_ & _ & Hinv) Hg Hin. destruct (ra_live_pos (region w) _ a (ra_rounded n) Hinv) as (? & _ & ? & _); [|done].
  apply elem_of_app. left. rewrite (owned_remove _ t al Hg). apply elem_of_app. left.
  by apply (list_elem_of_fmap_2 reserve _ (a, n)).
Qed.

Lemma align_up_page_range n : 0 < n < 4611686018427387904 → n ≤ align_up n 0x1000 < 9223372036854775808.
Proof.
  intros Hn. change 0x1000 with (2 ^ 12). rewrite align_up_spec by lia.
  pose proof (Z.div_mod (n + 2 ^ 12 - 1) (2 ^ 12)). pose proof (Z.mod_pos_bound (n + 2 ^ 12 - 1) (2 ^ 12)). lia.
Qed.

(** The size of the block for the arguments [args]. *)
Definition args_size (args : list (list Z)) : Z := 8 * (Z.of_nat (length args) + 1) + sum_sizes args.

(** The block at [argv] holds the arguments [args]: a program finds them for as long as
    the block is not written to. *)
Definition args_in (m : ram) (argv : Z) (args : list (list Z)) : Prop :=
  ∀ m', (∀ x, argv ≤ x < argv + args_size args → m' x = m x) → argv_at m' argv args.

(** The block for the arguments: recorded for the task, apart from everything else, and laid
    out as programs expect. *)
Definition args_block w w' (t : Z) (al : TaskAllocations) (others : list (Z * Z)) (argv : Z) (args : list (list Z)) : Prop :=
  0 < argv ∧ argv + args_size args < 18446744073709551616 ∧ args_in (memory w') argv args ∧
  bt_get (allocs_of w') t = Some (mkTaskAllocations (stack al) (program al)
    (heap_blocks al ++ [(argv, align_up (args_size args) 0x1000)])) ∧
  (∀ t', t' ≠ t → bt_get (allocs_of w') t' = bt_get (allocs_of w) t') ∧
  Forall (apart (argv, args_size args)) (owned (allocs_of w) ++ others) ∧
  (∀ x, 0 ≤ x < 18446744073709551616 → x < argv ∨ argv + args_size args ≤ x → memory w' x = memory w x).

Lemma allocate_args_ok w others t al name extra :
  exec_inv w others → bt_get (allocs_of w) t = Some al → args_size (name :: extra) < 4611686018427387904 →
  ∃ w' r, allocate_args_for_task w t name extra = Ret (w', r) ∧ exec_inv w' others ∧
    match r with
    | Some argv => args_block w w' t al others argv (name :: extra)
    | None => allocs_of w' = allocs_of w ∧ memory w' = memory w
    end.
Proof.
  intros Hinv Hg Hsz. pose proof (slen_nonneg name). pose proof (sum_sizes_nonneg extra).
  assert (args_size (name :: extra) = 8 * (2 + Z.of_nat (length extra)) + (slen name + 1 + sum_sizes extra)) as Hs.
  { unfold args_size. cbn [length sum_sizes foldr]. fold (sum_sizes extra). lia. }
  unfold allocate_args_for_task.
  replace (u64 ((1 + Z.of_nat (length extra) + 1) * 8)) with (8 * (2 + Z.of_nat (length extra)))
    by (rewrite u64_small; lia).
  rewrite (u64_small (slen name + 1 + _)), (u64_small (8 * _ + _)), <- Hs by lia.
  destruct (task_alloc_spec w others t al (args_size (name :: extra)) Hinv Hg) as (w1 & r & -> & Hinv1 & Hm1 & _ & Hr);
    [lia|]. rewrite mbind_Ret.
  destruct r as [base|]; [|by exists w1, None]. destruct Hr as (Hg1 & Hg' & Hap).
  pose proof (align_up_page_range (args_size (name :: extra)) ltac:(lia)) as Hal.
  pose proof (ra_rounded_ge (align_up (args_size (name :: extra)) 0x1000) ltac:(lia)) as Hge.
  destruct (block_range w1 others t _ base (align_up (args_size (name :: extra)) 0x1000) Hinv1 Hg1) as [? ?].
  { unfold task_blocks. cbn. set_solver. }
  rewrite !u64_small by lia.
  eexists _, (Some base). split; [done|]. split; [done|]. unfold args_block. cbn [memory cell].
  set (args := name :: extra) in *. remember (base + 8 * (2 + Z.of_nat (length extra))) as sp eqn:Hsp.
  destruct (put_args_ok base args (memory w1) 0 sp) as [Hl Hf]; [lia|lia|cbn [length args]; lia|..].
  { unfold args. cbn [sum_sizes foldr]. fold (sum_sizes extra). lia. }
  assert (put_args (memory w1) base 0 sp args =
    put_args (put_arg (memory w1) base 0 sp name) base 1 (sp + (slen name + 1)) extra) as Hput.
  { unfold args. cbn [put_args]. rewrite u64_small by lia. done. }
  rewrite Hput in Hl, Hf. set (m2 := put_args (put_arg _ _ _ _ _) _ _ _ _) in *.
  replace (base + 8 * 0) with base in Hl, Hf by lia.
  assert (sum_sizes args = slen name + 1 + sum_sizes extra) as Hss by done.
  assert (Z.of_nat (length args) = 1 + Z.of_nat (length extra)) as Hls by (cbn [length args]; lia).
  split; [lia|]. split; [lia|]. split; [|split; [done|split; [done|split]]].
  - intros m' Hm'. apply (laid_argv _ _ sp); [lia|lia| |].
    + eapply laid_agree; [..|exact Hl]; try lia; intros x Hx; (rewrite Hm' by lia; apply poke_u64_out; lia).
    + rewrite Hls, (peek_u64_agree (poke_u64 m2 (base + 8 * (1 + Z.of_nat (length extra))) 0));
        [apply peek_u64_poke; lia|intros; apply Hm'; lia|lia..].
  - eapply Forall_impl; [exact Hap|]. intros [a n] Hx. unfold apart, reserve in *. cbn [fst snd] in *. lia.
  - intros x Hx Hout. rewrite poke_u64_out, Hf, Hm1 by lia. done.
Qed.

(** Registering a program moves its block to the task. *)
Lemma register_program_ok w others t al base size nm :
  exec_inv w ((base, ra_rounded size) :: others) → bt_get (allocs_of w) t = Some al → program al = None →
  ∃ w', register_task_program w t base size nm = Ret w' ∧ exec_inv w' others ∧ memory w' = memory w ∧
    bt_get (allocs_of w') t = Some (mkTaskAllocations (stack al) (Some (base, size, nm)) (heap_blocks al)) ∧
    owned (allocs_of w') ++ others ≡ₚ owned (allocs_of w) ++ (base, ra_rounded size) :: others ∧
    ∀ t', t' ≠ t → bt_get (allocs_of w') t' = bt_get (allocs_of w) t'.
Proof.
  intros (Hi & Hs & Hinv) Hg Hp. unfold register_task_program, registry_with. rewrite Hi. cbn [rust_assert].
  rewrite mbind_Ret, mbind_Ret. unfold allocs_of in Hg, Hs. rewrite Hg.
  set (al' := mkTaskAllocations (stack al) (Some (base, size, nm)) (heap_blocks al)).
  assert (owned (bt_insert (task_allocations (inner (cell w))) t al') ++ others ≡ₚ
    owned (task_allocations (inner (cell w))) ++ (base, ra_rounded size) :: others) as Hperm.
  { rewrite (owned_insert _ t al al' Hs Hg), (owned_remove _ t al Hg). unfold task_blocks, al'. rewrite Hp. cbn.
    rewrite !fmap_app. cbn. solve_Permutation. }
  eexists. split; [done|]. split; [|split; [done|split; [|split; [exact Hperm|]]]].
  - split_and!; [done|by apply bt_insert_sorted|]. eapply ra_inv_perm; [symmetry; exact Hperm|exact Hinv].
  - unfold allocs_of. cbn. rewrite bt_get_insert by done. by rewrite Z.eqb_refl.
  - intros t' Ht. unfold allocs_of. cbn. rewrite bt_get_insert by done. by rewrite (proj2 (Z.eqb_neq t' t)).
Qed.
End exec.

(** ** Spawning *)
Section spawn.
Context {St : Type} `{RegionAllocator St}.
Context (trampoline pending_program_entry_addr : Z).
Context (Htr : 0 ≤ trampoline < 18446744073709551616).
Implicit Types st : api_state St.

(** The scheduler runs, task identifiers are distinct and below the next one, and no memory
    is recorded for the tasks to come. *)
Record api_inv st (s : Scheduler) (others : list (Z * Z)) : Prop := {
  ai_sched : sched st = Some s;
  ai_exec : exec_inv (exec st) others;
  ai_nodup : NoDup (id <$> tasks s);
  ai_ids : Forall (λ t, 0 ≤ id t < next_id s) (tasks s);
  ai_next : 0 ≤ next_id s;
  ai_fresh : ∀ i, next_id s ≤ i → bt_get (allocs_of (exec st)) i = None;
}.

Lemma in_block_out (b c : Z * Z) x : apart b c → c.1 ≤ x < c.1 + c.2 → x < b.1 ∨ b.1 + b.2 ≤ x.
Proof. destruct b, c. unfold apart. cbn. lia. Qed.

(** The scheduler with one more task. *)
Lemma api_inv_snoc st s others0 others st' s' t :
  api_inv st s others0 → next_id s < 4294967295 → sched st' = Some s' → exec_inv (exec st') others →
  tasks s' = tasks s ++ [t] → id t = next_id s → next_id s' = u32 (next_id s + 1) →
  (∀ i, i ≠ next_id s → bt_get (allocs_of (exec st')) i = bt_get (allocs_of (exec st)) i) →
  api_inv st' s' others.
Proof.
  intros [_ _ Hnd HF Hn Hfr] Hlt Hs' Hex Ht Hid Hnext Hg. rewrite u32_small in Hnext by lia. split; [done..| | |lia|].
  - rewrite Ht, fmap_app. apply NoDup_app. split_and!; [done| |apply NoDup_singleton].
    intros x (u & -> & Hu)%list_elem_of_fmap Hin%list_elem_of_singleton.
    rewrite Forall_forall in HF. specialize (HF _ Hu). lia.
  - rewrite Ht. apply Forall_app. split; [|constructor; [lia|done]].
    eapply Forall_impl; [exact HF|]. cbn. lia.
  - intros i Hi. rewrite Hg by lia. apply Hfr. lia.
Qed.

(** The memory of a new task: its stack, its program and its arguments. *)
Definition new_task_memory st' (t : Task) (p : LoadedProgram) (name : list Z) (args : list (list Z)) (argv : Z) : Prop :=
  bt_get (allocs_of (exec st')) (id t) =
    Some (mkTaskAllocations (stack_base t, STACK_SIZE) (Some (base_addr p, lp_size p, name))
            [(argv, align_up (args_size (name :: args)) 0x1000)]) ∧
  args_in (memory (exec st')) argv (name :: args).

(** The first switch to the task returns to the trampoline, on a zeroed and aligned stack
    of its own, and the trampoline calls [pending_program_entry]. *)
Definition at_trampoline (m : ram) (t : Task) : Prop :=
  r12 (context t) = pending_program_entry_addr ∧ r13 (context t) = 0 ∧
  rsp (context t) = stack_base t + STACK_SIZE - 8 ∧ (rsp (context t) + 8) mod 16 = 0 ∧
  peek_u64 m (rsp (context t)) = trampoline ∧ ∀ x, stack_base t ≤ x < rsp (context t) → m x = 0.

Lemma at_trampoline_agree m m' t :
  0 ≤ stack_base t → stack_base t + STACK_SIZE ≤ 18446744073709551616 →
  (∀ x, stack_base t ≤ x < stack_base t + STACK_SIZE → m' x = m x) → at_trampoline m t → at_trampoline m' t.
Proof.
  intros H0 Hn Hag (H12 & H13 & Hsp & Hal & Hp & Hz). assert (STACK_SIZE = 16384) as HS by done.
  split_and!; [done..| |].
  - rewrite <- Hp. apply peek_u64_agree; [intros; apply Hag; lia|lia..].
  - intros x Hx. rewrite Hag by lia. by apply Hz.
Qed.

(** Starting a loaded program. *)
Lemma spawn_loaded_ok st s others task_name name p args :
  api_inv st s ((base_addr p, ra_rounded (lp_size p)) :: others) → next_id s < 4294967295 →
  0 < lp_size p ≤ ra_rounded (lp_size p) → args_size (name :: args) < 4611686018427387904 →
  ∃ st' r s', spawn_loaded trampoline pending_program_entry_addr st task_name name name p args = Ret (st', r) ∧
    match r with
    | Ok i => i = next_id s ∧ next_id s' = next_id s + 1 ∧ api_inv st' s' others ∧
        ∃ t, tasks s' = tasks s ++ [t] ∧ id t = i ∧ state t = Ready ∧ at_trampoline (memory (exec st')) t ∧
          (pending_program_entry st').1 = entry p ∧
          new_task_memory st' t p name args (pending_program_entry st').2 ∧
          ∀ x, base_addr p ≤ x < base_addr p + lp_size p → memory (exec st') x = memory (exec st) x
    | Err e => e = AllocationFailed ∧ PENDING_ARGV st' = PENDING_ARGV st ∧
        (api_inv st' s' ((base_addr p, ra_rounded (lp_size p)) :: others) ∧ tasks s' = tasks s ∨
         api_inv st' s' others ∧ ∃ t, tasks s' = tasks s ++ [t] ∧ state t = Ready)
    end.
Proof.
  intros Hinv Hnext Hsize Hargs. pose proof Hinv as [Hs Hex _ _ Hn0 Hfr].
  destruct (ra_live_pos _ _ (base_addr p) (ra_rounded (lp_size p)) (proj2 (proj2 Hex))) as (? & _ & ? & _); [set_solver|].
  unfold spawn_loaded, spawn_program_task, spawn, spawn_raw. cbn [set_pending_entry sched exec]. rewrite Hs. cbn [sched_with].
  destruct (new_with_arg_raw_ok trampoline (exec st) _ (next_id s) task_name pending_program_entry_addr 0 Hex
    (Hfr _ (Z.le_refl _)) Htr) as (w2 & r & -> & Hex2 & Hr). rewrite mbind_Ret.
  destruct r as [t|].
  2:{ destruct Hr as [Hr _]. rewrite !mbind_Ret. eexists _, _, (mkScheduler (tasks s) (current s) (u32 (next_id s + 1)) (idle_context s)). split; [done|]. split; [done|]. split; [done|]. left. split; [|done].
      destruct Hinv as [_ _ Hnd HF _ _]. split; cbn [exec sched next_id tasks]; [done|done|done| |rewrite u32_small; lia|].
      - eapply Forall_impl; [exact HF|]. cbn. intros u Hu. rewrite u32_small; lia.
      - intros i Hi. rewrite Hr. apply Hfr. rewrite u32_small in Hi; lia. }
  destruct Hr as ((Hid & Hnm & Hst & H12 & H13 & Hsp & Hal & Htop & Hz & Hmem2) & Hg2 & Hgo2 & Hap2). rewrite !mbind_Ret. cbn [exec].
  destruct (register_program_ok w2 others (next_id s) _ (base_addr p) (lp_size p) name Hex2 Hg2 eq_refl)
    as (w3 & -> & Hex3 & Hm3 & Hg3 & Hperm & Hgo3). rewrite mbind_Ret.
  destruct (allocate_args_ok w3 others (next_id s) _ name args Hex3 Hg3 Hargs) as (w4 & r & -> & Hex4 & Hr4).
  pose proof (ra_rounded_ge STACK_SIZE ltac:(done)) as Hge.
  destruct (block_range w2 _ (next_id s) _ (stack_base t) STACK_SIZE Hex2 Hg2) as [Hb0 Hb1]; [left|].
  rewrite mbind_Ret. pose (s' := mkScheduler (tasks s ++ [t]) (current s) (u32 (next_id s + 1)) (idle_context s)).
  destruct r as [argv|].
  - destruct Hr4 as (_ & _ & Hargv & Hg4 & Hgo4 & Hap4 & Hm4).
    eexists _, _, s'. split; [done|]. split; [done|]. split; [apply u32_small; lia|].
    split; [|exists t; cbn [tasks set_tasks]; split; [done|split; [done|split; [done|split; [|split; [done|split]]]]]].
    + eapply (api_inv_snoc st s); [exact Hinv|exact Hnext|done|exact Hex4|done|exact Hid|done|].
      intros i Hi. cbn [exec set_pending_argv set_exec]. by rewrite Hgo4, Hgo3, Hgo2 by done.
    + cbn [exec set_pending_argv set_exec]. apply (at_trampoline_agree (memory w2)); [lia..| |by split_and!].
      assert (reserve (stack_base t, STACK_SIZE) ∈ owned (allocs_of w3) ++ others) as Hin3.
      { rewrite Hperm, (owned_remove _ _ _ Hg2). set_solver. }
      intros x Hx. rewrite Forall_forall in Hap4.
      pose proof (in_block_out _ _ x (Hap4 _ Hin3) ltac:(cbn [fst snd reserve]; lia)) as Ho. cbn [fst snd] in Ho.
      rewrite Hm4, Hm3 by lia. done.
    + split; [|exact Hargv]. cbn [exec set_pending_argv set_exec]. by rewrite Hid, Hg4.
    + intros x Hx. cbn [exec set_pending_argv set_exec].
      assert ((base_addr p, ra_rounded (lp_size p)) ∈ owned (allocs_of w3) ++ others) as Hin4.
      { rewrite Hperm. set_solver. }
      assert ((base_addr p, ra_rounded (lp_size p)) ∈ owned (allocs_of (exec st)) ++ (base_addr p, ra_rounded (lp_size p)) :: others) as Hin2 by set_solver.
      rewrite Forall_forall in Hap4, Hap2.
      pose proof (in_block_out _ _ x (Hap4 _ Hin4) ltac:(cbn; lia)) as Ho4.
      pose proof (in_block_out _ _ x (Hap2 _ Hin2) ltac:(cbn; lia)) as Ho2. cbn [fst snd reserve] in Ho4, Ho2.
      rewrite Hm4, Hm3, Hmem2 by lia. done.
  - destruct Hr4 as [Ha4 _]. eexists _, _, s'. split; [done|]. split; [done|]. split; [done|]. right. split; [|by exists t].
    eapply (api_inv_snoc st s); [exact Hinv|exact Hnext|done|exact Hex4|done|exact Hid|done|].
    intros i Hi. cbn [exec set_exec]. by rewrite Ha4, Hgo3, Hgo2 by done.
Qed.

(** The two ways to spawn a program. *)
Definition spawner (dynamic : bool) :=
  if dynamic then spawn_program_dynamic trampoline pending_program_entry_addr
  else spawn_program trampoline pending_program_entry_addr.

Lemma spawn_program_ok dynamic st s others name args :
  api_inv st s others → next_id s < 4294967295 → ram_ok (memory (exec st)) → file_ok (exec st) name →
  args_size (name :: args) < 4611686018427387904 →
  ∃ st' r s', spawner dynamic st name args = Ret (st', r) ∧
    match r with
    | Ok i => i = next_id s ∧ next_id s' = next_id s + 1 ∧ api_inv st' s' others ∧
        ∃ t p w, tasks s' = tasks s ++ [t] ∧ id t = i ∧ state t = Ready ∧ at_trampoline (memory (exec st')) t ∧
          (pending_program_entry st').1 = entry p ∧
          new_task_memory st' t p name args (pending_program_entry st').2 ∧
          program_image (exec st) w name p ∧
          ∀ x, base_addr p ≤ x < base_addr p + lp_size p → memory (exec st') x = memory w x
    | Err e => PENDING_ARGV st' = PENDING_ARGV st ∧ (∃ others', api_inv st' s' others') ∧
        (tasks s' = tasks s ∨ e = AllocationFailed ∧ ∃ t, tasks s' = tasks s ++ [t] ∧ state t = Ready)
    end.
Proof.
  intros Hinv Hn Hm Hf Ha. pose proof Hinv as [Hs Hex Hnd HF Hn0 Hfr].
  destruct (exec_load_ok (exec st) others name Hex Hm Hf) as (w & r & Hl & Hc & Hr).
  assert (∀ others', exec_inv w others' → api_inv (set_exec st w) s others') as Hi1.
  { intros others' He. split; [done..|]. intros i Hi. unfold allocs_of. cbn [exec set_exec]. rewrite Hc. by apply Hfr. }
  destruct r as [p|e].
  - destruct Hr as (Hp & He & Hsz & Himg).
    destruct (spawn_loaded_ok (set_exec st w) s others (if dynamic then chars "program" else name) name p args
      (Hi1 _ He) Hn Hsz Ha) as (st' & r & s' & E & Hr').
    assert (spawner dynamic st name args = Ret (st', r)) as ->.
    { unfold spawner. destruct dynamic; unfold spawn_program_dynamic, spawn_program; rewrite Hl, mbind_Ret; [by rewrite Hp|done]. }
    exists st', r, s'. split; [done|]. destruct r as [i|e].
    + destruct Hr' as (-> & ? & Hi & t & ? & ? & ? & ? & ? & ? & ?). split; [done|]. split; [done|]. split; [done|]. by exists t, p, w.
    + destruct Hr' as (-> & Hp' & [[Hi Ht]|[Hi Ht]]); split; [done|split; [eauto|by left]|done|split; [eauto|by right]].
  - exists (set_exec st w), (Err e), s. split; [unfold spawner; destruct dynamic; unfold spawn_program_dynamic, spawn_program; by rewrite Hl|].
    split; [done|]. split; [|by left]. exists others. apply Hi1, Hr.
Qed.


(** A second program spawned before the first one ran takes its place: both tasks are
    ready and will call the pending entry point, which is now the second one's. *)
Lemma second_spawn_wins dynamic st s others name1 name2 args1 args2 st1 i1 st2 i2 :
  api_inv st s others → next_id s < 4294967294 → ram_ok (memory (exec st)) → file_ok (exec st) name1 →
  args_size (name1 :: args1) < 4611686018427387904 → spawner dynamic st name1 args1 = Ret (st1, Ok i1) →
  ram_ok (memory (exec st1)) → file_ok (exec st1) name2 → args_size (name2 :: args2) < 4611686018427387904 →
  spawner dynamic st1 name2 args2 = Ret (st2, Ok i2) →
  ∃ s2 t1 t2 p2 w, sched st2 = Some s2 ∧ tasks s2 = tasks s ++ [t1; t2] ∧ id t1 = i1 ∧ id t2 = i2 ∧
    r12 (context t1) = pending_program_entry_addr ∧ r12 (context t2) = pending_program_entry_addr ∧
    program_image (exec st1) w name2 p2 ∧ (pending_program_entry st2).1 = entry p2.
Proof.
  intros Hinv Hn Hm Hf Ha E1 Hm1 Hf1 Ha1 E2.
  destruct (spawn_program_ok dynamic st s others name1 args1 Hinv ltac:(lia) Hm Hf Ha) as (? & r & s1 & E & Hr).
  rewrite E1 in E. injection E as <- <-. destruct Hr as (-> & Hn1 & Hinv1 & t1 & p1 & w1 & Ht1 & Hid1 & _ & [H12 _] & _).
  destruct (spawn_program_ok dynamic st1 s1 others name2 args2 Hinv1 ltac:(lia) Hm1 Hf1 Ha1) as (? & r & s2 & E & Hr).
  rewrite E2 in E. injection E as <- <-.
  destruct Hr as (-> & _ & Hinv2 & t2 & p2 & w2 & Ht2 & Hid2 & _ & [H12' _] & He & _ & Himg & _).
  exists s2, t1, t2, p2, w2. split; [apply Hinv2|]. rewrite Ht2, Ht1, <- app_assoc. by split_and!.
Qed.
End spawn.

(** ** The program heap *)
Section heap.
Context {St : Type} `{RegionAllocator St}.
Implicit Types st : api_state St.

(** The same kernel while task number [j] runs. *)
Definition running st (s : Scheduler) (j : nat) : api_state St :=
  mkApi (exec st) (Some (set_current s j)) (PENDING_ENTRY st) (PENDING_ARGV st).

(** No two recorded blocks start at the same address. *)
Lemma heap_block_unique w others t al t' al' p n l :
  exec_inv w others → bt_get (allocs_of w) t = Some al → bt_get (allocs_of w) t' = Some al' → t' ≠ t →
  heap_blocks al = l ++ [(p, n)] → p ∉ (heap_blocks al').*1.
Proof.
  intros (Hi & Hs & Hinv) Hg Hg' Hne Hh Hin.
  apply list_elem_of_fmap in Hin as ([p' n'] & Hp & Hin). cbn in Hp. subst p'.
  pose proof (ra_live_apart _ _ Hinv) as Hap. rewrite (owned_remove _ t al Hg), <- app_assoc in Hap.
  assert (Hg2 : bt_get (bt_remove (allocs_of w) t) t' = Some al').
  { rewrite bt_get_remove by done. by rewrite (proj2 (Z.eqb_neq t' t)). }
  assert (∀ k bt a m, bt_get bt k = Some a → (p, m) ∈ heap_blocks a → reserve (p, m) ∈ owned bt) as Hown.
  { intros k bt a m Hk Hm. rewrite (owned_remove _ k a Hk). apply elem_of_app. left.
    apply (list_elem_of_fmap_2 reserve _ (p, m)). unfold task_blocks. set_solver. }
  apply (pairwise_app_elem _ _ _ (reserve (p, n)) (reserve (p, n'))) in Hap.
  - pose proof (Hown t _ _ n Hg ltac:(rewrite Hh; set_solver)) as H1. pose proof (Hown t' _ _ n' Hg' Hin) as H2.
    destruct (ra_live_pos _ _ p (ra_rounded n) Hinv) as (? & ? & ?); [apply elem_of_app; by left|].
    destruct (ra_live_pos _ _ p (ra_rounded n') Hinv) as (? & ? & ?); [apply elem_of_app; by left|].
    unfold apart, reserve in Hap. cbn in Hap. lia.
  - apply (list_elem_of_fmap_2 reserve _ (p, n)). unfold task_blocks. rewrite Hh. set_solver.
  - apply elem_of_app. left. by eapply (Hown t').
Qed.

Lemma snoc_split (l l1 l2 : list (Z * Z)) p n n' :
  l ++ [(p, n)] = l1 ++ (p, n') :: l2 → p ∉ l.*1 → p ∉ l1.*1 → l1 ++ l2 = l.
Proof.
  revert l1. induction l as [|b l IH]; intros [|b1 l1] E Hl Hl1; cbn in *; simplify_eq; [done| | |].
  - by destruct l1.
  - set_solver.
  - f_equal. apply IH; set_solver.
Qed.

(** The pointer [api_alloc] returned is unknown to the other tasks, and was to this one. *)
Lemma api_alloc_ok st s others cur al size :
  api_inv st s others → tasks s !! current s = Some cur → bt_get (allocs_of (exec st)) (id cur) = Some al → 0 < size →
  ∃ st1 p, api_alloc st size = Ret (st1, p) ∧ api_inv st1 s others ∧ memory (exec st1) = memory (exec st) ∧
    (∀ t, t ≠ id cur → bt_get (allocs_of (exec st1)) t = bt_get (allocs_of (exec st)) t) ∧
    (p = 0 ∧ bt_get (allocs_of (exec st1)) (id cur) = Some al ∨
     0 < p ∧ (p ∉ (heap_blocks al).*1) ∧
     Forall (apart (reserve (p, align_up size 0x1000))) (owned (allocs_of (exec st)) ++ others) ∧
     bt_get (allocs_of (exec st1)) (id cur) =
       Some (mkTaskAllocations (stack al) (program al) (heap_blocks al ++ [(p, align_up size 0x1000)]))).
Proof.
  intros Hinv Hcur Hg Hsize. pose proof Hinv as [Hs Hex Hnd HF Hn0 Hfr].
  unfold api_alloc, current_task_id. rewrite (proj2 (Z.eqb_neq size 0)), Hs by lia. cbn [sched_with].
  rewrite mbind_Ret, Hcur. cbn [fmap option_fmap option_map].
  destruct (task_alloc_spec (exec st) others (id cur) al size Hex Hg Hsize) as (w & r & -> & Hex' & Hm & _ & Hr). rewrite mbind_Ret.
  assert (id cur < next_id s) as Hlt.
  { rewrite Forall_forall in HF. apply HF. by apply list_elem_of_lookup_2 in Hcur. }
  destruct r as [p|].
  - destruct Hr as (Hg1 & Hgo & Hap). exists (set_exec st w), p. split; [done|].
    destruct (block_range w others (id cur) _ p (align_up size 0x1000) Hex' Hg1) as [Hp _].
    { unfold task_blocks. cbn. set_solver. }
    split; [|split; [done|split; [done|right]]].
    + split; [done..|]. intros i Hi. cbn [exec set_exec]. rewrite Hgo by lia. by apply Hfr.
    + split; [done|]. split; [|done]. intros ([p' n] & Hp' & Hin)%list_elem_of_fmap. cbn in Hp'. subst p'.
      assert (reserve (p, n) ∈ owned (allocs_of (exec st)) ++ others) as Hlive.
      { apply elem_of_app. left. rewrite (owned_remove _ _ _ Hg). apply elem_of_app. left. 
        apply (list_elem_of_fmap_2 reserve _ (p, n)). unfold task_blocks. set_solver. }
      destruct (ra_live_pos _ _ p (ra_rounded n) (proj2 (proj2 Hex)) Hlive) as (_ & ? & _).
      rewrite Forall_forall in Hap. specialize (Hap _ Hlive).
      assert (0 < ra_rounded (align_up size 0x1000)).
      { eapply (ra_live_pos _ _ p); [apply (proj2 (proj2 Hex'))|]. apply elem_of_app. left.
        rewrite (owned_remove _ _ _ Hg1). apply elem_of_app. left.
        apply (list_elem_of_fmap_2 reserve _ (p, align_up size 0x1000)). unfold task_blocks. cbn. set_solver. }
      unfold apart, reserve in Hap. cbn [fst snd] in Hap. lia.
  - exists (set_exec st w), 0. split; [done|]. cbn [exec set_exec]. rewrite Hr.
    split; [split; [done..|]; intros i Hi; cbn [exec set_exec]; rewrite Hr; by apply Hfr|]. split; [done|]. split; [done|]. by left.
Qed.

(** C28: a block that [api_alloc] hands to the running task is apart from every
    live block and belongs to that task alone: [api_free] called by any other task
    changes nothing, and called by the owner it takes the block back, after which
    the records are as before the allocation; a failed allocation answers null
    and records nothing. *)
Theorem api_heap_spec st s others cur al size :
  api_inv st s others → tasks s !! current s = Some cur → bt_get (allocs_of (exec st)) (id cur) = Some al → 0 < size →
  ∃ st1 p, api_alloc st size = Ret (st1, p) ∧ api_inv st1 s others ∧
    (p = 0 ∧ bt_get (allocs_of (exec st1)) (id cur) = Some al ∨
     Forall (apart (reserve (p, align_up size 0x1000))) (owned (allocs_of (exec st)) ++ others) ∧
     (∀ j u au, tasks s !! j = Some u → id u ≠ id cur → bt_get (allocs_of (exec st)) (id u) = Some au →
        api_free (running st1 s j) p = Ret (running st1 s j)) ∧
     ∃ st2, api_free st1 p = Ret st2 ∧ api_inv st2 s others ∧
       ∀ t, bt_get (allocs_of (exec st2)) t = bt_get (allocs_of (exec st)) t).
Proof.
  intros Hinv Hcur Hg Hsize.
  destruct (api_alloc_ok st s others cur al size Hinv Hcur Hg Hsize) as (st1 & p & E & Hinv1 & _ & Hgo & Hp).
  exists st1, p. split; [done|]. split; [done|]. destruct Hp as [?|(Hp & Hnew & Hap & Hg1)]; [by left|right].
  split; [done|]. pose proof Hinv1 as [Hs1 Hex1 Hnd1 HF1 Hn1 Hfr1]. split.
  - intros j u au Hj Hne Hu. unfold api_free, current_task_id. rewrite (proj2 (Z.eqb_neq p 0)) by lia.
    cbn [running sched sched_with set_current tasks current exec]. rewrite Hj, mbind_Ret. cbn [fmap option_fmap option_map].
    destruct (task_free_spec (exec st1) others (id u) au p Hex1 ltac:(by rewrite Hgo)) as (w & r & -> & _ & _ & Hr).
    rewrite mbind_Ret. destruct r; [|by destruct Hr as [-> _]]. exfalso.
    destruct Hr as (n & l1 & l2 & Hl & _).
    eapply (heap_block_unique (exec st1) others (id cur) _ (id u) au p); [done|exact Hg1|by rewrite Hgo|done|done|].
    rewrite Hl. set_solver.
  - unfold api_free, current_task_id. rewrite (proj2 (Z.eqb_neq p 0)), Hs1 by lia. cbn [sched_with].
    rewrite mbind_Ret, Hcur. cbn [fmap option_fmap option_map].
    destruct (task_free_spec (exec st1) others (id cur) _ p Hex1 Hg1) as (w & r & -> & Hex2 & _ & Hr). rewrite mbind_Ret.
    exists (set_exec st1 w). split; [done|].
    destruct r; [|exfalso; destruct Hr as [_ Hr]; apply Hr; cbn; rewrite fmap_app; set_solver].
    destruct Hr as (n & l1 & l2 & Hl & Hni & Hg2 & Hgo2). cbn [heap_blocks stack program] in *.
    rewrite (snoc_split _ _ _ _ _ _ Hl Hnew Hni) in Hg2.
    assert (∀ t, bt_get (allocs_of w) t = bt_get (allocs_of (exec st)) t) as Hall.
    { intros t. destruct (decide (t = id cur)) as [->|Hne]; [|by rewrite Hgo2, Hgo]. rewrite Hg2, Hg. by destruct al. }
    split; [|done]. split; [done..|]. intros i Hi. cbn [exec set_exec]. rewrite Hall. by apply (ai_fresh _ _ _ Hinv).
Qed.
End heap.

(** ** A concrete kernel

    A table at 0x800 with the program of [demo_elf] under the name [a]; task 1 runs. *)
Definition demo_table : list Z :=
  EXEC_TABLE_MAGIC ++ [1; 0; 0; 0; 1; 0; 0; 0; 0; 0; 0; 0] ++
  97 :: replicate 15 0 ++ [0; 8; 0; 0; 128; 0; 0; 0].
Definition demo_memory : ram := λ x,
  if x <? 0x1000 then nth (Z.to_nat (x - 0x800)) demo_table 0 else demo_ram x.
Definition demo_api (s : ProgramAlloc.ProgramAllocator) : api_state ProgramAlloc.ProgramAllocator :=
  mkApi (mkExec (mkRegistryCell (mkExecRegistry 0x800 1
            [(1, TaskAllocations_new ProgramAlloc.PROGRAM_REGION_START 5000)]) true) s demo_memory)
    (Some (mkScheduler [demo_task 1 Running] 0 2 Context_default)) 0 0.

Lemma demo_memory_ok : ram_ok demo_memory.
Proof.
  intros x. unfold demo_memory. destruct (x <? 0x1000); [|apply demo_ram_ok].
  destruct (nth_in_or_default (Z.to_nat (x - 0x800)) demo_table 0) as [Hin| ->]; [|lia].
  assert (Hf : Forall (λ b, 0 ≤ b < 256) demo_table) by (repeat constructor; lia).
  rewrite Forall_forall in Hf. apply Hf. by apply list_elem_of_In.
Qed.

Lemma demo_api_inv s : exec_inv (demo_state s) [] →
  api_inv (demo_api s) (mkScheduler [demo_task 1 Running] 0 2 Context_default) [].
Proof.
  intros (Hi & Hs & Hinv). split; [done|by split_and!|apply NoDup_singleton|repeat constructor; cbn; lia|cbn; lia|].
  intros i Hi'. cbn in Hi' |- *. by rewrite (proj2 (Z.eqb_neq _ _)) by lia.
Qed.

(** The same before any task exists. *)
Definition demo_boot : api_state ProgramAlloc.ProgramAllocator :=
  mkApi (mkExec (mkRegistryCell (mkExecRegistry 0x800 1 []) true)
          (ra_init (ProgramAlloc.mkProgramAllocator ∅ None 0 [])) demo_memory)
    (Some (mkScheduler [] 0 2 Context_default)) 0 0.

Lemma demo_boot_inv : api_inv demo_boot (mkScheduler [] 0 2 Context_default) [].
Proof. split; [done|split_and!; [done|constructor|apply ra_init_ok]|constructor|constructor|cbn; lia|done]. Qed.

Lemma demo_boot_spawns :
  ∃ st', spawn_program_dynamic 0x100200 0x100300 demo_boot [97] [[49; 50]] = Ret (st', Ok 2).
Proof.
  assert (match spawn_program_dynamic 0x100200 0x100300 demo_boot [97] [[49; 50]] with
          | Ret (_, Ok i) => i =? 2 | _ => false end = true) as Hb by exact (eq_refl true).
  destruct (spawn_program_dynamic _ _ _ _ _) as [[st' [i|e]]| |]; [|discriminate Hb..].
  apply Z.eqb_eq in Hb. subst i. by exists st'.
Qed.

Lemma demo_file : file_ok (exec demo_boot) [97].
Proof.
  split; [done|]. intros addr size Hf.
  assert (find_executable (cell (exec demo_boot)) (memory (exec demo_boot)) [97] = Ret (Ok (0x1000, 128))) as E
    by (vm_compute; reflexivity).
  rewrite E in Hf. injection Hf as <- <-. split; [lia|]. split; [lia|]. split; [left; vm_compute; done|].
  intros elf low n Hp Hq. change (memory (exec demo_boot)) with demo_memory in *.
  assert (parse demo_memory (mkSlice 0x1000 128) = Ok (mkElf (mkSlice 0x1000 128))) as E1 by (vm_compute; reflexivity).
  rewrite E1 in Hp. injection Hp as <-.
  assert (memory_requirements demo_memory (mkElf (mkSlice 0x1000 128)) = Ok (0, 16)) as E2 by (vm_compute; reflexivity).
  rewrite E2 in Hq. injection Hq as <- <-. split; [|lia]. split; [vm_compute; reflexivity|].
  replace (loadable_segments demo_memory (mkElf (mkSlice 0x1000 128)))
    with [mkElf64ProgramHeader 1 5 120 0 0 8 16 0] by (vm_compute; reflexivity).
  repeat constructor; cbn; lia.
Qed.


Lemma api_heap_spec_witness :
  ∃ s st1 p, api_alloc (demo_api s) 100 = Ret (st1, p) ∧
    (p ≠ 0 → ∃ st2, api_free st1 p = Ret st2).
Proof.
  destruct demo_state_inv as [s Hs]. exists s.
  destruct (api_heap_spec (demo_api s) _ [] (demo_task 1 Running)
    (TaskAllocations_new ProgramAlloc.PROGRAM_REGION_START 5000) 100 (demo_api_inv s Hs))
    as (st1 & p & E & _ & Hp); [reflexivity|reflexivity|lia|].
  exists st1, p. split; [exact E|]. intros Hne. destruct Hp as [[? _]|(_ & _ & st2 & E2 & _)]; [done|eauto].
Defined.
