(* ===== verification/Hello.v ===== *)
(** The program programs/hello: the calls it makes through the table of kernel functions,
    and what the kernel does on them.  With the argument block of Api it prints the arguments
    it was spawned with. *)

From stdpp Require Import strings.
From S2P Require Import Prelude Utf8 FreeList Tiling BTreeMap ByteMem Elf RegionAllocator Executable Timer Task Scheduler Api.
#[local] Open Scope Z_scope.

(** The program's own [struct KernelApi]. *)
Definition hello_api : list field := [version; print; yield_now_fn; sleep_ms_fn; exit].

(** A call through the table: the offset of the function pointer in the program's struct, and
    the argument.  A text is a constant or local array of the program, or in its memory. *)
Inductive text : Type := Const (l : list Z) | At (ptr len : Z).
Inductive arg : Type := Text (t : text) | Num (n : Z) | NoArg.
Record call : Type := mkCall { slot : Z; argument : arg }.

Fixpoint offset_of (api : list field) (f : field) : Z :=
  match api with
  | [] => 0
  | g :: api => if bool_decide (f = g) then 0 else 8 + offset_of api f
  end.
Definition api_call (f : field) (a : arg) : call := mkCall (offset_of hello_api f) a.

(** [print] and [print_digit] *)
Definition hello_print (s : list Z) : call := api_call print (Text (Const s)).
Definition print_digit (n : Z) : list call :=
  if n <? 10 then [hello_print [u8 (48 + u8 n)]] else [hello_print (chars "??")].

(** A text and a newline. *)
Definition line (s : list Z) : list Z := s ++ [10].

(** The loop that prints one string. *)
Fixpoint print_chars (fuel : nat) (m : ram) (ptr : Z) : outcome (list call) :=
  match fuel with
  | O => Diverge
  | S fuel =>
      if m ptr =? 0 then Ret []
      else
        l ← print_chars fuel m (u64 (ptr + 1));
        Ret (api_call print (Text (At ptr 1)) :: l)
  end.

(** The loop over [argv], from index [i] on. *)
Fixpoint print_args (fuel : nat) (m : ram) (argv i : Z) : outcome (list call) :=
  match fuel with
  | O => Diverge
  | S fuel' =>
      let ptr := peek_u64 m (u64 (argv + 8 * i)) in
      if ptr =? 0 then Ret []
      else
        l ← print_chars fuel m ptr;
        rest ← print_args fuel' m argv (i + 1);
        Ret ([hello_print (chars "  argv[")] ++ print_digit i ++ [hello_print (chars "] = " ++ [34])] ++
             l ++ [hello_print (line [34])] ++ rest)
  end.

(** [_start]: [ver] is the version field of the table. *)
Definition hello_start (fuel : nat) (m : ram) (ver argv : Z) : outcome (list call) :=
  args ← print_args fuel m argv 0;
  Ret ([hello_print (line (chars "Hello from a dynamically loaded program!")); hello_print (line (chars "Arguments:"))] ++
       args ++ [hello_print (chars "API version: ")] ++ print_digit ver ++
       [hello_print (line []); hello_print (line (chars "Yielding to other tasks..."));
        api_call yield_now_fn NoArg;
        hello_print (line (chars "Sleeping for 500ms..."));
        api_call sleep_ms_fn (Num 500);
        hello_print (line (chars "Hello program finished!"));
        api_call exit NoArg]).

(** ** The kernel's side *)

(** The function of the kernel's table at an offset. *)
Fixpoint field_at (api : list field) (off : Z) : option field :=
  match api with
  | [] => None
  | f :: api => if off =? 0 then Some f else field_at api (off - 8)
  end.

Inductive effect : Type := Out (l : list Z) | Yielded | Slept (ms : Z) | Exited.

Definition perform (m : ram) (c : call) : option effect :=
  match field_at KernelApi (slot c), argument c with
  | Some print, Text (Const []) => Some (Out [])
  | Some print, Text (Const l) => Some (Out (print_bytes l))
  | Some print, Text (At ptr len) => Some (Out (api_print m ptr len))
  | Some yield_now_fn, NoArg => Some Yielded
  | Some sleep_ms_fn, Num ms => Some (Slept ms)
  | Some exit, NoArg => Some Exited
  | _, _ => None
  end.

(** What reached the console. *)
Definition console (l : list effect) : list Z := l ≫= λ e, match e with Out l => l | _ => [] end.

(** The program's layout of the table is the beginning of the kernel's. *)
Lemma hello_layout f : f ∈ hello_api → field_at KernelApi (offset_of hello_api f) = Some f.
Proof.
  unfold hello_api at 1. intros Hf. repeat (apply elem_of_cons in Hf as [->|Hf]; [reflexivity|]).
  by apply elem_of_nil in Hf.
Qed.

Definition ascii_text (s : list Z) : Prop := Forall (λ b, 0 < b < 128) s.

Lemma ascii_textb s : forallb (λ b, (0 <? b) && (b <? 128)) s = true → ascii_text s.
Proof. intros Hs. apply Forall_forall. intros b Hb%list_elem_of_In. rewrite forallb_forall in Hs. specialize (Hs b Hb). blia. Qed.

Lemma from_utf8_ascii s : ascii_text s → print_bytes s = s.
Proof.
  intros Hs. unfold print_bytes, from_utf8.
  assert (is_Some (decode_loop (length s) s)) as [l ->]; [|done].
  induction Hs as [|b s Hb _ IH]; cbn; [eauto|]. rewrite (proj2 (Z.ltb_lt _ _)) by lia. by apply fmap_is_Some.
Qed.

Lemma perform_print m s : ascii_text s → perform m (hello_print s) = Some (Out s).
Proof. intros Hs. unfold perform, hello_print. cbn. destruct s; [done|]. by rewrite from_utf8_ascii. Qed.

(** The effects of a sequence of calls; what they print. *)
Definition prints (m : ram) (l : list call) (t : list Z) : Prop :=
  ∃ es, mapM (perform m) l = Some es ∧ console es = t.

Lemma prints_app m l1 l2 t1 t2 : prints m l1 t1 → prints m l2 t2 → prints m (l1 ++ l2) (t1 ++ t2).
Proof.
  intros (e1 & H1 & <-) (e2 & H2 & <-). exists (e1 ++ e2). split; [|apply bind_app].
  apply mapM_Some in H1, H2. apply mapM_Some. by apply Forall2_app.
Qed.
Lemma prints_nil m : prints m [] [].
Proof. by exists []. Qed.
Lemma prints_cons m s l t : ascii_text s → prints m l t → prints m (hello_print s :: l) (s ++ t).
Proof.
  intros Hs Hl. apply (prints_app m [_] l); [|done]. exists [Out s]. split; [|apply app_nil_r].
  cbn [mapM]. by rewrite perform_print.
Qed.

Definition digit (n : Z) : list Z := if n <? 10 then [48 + n] else chars "??".
Lemma print_digit_prints m n : 0 ≤ n → prints m (print_digit n) (digit n).
Proof.
  intros Hn. unfold print_digit, digit. destruct (n <? 10) eqn:E; bool_to_prop.
  - rewrite (u8_small n), u8_small by lia. rewrite <- (app_nil_r [48 + n]).
    apply prints_cons; [repeat constructor; lia|apply prints_nil].
  - rewrite <- (app_nil_r (chars "??")) at 2. apply prints_cons; [repeat constructor; lia|apply prints_nil].
Qed.

Lemma prints_at m q b : m q = b → 0 < b < 128 → 0 < q < 18446744073709551616 →
  prints m [api_call print (Text (At q 1))] [b].
Proof.
  intros Hb Hr Hq. exists [Out [b]]. split; [|done]. cbn [mapM]. unfold perform, api_call. cbn -[api_print].
  unfold api_print. rewrite (proj2 (Z.eqb_neq q 0)) by lia. cbn [orb Z.eqb]. change (Z.to_nat 1) with 1%nat. cbn [peek].
  rewrite u64_small, Hb, from_utf8_ascii by first [lia|by constructor]. done.
Qed.

Lemma print_chars_ok m s fuel q :
  cstring_at m q s → ascii_text s → 0 < q → q + slen s < 18446744073709551616 → (length s < fuel)%nat →
  ∃ l, print_chars fuel m q = Ret l ∧ prints m l s.
Proof.
  unfold slen. revert fuel q. induction s as [|b s IH]; intros fuel q [Hp Hz] Ha Hq Hend Hf;
    (destruct fuel as [|fuel]; [cbn [length] in Hf; lia|]); cbn [print_chars].
  - unfold slen in Hz. cbn in Hz. rewrite Z.add_0_r in Hz. rewrite Hz. cbn. eexists. split; [done|apply prints_nil].
  - cbn [length peek] in *. apply Forall_cons in Ha as [Hb Ha]. injection Hp as Hb' Hp. rewrite u64_small in Hb' by lia.
    rewrite Hb', (proj2 (Z.eqb_neq b 0)), u64_small by lia.
    destruct (IH fuel (q + 1)) as (l & -> & Hl); [|done|lia..|].
    { split; [done|]. rewrite <- Hz. f_equal. unfold slen. cbn [length]. lia. }
    rewrite mbind_Ret. eexists. split; [done|]. apply (prints_app m [_] l [b] s); [apply prints_at; [done|done|lia]|done].
Qed.

(** The lines that show the arguments. *)
Fixpoint arg_lines (i : Z) (args : list (list Z)) : list Z :=
  match args with
  | [] => []
  | s :: args => chars "  argv[" ++ digit i ++ (chars "] = " ++ [34]) ++ s ++ line [34] ++ arg_lines (i + 1) args
  end.

Ltac print_const := apply prints_cons; [by apply ascii_textb|].

Lemma print_args_ok m argv args fuel i :
  argv_at m (argv + 8 * i) args → Forall ascii_text args → 0 ≤ argv → 0 ≤ i →
  argv + 8 * (i + Z.of_nat (length args)) + 8 ≤ 18446744073709551616 →
  (length args < fuel)%nat → Forall (λ s, length args + length s < fuel)%nat args →
  ∃ l, print_args fuel m argv i = Ret l ∧ prints m l (arg_lines i args).
Proof.
  intros Hat Ha Hargv. revert i fuel Hat. induction Ha as [|s args Hs Ha IH]; intros i fuel Hat Hi Hend Hf Hfs;
    (destruct fuel as [|fuel]; [cbn [length] in Hf; lia|]); cbn [print_args argv_at length] in *; rewrite u64_small by lia.
  - rewrite Hat. eexists. split; [done|apply prints_nil].
  - destruct Hat as (Hq & Hq' & Hc & Hat). rewrite (proj2 (Z.eqb_neq _ _)) by lia.
    apply Forall_cons in Hfs as [Hfs Hfl].
    destruct (print_chars_ok m s (S fuel) _ Hc Hs Hq Hq') as (l & -> & Hl); [lia|]. rewrite mbind_Ret.
    destruct (IH (i + 1) fuel) as (l' & -> & Hl'); [|lia..| |].
    { by replace (argv + 8 * (i + 1)) with (argv + 8 * i + 8) by lia. }
    { eapply Forall_impl; [exact Hfl|]. cbn. intros. lia. }
    rewrite mbind_Ret. eexists. split; [done|]. cbn [arg_lines app]. print_const.
    apply prints_app; [by apply print_digit_prints|]. cbn [app]. apply (prints_cons m (chars "] = " ++ [34])).
    { by apply ascii_textb. }
    apply prints_app; [done|]. by print_const.
Qed.

(** The size of the argument block is enough fuel. *)
Lemma args_fuel args :
  (length args < Z.to_nat (args_size args))%nat ∧ Forall (λ s, length args + length s < Z.to_nat (args_size args))%nat args.
Proof.
  pose proof (sum_sizes_nonneg args). unfold args_size. split; [lia|]. apply Forall_forall. intros s Hs.
  assert (slen s ≤ sum_sizes args); [|unfold slen in *; lia].
  induction Hs as [s args|s s' args Hs IH]; cbn [sum_sizes foldr]; fold (sum_sizes args);
    pose proof (sum_sizes_nonneg args); [lia|]. pose proof (slen_nonneg s'). specialize (IH ltac:(done)). lia.
Qed.

(** What the program prints before it yields. *)
Definition hello_output (args : list (list Z)) : list Z :=
  line (chars "Hello from a dynamically loaded program!") ++ line (chars "Arguments:") ++ arg_lines 0 args ++
  line (chars "API version: 4") ++ line (chars "Yielding to other tasks...").

Lemma hello_ok m argv args fuel :
  argv_at m argv args → Forall ascii_text args → 0 ≤ argv →
  argv + 8 * Z.of_nat (length args) + 8 ≤ 18446744073709551616 →
  (length args < fuel)%nat → Forall (λ s, length args + length s < fuel)%nat args →
  ∃ calls before, hello_start fuel m API_VERSION argv = Ret calls ∧
    mapM (perform m) calls = Some (before ++ [Yielded; Out (line (chars "Sleeping for 500ms...")); Slept 500;
      Out (line (chars "Hello program finished!")); Exited]) ∧
    console before = hello_output args.
Proof.
  intros Hat Ha Hargv Hend Hf Hfs. unfold hello_start.
  destruct (print_args_ok m argv args fuel 0) as (l & -> & Hl); [by rewrite Z.add_0_r|done..|lia|lia|done|done|].
  rewrite mbind_Ret.
  set (start := [hello_print (line (chars "Hello from a dynamically loaded program!")); hello_print (line (chars "Arguments:"))] ++
    l ++ [hello_print (chars "API version: ")] ++ print_digit API_VERSION ++
    [hello_print (line []); hello_print (line (chars "Yielding to other tasks..."))]).
  assert (prints m start (hello_output args)) as (es & He & Hc).
  { unfold start, hello_output. cbn [app]. do 2 print_const. apply prints_app; [done|].
    change (line (chars "API version: 4")) with (chars "API version: " ++ digit API_VERSION ++ line []).
    rewrite <- !app_assoc. print_const. apply prints_app; [by apply print_digit_prints|]. print_const.
    rewrite <- (app_nil_r (line (chars "Yielding to other tasks..."))). print_const. apply prints_nil. }
  eexists _, es. split; [done|]. split; [|done].
  set (rest := [api_call yield_now_fn NoArg; hello_print (line (chars "Sleeping for 500ms...")); api_call sleep_ms_fn (Num 500);
    hello_print (line (chars "Hello program finished!")); api_call exit NoArg]).
  match goal with |- mapM _ ?calls = _ => replace calls with (start ++ rest) end.
  2:{ unfold start, rest. by rewrite <- !app_assoc. }
  apply mapM_Some. apply mapM_Some in He. apply Forall2_app; [done|]. repeat constructor.
Qed.

(** C27: a program spawned with ASCII arguments gets them: whenever spawning under an
    ASCII name succeeds, the
    program [hello], run with the argument vector that the kernel passes to it, on any
    memory that still has the kernel's argument block, prints its name and all its
    arguments, one line each, and then yields, sleeps for 500 ms and exits.  (Characters
    outside ASCII are dropped:
    [hello_drops_non_ascii].) *)
Theorem hello_spec {St : Type} `{RegionAllocator St} trampoline program_entry dynamic
    (st : api_state St) s others name args st' i m :
  0 ≤ trampoline < 18446744073709551616 → api_inv st s others → next_id s < 4294967295 →
  ram_ok (memory (exec st)) → file_ok (exec st) name → args_size (name :: args) < 4611686018427387904 →
  Forall ascii_text (name :: args) →
  spawner trampoline program_entry dynamic st name args = Ret (st', Ok i) →
  (∀ x, PENDING_ARGV st' ≤ x < PENDING_ARGV st' + args_size (name :: args) → m x = memory (exec st') x) →
  ∃ calls before,
    hello_start (Z.to_nat (args_size (name :: args))) m API_VERSION (pending_program_entry st').2 = Ret calls ∧
    mapM (perform m) calls = Some (before ++ [Yielded; Out (line (chars "Sleeping for 500ms...")); Slept 500;
      Out (line (chars "Hello program finished!")); Exited]) ∧
    console before = hello_output (name :: args).
Proof.
  intros Htr Hinv Hn Hm Hf Hsz Ha E Hag.
  destruct (spawn_program_ok trampoline program_entry Htr dynamic st s others name args Hinv Hn Hm Hf Hsz)
    as (st1 & r & s' & E1 & Hr). rewrite E in E1. injection E1 as <- <-.
  destruct Hr as (_ & _ & Hinv' & t & p & w & _ & _ & _ & _ & _ & [Hg Hargs] & _). cbn [pending_program_entry program_wrapper snd] in *.
  destruct (args_fuel (name :: args)) as [Hf1 Hf2]. pose proof (sum_sizes_nonneg (name :: args)).
  assert (0 < args_size (name :: args)) as Hpos by (unfold args_size; lia).
  pose proof (align_up_page_range _ (conj Hpos Hsz)) as Hal.
  pose proof (ra_rounded_ge (align_up (args_size (name :: args)) 0x1000) ltac:(lia)).
  destruct (block_range (exec st') others (id t) _ (PENDING_ARGV st') (align_up (args_size (name :: args)) 0x1000)
    (ai_exec _ _ _ Hinv') Hg) as [? ?]; [unfold task_blocks; cbn; set_solver|].
  apply hello_ok; [by apply Hargs|done|lia|unfold args_size in *; lia|done|done].
Qed.

Lemma hello_spec_witness :
  ∃ st' calls es, spawn_program_dynamic 0x100200 0x100300 demo_boot [97] [[49; 50]] = Ret (st', Ok 2) ∧
    hello_start (Z.to_nat (args_size [[97]; [49; 50]])) (memory (exec st')) API_VERSION (PENDING_ARGV st') = Ret calls ∧
    mapM (perform (memory (exec st'))) calls = Some es ∧ last es = Some Exited.
Proof.
  destruct demo_boot_spawns as [st' Hst].
  destruct (hello_spec 0x100200 0x100300 true demo_boot _ [] [97] [[49; 50]] st' 2 (memory (exec st'))
    ltac:(lia) demo_boot_inv) as (calls & before & E1 & E2 & _);
    [cbn; lia|apply demo_memory_ok|apply demo_file|vm_compute; done|repeat constructor; lia|exact Hst|done|].
  exists st', calls. eexists. split; [exact Hst|]. split; [exact E1|]. split; [exact E2|]. by rewrite last_app.
Defined.

(** A byte of a character outside ASCII is refused by [api_print], which wants whole
    characters: the program prints bytes one at a time, and drops such characters. *)
Lemma hello_drops_non_ascii m ptr : 128 ≤ m ptr < 256 → 0 < ptr < 18446744073709551616 →
  perform m (api_call print (Text (At ptr 1))) = Some (Out []).
Proof.
  intros Hb Hp. unfold perform, api_call. cbn -[api_print]. unfold api_print.
  rewrite (proj2 (Z.eqb_neq ptr 0)) by lia. cbn [orb Z.eqb]. change (Z.to_nat 1) with 1%nat. cbn [peek].
  rewrite u64_small by lia. unfold print_bytes, from_utf8. cbn [length decode_loop].
  rewrite (proj2 (Z.ltb_ge _ _)) by lia. by destruct (seq_shape _) as [[[lo hi] k]|].
Qed.
