(* ===== verification/NetApi.v ===== *)
(** The network functions of the kernel's table (src/api.rs): the TCP interface with 32-bit
    handles and results, and buffers in the program's memory. *)

From S2P Require Import Prelude ByteMem NetBase Ipv4 RingBuffer Tcp TcpInv TcpMachine TcpSafe.
#[local] Open Scope Z_scope.

Definition api_net_socket : tcpM Z :=
  o ← socket;
  mret (match o with Some sock => i32 (Z.of_nat sock) | None => -1 end).

Definition api_net_connect (sock ip port : Z) : tcpM Z :=
  if sock <? 0 then mret (-1)
  else
    ok ← connect (Z.to_nat sock) (to_be32 ip) port;
    mret (if ok : bool then 0 else -1).

Definition api_net_status (sock : Z) : tcpM Z :=
  if sock <? 0 then mret (-1)
  else
    state ← get_state (Z.to_nat sock);
    mret (match state with
          | SynSent | SynReceived => 0
          | Established => 1
          | Closed => 2
          | FinWait1 | FinWait2 | CloseWait | Closing | LastAck | TimeWait => 2
          | Listen => 0
          end).

Definition api_net_send (m : ram) (sock data len : Z) : tcpM Z :=
  if (sock <? 0) || (data =? 0) then mret (-1)
  else
    r ← send (Z.to_nat sock) (ByteMem.peek m data (Z.to_nat len));
    mret (i32 r).

(** The memory after the call is part of the result. *)
Definition api_net_recv (m : ram) (sock buf len : Z) : tcpM (Z * ram) :=
  if (sock <? 0) || (buf =? 0) then mret (-1, m)
  else
    r ← recv (Z.to_nat sock) (Z.to_nat len);
    mret (i32 r.1, poke_bytes m buf r.2).

Definition api_net_available (sock : Z) : tcpM Z :=
  if sock <? 0 then mret 0
  else
    n ← available_bytes (Z.to_nat sock);
    mret (i32 (Z.of_nat n)).

Definition api_net_close (sock : Z) : tcpM unit :=
  if 0 <=? sock then close (Z.to_nat sock) else mret tt.

Definition api_net_listen (sock port : Z) : tcpM Z :=
  if sock <? 0 then mret (-1)
  else
    ok ← listen (Z.to_nat sock) port;
    mret (if ok : bool then 0 else -1).

Definition api_net_accept (sock : Z) : tcpM Z :=
  if sock <? 0 then mret (-1)
  else
    o ← accept (Z.to_nat sock);
    mret (match o with Some new_sock => i32 (Z.of_nat new_sock) | None => 0 end).

(** ** Any call a program can make *)

Inductive net_call : Type :=
| NSocket
| NConnect (sock ip port : Z)
| NStatus (sock : Z)
| NSend (sock data len : Z)
| NRecv (sock buf len : Z)
| NAvailable (sock : Z)
| NClose (sock : Z)
| NListen (sock port : Z)
| NAccept (sock : Z).

(** The result (0 for [net_close], which has none) and the memory afterwards. *)
Definition net_api (m : ram) (c : net_call) : tcpM (Z * ram) :=
  match c with
  | NSocket => r ← api_net_socket; mret (r, m)
  | NConnect sock ip port => r ← api_net_connect sock ip port; mret (r, m)
  | NStatus sock => r ← api_net_status sock; mret (r, m)
  | NSend sock data len => r ← api_net_send m sock data len; mret (r, m)
  | NRecv sock buf len => api_net_recv m sock buf len
  | NAvailable sock => r ← api_net_available sock; mret (r, m)
  | NClose sock => _ ← api_net_close sock; mret (0, m)
  | NListen sock port => r ← api_net_listen sock port; mret (r, m)
  | NAccept sock => r ← api_net_accept sock; mret (r, m)
  end.

(** The arguments have their types; buffers are within the address space, and lengths are
    below 2^31. *)
Definition call_wf (c : net_call) : Prop :=
  match c with
  | NConnect _ _ port | NListen _ port => 0 ≤ port < 65536
  | NSend _ _ len => 0 ≤ len < 2147483648
  | NRecv _ buf len => 0 ≤ len < 2147483648 ∧ 0 ≤ buf ∧ buf + len ≤ 18446744073709551616
  | _ => True
  end.

(** What the results may be. *)
Definition result_ok (c : net_call) (r : Z) : Prop :=
  match c with
  | NSocket | NAccept _ => -1 ≤ r < 8
  | NConnect _ _ _ | NListen _ _ => r = 0 ∨ r = -1
  | NStatus _ => -1 ≤ r ≤ 2
  | NSend _ _ len => -1 ≤ r ≤ Z.min len 1024
  | NRecv _ _ len => -1 ≤ r ≤ len
  | NAvailable _ => 0 ≤ r ≤ 1024
  | NClose _ => r = 0
  end.

(** The handle of a call; whether it names a socket in use; and the result when it does
    not.  For such a handle from 0 on, [net_status] answers 2 and [net_accept] 0. *)
Definition handle_of (c : net_call) : option Z :=
  match c with
  | NSocket => None
  | NConnect s _ _ | NStatus s | NSend s _ _ | NRecv s _ _ | NAvailable s | NClose s | NListen s _ | NAccept s => Some s
  end.
Definition names_socket (w : Tcp) (c : net_call) : bool :=
  match handle_of c with
  | None => true
  | Some s => if s <? 0 then false else match socket_at w (Z.to_nat s) with Some _ => true | None => false end
  end.
Definition refused (c : net_call) : Z :=
  match c with
  | NStatus s => if s <? 0 then -1 else 2
  | NAccept s => if s <? 0 then -1 else 0
  | NAvailable _ | NClose _ => 0
  | _ => -1
  end.

(** The documented status of a connection: 0 not connected yet, 1 connected, 2 closed. *)
Definition status_of (st : TcpState) : Z :=
  match st with SynSent | SynReceived | Listen => 0 | Established => 1 | _ => 2 end.

(** The effect and the result of a call whose handle names a socket. *)
Definition call_post (w : Tcp) (m : ram) (c : net_call) (w' : Tcp) (r : Z) (m' : ram) : Prop :=
  match c with
  | NSocket => r = -1 ∧ conns w' = conns w ∧ Forall (λ t, ¬ recyclable t) (conns w) ∨
      ∃ i t, r = Z.of_nat i ∧ conns w !! i = Some t ∧ recyclable t ∧ conns w' = <[i := fresh_conn]> (conns w)
  | NConnect s ip port =>
      ∃ ok : bool, connect_post (Z.to_nat s) (to_be32 ip) port w w' ok ∧ r = if ok then 0 else -1
  | NStatus s => w' = w ∧ ∃ t, socket_at w (Z.to_nat s) = Some t ∧ r = status_of (state t)
  | NSend s data len =>
      if data =? 0 then w' = w ∧ r = -1
      else send_post (Z.to_nat s) (ByteMem.peek m data (Z.to_nat len)) w w' r
  | NRecv s buf len =>
      if buf =? 0 then w' = w ∧ r = -1
      else ∃ bs, recv_post (Z.to_nat s) (Z.to_nat len) w w' (r, bs) ∧ ByteMem.peek m' buf (length bs) = bs
  | NAvailable s => w' = w ∧ ∃ t q, socket_at w (Z.to_nat s) = Some t ∧ ring_ok (rx_buffer t) q ∧ r = Z.of_nat (length q)
  | NClose s => r = 0 ∧ close_post (Z.to_nat s) w w'
  | NListen s port => ∃ ok : bool, listen_post (Z.to_nat s) port w w' ok ∧ r = if ok then 0 else -1
  | NAccept s => ∃ o, accept_post (Z.to_nat s) w w' o ∧ r = match o with Some i => Z.of_nat i | None => 0 end
  end.

(** Only [net_recv] writes to memory, and only the bytes it reports. *)
Definition frame (c : net_call) (m : ram) (r : Z) (m' : ram) : Prop :=
  ∀ x, 0 ≤ x < 18446744073709551616 → m' x = m x ∨ ∃ sock buf len, c = NRecv sock buf len ∧ buf ≤ x < buf + r.

Lemma peek_bytes m a n : ram_ok m → bytes (ByteMem.peek m a n).
Proof. apply peek_ok. Qed.

(** ** Handles that name no socket *)

Lemma bad_socket {A} w i (dflt : A) f :
  tcp_inv w → socket_at w i = None → with_socket i dflt f w = Ret (w, dflt).
Proof.
  intros Hw Hs. unfold with_socket. destruct (Nat.leb_spec MAX_CONNECTIONS i) as [|Hlt]; [done|].
  destruct (conns_lookup w i Hw Hlt) as (c & Hc & _). unfold socket_at in Hs. rewrite Hc in Hs.
  unfold mbind, tcpM_bind, get_conns. rewrite Hc. by destruct (in_use c).
Qed.

Lemma net_api_refuses m c w : tcp_inv w → names_socket w c = false →
  ∃ m', net_api m c w = Ret (w, (refused c, m')) ∧ ∀ x, m' x = m x.
Proof.
  intros Hw Hs. unfold names_socket in Hs.
  destruct c as [|s ip port|s|s data len|s buf len|s|s|s port|s]; cbn [handle_of] in Hs; [done|..];
    cbn [net_api refused];
    unfold api_net_connect, api_net_status, api_net_send, api_net_recv, api_net_available, api_net_close,
      api_net_listen, api_net_accept, connect, get_state, send, recv, available_bytes, close, listen, accept;
    (destruct (Z.ltb_spec s 0); [try rewrite (proj2 (Z.leb_gt 0 s)) by lia; by exists m|]);
    (destruct (socket_at w (Z.to_nat s)) eqn:Hn; [done|]); try rewrite (proj2 (Z.leb_le 0 s)) by lia; cbn [orb];
    try (destruct (_ =? 0); [by exists m|]); unfold mbind, tcpM_bind; rewrite bad_socket by done; eexists; (split; [done|]); try done.
  intros x. unfold poke_bytes. cbn [length snd]. rewrite (proj2 (Z.ltb_ge _ _)); [done|]. apply u64_range.
Qed.

(** ** Handles that name a socket *)

Lemma tsafe_call (f : tcpM Z) m c w :
  tsafe f w (λ w' r, call_post w m c w' r m) →
  tsafe (f ≫= λ r, mret (r, m)) w (λ w' p, call_post w m c w' p.1 p.2 ∧ frame c m p.1 p.2).
Proof.
  intros Hf. eapply tsafe_bind; [exact Hf|]. intros w' r Hr. apply tsafe_ret. split; [done|]. intros x _. by left.
Qed.

(** A socket number fits the handle. *)
Lemma conns_index w i (c : Tcb) : tcp_inv w → conns w !! i = Some c → (i < 8)%nat.
Proof. intros Hw Hi%lookup_lt_Some. by rewrite (ti_count _ Hw) in Hi. Qed.

Lemma tsafe_inv {A} (f : tcpM A) w Q : (tcp_inv w → tsafe f w Q) → tsafe f w Q.
Proof. intros Hf Hw. by apply Hf. Qed.

Lemma safe_api_socket w m : tsafe api_net_socket w (λ w' r, call_post w m NSocket w' r m).
Proof.
  apply tsafe_inv. intros Hw. eapply tsafe_bind; [apply tsafe_socket|]. intros w' [i|] Hr; apply tsafe_ret; [|by left].
  destruct Hr as (c & Hi & Hr). pose proof (conns_index w i c Hw Hi). rewrite i32_small by lia. right. by exists i, c.
Qed.

Lemma safe_api_accept m sock w : 0 ≤ sock →
  tsafe (api_net_accept sock) w (λ w' r, call_post w m (NAccept sock) w' r m).
Proof.
  intros Hs. apply tsafe_inv. intros Hw. unfold api_net_accept. rewrite (proj2 (Z.ltb_ge _ _)) by lia.
  eapply tsafe_bind; [apply tsafe_accept|]. intros w' o Hr. apply tsafe_ret. exists o. split; [done|].
  destruct o as [i|]; [|done]. destruct Hr as (c & (_ & Hi%(conns_index w) & _) & _); [|done]. apply i32_small. lia.
Qed.

Lemma safe_api_connect m sock ip port w : 0 ≤ sock → 0 ≤ port < 65536 →
  tsafe (api_net_connect sock ip port) w (λ w' r, call_post w m (NConnect sock ip port) w' r m).
Proof.
  intros Hs Hp. unfold api_net_connect. rewrite (proj2 (Z.ltb_ge _ _)) by lia.
  eapply tsafe_bind; [apply tsafe_connect; [|done]|].
  - split; [done|]. apply to_be32_bytes.
  - intros w' ok Hok. apply tsafe_ret. by exists ok.
Qed.

Lemma safe_api_listen m sock port w : 0 ≤ sock → 0 ≤ port < 65536 →
  tsafe (api_net_listen sock port) w (λ w' r, call_post w m (NListen sock port) w' r m).
Proof.
  intros Hs Hp. unfold api_net_listen. rewrite (proj2 (Z.ltb_ge _ _)) by lia.
  eapply tsafe_bind; [by apply tsafe_listen|]. intros w' ok Hok. apply tsafe_ret. by exists ok.
Qed.

Lemma safe_api_status m sock w c : 0 ≤ sock → socket_at w (Z.to_nat sock) = Some c →
  tsafe (api_net_status sock) w (λ w' r, call_post w m (NStatus sock) w' r m).
Proof.
  intros Hs Hc. unfold api_net_status. rewrite (proj2 (Z.ltb_ge _ _)) by lia.
  eapply tsafe_bind; [apply (tsafe_socket_at _ _ _ w (λ w' st, w' = w ∧ st = state c)); [congruence|]|].
  - intros c' Hc' _ _ _. apply tsafe_ret. split; [done|]. congruence.
  - intros w' st [-> ->]. apply tsafe_ret. split; [done|]. exists c. split; [done|]. by destruct (state c).
Qed.

Lemma safe_api_available m sock w c : 0 ≤ sock → socket_at w (Z.to_nat sock) = Some c →
  tsafe (api_net_available sock) w (λ w' r, call_post w m (NAvailable sock) w' r m).
Proof.
  intros Hs Hc. unfold api_net_available. rewrite (proj2 (Z.ltb_ge _ _)) by lia.
  eapply tsafe_bind; [apply (tsafe_socket_at _ _ _ w (λ w' n, w' = w ∧ ∃ q, ring_ok (rx_buffer c) q ∧ n = length q)); [congruence|]|].
  - intros c' Hc' _ _ Hwf. apply tsafe_ret. rewrite Hc in Hc'. simplify_eq. split; [done|].
    destruct (w_rx _ Hwf) as (q & Hq & _). exists q. split; [done|].
    unfold bytes_available, available. by rewrite (ro_len _ _ Hq).
  - intros w' n [-> (q & Hq & ->)]. apply tsafe_ret. split; [done|]. exists c, q. split; [done|]. split; [done|].
    pose proof (ro_room _ _ Hq) as Hr. unfold RX_BUFFER_SIZE in Hr. apply i32_small. lia.
Qed.

Lemma send_post_range sock d w w' r : send_post sock d w w' r → -1 ≤ r ≤ Z.min (Z.of_nat (length d)) 1024.
Proof.
  unfold send_post. destruct (socket_at w sock); [|lia]. destruct (_ || _); [|lia].
  intros (c' & q & k & _ & -> & -> & _). lia.
Qed.
Lemma recv_post_range sock k w w' r : recv_post sock k w w' r →
  -1 ≤ r.1 ≤ Z.of_nat k ∧ Z.of_nat (length r.2) = Z.max 0 r.1.
Proof.
  unfold recv_post. destruct (socket_at w sock) as [c|]; [|intros [_ ->]; cbn; lia].
  destruct (bool_decide _); [intros [_ ->]; cbn; lia|]. intros (c' & q & _ & -> & -> & _). rewrite length_take.
  destruct (Nat.ltb_spec 0 (Nat.min k (length q))); [lia|]. destruct (remote_closed c); lia.
Qed.

Lemma safe_api_send m sock data len w : ram_ok m → 0 ≤ sock → 0 ≤ len < 2147483648 →
  tsafe (api_net_send m sock data len) w (λ w' r, call_post w m (NSend sock data len) w' r m).
Proof.
  intros Hm Hs Hl. unfold api_net_send. rewrite (proj2 (Z.ltb_ge _ _)) by lia. cbn [orb call_post].
  destruct (data =? 0); [by apply tsafe_ret|].
  eapply tsafe_bind; [apply tsafe_send; by apply peek_bytes|].
  intros w' r Hr. apply tsafe_ret. pose proof (send_post_range _ _ _ _ _ Hr) as Hrange.
  rewrite ByteMem.peek_length in Hrange. by rewrite i32_small by lia.
Qed.

Lemma safe_api_recv m sock buf len w : 0 ≤ sock → call_wf (NRecv sock buf len) →
  tsafe (api_net_recv m sock buf len) w
    (λ w' p, call_post w m (NRecv sock buf len) w' p.1 p.2 ∧ frame (NRecv sock buf len) m p.1 p.2).
Proof.
  intros Hs (Hl & Hb & Hbl). unfold api_net_recv. rewrite (proj2 (Z.ltb_ge _ _)) by lia. cbn [orb call_post].
  destruct (buf =? 0); [apply tsafe_ret; split; [done|intros x _; by left]|].
  eapply tsafe_bind; [apply tsafe_recv|]. intros w' [r bs] Hr. cbn [fst snd] in *. apply tsafe_ret.
  destruct (recv_post_range _ _ _ _ _ Hr) as [Hr1 Hn]. cbn [fst snd] in *.
  rewrite i32_small by lia. split.
  - exists bs. split; [done|]. apply peek_poke_bytes; lia.
  - intros x Hx.
    assert (buf ≤ x < buf + r ∨ x < buf ∨ buf + Z.of_nat (length bs) ≤ x) as [?|Hout] by lia; [right; by exists sock, buf, len|].
    left. apply poke_bytes_out; lia.
Qed.

Lemma net_api_safe m c w : ram_ok m → call_wf c → names_socket w c = true →
  tsafe (net_api m c) w (λ w' p, call_post w m c w' p.1 p.2 ∧ frame c m p.1 p.2).
Proof.
  intros Hm Hc Hn. unfold names_socket in Hn. destruct c as [|s ip port|s|s data len|s buf len|s|s|s port|s];
    cbn [handle_of] in Hn; [by apply tsafe_call, safe_api_socket|..];
    (destruct (Z.ltb_spec s 0); [done|]); (destruct (socket_at w (Z.to_nat s)) as [t|] eqn:Ht; [|done]); cbn [net_api].
  - by apply tsafe_call, safe_api_connect.
  - by eapply tsafe_call, safe_api_status.
  - by apply tsafe_call, safe_api_send.
  - by apply safe_api_recv.
  - by eapply tsafe_call, safe_api_available.
  - unfold api_net_close. rewrite (proj2 (Z.leb_le _ _)) by lia. eapply tsafe_bind; [apply tsafe_close|].
    intros w1 [] Hw1. apply tsafe_ret. split; [done|]. intros x _. by left.
  - by apply tsafe_call, safe_api_listen.
  - by apply tsafe_call, safe_api_accept.
Qed.

(** The results a program sees are within the documented ones. *)
Lemma call_post_result w m c w' r m' : tcp_inv w → call_wf c → call_post w m c w' r m' → result_ok c r.
Proof.
  intros Hw Hc. destruct c as [|s ip port|s|s data len|s buf len|s|s|s port|s]; cbn [call_post result_ok call_wf] in *.
  - intros [[-> _]|(i & t & -> & Hi%(conns_index w) & _)]; [lia|lia|done].
  - intros ([] & _ & ->); lia.
  - intros (_ & t & _ & ->). destruct (state t); cbn; lia.
  - destruct (data =? 0); [lia|]. intros Hr%send_post_range. rewrite ByteMem.peek_length in Hr. lia.
  - destruct (buf =? 0); [lia|]. intros (bs & [Hr _]%recv_post_range & _). cbn in Hr. lia.
  - intros (_ & t & q & _ & Hq & ->). pose proof (ro_room _ _ Hq) as Hr. unfold RX_BUFFER_SIZE in Hr. lia.
  - by intros [-> _].
  - intros ([] & _ & ->); lia.
  - intros ([i|] & Hr & ->); [|lia]. destruct Hr as (t & (_ & Hi%(conns_index w) & _) & _); [lia|done].
Qed.

(** C29: whatever network call a program makes, with any handle, the kernel returns
    and keeps its invariant, and the result is in the range of the call.  With a handle
    that names a socket in use, the effect on the connection table and the result are
    those of the call ([call_post]); [net_recv] stores the oldest received bytes in the
    program's buffer, reports how many, and takes them off the queue, and nothing else
    in memory changes.  Any other handle (negative, 8 or more, or a free slot) has no effect and the
    result is [refused]: -1 for a negative handle and for connect, send, receive and listen,
    but 2 from [net_status] and 0 from [net_accept] for the others, where -1 is documented. *)
Theorem net_api_spec m c w :
  ram_ok m → call_wf c → tcp_inv w →
  ∃ w' r m', net_api m c w = Ret (w', (r, m')) ∧ tcp_inv w' ∧ result_ok c r ∧ frame c m r m' ∧
    if names_socket w c then call_post w m c w' r m' else w' = w ∧ r = refused c.
Proof.
  intros Hm Hc Hw. destruct (names_socket w c) eqn:Hn.
  - destruct (net_api_safe m c w Hm Hc Hn Hw) as (w' & [r m'] & E & Hw' & _ & Hr & Hf).
    exists w', r, m'. cbn [fst snd] in *. split_and!; try done. by apply (call_post_result w m c w' r m').
  - destruct (net_api_refuses m c w Hw Hn) as (m' & -> & Hm'). exists w, (refused c), m'.
    split_and!; try done; [|intros x _; left; apply Hm'].
    destruct c as [|s ip port|s|s data len|s buf len|s|s|s port|s]; cbn [refused result_ok call_wf] in *;
      [done|..]; try lia; destruct (s <? 0); lia.
Qed.

Lemma net_api_spec_witness :
  ∃ w' r m', net_api (λ _, 0) (NRecv 0 0x500000 100) (Tcp_initial (gateway_net 1)) = Ret (w', (r, m')) ∧ r = -1.
Proof.
  destruct (net_api_spec (λ _, 0) (NRecv 0 0x500000 100) (Tcp_initial (gateway_net 1))) as (w' & r & m' & E & _ & _ & _ & _ & Hr);
    [intros x; lia|cbn; lia|apply Tcp_initial_inv, gateway_net_inv; lia|].
  exists w', r, m'. split; [exact E|exact Hr].
Defined.

(** For handles from 8 on, [net_status] and [net_accept] answer 2 and 0. *)
Lemma bad_handle_results w s :
  8 ≤ s → api_net_status s w = Ret (w, 2) ∧ api_net_accept s w = Ret (w, 0).
Proof.
  intros Hs. unfold api_net_status, api_net_accept, get_state, accept, with_socket, mbind, tcpM_bind.
  rewrite (proj2 (Z.ltb_ge _ _)), (proj2 (Nat.leb_le _ _)) by (unfold MAX_CONNECTIONS; lia). done.
Qed.

(** [net_accept] answers 0 when no connection is pending, and socket 0 is a socket: a
    program cannot tell a connection on socket 0 from none. *)
Lemma accept_zero_ambiguous w sock :
  0 ≤ sock < 8 → (∃ w', accept (Z.to_nat sock) w = Ret (w', Some 0%nat)) →
  (∃ w', api_net_accept sock w = Ret (w', 0)) ∧ ∀ w2 w2', accept (Z.to_nat sock) w2 = Ret (w2', None) → api_net_accept sock w2 = Ret (w2', 0).
Proof.
  intros Hs [w' E]. unfold api_net_accept. rewrite (proj2 (Z.ltb_ge sock 0)) by lia. unfold mbind, tcpM_bind. split.
  - exists w'. by rewrite E.
  - intros w2 w2' E2. by rewrite E2.
Qed.
