(* ===== verification/Boot.v ===== *)
(** Booting (src/main.rs): saving the table of executables from the area that is zeroed,
    zeroing [.bss], and the part of [kernel_main] that starts the scheduler, the executable
    loader and the kernel's tasks.  The interrupt controllers are started in Interrupts. *)

From stdpp Require Import strings.
From S2P Require Import Prelude Utf8 FreeList Tiling BTreeMap ByteMem Elf RegionAllocator Executable Timer Task Scheduler Api.
#[local] Open Scope Z_scope.

Definition HEAP_START : Z := 0x200000.
Definition EXEC_TABLE_HEADER_SIZE : Z := 512.
Definition EXEC_TABLE_MAX_ENTRIES : Z := 15.
Definition EXEC_TABLE_ENTRY_SIZE : Z := 32.
Definition SEARCH_START : Z := 0x100000.
Definition SEARCH_END : Z := HEAP_START.

(** [usize::saturating_add] *)
Definition saturating_add (a b : Z) : Z := Z.min (a + b) 18446744073709551615.

(** The loop over the entries: the size of the table with its files, 0 if it is invalid. *)
Fixpoint table_total (m : ram) (addr i : Z) (n : nat) (total : Z) : Z :=
  match n with
  | O => total
  | S n =>
      let entry := addr + 16 + i * EXEC_TABLE_ENTRY_SIZE in
      let offset := peek_u32 m (entry + 16) in
      let size := peek_u32 m (entry + 20) in
      if (offset <? EXEC_TABLE_HEADER_SIZE) || (size =? 0) then 0
      else
        let e := saturating_add offset (align_up size 512) in
        table_total m addr (i + 1) n (if total <? e then e else total)
  end.

(** [copy_nonoverlapping]: undefined behaviour, if the ranges overlap, is [Panic]. *)
Definition copy_apart (m : ram) (src dst n : Z) : outcome ram :=
  if (src + n <=? dst) || (dst + n <=? src) then Ret (copy_bytes m src dst n) else Panic.

(** The search loop of [relocate_exec_table]. *)
Fixpoint relocate_loop (fuel : nat) (m : ram) (dest_base addr : Z) : outcome ram :=
  match fuel with
  | O => Diverge
  | S fuel =>
      if addr + 4 <=? SEARCH_END then
        if negb (bool_decide (peek m addr 4 = EXEC_TABLE_MAGIC)) then relocate_loop fuel m dest_base (addr + 4)
        else
          let version := peek_u32 m (addr + 4) in
          let count := peek_u32 m (addr + 8) in
          if negb (version =? 1) || (EXEC_TABLE_MAX_ENTRIES <? count) then relocate_loop fuel m dest_base (addr + 4)
          else
            let total := table_total m addr 0 (Z.to_nat count) EXEC_TABLE_HEADER_SIZE in
            if total =? 0 then relocate_loop fuel m dest_base (addr + 4)
            else
              let dest_end := saturating_add dest_base total in
              if HEAP_START <? dest_end then Ret m
              else
                m1 ← copy_apart m addr dest_base total;
                Ret (write_bytes m1 addr 0 4)
      else Ret m
  end.

(** [bss_start] and [bss_end] are chosen by the linker. *)
Definition relocate_exec_table (m : ram) (bss_end : Z) : outcome ram :=
  let dest_base := align_up bss_end 512 in
  if HEAP_START <=? dest_base then Ret m
  else relocate_loop (S (Z.to_nat 0x40000)) m dest_base SEARCH_START.

Definition zero_bss (m : ram) (bss_start bss_end : Z) : ram :=
  write_bytes m bss_start 0 (u64 (bss_end - bss_start)).

(** [_start], up to the call of [kernel_main] *)
Definition start_memory (m : ram) (bss_start bss_end : Z) : outcome ram :=
  m ← relocate_exec_table m bss_end;
  Ret (zero_bss m bss_start bss_end).

Section kernel.
Context {St : Type} `{RegionAllocator St}.
Context (trampoline network_task telnetd_task repl_task : Z).

(** [scheduler::spawn] *)
Definition boot_spawn (c : option Scheduler) (w : exec_state St) (nm : list Z) (entry : Z) :
    outcome (option Scheduler * exec_state St) :=
  sched_with c (λ s,
    '(s, w, _) ← spawn trampoline s w nm entry;
    Ret (Some s, w)).

(** The end of [kernel_main]: the executable loader and the tasks; [nic] is whether the network
    card was initialised.  The result is the one of [scheduler::run]. *)
Definition start_tasks (nic : bool) (c : option Scheduler) (w : exec_state St) (cpu : Context) :
    outcome (exec_state St * option (Scheduler * Context)) :=
  '(w, _) ← exec_init w;
  '(c, w) ← (if nic then
               '(c, w) ← boot_spawn c w (chars "network") network_task;
               boot_spawn c w (chars "telnetd") telnetd_task
             else Ret (c, w));
  '(c, w) ← boot_spawn c w (chars "basic-repl") repl_task;
  sched_with c (λ s, Ret (w, run s cpu)).

(** [kernel_main]: the scheduler, the executable loader and the tasks. *)
Definition kernel_main (nic : bool) (c : option Scheduler) (w : exec_state St) (cpu : Context) :
    outcome (exec_state St * option (Scheduler * Context)) :=
  c ← sched_init c;
  start_tasks nic c w cpu.
End kernel.

(** ** The relocation *)

Lemma table_total_grows m addr n i total :
  0 < total → table_total m addr i n total ≠ 0 → total ≤ table_total m addr i n total.
Proof.
  revert i total. induction n as [|n IH]; intros i total Ht; cbn [table_total]; [lia|].
  case_bool; [done|]. intros Hne. set (e := saturating_add _ _) in *.
  destruct (total <? e) eqn:E; bool_to_prop; [|by apply IH].
  etrans; [|apply (IH (i + 1) e); [lia|done]]. lia.
Qed.

Lemma table_total_entries m addr n i total :
  table_total m addr i n total ≠ 0 →
  ∀ k, i ≤ k < i + Z.of_nat n →
    peek_u32 m (addr + 16 + k * 32 + 16) ≠ 0 ∧ peek_u32 m (addr + 16 + k * 32 + 20) ≠ 0.
Proof.
  revert i total. induction n as [|n IH]; intros i total; cbn [table_total]; [lia|].
  destruct ((_ <? _) || (_ =? 0)) eqn:E; [done|]. intros Hne k Hk. unfold EXEC_TABLE_HEADER_SIZE in E.
  apply orb_false_iff in E as [E1%Z.ltb_ge E2%Z.eqb_neq].
  destruct (decide (k = i)) as [->|]; [unfold EXEC_TABLE_ENTRY_SIZE in *; split; lia|]. eapply IH; [done|lia].
Qed.

(** A table with its files at [a]: its size is [total]. *)
Definition exec_table (m : ram) (a total : Z) : Prop :=
  peek m a 4 = EXEC_TABLE_MAGIC ∧ peek_u32 m (a + 4) = 1 ∧ peek_u32 m (a + 8) ≤ EXEC_TABLE_MAX_ENTRIES ∧
  table_total m a 0 (Z.to_nat (peek_u32 m (a + 8))) EXEC_TABLE_HEADER_SIZE = total ∧ total ≠ 0.

(** The other occurrences of the magic number below [dest] are in the kernel's image and are
    not followed by the version. *)
Definition no_other_table (m : ram) (a bss_start dest : Z) : Prop :=
  ∀ b, SEARCH_START ≤ b < dest → b mod 4 = 0 → b ≠ a → peek m b 4 = EXEC_TABLE_MAGIC →
    b + 8 ≤ Z.min bss_start a ∧ peek_u32 m (b + 4) ≠ 1.

Lemma relocate_skips m dest a bss_start k n addr :
  a = addr + 4 * Z.of_nat k → SEARCH_START ≤ addr → addr mod 4 = 0 → a + 4 ≤ SEARCH_END → a ≤ dest →
  no_other_table m a bss_start dest →
  relocate_loop (k + n) m dest addr = relocate_loop n m dest a.
Proof.
  intros Ha Hs Hmod He Hd Hno. revert addr Ha Hs Hmod. induction k as [|k IH]; intros addr Ha Hs Hmod.
  { cbn [Nat.add]. f_equal. lia. }
  cbn [Nat.add relocate_loop]. rewrite (proj2 (Z.leb_le _ _)) by lia.
  assert (relocate_loop (k + n) m dest (addr + 4) = relocate_loop n m dest a) as IH'.
  { apply IH; [lia..|]. replace (addr + 4) with (addr + 1 * 4) by lia. by rewrite Z.mod_add by lia. }
  case_bool_decide as Hm; [|done]. cbn [negb].
  destruct (Hno addr) as [_ Hv]; [lia|done|lia|done|]. rewrite (proj2 (Z.eqb_neq _ 1) Hv). done.
Qed.

(** The [total] bytes at [a] of [m] are at [d] of [m']. *)
Definition moved (m m' : ram) (a d total : Z) : Prop := ∀ k, 0 ≤ k < total → m' (d + k) = m (a + k).

Lemma moved_peek m m' a d total off n :
  moved m m' a d total → 0 ≤ a → 0 ≤ d → a + total ≤ 18446744073709551616 → d + total ≤ 18446744073709551616 →
  0 ≤ off → off + Z.of_nat n ≤ total → peek m' (d + off) n = peek m (a + off) n.
Proof.
  intros Hm ? ? ? ?. revert off. induction n as [|n IH]; intros off Ho Hn; cbn [peek]; [done|].
  rewrite !u64_small by lia. rewrite <- !Z.add_assoc. rewrite Hm by lia. f_equal. apply IH; lia.
Qed.

Lemma moved_u32 m m' a d total off :
  moved m m' a d total → 0 ≤ a → 0 ≤ d → a + total ≤ 18446744073709551616 → d + total ≤ 18446744073709551616 →
  0 ≤ off → off + 4 ≤ total → peek_u32 m' (d + off) = peek_u32 m (a + off).
Proof. intros. unfold peek_u32. f_equal. by apply (moved_peek m m' a d total). Qed.

Lemma validate_entries_ok m addr n i :
  0 ≤ i → 0 ≤ addr → addr + 512 < 18446744073709551616 → i + Z.of_nat n ≤ MAX_EXECUTABLES →
  (∀ k, i ≤ k < i + Z.of_nat n → peek_u32 m (addr + 16 + k * 32 + 16) ≠ 0 ∧ peek_u32 m (addr + 16 + k * 32 + 20) ≠ 0) →
  validate_entries m addr i n = Ret true.
Proof.
  unfold MAX_EXECUTABLES. revert i. induction n as [|n IH]; intros i ? ? ? Hi Hall; cbn [validate_entries]; [done|].
  unfold entry_at, MAX_EXECUTABLES. rewrite (proj2 (Z.ltb_lt _ _)) by lia. rewrite mbind_Ret. cbn [offset esize].
  rewrite u64_small by lia. replace (addr + 16 + 32 * i) with (addr + 16 + i * 32) by lia.
  destruct (Hall i) as [Hoff Hsz]; [lia|]. rewrite (proj2 (Z.eqb_neq _ _) Hoff), (proj2 (Z.eqb_neq _ _) Hsz). cbn [orb].
  apply IH; [lia..|]. intros k Hk. apply Hall. lia.
Qed.

(** A moved table is a table. *)
Lemma moved_table m m' a d total :
  ram_ok m → moved m m' a d total → exec_table m a total → 0 ≤ a → 0 ≤ d →
  a + total < 18446744073709551616 → d + total < 18446744073709551616 → table_at m' d.
Proof.
  intros Hram Hmv (Hm & Hv & Hc & Ht & Hne) ? ? ? ?. pose proof (peek_u32_range m (a + 8) Hram).
  assert (EXEC_TABLE_HEADER_SIZE ≤ total) as Hsz.
  { rewrite <- Ht. apply table_total_grows; [done|congruence]. }
  unfold EXEC_TABLE_HEADER_SIZE in Hsz. rewrite <- (Z.add_0_r a) in Hm.
  assert (peek m' d 4 = EXEC_TABLE_MAGIC) as Hm'.
  { rewrite <- (Z.add_0_r d), (moved_peek m m' a d total) by (done || lia). done. }
  split; [done|]. unfold validate_table. rewrite bool_decide_eq_true_2 by done. cbn [negb].
  rewrite !(moved_u32 m m' a d total) by (done || lia). rewrite Hv. cbn [Z.eqb Pos.eqb negb].
  rewrite (proj2 (Z.ltb_ge _ _)) by done. unfold EXEC_TABLE_MAX_ENTRIES in Hc.
  apply validate_entries_ok; [lia..|unfold MAX_EXECUTABLES; lia|].
  intros k Hk. rewrite <- Ht in Hne. pose proof (table_total_entries m a _ 0 _ Hne k ltac:(lia)) as He.
  rewrite <- !Z.add_assoc in *. rewrite !(moved_u32 m m' a d total) by (done || lia). done.
Qed.

Lemma copy_bytes_ok m a b n : ram_ok m → ram_ok (copy_bytes m a b n).
Proof. intros Hm x. unfold copy_bytes. case_bool; apply Hm. Qed.
Lemma write_zero_ok m a n : ram_ok m → ram_ok (write_bytes m a 0 n).
Proof. intros Hm x. unfold write_bytes. case_bool; [lia|apply Hm]. Qed.

(** The table at [a] is found, and copied if there is room. *)
Lemma relocate_found m bss_start bss_end a total dest :
  dest = align_up bss_end 512 → exec_table m a total → SEARCH_START ≤ a → a mod 4 = 0 → a ≤ dest →
  0 < total → dest + total ≤ HEAP_START → no_other_table m a bss_start dest →
  relocate_exec_table m bss_end = (m1 ← copy_apart m a dest total; Ret (write_bytes m1 a 0 4)).
Proof.
  intros Hd (Hm & Hv & Hc & Ht & Hne) Hsa Ha4 Had Hpos Hfit Hno. unfold HEAP_START, SEARCH_START in *.
  unfold relocate_exec_table. rewrite <- Hd. unfold HEAP_START. rewrite (proj2 (Z.leb_gt _ _)) by lia.
  assert (∃ k n, S (Z.to_nat 0x40000) = (k + S n)%nat ∧ a = SEARCH_START + 4 * Z.of_nat k) as (k & n & -> & Hk).
  { pose proof (Z.div_mod (a - SEARCH_START) 4) as Hdm. unfold SEARCH_START in *.
    assert ((a - 0x100000) mod 4 = 0) as Hz by (rewrite Zminus_mod, Ha4; done).
    exists (Z.to_nat ((a - 0x100000) / 4)), (Z.to_nat (0x40000 - (a - 0x100000) / 4)). lia. }
  assert (a + 4 ≤ 0x200000).
  { pose proof (table_total_grows m a (Z.to_nat (peek_u32 m (a + 8))) 0 EXEC_TABLE_HEADER_SIZE ltac:(done) ltac:(congruence)) as Hg.
    unfold EXEC_TABLE_HEADER_SIZE in *. lia. }
  rewrite (relocate_skips m dest a bss_start k (S n) SEARCH_START) by (done || unfold SEARCH_END, HEAP_START, SEARCH_START; lia).
  cbn [relocate_loop]. unfold SEARCH_END, HEAP_START. rewrite (proj2 (Z.leb_le _ _)) by lia.
  rewrite bool_decide_eq_true_2 by done. cbn [negb]. rewrite Hv. cbn [Z.eqb Pos.eqb negb orb].
  rewrite (proj2 (Z.ltb_ge _ _)) by done. rewrite Ht, (proj2 (Z.eqb_neq _ _)) by done.
  unfold saturating_add. rewrite (proj2 (Z.ltb_ge _ _)) by lia. done.
Qed.

(** A table that reaches into its destination is copied with [copy_nonoverlapping] all the
    same, which is undefined. *)
Lemma relocate_overlap m bss_start bss_end a total :
  let dest := align_up bss_end 512 in
  exec_table m a total → SEARCH_START ≤ a → a mod 4 = 0 → a ≤ dest < a + total →
  dest + total ≤ HEAP_START → no_other_table m a bss_start dest →
  relocate_exec_table m bss_end = Panic.
Proof.
  intros dest Htab Hsa Ha4 Hov Hfit Hno. rewrite (relocate_found m bss_start bss_end a total dest) by (done || lia).
  unfold copy_apart. rewrite !(proj2 (Z.leb_gt _ _)) by lia. done.
Qed.

(** [start_memory]: the table is moved, its old magic number and [.bss] are zero, and nothing
    else below the new table changes. *)
Lemma start_memory_ok m bss_start bss_end a total dest :
  ram_ok m → 0 ≤ bss_start ≤ bss_end → bss_end < HEAP_START → dest = align_up bss_end 512 →
  exec_table m a total → SEARCH_START ≤ a → a mod 4 = 0 → a + total ≤ dest → dest + total ≤ HEAP_START →
  no_other_table m a bss_start dest →
  ∃ m', start_memory m bss_start bss_end = Ret m' ∧ ram_ok m' ∧ moved m m' a dest total ∧ bss_end ≤ dest ∧ dest mod 4 = 0 ∧
    ∀ x, 0 ≤ x < dest → m' x = if (bss_start <=? x) && (x <? bss_end) then 0
                               else if (a <=? x) && (x <? a + 4) then 0 else m x.
Proof.
  intros Hram Hb Hbe Hd Htab Hsa Ha4 Hdis Hfit Hno. pose proof Htab as (Hm & Hv & Hc & Ht & Hne).
  assert (EXEC_TABLE_HEADER_SIZE ≤ total) as Hsz by (rewrite <- Ht; apply table_total_grows; [done|congruence]).
  unfold EXEC_TABLE_HEADER_SIZE, HEAP_START, SEARCH_START in *.
  assert (bss_end ≤ dest ∧ dest mod 4 = 0) as [Hbd Hd4].
  { subst dest. change 512 with (2 ^ 9). rewrite align_up_spec by lia.
    pose proof (Z.div_mod (bss_end + 2 ^ 9 - 1) (2 ^ 9)). pose proof (Z.mod_pos_bound (bss_end + 2 ^ 9 - 1) (2 ^ 9)).
    split; [lia|]. change (2 ^ 9) with (128 * 4). rewrite Z.mul_assoc. apply Z.mod_mul. lia. }
  unfold start_memory. rewrite (relocate_found m bss_start bss_end a total dest) by (done || unfold HEAP_START, SEARCH_START; lia).
  unfold copy_apart. rewrite (proj2 (Z.leb_le _ _)) by lia. cbn [orb]. rewrite !mbind_Ret. eexists. split; [done|].
  split; [by apply write_zero_ok, write_zero_ok, copy_bytes_ok|]. unfold zero_bss. rewrite u64_small by lia.
  split; [|split; [done|split; [done|]]].
  - intros k Hk. rewrite !write_bytes_out, copy_bytes_in by lia. f_equal. lia.
  - intros x Hx. destruct ((bss_start <=? x) && (x <? bss_end)) eqn:Eb; [apply write_bytes_in; blia|].
    rewrite write_bytes_out by blia. destruct ((a <=? x) && (x <? a + 4)) eqn:Ea; [apply write_bytes_in; blia|].
    rewrite write_bytes_out by blia. apply copy_bytes_out; lia.
Qed.

(** Below the moved table there is no other. *)
Lemma no_table_below m m' bss_start bss_end a dest b :
  no_other_table m a bss_start dest → 0 ≤ bss_start → a ≤ dest → dest mod 4 = 0 → dest ≤ HEAP_START →
  (∀ x, SEARCH_START ≤ x < dest → m' x = if (bss_start <=? x) && (x <? bss_end) then 0
                                         else if (a <=? x) && (x <? a + 4) then 0 else m x) →
  SEARCH_START ≤ b < dest → b mod 4 = 0 → ¬ table_at m' b.
Proof.
  intros Hno Hbs Had Hd4 Hdh Hlow Hb Hb4 [Hm Hv]. unfold HEAP_START, SEARCH_START in *.
  assert (b + 4 ≤ dest) as Hb'.
  { pose proof (Z.div_mod b 4). pose proof (Z.div_mod dest 4). lia. }
  assert (∀ x, b ≤ x < b + 4 → m' x ≠ 0) as Hnz.
  { cbn [peek] in Hm. rewrite !u64_small in Hm by lia. injection Hm as Hx0 Hx1 Hx2 Hx3. intros x Hx.
    assert (x = b ∨ x = b + 1 ∨ x = b + 1 + 1 ∨ x = b + 1 + 1 + 1) as [->|[->|[->| ->]]] by lia; congruence. }
  assert (∀ x, b ≤ x < b + 4 → m' x = m x) as Hsame.
  { intros x Hx. specialize (Hnz x Hx). rewrite Hlow in * by lia. by repeat case_bool. }
  assert (b ≠ a) as Hne.
  { intros ->. apply (Hnz a); [lia|]. rewrite Hlow by lia. destruct ((bss_start <=? a) && (a <? bss_end)); [done|].
    rewrite (proj2 (Z.leb_le a a)), (proj2 (Z.ltb_lt a (a + 4))) by lia. done. }
  rewrite (peek_agree m m' b (b + 4)) in Hm by (done || lia).
  destruct (Hno b ltac:(unfold SEARCH_START; lia) Hb4 Hne Hm) as [Hlo Hver].
  unfold validate_table in Hv. destruct (bool_decide _); [|done]. cbn [negb] in Hv.
  assert (peek_u32 m' (b + 4) = peek_u32 m (b + 4)) as Hveq.
  { unfold peek_u32. f_equal. apply (peek_agree m m' (b + 4) (b + 8)); [|lia..].
    intros x Hx. rewrite Hlow by lia. rewrite (proj2 (Z.leb_gt bss_start x)), (proj2 (Z.leb_gt a x)) by lia. done. }
  rewrite Hveq, (proj2 (Z.eqb_neq _ 1) Hver) in Hv. done.
Qed.

(** The first table of the search. *)
Lemma first_table m dest first :
  (∀ b, SEARCH_START ≤ b < dest → b mod 4 = 0 → ¬ table_at m b) → table_at m dest →
  (∀ b, search_start ≤ b < (if first =? 0 then search_end - 4 else first) → b mod 4 = 0 → ¬ table_at m b) →
  SEARCH_START ≤ dest < search_end - 4 → dest mod 4 = 0 →
  first = 0 ∨ table_at m first ∧ SEARCH_START ≤ first ∧ first mod 4 = 0 → first = dest.
Proof.
  intros Hbelow Hat Hfirst Hr Hd4 Hf. unfold SEARCH_START in *.
  destruct (Z.eqb_spec first 0) as [->|Hne].
  - exfalso. by apply (Hfirst dest); [unfold search_start; lia| |].
  - destruct Hf as [|(Hf & Hs & Hf4)]; [done|]. destruct (Z.lt_trichotomy first dest) as [?|[?|?]]; [|done|]; exfalso.
    + by apply (Hbelow first).
    + by apply (Hfirst dest); [unfold search_start; lia| |].
Qed.

(** ** The kernel's tasks *)
Section tasks.
Context {St : Type} `{RegionAllocator St}.
Context (trampoline network_task telnetd_task repl_task : Z).
Context (Htr : 0 ≤ trampoline < 18446744073709551616).
Implicit Types w : exec_state St.

Lemma new_task_table w w' i nm entry arg r :
  new_with_arg_raw trampoline w i nm entry arg = Ret (w', r) →
  table_addr (inner (cell w')) = table_addr (inner (cell w)) ∧ exec_count (inner (cell w')) = exec_count (inner (cell w)).
Proof.
  unfold new_with_arg_raw, register_task_stack, registry_with.
  intros ([s' [b|]] & _ & E)%bind_Ret; [|by injection E as <- <-].
  apply bind_Ret in E as (w1 & (reg & (? & E0 & [= <-])%bind_Ret & [= <-])%bind_Ret & [= <- <-]). done.
Qed.

(** The tasks of a booting kernel: their names and entry points are among [l], in order. *)
Definition started (s : Scheduler) (l : list (list Z * Z)) : Prop :=
  Forall (λ t, state t = Ready) (tasks s) ∧ ((λ t, (tname t, r12 (context t))) <$> tasks s) `sublist_of` l.

(** The state while tasks are started: [w0] is the state before. *)
Definition booting w0 w (s : Scheduler) (l : list (list Z * Z)) : Prop :=
  api_inv (mkApi w (Some s) 0 0) s [] ∧ next_id s = Z.of_nat (length l) ∧ started s l ∧
  table_addr (inner (cell w)) = table_addr (inner (cell w0)) ∧ exec_count (inner (cell w)) = exec_count (inner (cell w0)) ∧
  ∀ x, 0 ≤ x < Z.min ra_start 18446744073709551616 → memory w x = memory w0 x.

Lemma boot_spawn_ok w0 w s l nm entry :
  booting w0 w s l → (length l < 3)%nat →
  ∃ s' w', boot_spawn trampoline (Some s) w nm entry = Ret (Some s', w') ∧ booting w0 w' s' (l ++ [(nm, entry)]).
Proof.
  intros (Hinv & Hn & (Hrdy & Hsub) & Hta & Hec & Hmem) Hlen. pose proof Hinv as [_ Hex Hnd HF _ Hfr]. cbn [exec] in *.
  unfold boot_spawn, sched_with, spawn, spawn_raw.
  destruct (new_with_arg_raw_ok trampoline w [] (next_id s) nm entry 0 Hex (Hfr _ (Z.le_refl _)) Htr)
    as (w' & r & E & Hex' & Hr). rewrite E, mbind_Ret. apply new_task_table in E as [Et1 Et2].
  assert (u32 (next_id s + 1) = next_id s + 1) as Hu by (apply u32_small; lia).
  destruct r as [t|]; rewrite mbind_Ret; (eexists _, w'; split; [done|]).
  - destruct Hr as ((Hid & Hnm & Hst & H12 & _ & _ & _ & _ & _ & Hm) & Hg & Hgo & _).
    split; [|split; [cbn [next_id set_tasks]; rewrite Hu, length_app; cbn; lia|split; [split|split; [congruence|split; [congruence|]]]]].
    + eapply (api_inv_snoc (mkApi w (Some s) 0 0) s); [exact Hinv|lia|done|exact Hex'|done|exact Hid|done|exact Hgo].
    + apply Forall_app. by split; [|constructor].
    + cbn [tasks set_tasks]. rewrite fmap_app. apply sublist_app; [done|]. cbn. by rewrite Hnm, H12.
    + intros x Hx. rewrite <- Hmem by done. apply Hm; [lia|]. left.
      assert (ra_start ≤ stack_base t); [|lia]. eapply (ra_live_in (region w') _ (stack_base t) (ra_rounded STACK_SIZE)); [apply Hex'|].
      apply elem_of_app. left. rewrite (owned_remove _ _ _ Hg). apply elem_of_app. left.
      apply (list_elem_of_fmap_2 reserve _ (stack_base t, STACK_SIZE)). unfold task_blocks. cbn. set_solver.
  - destruct Hr as [Hr Hm]. split; [|split; [cbn [next_id]; rewrite Hu, length_app; cbn; lia|split; [split|split; [congruence|split; [congruence|]]]]].
    + split; cbn [exec sched next_id tasks]; rewrite ?Hu; [done|done|done| |lia|].
      * eapply Forall_impl; [exact HF|]. cbn. lia.
      * intros i Hi. rewrite Hr. apply Hfr. lia.
    + done.
    + etrans; [exact Hsub|]. by apply sublist_inserts_r.
    + intros x Hx. rewrite Hm. by apply Hmem.
Qed.

(** What [start_tasks] starts. *)
Definition kernel_tasks (nic : bool) : list (list Z * Z) :=
  (if nic then [(chars "network", network_task); (chars "telnetd", telnetd_task)] else []) ++ [(chars "basic-repl", repl_task)].

Lemma start_tasks_ok nic s0 m cpu :
  ram_ok m → ∃ w0 w n s, exec_init (mkExec RegistryCell_new s0 m) = Ret (w0, n) ∧ memory w0 = m ∧
    start_tasks trampoline network_task telnetd_task repl_task nic (Some Scheduler_new) (mkExec RegistryCell_new s0 m) cpu = Ret (w, run s cpu) ∧
    booting w0 w s (kernel_tasks nic).
Proof.
  intros Hm. destruct (exec_init_spec (mkExec RegistryCell_new s0 m) Hm eq_refl eq_refl) as (w0 & n & E & Hex & _).
  assert (memory w0 = m ∧ allocs_of w0 = []) as [Hm0 Ha0].
  { unfold exec_init in E. apply bind_Ret in E as (t & _ & E). destruct t; cbn in E; by simplify_eq. }
  unfold start_tasks. rewrite E, mbind_Ret.
  assert (booting w0 w0 Scheduler_new []) as Hb.
  { split; [|split; [done|split; [split; [constructor|done]|done]]].
    split; [done|exact Hex|constructor|constructor|cbn; lia|]. intros i _. cbn [exec]. by rewrite Ha0. }
  assert (∃ s1 w1, (if nic then '(c, w) ← boot_spawn trampoline (Some Scheduler_new) w0 (chars "network") network_task;
      boot_spawn trampoline c w (chars "telnetd") telnetd_task else Ret (Some Scheduler_new, w0)) = Ret (Some s1, w1) ∧
    booting w0 w1 s1 (if nic then [(chars "network", network_task); (chars "telnetd", telnetd_task)] else [])) as (s1 & w1 & E1 & Hb1).
  { destruct nic; [|by eauto].
    destruct (boot_spawn_ok w0 w0 _ _ (chars "network") network_task Hb) as (s1 & w1 & -> & Hb1); [cbn; lia|]. rewrite mbind_Ret.
    destruct (boot_spawn_ok w0 w1 _ _ (chars "telnetd") telnetd_task Hb1) as (s2 & w2 & -> & Hb2); [cbn; lia|]. eauto. }
  rewrite E1, mbind_Ret.
  destruct (boot_spawn_ok w0 w1 _ _ (chars "basic-repl") repl_task Hb1) as (s2 & w2 & -> & Hb2); [destruct nic; cbn; lia|].
  rewrite mbind_Ret. by exists w0, w2, n, s2.
Qed.

(** If the table of executables at [a], appended to the kernel's image, does not reach into its
    destination after [.bss], then all loops end, the loader registers the table at its
    destination, with the same number of entries and the same bytes, files included, although
    [.bss] was zeroed; the network and telnet tasks (with a network card) and the BASIC task
    are started in this order, each unless there is no memory for its stack; the
    scheduler runs the first one; and the invariant under which programs are
    spawned holds. *)
Lemma boot_ok nic m bss_start bss_end a total dest s0 cpu :
  ram_ok m → 0 ≤ bss_start ≤ bss_end → bss_end < HEAP_START → dest = align_up bss_end 512 →
  exec_table m a total → SEARCH_START ≤ a → a mod 4 = 0 → a + total ≤ dest → dest + total ≤ HEAP_START →
  no_other_table m a bss_start dest → HEAP_START ≤ ra_start →
  ∃ m' w s, start_memory m bss_start bss_end = Ret m' ∧
    kernel_main trampoline network_task telnetd_task repl_task nic None (mkExec RegistryCell_new s0 m') cpu = Ret (w, run s cpu) ∧
    api_inv (mkApi w (Some s) 0 0) s [] ∧ started s (kernel_tasks nic) ∧
    table_addr (inner (cell w)) = dest ∧ exec_count (inner (cell w)) = peek_u32 m (a + 8) ∧
    moved m (memory w) a dest total ∧
    match tasks s, run s cpu with
    | t :: l, Some (s', cpu') => tasks s' = set_state t Running :: l ∧ current s' = 0%nat ∧ cpu' = context t
    | [], None => True
    | _, _ => False
    end.
Proof.
  intros Hram Hb Hbe Hd Htab Hsa Ha4 Hdis Hfit Hno Hra.
  destruct (start_memory_ok m bss_start bss_end a total dest Hram Hb Hbe Hd Htab Hsa Ha4 Hdis Hfit Hno)
    as (m' & E & Hram' & Hmv & Hbd & Hd4 & Hlow).
  destruct (start_tasks_ok nic s0 m' cpu Hram') as (w0 & w & n & s & Ei & Hm0 & Ek & Hbt).
  exists m', w, s. split; [done|].
  split; [exact Ek|]. destruct Hbt as (Hinv & _ & Hst & Hta & Hec & Hmem).
  split; [done|]. split; [done|].
  destruct (exec_init_spec (mkExec RegistryCell_new s0 m') Hram' eq_refl eq_refl) as (w1 & n1 & Ei1 & _ & Hn & _ & Hfirst & Hfound).
  rewrite Ei in Ei1. injection Ei1 as <- <-. cbn [memory] in *. pose proof Htab as (_ & _ & Hc & Ht & Hne).
  assert (EXEC_TABLE_HEADER_SIZE ≤ total) as Hsz by (rewrite <- Ht; apply table_total_grows; [done|congruence]).
  unfold EXEC_TABLE_HEADER_SIZE in Hsz.
  assert (table_at m' dest) as Hat by (apply (moved_table m m' a dest total); unfold HEAP_START, SEARCH_START in *; done || lia).
  assert (table_addr (inner (cell w0)) = dest) as Hfd.
  { eapply first_table; [|exact Hat|exact Hfirst|unfold HEAP_START, SEARCH_START, search_end in *; lia|done|].
    - intros b Hb1 Hb2. eapply no_table_below; [exact Hno|lia|lia|done|lia| |exact Hb1|exact Hb2].
      intros x Hx. apply Hlow. unfold SEARCH_START in *. lia.
    - destruct Hfound as [[? _]|(? & _ & ? & ?)]; [by left|by right]. }
  rewrite Hta, Hec, Hn. destruct Hfound as [[Hz _]|(_ & -> & _)].
  { unfold SEARCH_START in *. lia. }
  split; [done|]. rewrite Hfd. rewrite (moved_u32 m m' a dest total) by (done || unfold HEAP_START, SEARCH_START in *; lia).
  split; [done|]. split; [|by destruct (tasks s) as [|t l] eqn:Et; unfold run; rewrite Et].
  intros k Hk. rewrite Hmem by (unfold HEAP_START, SEARCH_START in *; lia). rewrite Hm0. by apply Hmv.
Qed.
End tasks.

(** ** A concrete image

    One file of 5 bytes at 0x100200, the table at 0x100000; [.bss] from 0x100400 to 0x100600. *)
Definition demo_image : list Z :=
  EXEC_TABLE_MAGIC ++ [1; 0; 0; 0; 1; 0; 0; 0; 0; 0; 0; 0] ++ 97 :: replicate 15 0 ++ [0; 2; 0; 0; 5; 0; 0; 0].
Definition image_memory : ram := λ x,
  if x <? 0x100200 then nth (Z.to_nat (x - 0x100000)) demo_image 0 else if x <? 0x100205 then 7 else 0.

Lemma image_memory_ok : ram_ok image_memory.
Proof.
  intros x. unfold image_memory. repeat case_bool; try lia.
  destruct (nth_in_or_default (Z.to_nat (x - 0x100000)) demo_image 0) as [Hin| ->]; [|lia].
  assert (Hf : Forall (λ b, 0 ≤ b < 256) demo_image) by (repeat constructor; lia).
  rewrite Forall_forall in Hf. apply Hf. by apply list_elem_of_In.
Qed.

Lemma image_no_other : no_other_table image_memory 0x100000 0x100400 0x100600.
Proof.
  intros b Hb _ Hne Hm. exfalso. unfold SEARCH_START in Hb. cbn [peek] in Hm. rewrite !u64_small in Hm by lia.
  injection Hm as H0 H1 _ _. unfold image_memory in H0. destruct (b <? 0x100200) eqn:E; [|by destruct (b <? 0x100205)].
  assert (b = 0x100000 + Z.of_nat (Z.to_nat (b - 0x100000))) as Hk by lia.
  destruct (decide (Z.to_nat (b - 0x100000) < 40)%nat) as [Hlt|Hge].
  - set (k := Z.to_nat (b - 0x100000)) in *. clearbody k. do 40 (destruct k as [|k]; [cbn in H0; lia || discriminate H0|]). lia.
  - rewrite nth_overflow in H0 by (cbn; lia). discriminate H0.
Qed.

(** With the whole program region free all three tasks are started. *)
Lemma boot_starts_all :
  match kernel_main 0x100800 0x100810 0x100820 0x100830 true None
      (mkExec RegistryCell_new (ProgramAlloc.mkProgramAllocator ∅ None 0 []) image_memory) Context_default with
  | Ret (_, Some (s, _)) => tname <$> tasks s = [chars "network"; chars "telnetd"; chars "basic-repl"]
  | _ => False
  end.
Proof. exact eq_refl. Qed.
