(* ===== verification/Serial.v ===== *)
(** The serial port (src/serial.rs) and the terminal on it (src/basic/terminal.rs) as port
    programs.  The 16550 UART is a parameter: a device with its documented registers, into
    which bytes arrive at any time and whose transmitter is busy for a bounded number of
    polls after a byte. *)

From S2P Require Import Prelude Utf8 PortIO BasicRepl.
#[local] Open Scope Z_scope.

Definition COM1 : Z := 0x3F8.
Definition DATA : Z := 0.
Definition INT_ENABLE : Z := 1.
Definition FIFO_CTRL : Z := 2.
Definition LINE_CTRL : Z := 3.
Definition MODEM_CTRL : Z := 4.
Definition LINE_STATUS : Z := 5.
Definition LSR_DATA_READY : Z := 0x01.
Definition LSR_TX_EMPTY : Z := 0x20.

(** [struct Serial] *)
Record Serial : Type := mkSerial { port : Z }.
Definition SERIAL : Serial := mkSerial COM1.

Section driver.
Context {D : Type} `{!Ports D}.

Definition serial_init (self : Serial) : ioM D unit :=
  _ ← outb (port self + INT_ENABLE) 0x00;
  _ ← outb (port self + LINE_CTRL) 0x80;
  _ ← outb (port self + DATA) 0x01;
  _ ← outb (port self + INT_ENABLE) 0x00;
  _ ← outb (port self + LINE_CTRL) 0x03;
  _ ← outb (port self + FIFO_CTRL) 0xC7;
  _ ← outb (port self + MODEM_CTRL) 0x0B;
  outb (port self + MODEM_CTRL) 0x0F.

Definition is_tx_empty (self : Serial) : ioM D bool :=
  v ← inb (port self + LINE_STATUS);
  mret (negb (Z.land v LSR_TX_EMPTY =? 0)).
Definition has_data (self : Serial) : ioM D bool :=
  v ← inb (port self + LINE_STATUS);
  mret (negb (Z.land v LSR_DATA_READY =? 0)).

(** The loops poll at most [fuel] times. *)
Fixpoint write_byte (fuel : nat) (self : Serial) (byte : Z) : ioM D unit :=
  match fuel with
  | O => λ _, Diverge
  | S fuel =>
      empty ← is_tx_empty self;
      if negb empty then write_byte fuel self byte else outb (port self + DATA) byte
  end.
Fixpoint read_byte (fuel : nat) (self : Serial) : ioM D Z :=
  match fuel with
  | O => λ _, Diverge
  | S fuel =>
      ready ← has_data self;
      if negb ready then read_byte fuel self else inb (port self + DATA)
  end.

Definition try_read_byte (self : Serial) : ioM D (option Z) :=
  ready ← has_data self;
  if ready : bool then b ← inb (port self + DATA); mret (Some b) else mret None.

Fixpoint write_bytes_of (fuel : nat) (self : Serial) (bytes : list Z) : ioM D unit :=
  match bytes with
  | [] => mret tt
  | byte :: bytes =>
      _ ← (if byte =? 10 then write_byte fuel self 13 else mret tt);
      _ ← write_byte fuel self byte;
      write_bytes_of fuel self bytes
  end.
(** [Serial::write_str]; a string is the list of its characters. *)
Definition serial_write_str (fuel : nat) (self : Serial) (s : list Z) : ioM D unit :=
  write_bytes_of fuel self (as_bytes s).

(** [_print]: [write_fmt] writes the pieces of the format one by one, and never fails. *)
Fixpoint serial_print (fuel : nat) (pieces : list (list Z)) : ioM D unit :=
  match pieces with
  | [] => mret tt
  | s :: pieces => _ ← serial_write_str fuel SERIAL s; serial_print fuel pieces
  end.

(** [SerialTerminal::poll_byte] *)
Definition serial_poll (fuel : nat) : ioM D ReadStatus :=
  ready ← has_data SERIAL;
  if ready : bool then b ← read_byte fuel SERIAL; mret (Byte b) else mret NoData.
End driver.

(** ** The UART *)

(** The registers that the driver writes, how many polls the transmitter stays busy at
    most, the bytes given to it, the bytes that arrived, and how many of those were read or
    discarded. *)
Record Uart : Type := mkUart {
  lcr : Z; ier : Z; divisor : Z * Z; mcr : Z; fcr : Z;
  busy : nat; sent : list Z; arrived : list Z; taken : nat }.
Definition dlab (u : Uart) : bool := Z.testbit (lcr u) 7.

(** What happens by itself: bytes arrive, the transmitter gets ready. *)
Definition later (u u' : Uart) : Prop :=
  ∃ n more, (n ≤ busy u)%nat ∧
    u' = mkUart (lcr u) (ier u) (divisor u) (mcr u) (fcr u) n (sent u) (arrived u ++ more) (taken u).

(** Writing register [r].  After a byte the transmitter is busy for [time] polls. *)
Definition write_uart (time : nat) (r v : Z) (u : Uart) : Uart :=
  if r =? 0 then
    if dlab u then mkUart (lcr u) (ier u) (v, (divisor u).2) (mcr u) (fcr u) (busy u) (sent u) (arrived u) (taken u)
    else mkUart (lcr u) (ier u) (divisor u) (mcr u) (fcr u) time (sent u ++ [v]) (arrived u) (taken u)
  else if r =? 1 then
    if dlab u then mkUart (lcr u) (ier u) ((divisor u).1, v) (mcr u) (fcr u) (busy u) (sent u) (arrived u) (taken u)
    else mkUart (lcr u) v (divisor u) (mcr u) (fcr u) (busy u) (sent u) (arrived u) (taken u)
  else if r =? 2 then
    mkUart (lcr u) (ier u) (divisor u) (mcr u) v (busy u) (sent u) (arrived u)
      (if Z.testbit v 1 then length (arrived u) else taken u)
  else if r =? 3 then mkUart v (ier u) (divisor u) (mcr u) (fcr u) (busy u) (sent u) (arrived u) (taken u)
  else mkUart (lcr u) (ier u) (divisor u) v (fcr u) (busy u) (sent u) (arrived u) (taken u).
Definition take_byte (u : Uart) : Uart :=
  mkUart (lcr u) (ier u) (divisor u) (mcr u) (fcr u) (busy u) (sent u) (arrived u) (S (taken u)).

(** The device.  A byte written while the transmitter is busy is not covered. *)
Class SerialPort (D : Type) `{!Ports D} : Type := {
  uart : D → Uart;
  byte_time : nat;
  uart_busy d : (busy (uart d) ≤ byte_time)%nat;
  uart_write d r v : 0 ≤ r ≤ 4 → (r = 0 → dlab (uart d) = false → busy (uart d) = 0%nat) →
    later (write_uart byte_time r v (uart d)) (uart (port_outb (COM1 + r) v d));
  uart_status d :
    let '(d', v) := port_inb (COM1 + LINE_STATUS) d in
    later (uart d) (uart d') ∧ (busy (uart d') ≤ pred (busy (uart d)))%nat ∧
    Z.testbit v 5 = (busy (uart d') =? 0)%nat ∧
    Z.testbit v 0 = (taken (uart d') <? length (arrived (uart d')))%nat;
  uart_read d b : dlab (uart d) = false → arrived (uart d) !! taken (uart d) = Some b →
    let '(d', v) := port_inb (COM1 + DATA) d in later (take_byte (uart d)) (uart d') ∧ v = b;
}.

(** ** Properties *)
Section properties.
Context {D : Type} `{SerialPort D}.

(** From [u] to [u'] the bytes [out] were sent and [k] bytes read; the configuration is
    unchanged. *)
Record steps (u u' : Uart) (out : list Z) (k : nat) : Prop := mkSteps {
  st_lcr : lcr u' = lcr u;
  st_ier : ier u' = ier u;
  st_divisor : divisor u' = divisor u;
  st_mcr : mcr u' = mcr u;
  st_fcr : fcr u' = fcr u;
  st_sent : sent u' = sent u ++ out;
  st_arrived : arrived u `prefix_of` arrived u';
  st_taken : taken u' = (taken u + k)%nat;
}.

Lemma steps_trans u u1 u2 o1 o2 k1 k2 :
  steps u u1 o1 k1 → steps u1 u2 o2 k2 → steps u u2 (o1 ++ o2) (k1 + k2).
Proof.
  intros [] []. split; try congruence; [rewrite app_assoc; congruence|by etrans|lia].
Qed.
Lemma steps_refl u : steps u u [] 0.
Proof. by split; rewrite ?app_nil_r, ?Nat.add_0_r. Qed.
Lemma steps_later u u' : later u u' → steps u u' [] 0.
Proof.
  intros (n & more & _ & ->). split; cbn; rewrite ?app_nil_r, ?Nat.add_0_r; try done. by eexists.
Qed.
Lemma steps_dlab u u' o k : steps u u' o k → dlab u' = dlab u.
Proof. intros Hs. unfold dlab. by rewrite (st_lcr _ _ _ _ Hs). Qed.

(** Polling the status. *)
Lemma status_ok d : ∃ d' v, inb (COM1 + LINE_STATUS) d = Ret (d', v) ∧ steps (uart d) (uart d') [] 0 ∧
  (busy (uart d') ≤ pred (busy (uart d)))%nat ∧
  negb (Z.land v LSR_TX_EMPTY =? 0) = (busy (uart d') =? 0)%nat ∧
  negb (Z.land v LSR_DATA_READY =? 0) = (taken (uart d') <? length (arrived (uart d')))%nat.
Proof.
  pose proof (uart_status d) as Hs. unfold inb. destruct (port_inb _ d) as [d' v]. destruct Hs as (Hl & Hb & H5 & H0').
  exists d', v. split; [done|]. split; [by apply steps_later|]. split; [done|].
  change LSR_TX_EMPTY with (2 ^ 5). change LSR_DATA_READY with (2 ^ 0).
  rewrite !land_bit, !negb_involutive by lia. done.
Qed.

Lemma write_byte_ok fuel b d :
  dlab (uart d) = false → (busy (uart d) < fuel)%nat →
  ∃ d', write_byte fuel SERIAL b d = Ret (d', tt) ∧ steps (uart d) (uart d') [b] 0.
Proof.
  revert d. induction fuel as [|fuel IH]; intros d Hd Hf; [lia|]. cbn [write_byte].
  destruct (status_ok d) as (d1 & v & E & Hs & Hb & H5 & _). pose proof (steps_dlab _ _ _ _ Hs) as Hd1.
  unfold is_tx_empty. rewrite (ioM_bind_Ret _ _ d d1 (negb (Z.land v LSR_TX_EMPTY =? 0)))
    by (rewrite (ioM_bind_Ret _ _ _ _ _ E); done).
  rewrite H5. destruct (Nat.eqb_spec (busy (uart d1)) 0) as [Hz|Hnz]; cbn [negb].
  - pose proof (uart_write d1 0 b ltac:(lia) (λ _ _, Hz)) as (n & more & _ & Hu).
    eexists. split; [done|]. change (COM1 + 0) with (COM1 + DATA) in Hu. cbn [port SERIAL]. rewrite Hu.
    unfold write_uart. cbn [Z.eqb]. rewrite Hd1, Hd.
    destruct Hs. split; cbn [lcr ier divisor mcr fcr sent arrived taken]; try congruence.
    + rewrite st_sent0, <- app_assoc. done.
    + etrans; [exact st_arrived0|by eexists].
  - destruct (IH d1) as (d2 & E2 & Hs2); [congruence|lia|]. exists d2. split; [done|].
    apply (steps_trans _ _ _ [] [b] 0 0 Hs Hs2).
Qed.

(** The bytes on the line for a text. *)
Definition crlf (l : list Z) : list Z := l ≫= λ b, if b =? 10 then [13; 10] else [b].

Lemma write_bytes_ok fuel l d :
  dlab (uart d) = false → (byte_time < fuel)%nat →
  ∃ d', write_bytes_of fuel SERIAL l d = Ret (d', tt) ∧ steps (uart d) (uart d') (crlf l) 0.
Proof.
  intros Hd Hf. revert d Hd. induction l as [|b l IH]; intros d Hd; cbn [write_bytes_of].
  { exists d. split; [done|apply steps_refl]. }
  assert (∀ d b, dlab (uart d) = false → ∃ d', write_byte fuel SERIAL b d = Ret (d', tt) ∧ steps (uart d) (uart d') [b] 0) as Hw.
  { intros d1 b1 Hd1. apply write_byte_ok; [done|]. pose proof (uart_busy d1). lia. }
  assert (∃ d1, (if b =? 10 then write_byte fuel SERIAL 13 else mret tt) d = Ret (d1, tt) ∧
    steps (uart d) (uart d1) (if b =? 10 then [13] else []) 0) as (d1 & E1 & Hs1).
  { destruct (b =? 10); [by apply Hw|]. exists d. split; [done|apply steps_refl]. }
  rewrite (ioM_bind_Ret _ _ _ _ _ E1). pose proof (steps_dlab _ _ _ _ Hs1) as Hd1.
  destruct (Hw d1 b) as (d2 & E2 & Hs2); [congruence|]. rewrite (ioM_bind_Ret _ _ _ _ _ E2).
  pose proof (steps_dlab _ _ _ _ Hs2) as Hd2. destruct (IH d2) as (d3 & E3 & Hs3); [congruence|]. exists d3. split; [done|].
  pose proof (steps_trans _ _ _ _ _ _ _ (steps_trans _ _ _ _ _ _ _ Hs1 Hs2) Hs3) as Hs. cbn [Nat.add] in Hs.
  assert (crlf (b :: l) = ((if b =? 10 then [13] else []) ++ [b]) ++ crlf l) as ->; [|done].
  unfold crlf. cbn. destruct (Z.eqb_spec b 10) as [->|]; done.
Qed.

Lemma serial_print_ok fuel pieces d :
  dlab (uart d) = false → (byte_time < fuel)%nat →
  ∃ d', serial_print fuel pieces d = Ret (d', tt) ∧ steps (uart d) (uart d') (crlf (pieces ≫= as_bytes)) 0.
Proof.
  intros Hd Hf. revert d Hd. induction pieces as [|s pieces IH]; intros d Hd; cbn [serial_print].
  { exists d. split; [done|apply steps_refl]. }
  destruct (write_bytes_ok fuel (as_bytes s) d Hd Hf) as (d1 & E1 & Hs1). unfold serial_write_str.
  rewrite (ioM_bind_Ret _ _ _ _ _ E1). pose proof (steps_dlab _ _ _ _ Hs1) as Hd1.
  destruct (IH d1) as (d2 & E2 & Hs2); [congruence|]. exists d2. split; [done|].
  rewrite bind_cons. unfold crlf. rewrite bind_app. apply (steps_trans _ _ _ _ _ _ _ Hs1 Hs2).
Qed.

Lemma has_data_ok d : ∃ d', has_data SERIAL d = Ret (d', (taken (uart d') <? length (arrived (uart d')))%nat) ∧
  steps (uart d) (uart d') [] 0.
Proof.
  destruct (status_ok d) as (d1 & v & E & Hs & _ & _ & Hr). exists d1. split; [|done].
  unfold has_data. cbn [port SERIAL]. rewrite (ioM_bind_Ret _ _ _ _ _ E), <- Hr. done.
Qed.

(** A poll returns the next byte if there is one. *)
Lemma serial_poll_ok fuel d :
  dlab (uart d) = false → (0 < fuel)%nat →
  ∃ d' r, serial_poll fuel d = Ret (d', r) ∧
    match r with
    | Byte b => steps (uart d) (uart d') [] 1 ∧ arrived (uart d') !! taken (uart d) = Some b
    | NoData => steps (uart d) (uart d') [] 0 ∧ (length (arrived (uart d)) ≤ taken (uart d))%nat
    | Eof => False
    end.
Proof.
  intros Hd Hf. destruct fuel as [|fuel]; [lia|]. unfold serial_poll.
  destruct (has_data_ok d) as (d1 & E1 & Hs1). rewrite (ioM_bind_Ret _ _ _ _ _ E1).
  pose proof (st_taken _ _ _ _ Hs1) as Ht1. pose proof (prefix_length _ _ (st_arrived _ _ _ _ Hs1)) as Ha1.
  destruct (Nat.ltb_spec (taken (uart d1)) (length (arrived (uart d1)))) as [Hlt|Hge].
  2:{ eexists _, NoData. split; [done|]. split; [done|]. lia. }
  cbn [read_byte]. destruct (has_data_ok d1) as (d2 & E2 & Hs2).
  pose proof (st_taken _ _ _ _ Hs2) as Ht2. pose proof (prefix_length _ _ (st_arrived _ _ _ _ Hs2)) as Ha2.
  assert (taken (uart d2) < length (arrived (uart d2)))%nat as Hlt2 by lia.
  destruct (lookup_lt_is_Some_2 _ _ Hlt2) as [b Hb].
  assert (dlab (uart d2) = false) as Hd2 by (rewrite (steps_dlab _ _ _ _ Hs2), (steps_dlab _ _ _ _ Hs1); done).
  pose proof (uart_read d2 b Hd2 Hb) as Hread. destruct (port_inb (COM1 + DATA) d2) as [d3 v] eqn:E3. destruct Hread as [Hl ->].
  exists d3, (Byte b). split.
  - erewrite (ioM_bind_Ret _ _ d1 d3 b); [done|]. rewrite (ioM_bind_Ret _ _ _ _ _ E2), (proj2 (Nat.ltb_lt _ _)) by done.
    cbn [negb]. unfold inb. cbn [port SERIAL]. by rewrite E3.
  - pose proof (steps_trans _ _ _ _ _ _ _ Hs1 Hs2) as Hs. destruct Hl as (n & more & _ & ->). split.
    + destruct Hs. split; cbn; try done; [etrans; [exact st_arrived0|by eexists]|lia].
    + cbn. replace (taken (uart d)) with (taken (uart d2)) by lia. by apply lookup_app_l_Some.
Qed.

(** A session on the terminal: texts are printed and bytes polled; the result is the list of
    the bytes read. *)
Inductive term_op : Type := Print (pieces : list (list Z)) | Poll.
Fixpoint run_terminal (fuel : nat) (ops : list term_op) : ioM D (list Z) :=
  match ops with
  | [] => mret []
  | Print pieces :: ops => _ ← serial_print fuel pieces; run_terminal fuel ops
  | Poll :: ops =>
      r ← serial_poll fuel;
      l ← run_terminal fuel ops;
      mret (match r with Byte b => b :: l | _ => l end)
  end.
Definition text_of (ops : list term_op) : list Z :=
  ops ≫= λ o, match o with Print pieces => pieces ≫= as_bytes | Poll => [] end.

Lemma run_terminal_ok fuel ops d :
  dlab (uart d) = false → (byte_time < fuel)%nat →
  ∃ d' l, run_terminal fuel ops d = Ret (d', l) ∧ steps (uart d) (uart d') (crlf (text_of ops)) (length l) ∧
    l = take (length l) (drop (taken (uart d)) (arrived (uart d'))).
Proof.
  intros Hd Hf. revert d Hd. induction ops as [|[pieces|] ops IH]; intros d Hd; cbn [run_terminal].
  { exists d, []. split; [done|]. split; [apply steps_refl|done]. }
  - destruct (serial_print_ok fuel pieces d Hd Hf) as (d1 & E1 & Hs1). rewrite (ioM_bind_Ret _ _ _ _ _ E1).
    destruct (IH d1) as (d2 & l & E2 & Hs2 & Hl); [rewrite (steps_dlab _ _ _ _ Hs1); done|].
    exists d2, l. split; [done|]. rewrite (st_taken _ _ _ _ Hs1), Nat.add_0_r in Hl. split; [|done].
    unfold text_of. rewrite bind_cons. unfold crlf at 1. rewrite bind_app. apply (steps_trans _ _ _ _ _ _ _ Hs1 Hs2).
  - destruct (serial_poll_ok fuel d Hd) as (d1 & r & E1 & Hr); [lia|]. rewrite (ioM_bind_Ret _ _ _ _ _ E1).
    assert (∃ k, steps (uart d) (uart d1) [] k) as [k Hs1] by (destruct r; [eexists; apply Hr..|done]).
    destruct (IH d1) as (d2 & l & E2 & Hs2 & Hl); [rewrite (steps_dlab _ _ _ _ Hs1); done|].
    rewrite (ioM_bind_Ret _ _ _ _ _ E2). eexists d2, _. split; [done|]. change (text_of (Poll :: ops)) with (text_of ops).
    destruct r as [b| |]; [|destruct Hr as [Hr _]|done].
    + destruct Hr as [Hs Hb]. split; [apply (steps_trans _ _ _ [] _ 1 _ Hs Hs2)|].
      rewrite (st_taken _ _ _ _ Hs), Nat.add_1_r in Hl. cbn [length].
      destruct (st_arrived _ _ _ _ Hs2) as [more Hm]. rewrite (drop_S _ b); [cbn [take]; by rewrite <- Hl|].
      rewrite Hm. by apply lookup_app_l_Some.
    + split; [apply (steps_trans _ _ _ [] _ 0 _ Hr Hs2)|]. by rewrite (st_taken _ _ _ _ Hr), Nat.add_0_r in Hl.
Qed.

(** The configuration that [init] makes: 115200 baud, 8 bits, no parity, one stop bit, no
    interrupts. *)
Definition configured (u : Uart) : Prop :=
  lcr u = 3 ∧ ier u = 0 ∧ divisor u = (1, 0) ∧ mcr u = 0x0F ∧ fcr u = 0xC7.

Lemma uart_outb r v d u : uart d = u → 0 ≤ r ≤ 4 → (r = 0 → dlab u = true) →
  ∃ d' n more, outb (COM1 + r) v d = Ret (d', tt) ∧
    uart d' = let u' := write_uart byte_time r v u in
      mkUart (lcr u') (ier u') (divisor u') (mcr u') (fcr u') n (sent u') (arrived u' ++ more) (taken u').
Proof.
  intros <- Hr Hd. destruct (uart_write d r v Hr) as (n & more & _ & E); [intros Hr0; by rewrite Hd|].
  by exists (port_outb (COM1 + r) v d), n, more.
Qed.

Ltac init_step r v d U :=
  let d' := fresh "d'" in let n := fresh "n" in let m := fresh "more" in let E := fresh "E" in let U' := fresh "U" in
  destruct (uart_outb r v d _ U) as (d' & n & m & E & U'); [lia|done|];
  cbn [write_uart Z.eqb Pos.eqb dlab lcr ier divisor mcr fcr sent arrived taken fst snd Z.testbit Pos.testbit Pos.pred_N Pos.pred_double N.pred] in U'.

(** After a reset the divisor latch is not selected. *)
Lemma serial_init_ok d : dlab (uart d) = false →
  ∃ d', serial_init SERIAL d = Ret (d', tt) ∧ configured (uart d') ∧
    sent (uart d') = sent (uart d) ∧ (length (arrived (uart d)) ≤ taken (uart d'))%nat.
Proof.
  intros Hd. destruct (uart_outb 1 0 d _ eq_refl) as (d1 & n1 & m1 & E1 & U1); [lia|done|].
  unfold write_uart in U1. cbn [Z.eqb] in U1. rewrite Hd in U1.
  cbn [lcr ier divisor mcr fcr sent arrived taken] in U1. destruct (divisor (uart d)) as [dl dh].
  unfold serial_init. cbn [port SERIAL]. rewrite (ioM_bind_Ret _ _ _ _ _ E1).
  init_step 3 0x80 d1 U1. rewrite (ioM_bind_Ret _ _ _ _ _ E).
  init_step 0 1 d' U. rewrite (ioM_bind_Ret _ _ _ _ _ E0).
  init_step 1 0 d'0 U0. rewrite (ioM_bind_Ret _ _ _ _ _ E2).
  init_step 3 3 d'1 U2. rewrite (ioM_bind_Ret _ _ _ _ _ E3).
  init_step 2 0xC7 d'2 U3. rewrite (ioM_bind_Ret _ _ _ _ _ E4).
  init_step 4 0x0B d'3 U4. rewrite (ioM_bind_Ret _ _ _ _ _ E5).
  init_step 4 0x0F d'4 U5. exists d'5. split; [exact E6|]. rewrite U6. split; [done|]. split; [done|].
  cbn [taken]. rewrite !length_app. lia.
Qed.

(** C37: the serial terminal is a faithful byte stream.  From reset, after [init], the port is
    configured; every text printed goes out completely and in order, with a carriage return
    before each line feed; the bytes that polls return are those that arrived since, in
    order, each once; and every loop ends as long as the transmitter gets ready
    within the polls allowed. *)
Theorem serial_terminal_spec fuel ops d :
  dlab (uart d) = false → (byte_time < fuel)%nat →
  ∃ d' l n, (serial_init SERIAL ≫= λ _, run_terminal fuel ops) d = Ret (d', l) ∧ configured (uart d') ∧
    sent (uart d') = sent (uart d) ++ crlf (text_of ops) ∧
    (length (arrived (uart d)) ≤ n)%nat ∧ l = take (length l) (drop n (arrived (uart d'))) ∧
    taken (uart d') = (n + length l)%nat.
Proof.
  intros Hd Hf. destruct (serial_init_ok d Hd) as (d1 & E1 & (Hc1 & Hc2 & Hc3 & Hc4 & Hc5) & Hsent & Hn). rewrite (ioM_bind_Ret _ _ _ _ _ E1).
  destruct (run_terminal_ok fuel ops d1) as (d2 & l & E2 & Hs & Hl); [unfold dlab; by rewrite Hc1|done|].
  exists d2, l, (taken (uart d1)). destruct Hs. unfold configured. split; [done|]. split; [split_and!; congruence|].
  split; [congruence|]. split; [done|]. split; done.
Qed.
End properties.

(** ** A simulated port

    The transmitter is busy for three polls after a byte; the script says what arrives
    before each access. *)
Record SimPort : Type := mkSimPort { sp_uart : Uart; sp_script : list (list Z) }.
Definition sp_arrive (d : SimPort) : SimPort :=
  let u := sp_uart d in
  mkSimPort (mkUart (lcr u) (ier u) (divisor u) (mcr u) (fcr u) (Nat.min 3 (busy u)) (sent u)
               (arrived u ++ default [] (head (sp_script d))) (taken u)) (tail (sp_script d)).
Definition sp_poll (u : Uart) : Uart :=
  mkUart (lcr u) (ier u) (divisor u) (mcr u) (fcr u) (pred (Nat.min 3 (busy u))) (sent u) (arrived u) (taken u).
Definition set_uart (d : SimPort) (u : Uart) : SimPort := mkSimPort u (sp_script d).

#[export] Instance sim_serial_ports : Ports SimPort := {
  port_inb p d :=
    if p =? COM1 + LINE_STATUS then
      let d := sp_arrive (set_uart d (sp_poll (sp_uart d))) in let u := sp_uart d in
      (d, (if (busy u =? 0)%nat then 32 else 0) + (if (taken u <? length (arrived u))%nat then 1 else 0))
    else
      let v := default 0 (arrived (sp_uart d) !! taken (sp_uart d)) in
      (sp_arrive (set_uart d (take_byte (sp_uart d))), v);
  port_outb p v d := sp_arrive (set_uart d (write_uart 3 (p - COM1) v (sp_uart d)));
  port_inw _ d := (d, 0);
  port_outw _ _ d := d }.

Definition sp_view (d : SimPort) : Uart :=
  let u := sp_uart d in
  mkUart (lcr u) (ier u) (divisor u) (mcr u) (fcr u) (Nat.min 3 (busy u)) (sent u) (arrived u) (taken u).

Lemma sp_later u u' d :
  u' = mkUart (lcr u) (ier u) (divisor u) (mcr u) (fcr u) (busy u') (sent u) (arrived u) (taken u) →
  (Nat.min 3 (busy u') ≤ busy u)%nat → later u (sp_view (sp_arrive (set_uart d u'))).
Proof.
  intros Hu Hb. exists (Nat.min 3 (Nat.min 3 (busy u'))), (default [] (head (sp_script d))). split; [lia|].
  unfold sp_view, sp_arrive, set_uart. cbn. rewrite Hu. done.
Qed.

Lemma sp_bits (a b : bool) :
  (∀ c, c = a → Z.testbit ((if c then 32 else 0) + (if b then 1 else 0)) 5 = a) ∧
  Z.testbit ((if a then 32 else 0) + (if b then 1 else 0)) 0 = b.
Proof. split; [intros c ->|]; by destruct a, b. Qed.

#[export] Instance sim_serial : SerialPort SimPort.
Proof.
  refine {| uart := sp_view; byte_time := 3 |}.
  - intros d. cbn -[Nat.min]. lia.
  - intros d r v Hr _. cbn [port_outb sim_serial_ports]. replace (COM1 + r - COM1) with r by lia.
    apply sp_later; unfold write_uart, sp_view, dlab; cbn [lcr]; repeat case_match; cbn -[Nat.min]; done || lia.
  - intros d. cbn [port_inb sim_serial_ports]. rewrite Z.eqb_refl. split; [|split; [|split]].
    + apply sp_later; [done|cbn -[Nat.min]; lia].
    + cbn -[Nat.min]. lia.
    + apply sp_bits. cbn -[Nat.min Nat.eqb]. f_equal. lia.
    + by apply sp_bits.
  - intros d b _ Hb. cbn [port_inb sim_serial_ports]. rewrite (proj2 (Z.eqb_neq (COM1 + DATA) (COM1 + LINE_STATUS))) by done.
    cbn in Hb. rewrite Hb. split; [|done]. apply sp_later; [done|cbn -[Nat.min]; lia].
Defined.

Lemma serial_terminal_spec_witness :
  ∃ (d' : SimPort) l, (serial_init SERIAL ≫= λ _, run_terminal 4 [Poll; Print [[72; 10]]; Poll])
      (mkSimPort (mkUart 0 0 (0, 0) 0 0 0 [] [] 0) (replicate 9 [] ++ [[65]])) = Ret (d', l) ∧
    sent (uart d') = [72; 13; 10].
Proof.
  destruct (serial_terminal_spec 4 [Poll; Print [[72; 10]]; Poll]
    (mkSimPort (mkUart 0 0 (0, 0) 0 0 0 [] [] 0) (replicate 9 [] ++ [[65]]))) as (d' & l & n & E & _ & Hs & _);
    [reflexivity|vm_compute; lia|].
  exists d', l. split; [exact E|exact Hs].
Defined.
