(* ===== verification/Memstats.v ===== *)
(** The MEMSTATS command of BASIC ([print_memstats] of src/basic/mod.rs): the report it
    prints, from the figures of Meminfo. *)

From stdpp Require Import strings.
From S2P Require Import Prelude Utf8 FreeList Tiling ProgramAlloc BTreeMap ByteMem RegionAllocator Executable Allocator Timer Task Scheduler Meminfo BasicLexer BasicParser BasicInterp.
#[local] Open Scope Z_scope.

(** [{:X}]: at most sixteen digits. *)
Definition hex_digit (d : Z) : Z := if d <? 10 then 48 + d else 55 + d.
Fixpoint hex_loop (fuel : nat) (n : Z) : list Z :=
  match fuel with
  | O => []
  | S fuel => (if n <? 16 then [] else hex_loop fuel (n / 16)) ++ [hex_digit (n mod 16)]
  end.
Definition hex (n : Z) : list Z := hex_loop 16 n.

(** [writeln!] *)
Definition writeln (pieces : list (list Z)) : list Z := concat pieces ++ [NL].

Definition range_text (a n : Z) : list Z := chars "0x" ++ hex a ++ chars " - 0x" ++ hex (u64 (a + n)).

Definition region_text (r : RegionStats) : list Z :=
  let total_kb := (rs_end r - rs_start r) / 1024 in
  writeln [rs_name r; chars ": 0x"; hex (rs_start r); chars " - 0x"; hex (rs_end r); chars " ("; dec total_kb; chars " KB)"] ++
  writeln [chars "  Used: "; dec (rs_used r); chars " bytes"] ++
  writeln [chars "  Free: "; dec (rs_free r); chars " bytes"] ++
  writeln [].

Definition state_str (s : TaskState) : list Z :=
  match s with
  | Ready => chars "ready"
  | Running => chars "running"
  | Sleeping => chars "sleeping"
  | Finished => chars "finished"
  end.

(** [.map(|(_, s)| *s).sum()] *)
Definition bytes_total (l : list (Z * Z)) : Z := u64 (foldr (λ b n, b.2 + n) 0 l).

Definition task_text (t : TaskMemoryInfo) : list Z :=
  writeln [] ++
  writeln [chars "  ["; dec (tm_id t); chars "] "; tm_name t; chars " ("; state_str (tm_state t); chars ")"] ++
  match tm_stack t with
  | Some (base, size) => writeln [chars "    Stack: "; range_text base size; chars " ("; dec (size / 1024); chars " KB)"]
  | None => []
  end ++
  match tm_program t with
  | Some (base, size, nm) =>
      writeln [chars "    Code:  "; range_text base size; chars " ("; dec (size / 1024); chars " KB) ["; nm; chars "]"]
  | None => []
  end ++
  (if (length (tm_kernel_heap t) =? 0)%nat then []
   else writeln [chars "    Kernel heap: "; dec (Z.of_nat (length (tm_kernel_heap t))); chars " allocs, ";
                 dec (bytes_total (tm_kernel_heap t)); chars " bytes total"]) ++
  (if (length (tm_program_heap t) =? 0)%nat then []
   else writeln [chars "    Program heap: "; dec (Z.of_nat (length (tm_program_heap t))); chars " blocks"] ++
        (tm_program_heap t ≫= λ b, writeln [chars "      "; range_text b.1 b.2; chars " ("; dec b.2; chars " bytes)"])).

Definition kernel_text (kernel_allocs : list (Z * Z)) : list Z :=
  if (length kernel_allocs =? 0)%nat then []
  else writeln [] ++ writeln [chars "KERNEL (boot allocations):"] ++
       writeln [chars "  Heap: "; dec (Z.of_nat (length kernel_allocs)); chars " allocs, ";
                dec (bytes_total kernel_allocs); chars " bytes total"].

Definition print_memstats (m : MemState) : outcome (list Z) :=
  regions ← get_region_stats m;
  tasks ← get_task_memory_info m;
  kernel_allocs ← get_kernel_heap_allocations m;
  Ret (writeln [chars "=== MEMORY MAP ==="] ++ writeln [] ++
       (regions ≫= region_text) ++
       (if (length tasks =? 0)%nat then writeln [chars "No tasks running."]
        else writeln [chars "TASKS ("; dec (Z.of_nat (length tasks)); chars "):"] ++ (tasks ≫= task_text)) ++
       kernel_text kernel_allocs ++ writeln []).

#[local] Opaque writeln region_text task_text kernel_text chars dec.

(** The report is complete: it shows the three regions with the sizes of their live blocks, and
    then one section for every task of the scheduler, in order, with what is recorded for it. *)
Lemma print_memstats_ok m used others s :
  mem_inv m used others → ms_sched m = Some s → tasks s ≠ [] →
  ∃ infos rest, print_memstats m = Ret
    (writeln [chars "=== MEMORY MAP ==="] ++ writeln [] ++
     region_text (mkRegionStats (text "Kernel") KERNEL_START KERNEL_END 0x100000 0) ++
     region_text (mkRegionStats (text "Heap") HEAP_START HEAP_END (sumZ used.*1.*2) (0x200000 - sumZ used.*1.*2)) ++
     region_text (mkRegionStats (text "Program") PROGRAM_START PROGRAM_END (sumZ (program_blocks m others).*2)
       (0xC00000 - sumZ (program_blocks m others).*2)) ++
     writeln [chars "TASKS ("; dec (Z.of_nat (length (tasks s))); chars "):"] ++ (infos ≫= task_text) ++ rest) ∧
    Forall2 (info_for m used) (tasks s) infos.
Proof.
  intros Hm Hs Hne. destruct (memory_accounting_spec m used others s Hm Hs) as [Hr (infos & Hi & Hf)].
  destruct (get_task_heap_allocations_ok _ _ None (mem_heap _ _ _ Hm)) as (all & Hk & _).
  unfold print_memstats. rewrite Hr, mbind_Ret, Hi, mbind_Ret. unfold get_kernel_heap_allocations. rewrite Hk, mbind_Ret.
  pose proof (Forall2_length _ _ _ Hf) as Hl. exists infos, (kernel_text (take MAX_SNAPSHOT_ALLOCS all) ++ writeln []).
  split; [|exact Hf]. rewrite Hl. assert (length infos ≠ 0)%nat as Hz by (rewrite <- Hl; by destruct (tasks s)).
  rewrite (proj2 (Nat.eqb_neq _ _) Hz), !bind_cons. change ([] ≫= region_text) with (@nil Z).
  rewrite app_nil_r, <- !app_assoc. reflexivity.
Qed.
