(* ===== verification/ExecTable.v ===== *)
(** The table of executables from the build to the running kernel: the script
    scripts/make_exec_table.py, which packs files into a table, and the proof that the kernel
    finds in its memory, after the boot, every file that was packed. *)

From stdpp Require Import strings.
From S2P Require Import Prelude Utf8 FreeList Tiling BTreeMap ByteMem Elf RegionAllocator Executable Timer Task Scheduler Api Boot.
#[local] Open Scope Z_scope.

(** ** The script

    A file is its base name, a list of characters, and its contents, if it exists. *)
Inductive table_error : Type := TooManyEntries | FileNotFound | StructError.

Definition HEADER_SIZE : Z := 512.
Definition SECTOR_SIZE : Z := 512.
Definition VERSION : Z := 1.

(** [align_up], on integers of any size *)
Definition py_align_up (value alignment : Z) : Z := Z.land (value + alignment - 1) (Z.lnot (alignment - 1)).

(** [struct.pack('<I', v)] *)
Definition pack_u32 (v : Z) : result table_error (list Z) :=
  if (0 <=? v) && (v <? 4294967296) then Ok (le_bytes 4 v) else Err StructError.

Definition make_entry (name : list Z) (offset size : Z) : result table_error (list Z) :=
  let name_bytes := take 15 (as_bytes name) in
  let name_padded := name_bytes ++ replicate (16 - length name_bytes) 0 in
  match pack_u32 offset, pack_u32 size with
  | Ok o, Ok s => Ok (name_padded ++ o ++ s ++ le_bytes 4 0 ++ le_bytes 4 0)
  | _, _ => Err StructError
  end.

(** [os.path.splitext] of a base name: the index of the last dot, if something other than dots
    is before it. *)
Fixpoint last_dot (s : list Z) (i : nat) (found : option nat) : option nat :=
  match s with
  | [] => found
  | c :: s => last_dot s (S i) (if c =? 46 then Some i else found)
  end.
Definition splitext (base : list Z) : list Z * list Z :=
  match last_dot base 0 None with
  | Some i => if forallb (Z.eqb 46) (take i base) then (base, []) else (take i base, drop i base)
  | None => (base, [])
  end.
Definition lower (s : list Z) : list Z := (λ c, if (65 <=? c) && (c <=? 90) then c + 32 else c) <$> s.

(** The name under which a file is packed. *)
Definition table_name (base : list Z) : list Z :=
  if bool_decide (lower (splitext base).2 = chars ".bas") then base else (splitext base).1.

(** The loop that collects the files: name and contents. *)
Fixpoint collect_files (paths : list (list Z * option (list Z))) : result table_error (list (list Z * list Z)) :=
  match paths with
  | [] => Ok []
  | (base, None) :: _ => Err FileNotFound
  | (base, Some data) :: paths =>
      match collect_files paths with
      | Ok files => Ok ((table_name base, data) :: files)
      | Err e => Err e
      end
  end.

Definition size_of (data : list Z) : Z := Z.of_nat (length data).

(** The loop that computes the offsets. *)
Fixpoint make_entries (files : list (list Z * list Z)) (current_offset : Z) : list (list Z * Z * Z) :=
  match files with
  | [] => []
  | (name, data) :: files =>
      (name, current_offset, size_of data) ::
      make_entries files (current_offset + py_align_up (size_of data) SECTOR_SIZE)
  end.

(** [header[at:at + n] = data], for data of length [n] *)
Definition set_slice (header : list Z) (at_ : nat) (data : list Z) : list Z :=
  take at_ header ++ data ++ drop (at_ + length data) header.

(** The loop that writes the entries, from entry [i] on. *)
Fixpoint write_entries (header : list Z) (i : nat) (entries : list (list Z * Z * Z)) : result table_error (list Z) :=
  match entries with
  | [] => Ok header
  | (name, offset, size) :: entries =>
      match make_entry name offset size with
      | Ok data => write_entries (set_slice header (16 + i * 32) data) (S i) entries
      | Err e => Err e
      end
  end.

(** A file with its padding. *)
Definition blob (data : list Z) : list Z :=
  data ++ replicate (Z.to_nat (py_align_up (size_of data) SECTOR_SIZE - size_of data)) 0.

(** [main]: the output file *)
Definition make_exec_table (paths : list (list Z * option (list Z))) : result table_error (list Z) :=
  if (15 <? length paths)%nat then Err TooManyEntries
  else
    match collect_files paths with
    | Err e => Err e
    | Ok files =>
        let header := replicate (Z.to_nat HEADER_SIZE) 0 in
        let header := set_slice header 0 EXEC_TABLE_MAGIC in
        let header := set_slice header 4 (le_bytes 4 VERSION) in
        let header := set_slice header 8 (le_bytes 4 (Z.of_nat (length files))) in
        let header := set_slice header 12 (le_bytes 4 0) in
        match write_entries header 0 (make_entries files HEADER_SIZE) with
        | Err e => Err e
        | Ok header => Ok (header ++ (files ≫= λ f, blob f.2))
        end
    end.

(** ** What the script writes *)

Lemma py_align_up_spec v : 0 ≤ v → py_align_up v 512 = (v + 511) / 512 * 512 ∧ v ≤ py_align_up v 512.
Proof.
  intros Hv. assert (py_align_up v 512 = (v + 511) / 512 * 512) as ->.
  { unfold py_align_up. change (512 - 1) with (Z.ones 9). rewrite <- Z.ldiff_land, Z.ldiff_ones_r by lia.
    rewrite Z.shiftr_div_pow2, Z.shiftl_mul_pow2 by lia. change (2 ^ 9) with 512. f_equal. f_equal. lia. }
  pose proof (Z.div_mod (v + 511) 512). pose proof (Z.mod_pos_bound (v + 511) 512). lia.
Qed.
Lemma align_up_py v : 0 ≤ v < 4294967296 → align_up v 512 = py_align_up v 512.
Proof.
  intros Hv. rewrite (proj1 (py_align_up_spec v ltac:(lia))). change 512 with (2 ^ 9). rewrite align_up_spec by lia.
  do 2 f_equal. lia.
Qed.

Lemma blob_length data : Z.of_nat (length (blob data)) = py_align_up (size_of data) 512.
Proof.
  unfold blob, SECTOR_SIZE. rewrite length_app, length_replicate.
  pose proof (py_align_up_spec (size_of data) ltac:(unfold size_of; lia)) as [_ H]. unfold size_of in *. lia.
Qed.

(** The bytes of an entry. *)
Definition padded (name : list Z) : list Z :=
  take 15 (as_bytes name) ++ replicate (16 - length (take 15 (as_bytes name))) 0.
Definition entry_bytes (e : list Z * Z * Z) : list Z :=
  padded e.1.1 ++ le_bytes 4 e.1.2 ++ le_bytes 4 e.2 ++ replicate 8 0.

Lemma padded_length name : length (padded name) = 16%nat.
Proof. unfold padded. rewrite length_app, length_replicate, length_take. lia. Qed.
Lemma entry_bytes_length e : length (entry_bytes e) = 32%nat.
Proof. unfold entry_bytes. rewrite !length_app, padded_length, !le_bytes_length, length_replicate. done. Qed.

Definition entry_fits (e : list Z * Z * Z) : Prop := 0 ≤ e.1.2 < 4294967296 ∧ 0 ≤ e.2 < 4294967296.

Lemma make_entry_ok e : entry_fits e → make_entry e.1.1 e.1.2 e.2 = Ok (entry_bytes e).
Proof.
  intros [H1 H2]. unfold make_entry, pack_u32.
  rewrite !(proj2 (Z.leb_le 0 _)), !(proj2 (Z.ltb_lt _ 4294967296)) by lia. done.
Qed.

Lemma write_entries_ok entries pre i rest :
  Forall entry_fits entries → length pre = (16 + i * 32)%nat → (32 * length entries ≤ rest)%nat →
  write_entries (pre ++ replicate rest 0) i entries =
    Ok (pre ++ (entries ≫= entry_bytes) ++ replicate (rest - 32 * length entries) 0).
Proof.
  intros Hf. revert pre i rest. induction Hf as [|[[nm o] s] entries He _ IH]; intros pre i rest Hpre Hrest; cbn [write_entries].
  { cbn. by rewrite Nat.sub_0_r. }
  rewrite (make_entry_ok (nm, o, s) He : make_entry nm o s = _). unfold set_slice.
  rewrite entry_bytes_length, take_app_length', drop_app_ge, <- Hpre by lia.
  replace (length pre + 32 - length pre)%nat with 32%nat by lia. rewrite drop_replicate.
  cbn [length] in Hrest. rewrite app_assoc, IH by (try (rewrite length_app, entry_bytes_length); lia).
  rewrite bind_cons, <- !app_assoc. do 5 f_equal. cbn [length]. lia.
Qed.

(** The layout of the output. *)
Definition table_image (files : list (list Z * list Z)) : list Z :=
  EXEC_TABLE_MAGIC ++ le_bytes 4 VERSION ++ le_bytes 4 (Z.of_nat (length files)) ++ le_bytes 4 0 ++
  (make_entries files HEADER_SIZE ≫= entry_bytes) ++ replicate (496 - 32 * length files) 0 ++ (files ≫= λ f, blob f.2).

(** The offset after the files. *)
Definition end_offset (files : list (list Z * list Z)) (off : Z) : Z :=
  foldl (λ o f, o + py_align_up (size_of f.2) SECTOR_SIZE) off files.

Lemma end_offset_ge files off : off ≤ end_offset files off.
Proof.
  revert off. induction files as [|f files IH]; intros off; cbn [end_offset foldl]; [lia|].
  pose proof (py_align_up_spec (size_of f.2) ltac:(unfold size_of; lia)) as [_ Hp].
  etrans; [|apply IH]. unfold SECTOR_SIZE, size_of in *. lia.
Qed.

Lemma make_entries_length files off : length (make_entries files off) = length files.
Proof. revert off. induction files as [|[nm d] files IH]; intros off; cbn; auto. Qed.

Lemma make_entries_fit files off :
  0 ≤ off → end_offset files off < 4294967296 → Forall entry_fits (make_entries files off).
Proof.
  revert off. induction files as [|[nm d] files IH]; intros off Ho He; cbn [make_entries]; [constructor|].
  cbn [end_offset foldl snd] in He. fold (end_offset files (off + py_align_up (size_of d) SECTOR_SIZE)) in He.
  pose proof (end_offset_ge files (off + py_align_up (size_of d) SECTOR_SIZE)).
  pose proof (py_align_up_spec (size_of d) ltac:(unfold size_of; lia)) as [_ Hp]. unfold SECTOR_SIZE in *.
  constructor; [split; cbn; unfold size_of in *; lia|]. apply IH; [unfold size_of in *; lia|done].
Qed.

Lemma bind_entry_length es : length (es ≫= entry_bytes) = (32 * length es)%nat.
Proof.
  induction es as [|e es IH]; [done|]. rewrite bind_cons, length_app, IH, entry_bytes_length. cbn [length]. lia.
Qed.

(** The files as the arguments of the script. *)
Definition existing (files : list (list Z * list Z)) : list (list Z * option (list Z)) := (λ f, (f.1, Some f.2)) <$> files.
Definition packed (files : list (list Z * list Z)) : list (list Z * list Z) := (λ f, (table_name f.1, f.2)) <$> files.

Lemma packed_end files off : end_offset (packed files) off = end_offset files off.
Proof. revert off. unfold end_offset, packed. induction files as [|f files IH]; intros o; cbn; auto. Qed.

Lemma collect_files_ok files : collect_files (existing files) = Ok (packed files).
Proof. induction files as [|[b d] files IH]; cbn; [done|]. fold (existing files). by rewrite IH. Qed.

Lemma make_exec_table_ok files :
  (length files ≤ 15)%nat → end_offset files HEADER_SIZE < 4294967296 →
  make_exec_table (existing files) = Ok (table_image (packed files)).
Proof.
  intros Hn He. unfold make_exec_table. rewrite collect_files_ok.
  assert (length (existing files) = length files) as -> by apply length_fmap.
  rewrite (proj2 (Nat.ltb_ge _ _)) by lia. assert (length (packed files) = length files) as Hp by apply length_fmap.
  rewrite <- Hp in Hn. rewrite <- packed_end in He. clear Hp. generalize dependent (packed files). clear files. intros files Hn He.
  set (pre := EXEC_TABLE_MAGIC ++ le_bytes 4 VERSION ++ le_bytes 4 (Z.of_nat (length files)) ++ le_bytes 4 0).
  assert (∀ c v r, set_slice (set_slice (set_slice (set_slice (replicate 512 0) 0 EXEC_TABLE_MAGIC) 4 (le_bytes 4 v)) 8 (le_bytes 4 c))
    12 (le_bytes 4 r) = (EXEC_TABLE_MAGIC ++ le_bytes 4 v ++ le_bytes 4 c ++ le_bytes 4 r) ++ replicate 496 0) as Hh by reflexivity.
  change (Z.to_nat HEADER_SIZE) with 512%nat. cbv zeta. rewrite Hh.
  fold pre. rewrite write_entries_ok; [|by apply make_entries_fit|done|rewrite make_entries_length; lia].
  unfold table_image, pre. rewrite make_entries_length, <- !app_assoc. done.
Qed.

(** ** Reading it back *)

(** The bytes [l] are at [a]. *)
Definition holds (m : ram) (a : Z) (l : list Z) : Prop := peek m a (length l) = l.

Lemma holds_app m a l1 l2 : holds m a (l1 ++ l2) ↔ holds m a l1 ∧ holds m (a + Z.of_nat (length l1)) l2.
Proof.
  unfold holds. rewrite length_app, peek_app. split; [|by intros [-> ->]].
  intros E. apply app_inj_1 in E; [done|]. apply peek_length.
Qed.

Lemma holds_u32 m a v : holds m a (le_bytes 4 v) → 0 ≤ v < 4294967296 → peek_u32 m a = v.
Proof. unfold holds, peek_u32. rewrite le_bytes_length. intros ->. rewrite le_num_bytes. apply Z.mod_small. Qed.

Lemma holds_entries m a es :
  holds m a (es ≫= entry_bytes) →
  ∀ k e, es !! k = Some e → holds m (a + 32 * Z.of_nat k) (entry_bytes e).
Proof.
  revert a. induction es as [|e' es IH]; intros a; [by intros _ [|k] e [=]|].
  rewrite bind_cons, holds_app, entry_bytes_length. intros [H1 H2] [|k] e He.
  - injection He as ->. by rewrite Z.mul_0_r, Z.add_0_r.
  - replace (a + 32 * Z.of_nat (S k)) with (a + Z.of_nat 32 + 32 * Z.of_nat k) by lia. by apply IH.
Qed.

Lemma entry_at_holds m a k e :
  holds m (a + 16 + 32 * k) (entry_bytes e) → entry_fits e → 0 ≤ k < 15 → 0 ≤ a → a + 512 ≤ 18446744073709551616 →
  entry_at m a k = Ret (mkExecEntry (padded e.1.1) e.1.2 e.2) ∧
  peek_u32 m (a + 16 + k * 32 + 16) = e.1.2 ∧ peek_u32 m (a + 16 + k * 32 + 20) = e.2.
Proof.
  intros Hh [Ho Hs] Hk Ha Ha'. unfold entry_bytes in Hh. rewrite !holds_app, padded_length, !le_bytes_length in Hh.
  destruct Hh as (Hp & Hho & Hhs & _). unfold entry_at, MAX_EXECUTABLES. rewrite (proj2 (Z.ltb_lt _ _)) by lia.
  rewrite u64_small by lia. unfold holds in Hp. rewrite padded_length in Hp. rewrite Hp.
  replace (a + 16 + k * 32) with (a + 16 + 32 * k) by lia.
  replace (a + 16 + 32 * k + 20) with (a + 16 + 32 * k + Z.of_nat 16 + Z.of_nat 4) by lia.
  pose proof (holds_u32 _ _ _ Hho Ho) as Eo. change (Z.of_nat 16) with 16 in *.
  rewrite Eo, (holds_u32 _ _ _ Hhs Hs). done.
Qed.

(** The entry of the file [k] and its bytes. *)
Lemma make_entries_lookup m a files off :
  holds m (a + off) (files ≫= λ f, blob f.2) →
  ∀ k f, files !! k = Some f →
    ∃ o, make_entries files off !! k = Some (f.1, o, size_of f.2) ∧ off ≤ o ∧ holds m (a + o) f.2 ∧
      o + py_align_up (size_of f.2) 512 ≤ end_offset files off.
Proof.
  revert off. induction files as [|[nm d] files IH]; intros off; [by intros _ [|k] f [=]|].
  rewrite bind_cons, holds_app, blob_length. cbn [snd]. intros [Hb Hr].
  change (end_offset ((nm, d) :: files) off) with (end_offset files (off + py_align_up (size_of d) SECTOR_SIZE)).
  pose proof (end_offset_ge files (off + py_align_up (size_of d) SECTOR_SIZE)) as Hge. unfold SECTOR_SIZE in *.
  pose proof (py_align_up_spec (size_of d) ltac:(unfold size_of; lia)) as [_ Hp].
  intros [|k] f Hf; cbn [make_entries lookup list_lookup].
  - injection Hf as <-. exists off. cbn [fst snd]. split; [done|]. split; [lia|]. unfold blob in Hb. rewrite holds_app in Hb.
    split; [apply Hb|lia].
  - rewrite <- Z.add_assoc in Hr. destruct (IH _ Hr k f Hf) as (o & ? & ? & ? & ?). exists o. split; [done|].
    split; [unfold size_of in *; lia|done].
Qed.

(** The files can be packed: the entries fit into the header and the offsets into 32 bits. *)
Definition packable (files : list (list Z * list Z)) : Prop :=
  (length files ≤ 15)%nat ∧ end_offset files HEADER_SIZE < 4294967296.

Lemma image_head m a files :
  holds m a (table_image files) → packable files →
  peek m a 4 = EXEC_TABLE_MAGIC ∧ peek_u32 m (a + 4) = VERSION ∧ peek_u32 m (a + 8) = Z.of_nat (length files) ∧
  holds m (a + 16) (make_entries files HEADER_SIZE ≫= entry_bytes) ∧ holds m (a + 512) (files ≫= λ f, blob f.2).
Proof.
  intros Hh [Hn _]. unfold table_image in Hh.
  rewrite !holds_app, !le_bytes_length, bind_entry_length, make_entries_length, length_replicate in Hh.
  destruct Hh as (Hm & Hv & Hc & _ & He & _ & Hb). rewrite <- !Z.add_assoc in *. cbn [length EXEC_TABLE_MAGIC] in *.
  split; [done|]. split; [by apply (holds_u32 _ _ _ Hv)|]. split; [apply (holds_u32 _ _ _ Hc); lia|]. split; [exact He|].
  replace 512 with (Z.of_nat 4 + (Z.of_nat 4 + (Z.of_nat 4 + (Z.of_nat 4 + (Z.of_nat (32 * length files) +
    Z.of_nat (496 - 32 * length files)))))) by lia. exact Hb.
Qed.

(** The file [k] of a table in memory. *)
Lemma image_file m a files k f :
  holds m a (table_image files) → packable files → 0 ≤ a → a + 512 ≤ 18446744073709551616 → files !! k = Some f →
  ∃ o, make_entries files HEADER_SIZE !! k = Some (f.1, o, size_of f.2) ∧
    entry_at m a (Z.of_nat k) = Ret (mkExecEntry (padded f.1) o (size_of f.2)) ∧
    peek_u32 m (a + 16 + Z.of_nat k * 32 + 16) = o ∧ peek_u32 m (a + 16 + Z.of_nat k * 32 + 20) = size_of f.2 ∧
    512 ≤ o ∧ holds m (a + o) f.2 ∧ o + py_align_up (size_of f.2) 512 ≤ end_offset files HEADER_SIZE.
Proof.
  intros Hh Hp Ha Ha' Hf. pose proof (image_head m a files Hh Hp) as (_ & _ & _ & He & Hb). destruct Hp as [Hn Hoff].
  destruct (make_entries_lookup m a files HEADER_SIZE Hb k f Hf) as (o & Ho & Hle & Hd & Hend).
  exists o. split; [done|]. pose proof (lookup_lt_Some _ _ _ Hf).
  destruct (entry_at_holds m a (Z.of_nat k) (f.1, o, size_of f.2)) as (E1 & E2 & E3); [| |lia|lia|lia|done].
  - by apply holds_entries with (es := make_entries files HEADER_SIZE).
  - apply (Forall_lookup_1 entry_fits (make_entries files HEADER_SIZE) k); [by apply make_entries_fit|done].
Qed.

Lemma table_total_files m a files off i :
  512 ≤ off → end_offset files off < 4294967296 → Forall (λ f, f.2 ≠ []) files →
  (∀ k e, make_entries files off !! k = Some e →
    peek_u32 m (a + 16 + (i + Z.of_nat k) * 32 + 16) = e.1.2 ∧ peek_u32 m (a + 16 + (i + Z.of_nat k) * 32 + 20) = e.2) →
  table_total m a i (length files) off = end_offset files off.
Proof.
  intros Ho He Hne. revert off i Ho He. induction Hne as [|[nm d] files Hd _ IH]; intros off i Ho He Hall; [done|].
  cbn [length table_total]. unfold EXEC_TABLE_ENTRY_SIZE, EXEC_TABLE_HEADER_SIZE.
  change (end_offset ((nm, d) :: files) off) with (end_offset files (off + py_align_up (size_of d) SECTOR_SIZE)) in *.
  pose proof (end_offset_ge files (off + py_align_up (size_of d) SECTOR_SIZE)) as Hge. unfold SECTOR_SIZE in *.
  pose proof (py_align_up_spec (size_of d) ltac:(unfold size_of; lia)) as [_ Hp].
  assert (0 < size_of d) by (unfold size_of; destruct d; [done|cbn [length]; lia]).
  destruct (Hall 0%nat _ eq_refl) as [E1 E2]. rewrite Z.add_0_r in E1, E2. cbn [fst snd] in E1, E2. rewrite E1, E2.
  rewrite (proj2 (Z.ltb_ge _ _)), (proj2 (Z.eqb_neq _ _)) by lia. cbn [orb]. rewrite align_up_py by lia.
  unfold saturating_add. rewrite Z.min_l, (proj2 (Z.ltb_lt _ _)) by lia.
  apply IH; [lia|lia|]. intros k e Hk. destruct (Hall (S k) e Hk) as [E3 E4].
  replace (i + 1 + Z.of_nat k) with (i + Z.of_nat (S k)) by lia. done.
Qed.

Lemma image_length files : packable files → Z.of_nat (length (table_image files)) = end_offset files HEADER_SIZE.
Proof.
  intros [Hn _]. unfold table_image. rewrite !length_app, !le_bytes_length, bind_entry_length, make_entries_length, length_replicate.
  assert (∀ off, end_offset files off = off + Z.of_nat (length (files ≫= λ f, blob f.2))) as ->.
  { clear. induction files as [|f files IH]; intros off; [cbn; lia|].
    change (end_offset (f :: files) off) with (end_offset files (off + py_align_up (size_of f.2) SECTOR_SIZE)).
    rewrite IH, bind_cons, length_app. pose proof (blob_length f.2). unfold SECTOR_SIZE in *. lia. }
  cbn [length EXEC_TABLE_MAGIC]. unfold HEADER_SIZE. lia.
Qed.

(** What the script writes is a table for the kernel, if no file is empty. *)
Lemma image_exec_table m a files :
  holds m a (table_image files) → packable files → Forall (λ f, f.2 ≠ []) files →
  0 ≤ a → a + 512 ≤ 18446744073709551616 → exec_table m a (Z.of_nat (length (table_image files))).
Proof.
  intros Hh Hp Hne Ha Ha'. rewrite image_length by done. pose proof Hp as [Hn Hoff].
  pose proof (image_head m a files Hh Hp) as (Hm & Hv & Hc & _). split; [done|]. split; [done|]. rewrite Hc.
  split; [unfold EXEC_TABLE_MAX_ENTRIES; lia|]. pose proof (end_offset_ge files HEADER_SIZE) as Hge. unfold HEADER_SIZE in Hge at 1.
  split; [|lia]. rewrite Nat2Z.id. apply table_total_files; [done|done|done|]. intros k e Hk. cbn [Z.add].
  assert (∃ f, files !! k = Some f) as [f Hf].
  { apply lookup_lt_is_Some_2. rewrite <- (make_entries_length files HEADER_SIZE). by eapply lookup_lt_Some. }
  destruct (image_file m a files k f Hh Hp Ha Ha' Hf) as (o & Ho & _ & E1 & E2 & _). rewrite Hk in Ho. injection Ho as ->. done.
Qed.

(** *** Names *)

(** The name the kernel reads for a file. *)
Definition kernel_name (base : list Z) : list Z := from_utf8_lossy (until_nul (take 15 (as_bytes (table_name base)))).

Lemma until_nul_pad l n : until_nul (l ++ replicate (S n) 0) = until_nul l.
Proof. induction l as [|b l IH]; cbn in *; [done|]. by rewrite IH. Qed.
Lemma until_nul_none l : Forall (λ b, b ≠ 0) l → until_nul l = l.
Proof. induction 1 as [|b l Hb _ IH]; cbn; [done|]. by rewrite (proj2 (Z.eqb_neq _ _) Hb), IH. Qed.

Lemma entry_name_padded base o s : entry_name (mkExecEntry (padded (table_name base)) o s) = kernel_name base.
Proof.
  unfold entry_name, kernel_name, padded. cbn [name]. rewrite length_take.
  replace (16 - _)%nat with (S (15 - length (as_bytes (table_name base)))) by lia. by rewrite until_nul_pad.
Qed.

Lemma as_bytes_ascii s : Forall (λ c, 0 ≤ c < 0x80) s → as_bytes s = s.
Proof.
  induction 1 as [|c s Hc _ IH]; [done|]. unfold as_bytes in *. rewrite bind_cons, IH. unfold encode_utf8.
  rewrite (proj2 (Z.ltb_lt _ _)), u8_small by lia. done.
Qed.

(** A short ASCII name is kept. *)
Lemma kernel_name_ascii base :
  Forall (λ c, 0 < c < 0x80) (table_name base) → (length (table_name base) ≤ 15)%nat → kernel_name base = table_name base.
Proof.
  intros Ha Hl. unfold kernel_name. rewrite as_bytes_ascii by (eapply Forall_impl; [exact Ha|cbn; lia]).
  rewrite take_ge by done. rewrite until_nul_none by (eapply Forall_impl; [exact Ha|cbn; lia]).
  apply from_utf8_lossy_ascii. eapply Forall_impl; [exact Ha|cbn; lia].
Qed.

(** *** The kernel's view of the table *)

Lemma find_entry_names m a n i wanted (es : list ExecEntry) :
  length es = n → (∀ k e, es !! k = Some e → entry_at m a (i + Z.of_nat k) = Ret e) →
  find_entry m a i n wanted =
    Ret ((λ e, (u64 (a + offset e), esize e)) <$> find (λ e, bool_decide (entry_name e = wanted)) es) ∧
  list_entries m a i n = Ret (entry_name <$> es).
Proof.
  intros <-. revert i. induction es as [|e es IH]; intros i Hes; [done|]. cbn [length find_entry list_entries find].
  pose proof (Hes 0%nat e eq_refl) as He. rewrite Z.add_0_r in He. rewrite He, !mbind_Ret.
  destruct (IH (i + 1)) as [-> ->].
  { intros k e' Hk. replace (i + 1 + Z.of_nat k) with (i + Z.of_nat (S k)) by lia. by apply Hes. }
  split; [by case_bool_decide|done].
Qed.

(** The entries of the table, as the kernel reads them. *)
Definition image_entries (files : list (list Z * list Z)) : list ExecEntry :=
  (λ e, mkExecEntry (padded e.1.1) e.1.2 e.2) <$> make_entries files HEADER_SIZE.

Lemma image_entry_at m a files k e :
  holds m a (table_image files) → packable files → 0 ≤ a → a + 512 ≤ 18446744073709551616 →
  image_entries files !! k = Some e → entry_at m a (Z.of_nat k) = Ret e.
Proof.
  intros Hh Hp Ha Ha' He. unfold image_entries in He. rewrite list_lookup_fmap in He.
  destruct (make_entries files HEADER_SIZE !! k) as [e'|] eqn:Ek; [|done]. injection He as <-.
  assert (∃ f, files !! k = Some f) as [f Hf].
  { apply lookup_lt_is_Some_2. rewrite <- (make_entries_length files HEADER_SIZE). by eapply lookup_lt_Some. }
  destruct (image_file m a files k f Hh Hp Ha Ha' Hf) as (o & Ho & -> & _). rewrite Ek in Ho. by injection Ho as ->.
Qed.

Lemma image_entry_names files :
  entry_name <$> image_entries (packed files) = (λ f, kernel_name f.1) <$> files.
Proof.
  unfold image_entries, packed. generalize HEADER_SIZE.
  induction files as [|[b d] files IH]; intros o; cbn [fmap list_fmap make_entries]; [done|]. f_equal; [|apply IH].
  apply entry_name_padded.
Qed.

Lemma find_first {A} (P : A → bool) l k x :
  l !! k = Some x → P x = true → (∀ j y, (j < k)%nat → l !! j = Some y → P y = false) → find P l = Some x.
Proof.
  revert k. induction l as [|y l IH]; intros [|k] Hk Hx Hall; cbn in *; try done.
  - injection Hk as ->. by rewrite Hx.
  - rewrite (Hall 0%nat y) by (lia || done). apply (IH k); [done|done|]. intros j z Hj. apply (Hall (S j)). lia.
Qed.

(** The registry refers to the table of [files] at [a]. *)
Definition registers (c : RegistryCell) (m : ram) (a : Z) (files : list (list Z * list Z)) : Prop :=
  initialized c = true ∧ table_addr (inner c) = a ∧ exec_count (inner c) = Z.of_nat (length files) ∧
  holds m a (table_image (packed files)).

Lemma packed_packable files : packable files → packable (packed files).
Proof. intros [Hn He]. split; [unfold packed; by rewrite length_fmap|by rewrite packed_end]. Qed.

Lemma registers_list c m a files :
  registers c m a files → packable files → 0 < a → a + 512 ≤ 18446744073709551616 →
  list_executables c m = Ret ((λ f, kernel_name f.1) <$> files).
Proof.
  intros (Hi & Ha & Hc & Hh) Hp%packed_packable Ha0 Ha'. unfold list_executables, registry_with. rewrite Hi. cbn [rust_assert negb].
  rewrite !mbind_Ret, Ha, Hc. rewrite (proj2 (Z.eqb_neq _ _)), Nat2Z.id, <- image_entry_names by lia.
  apply (find_entry_names m a (length files) 0 []).
  - unfold image_entries. by rewrite length_fmap, make_entries_length; unfold packed; rewrite length_fmap.
  - intros k e He. cbn [Z.add]. apply (image_entry_at m a (packed files)); (done || lia).
Qed.

Lemma registers_find c m a files wanted :
  registers c m a files → packable files → 0 < a → a + 512 ≤ 18446744073709551616 →
  find_executable c m wanted =
    Ret (match find (λ e, bool_decide (entry_name e = wanted)) (image_entries (packed files)) with
         | Some e => Ok (u64 (a + offset e), esize e)
         | None => Err NotFound
         end).
Proof.
  intros (Hi & Ha & Hc & Hh) Hp%packed_packable Ha0 Ha'. unfold find_executable, registry_with. rewrite Hi. cbn [rust_assert].
  rewrite !mbind_Ret, Ha, Hc, (proj2 (Z.eqb_neq _ _)), Nat2Z.id by lia.
  destruct (find_entry_names m a (length files) 0 wanted (image_entries (packed files))) as [-> _].
  - unfold image_entries. by rewrite length_fmap, make_entries_length; unfold packed; rewrite length_fmap.
  - intros k e He. cbn [Z.add]. apply (image_entry_at m a (packed files)); (done || lia).
  - rewrite mbind_Ret. by destruct (find _ _).
Qed.

(** A file whose name no earlier file has is read back; the names of no file are not found. *)
Lemma registers_read c m a files :
  registers c m a files → packable files → 0 < a → a + end_offset files HEADER_SIZE ≤ 18446744073709551616 →
  (∀ k f, files !! k = Some f → (kernel_name f.1 ∉ (λ g, kernel_name g.1) <$> take k files) →
    ∃ sl, read c m (kernel_name f.1) = Ret (Ok sl) ∧ holds m (sl_ptr sl) f.2 ∧ sl_len sl = size_of f.2) ∧
  ∀ wanted, (wanted ∉ (λ g, kernel_name g.1) <$> files) → read c m wanted = Ret (Err NotFound).
Proof.
  intros Hreg Hp Ha Ha'. pose proof (end_offset_ge files HEADER_SIZE) as Hge. unfold HEADER_SIZE in Hge at 1.
  pose proof Hreg as (Hi & _ & _ & Hh). unfold read. rewrite Hi. cbn [negb].
  split; [intros k f Hf Hnew|intros wanted Hnew]; (rewrite (registers_find c m a files) by (done || lia); rewrite mbind_Ret).
  - destruct (image_file m a (packed files) k (table_name f.1, f.2) Hh) as (o & Ho & _ & _ & _ & Ho' & Hd & Hend);
      [by apply packed_packable|lia|lia|by unfold packed; rewrite list_lookup_fmap, Hf|]. cbn [fst snd] in *.
    rewrite packed_end in Hend. pose proof (py_align_up_spec (size_of f.2) ltac:(unfold size_of; lia)) as [_ Hsz].
    assert (0 ≤ size_of f.2) by (unfold size_of; lia).
    rewrite (find_first _ _ k (mkExecEntry (padded (table_name f.1)) o (size_of f.2))); cbn [offset esize].
    + eexists. split; [done|]. cbn [sl_ptr sl_len]. destruct (decide (f.2 = [])) as [->|]; [done|].
      assert (0 < size_of f.2) by (unfold size_of; destruct f.2; [done|cbn [length]; lia]). rewrite u64_small by lia. done.
    + unfold image_entries. by rewrite list_lookup_fmap, Ho.
    + by rewrite entry_name_padded, bool_decide_eq_true_2.
    + intros j e Hj He. apply bool_decide_eq_false_2. intros Hn. apply Hnew.
      rewrite fmap_take, <- image_entry_names, <- Hn. apply (list_elem_of_lookup_2 _ j).
      by rewrite lookup_take_lt, list_lookup_fmap, He by done.
  - destruct (find _ _) as [e|] eqn:Ef; [|done]. apply find_some in Ef as [Hin Hn%bool_decide_eq_true]. exfalso. apply Hnew.
    rewrite <- image_entry_names, <- Hn. by apply list_elem_of_fmap_2, list_elem_of_In.
Qed.

(** ** From the build to the running kernel *)
Section boot.
Context {St : Type} `{RegionAllocator St}.
Context (trampoline network_task telnetd_task repl_task : Z).
Context (Htr : 0 ≤ trampoline < 18446744073709551616).

(** The kernel in memory boots: the network and telnet tasks, with a network card, and the BASIC
    task are started in this order, each unless there is no memory for its stack, the first one
    runs, and the invariant under which programs are spawned holds; the kernel lists
    exactly the files, in order; reading a name that no earlier file has gives exactly the
    bytes of the file; and other names are not found. *)
Definition serves (nic : bool) (files : list (list Z * list Z)) (m : ram) (bss_start bss_end : Z) (s0 : St) (cpu : Context) : Prop :=
  ∃ m' w s, start_memory m bss_start bss_end = Ret m' ∧
    kernel_main trampoline network_task telnetd_task repl_task nic None (mkExec RegistryCell_new s0 m') cpu = Ret (w, run s cpu) ∧
    api_inv (mkApi w (Some s) 0 0) s [] ∧ started s (kernel_tasks network_task telnetd_task repl_task nic) ∧
    match tasks s, run s cpu with
    | t :: l, Some (s', cpu') => tasks s' = set_state t Running :: l ∧ current s' = 0%nat ∧ cpu' = context t
    | [], None => True
    | _, _ => False
    end ∧
    list_executables (cell w) (memory w) = Ret ((λ f, kernel_name f.1) <$> files) ∧
    (∀ k f, files !! k = Some f → (kernel_name f.1 ∉ (λ g, kernel_name g.1) <$> take k files) →
      ∃ sl, read (cell w) (memory w) (kernel_name f.1) = Ret (Ok sl) ∧
        peek (memory w) (sl_ptr sl) (Z.to_nat (sl_len sl)) = f.2) ∧
    ∀ wanted, (wanted ∉ (λ g, kernel_name g.1) <$> files) → read (cell w) (memory w) wanted = Ret (Err NotFound).

(** A kernel whose image is followed by the table serves its files, although [.bss] is zeroed
    over the place of the table. *)
Lemma pack_boot_read nic files m bss_start bss_end a dest s0 cpu :
  packable files → Forall (λ f, f.2 ≠ []) files →
  ram_ok m → holds m a (table_image (packed files)) → 0 ≤ bss_start ≤ bss_end → bss_end < HEAP_START → dest = align_up bss_end 512 →
  SEARCH_START ≤ a → a mod 4 = 0 → a + size_of (table_image (packed files)) ≤ dest →
  dest + size_of (table_image (packed files)) ≤ HEAP_START → no_other_table m a bss_start dest → HEAP_START ≤ ra_start →
  serves nic files m bss_start bss_end s0 cpu.
Proof.
  intros Hp Hne Hram Hh Hb Hbe Hd Hsa Ha4 Hdis Hfit Hno Hra. pose proof (packed_packable files Hp) as Hpp. pose proof Hp as [Hn Hoff].
  pose proof (image_length (packed files) Hpp) as Hlen. rewrite packed_end in Hlen. fold (size_of (table_image (packed files))) in Hlen.
  pose proof (end_offset_ge files HEADER_SIZE) as Hge. unfold HEADER_SIZE in Hge at 1. unfold HEAP_START, SEARCH_START in *.
  assert (exec_table m a (size_of (table_image (packed files)))) as Htab.
  { apply image_exec_table; [done|done| |lia|lia]. unfold packed. by rewrite Forall_fmap. }
  destruct (boot_ok trampoline network_task telnetd_task repl_task Htr nic m bss_start bss_end a _ dest s0 cpu
    Hram Hb Hbe Hd Htab Hsa Ha4 Hdis Hfit Hno Hra) as (m' & w & s & E1 & E2 & Hinv & Hst & Hta & Hec & Hmv & Hrun).
  exists m', w, s. split; [done|]. split; [done|]. split; [done|]. split; [done|]. split; [done|].
  assert (registers (cell w) (memory w) dest files) as Hreg.
  { split; [apply Hinv|]. split; [done|]. split.
    - rewrite Hec. destruct (image_head m a (packed files) Hh Hpp) as (_ & _ & -> & _). unfold packed. by rewrite length_fmap.
    - unfold holds. rewrite <- (Z.add_0_r dest), (moved_peek m (memory w) a dest (size_of (table_image (packed files))))
        by (done || unfold size_of in *; lia). by rewrite Z.add_0_r. }
  split; [apply (registers_list _ _ dest); (done || lia)|].
  destruct (registers_read _ _ dest files Hreg Hp) as [Hr1 Hr2]; [lia|lia|]. split; [|done].
  intros k f Hf Hnew. destruct (Hr1 k f Hf Hnew) as (sl & Er & Hbytes & Hl). exists sl. split; [done|].
  rewrite Hl. unfold size_of. by rewrite Nat2Z.id.
Qed.
End boot.

(** One empty file makes the kernel reject the whole table. *)
Lemma empty_file_hides_all m a files k b :
  holds m a (table_image (packed files)) → packable files → 0 ≤ a → a + 512 ≤ 18446744073709551616 →
  files !! k = Some (b, []) → ∀ total, ¬ exec_table m a total ∧ ¬ table_at m a.
Proof.
  intros Hh Hp%packed_packable Ha Ha' Hf total.
  destruct (image_file m a (packed files) k (table_name b, []) Hh Hp) as (o & _ & He & _ & Hs & _);
    [done|done|by unfold packed; rewrite list_lookup_fmap, Hf|]. cbn [snd] in *.
  pose proof (image_head m a (packed files) Hh Hp) as (Hm & Hv & Hc & _).
  assert (Z.of_nat k < Z.of_nat (length (packed files))) as Hk.
  { unfold packed. rewrite length_fmap. apply lookup_lt_Some in Hf. lia. }
  split.
  - intros (_ & _ & _ & Ht & Hne). rewrite <- Ht in Hne. rewrite Hc, Nat2Z.id in Hne.
    by destruct (table_total_entries m a _ 0 _ Hne (Z.of_nat k)) as [_ []]; [lia|].
  - intros [_ E]. unfold validate_table in E. rewrite Hm, Hv, Hc, bool_decide_eq_true_2 in E by done. cbn [negb VERSION Z.eqb Pos.eqb] in E.
    destruct (MAX_EXECUTABLES <? _); [done|]. rewrite Nat2Z.id in E. clear Hh Hm Hv Hc Hf.
    assert (∀ n i, i ≤ Z.of_nat k < i + Z.of_nat n → validate_entries m a i n ≠ Ret true) as Hno; [|by apply (Hno _ 0) in E; [|lia]].
    induction n as [|n IH]; intros i Hi; [lia|]. cbn [validate_entries].
    destruct (decide (i = Z.of_nat k)) as [->|]; [by rewrite He, mbind_Ret, orb_true_r|].
    destruct (entry_at m a i) as [e| |]; [rewrite mbind_Ret|done|done]. case_bool; [done|]. apply IH. lia.
Qed.

(** Longer names are cut: the two files of this table have one name for the kernel. *)
Lemma long_names_collide :
  kernel_name (chars "fibonacci-recursive.bas") = kernel_name (chars "fibonacci-recurrence.bas") ∧
  kernel_name (chars "fibonacci-recursive.bas") = chars "fibonacci-recur".
Proof. split; reflexivity. Qed.
