(* ===== verification/Bootloader.v ===== *)
(** The boot loader (bootloader/stage1.asm and bootloader/stage2.asm): reading the kernel from
    disk, opening the address line A20, the switches to protected and long mode with the
    descriptor and page tables, and the jump to the kernel.  The assembly is a sequence of
    operations on memory, the control registers and the keyboard controller; the BIOS is a
    class with its documented services.  Messages are left out. *)

From S2P Require Import Prelude ByteMem PortIO Vga Interrupts.

Definition STAGE2_ADDR : Z := 0x7E00.
Definition STAGE2_SECTORS : Z := 16.
Definition KERNEL_ADDR : Z := 0x100000.
Definition KERNEL_LOAD_SEG : Z := 0x1000.
Definition KERNEL_SECTORS : Z := 480.
Definition PML4_ADDR : Z := 0x1000.
Definition PDPT_ADDR : Z := 0x2000.
Definition PD_ADDR : Z := 0x3000.

(** ** The BIOS

    [ext_present] is the answer to int 13h/41h; [ext_read] is int 13h/42h and [chs_read] int
    13h/02h, for a linear buffer address, [None] if the carry flag is set; [set_mode] is the
    effect of int 10h/00h on memory; [eax_high] is what the services leave in the upper half of
    EAX. *)
Class Bios : Type := {
  ext_present : bool;
  ext_read : ram → Z → Z → Z → option ram;
  chs_read : ram → Z → Z → Z → Z → Z → option (ram * Z);
  set_mode : ram → Z → ram;
  eax_high : Z → Z }.

Inductive boot_error : Type := DiskError.

Section loader.
Context `{Bios}.

(** Stage 1: sixteen sectors from the second one on. *)
Definition stage1 (m : ram) : result boot_error ram :=
  match chs_read m 0 0 2 STAGE2_SECTORS STAGE2_ADDR with
  | None => Err DiskError
  | Some (m, al) => if al =? STAGE2_SECTORS then Ok m else Err DiskError
  end.

(** The flag is the last byte of stage 2. *)
Definition vga_flag : Z := STAGE2_ADDR + 8191.
Definition check_vga_flag (m : ram) : ram :=
  if m vga_flag =? 1 then write_bytes (set_mode m 0x13) 0x501 0x13 1 else m.

(** [.lba_loop]: the disk address packet ([lba] is its low half), the sectors left and the upper
    half of EAX. *)
Fixpoint lba_loop (fuel : nat) (m : ram) (sectors_left lba seg off hi : Z) : outcome (result boot_error ram) :=
  match fuel with
  | O => Diverge
  | S fuel =>
      if sectors_left =? 0 then Ret (Ok m)
      else
        let dap_sectors := if 8 <=? sectors_left then 8 else sectors_left in
        match ext_read m lba dap_sectors (seg * 16 + off) with
        | None => Ret (Err DiskError)
        | Some m =>
            let hi := eax_high (eax_high hi) in
            let ax := u8 dap_sectors in
            let sectors_left := u16 (sectors_left - ax) in
            let lba := u32 (lba + (hi * 65536 + ax)) in
            let ax := u16 (Z.shiftl (u8 dap_sectors) 9) in
            if 65536 <=? off + ax then lba_loop fuel m sectors_left lba (u16 (seg + 0x1000)) 0 0
            else lba_loop fuel m sectors_left lba seg (off + ax) 0
        end
  end.

(** [.chs_loop]: one sector at a time. *)
Fixpoint chs_loop (fuel : nat) (m : ram) (sectors_left es bx cur_cyl cur_head cur_sector : Z) : outcome (result boot_error ram) :=
  match fuel with
  | O => Diverge
  | S fuel =>
      if sectors_left =? 0 then Ret (Ok m)
      else
        match chs_read m cur_cyl cur_head cur_sector 1 (es * 16 + bx) with
        | None => Ret (Err DiskError)
        | Some (m, _) =>
            let sectors_left := u16 (sectors_left - 1) in
            let carry := 65536 <=? bx + 512 in
            let es := if carry then u16 (es + 0x1000) else es in
            let bx := if carry then 0 else bx + 512 in
            let cur_sector := u8 (cur_sector + 1) in
            if cur_sector <? 19 then chs_loop fuel m sectors_left es bx cur_cyl cur_head cur_sector
            else
              let cur_head := u8 (cur_head + 1) in
              if cur_head <? 2 then chs_loop fuel m sectors_left es bx cur_cyl cur_head 1
              else chs_loop fuel m sectors_left es bx (u8 (cur_cyl + 1)) 0 1
        end
  end.

(** [load_kernel]; [hi] is the upper half of EAX. *)
Definition load_kernel (m : ram) (hi : Z) : outcome (result boot_error ram) :=
  if ext_present then lba_loop 481 m KERNEL_SECTORS 17 KERNEL_LOAD_SEG 0 (eax_high hi)
  else chs_loop 481 m KERNEL_SECTORS KERNEL_LOAD_SEG 0 0 0 18.
End loader.

(** ** The address line A20 *)
Section a20.
Context {D : Type} `{!Ports D}.

(** The polling loops do not end by themselves; one unit of fuel per poll. *)
Fixpoint wait_input (fuel : nat) : ioM D unit :=
  match fuel with
  | O => λ _, Diverge
  | S fuel =>
      al ← inb 0x64;
      if Z.land al 2 =? 0 then mret tt else wait_input fuel
  end.
Fixpoint wait_output (fuel : nat) : ioM D unit :=
  match fuel with
  | O => λ _, Diverge
  | S fuel =>
      al ← inb 0x64;
      if Z.land al 1 =? 0 then wait_output fuel else mret tt
  end.

Definition enable_a20 (fuel : nat) : ioM D unit :=
  _ ← wait_input fuel;
  _ ← outb 0x64 0xAD;
  _ ← wait_input fuel;
  _ ← outb 0x64 0xD0;
  _ ← wait_output fuel;
  al ← inb 0x60;
  _ ← wait_input fuel;
  _ ← outb 0x64 0xD1;
  _ ← wait_input fuel;
  _ ← outb 0x60 (Z.lor al 2);
  _ ← wait_input fuel;
  _ ← outb 0x64 0xAE;
  wait_input fuel.
End a20.

(** ** Protected mode *)

(** The address on the bus. *)
Definition bus (a20 : bool) (a : Z) : Z := if a20 then a else Z.ldiff a 0x100000.

(** [mov dword [a], v] *)
Definition poke_u32 (m : ram) (a v : Z) : ram := poke_bytes m a (le_bytes 4 v).

(** [rep movsd] and [rep stosd] with ECX = [n] *)
Fixpoint rep_movsd (a20 : bool) (n : nat) (m : ram) (esi edi : Z) : ram :=
  match n with
  | O => m
  | S n => rep_movsd a20 n (poke_bytes m (bus a20 edi) (peek m (bus a20 esi) 4)) (u32 (esi + 4)) (u32 (edi + 4))
  end.
Fixpoint rep_stosd (n : nat) (m : ram) (edi eax : Z) : ram :=
  match n with
  | O => m
  | S n => rep_stosd n (poke_u32 m edi eax) (u32 (edi + 4)) eax
  end.

Definition page_entries : list (Z * Z) :=
  [(PML4_ADDR, Z.lor PDPT_ADDR 0x03); (PDPT_ADDR, Z.lor PD_ADDR 0x03);
   (PD_ADDR + 0, 0x00000083); (PD_ADDR + 8, 0x00200083); (PD_ADDR + 16, 0x00400083); (PD_ADDR + 24, 0x00600083);
   (PD_ADDR + 32, 0x00800083); (PD_ADDR + 40, 0x00A00083); (PD_ADDR + 48, 0x00C00083); (PD_ADDR + 56, 0x00E00083)].
Definition setup_page_tables (m : ram) : ram :=
  foldl (λ m '(a, v), poke_u32 m a v) (rep_stosd 4096 m PML4_ADDR 0) page_entries.

(** The control registers. *)
Record Control : Type := mkControl { cr0 : Z; cr3 : Z; cr4 : Z; efer : Z }.

(** Writing CR0: the processor raises a general protection fault ([Panic]) if paging is switched
    on without protection, or in long mode without physical address extension. *)
Definition mov_cr0 (v : Z) (c : Control) : outcome Control :=
  if Z.testbit v 31 && (negb (Z.testbit v 0) || Z.testbit (efer c) 8 && negb (Z.testbit (cr4 c) 5)) then Panic
  else Ret (mkControl v (cr3 c) (cr4 c) (efer c)).
Definition mov_cr3 (v : Z) (c : Control) : Control := mkControl (cr0 c) v (cr4 c) (efer c).
Definition mov_cr4 (v : Z) (c : Control) : Control := mkControl (cr0 c) (cr3 c) v (efer c).
(** The long mode bit of EFER can only be changed with paging off. *)
Definition wrmsr_efer (v : Z) (c : Control) : outcome Control :=
  if Z.testbit (cr0 c) 31 && negb (eqb (Z.testbit v 8) (Z.testbit (efer c) 8)) then Panic
  else Ret (mkControl (cr0 c) (cr3 c) (cr4 c) v).

(** 16-bit operations leave the other bits. *)
Definition and16 (r v : Z) : Z := Z.lor (Z.ldiff r 0xFFFF) (Z.land (Z.land r 0xFFFF) v).
Definition or16 (r v : Z) : Z := Z.lor r v.

(** From the end of the real-mode code to the jump to the kernel. *)
Definition protected_mode (a20 : bool) (m : ram) (c : Control) : outcome (ram * Control) :=
  c ← mov_cr0 (Z.lor (cr0 c) 1) c;
  let m := rep_movsd a20 (Z.to_nat (KERNEL_SECTORS * 512 / 4)) m (Z.shiftl KERNEL_LOAD_SEG 4) KERNEL_ADDR in
  let m := setup_page_tables m in
  let c := mov_cr4 (Z.lor (cr4 c) (Z.shiftl 1 5)) c in
  let c := mov_cr3 PML4_ADDR c in
  c ← wrmsr_efer (Z.lor (efer c) (Z.shiftl 1 8)) c;
  c ← mov_cr0 (Z.lor (cr0 c) (Z.shiftl 1 31)) c;
  (* long_mode *)
  c ← mov_cr0 (or16 (and16 (cr0 c) 0xFFFB) 0x2) c;
  let c := mov_cr4 (or16 (cr4 c) (Z.lor (Z.shiftl 1 9) (Z.shiftl 1 10))) c in
  Ret (m, c).

(** The descriptor table. *)
Definition gdt : list Z :=
  [0; 0; 0; 0; 0; 0; 0; 0;
   0xFF; 0xFF; 0; 0; 0x00; 0x9A; 0xCF; 0x00;
   0xFF; 0xFF; 0; 0; 0x00; 0x92; 0xCF; 0x00;
   0; 0; 0; 0; 0x00; 0x9A; 0x20; 0x00;
   0; 0; 0; 0; 0x00; 0x92; 0x00; 0x00].

(** Stage 2: [a20_gate] is the state of the address line, [hi] the upper half of EAX. *)
Definition stage2 {D} `{!Ports D, !Bios} (a20_gate : D → bool) (fuel : nat) (d : D) (m : ram) (hi : Z) (c : Control) :
    outcome (result boot_error (D * ram * Control)) :=
  '(d, _) ← enable_a20 fuel d;
  r ← load_kernel (check_vga_flag m) hi;
  match r with
  | Err e => Ret (Err e)
  | Ok m =>
      '(m, c) ← protected_mode (a20_gate d) m c;
      Ret (Ok (d, m, c))
  end.

(** Both stages. *)
Definition bootloader {D} `{!Ports D, !Bios} (a20_gate : D → bool) (fuel : nat) (d : D) (m : ram) (hi : Z) (c : Control) :
    outcome (result boot_error (D * ram * Control)) :=
  match stage1 m with
  | Err e => Ret (Err e)
  | Ok m => stage2 a20_gate fuel d m hi c
  end.

(** ** The documented behaviour of the BIOS

    [disk] are the bytes of the boot drive, a 1.44 MB floppy disk. *)

(** Memory that the services leave alone: not the interrupt vectors, the BIOS data, the stack
    below the boot sector and the upper memory. *)
Definition free_memory (x : Z) : Prop := 0x501 ≤ x < 0x7000 ∨ 0x7C00 ≤ x < 0x80000.

(** [n] bytes of the disk from [src] on are at [buf]. *)
Definition transfer (disk : Z → Z) (m m' : ram) (src n buf : Z) : Prop :=
  (∀ x, buf ≤ x < buf + n → m' x = disk (src + (x - buf))) ∧
  (∀ x, free_memory x → x < buf ∨ buf + n ≤ x → m' x = m x) ∧ (ram_ok m → ram_ok m').

Class BiosOk `{Bios} (disk : Z → Z) : Prop := {
  ext_read_ok m lba n buf : 0 < n ≤ 127 → 0 ≤ lba → lba + n ≤ 2880 → buf mod 65536 + n * 512 ≤ 65536 →
    ext_present = true → ∃ m', ext_read m lba n buf = Some m' ∧ transfer disk m m' (lba * 512) (n * 512) buf;
  chs_read_ok m cyl head sector n buf : 0 ≤ cyl < 80 → 0 ≤ head < 2 → 1 ≤ sector → 0 < n → sector + n ≤ 19 →
    buf mod 65536 + n * 512 ≤ 65536 →
    ∃ m', chs_read m cyl head sector n buf = Some (m', n) ∧ transfer disk m m' (((cyl * 2 + head) * 18 + (sector - 1)) * 512) (n * 512) buf;
  set_mode_ok m mode : (∀ x, free_memory x → set_mode m mode x = m x) ∧ (ram_ok m → ram_ok (set_mode m mode)) }.

(** The upper half of EAX is zero at the start, and the services leave it zero.  No
    documentation promises this: it is a hypothesis of the theorems where the extended
    services are used. *)
Definition upper_eax_zero `{Bios} (hi : Z) : Prop := hi = 0 ∧ eax_high 0 = 0.

(** *** Loading the kernel *)

Lemma succ_carry k n : 0 < n → k mod n + 1 = n → (k + 1) / n = k / n + 1 ∧ (k + 1) mod n = 0.
Proof.
  intros Hn Hk. pose proof (Z.div_mod k n). replace (k + 1) with (0 + (k / n + 1) * n) by lia.
  rewrite Z.div_add, Z.mod_add, Z.div_0_l, Z.mod_0_l by lia. lia.
Qed.
Lemma succ_no_carry k n : 0 < n → k mod n + 1 < n → (k + 1) / n = k / n ∧ (k + 1) mod n = k mod n + 1.
Proof.
  intros Hn Hk. pose proof (Z.div_mod k n). pose proof (Z.mod_pos_bound k n Hn).
  replace (k + 1) with (k mod n + 1 + k / n * n) by lia.
  rewrite Z.div_add, Z.mod_add, Z.div_small, Z.mod_small by lia. lia.
Qed.
Section load.
Context `{B : Bios} (disk : Z → Z) `{!BiosOk disk}.

(** [n] bytes of the kernel are in place. *)
Definition loaded (m0 m : ram) (n : Z) : Prop := transfer disk m0 m 8704 n 0x10000.

Lemma loaded_step m0 m m' n k :
  0 ≤ n → 0 ≤ k → n + k ≤ 0x3C000 → loaded m0 m n → transfer disk m m' (8704 + n) k (0x10000 + n) → loaded m0 m' (n + k).
Proof.
  intros Hn Hk Hnk (Hl & Ho & Hok) (Hl' & Ho' & Hok'). split; [|split; [|auto]].
  - intros x Hx. destruct (decide (x < 0x10000 + n)) as [Hlt|Hge].
    + rewrite Ho' by (unfold free_memory; lia). apply Hl. lia.
    + rewrite Hl' by lia. f_equal. lia.
  - intros x Hf Hx. rewrite Ho' by (done || lia). apply Ho; [done|lia].
Qed.

Lemma lba_loop_ok j m0 m k :
  eax_high 0 = 0 → Z.of_nat j + k = 60 → 0 ≤ k → ext_present = true → loaded m0 m (4096 * k) → ∀ extra,
  ∃ m', lba_loop (S j + extra) m (480 - 8 * k) (17 + 8 * k) (0x1000 * (1 + k / 16)) (4096 * (k mod 16)) 0 = Ret (Ok m') ∧
    loaded m0 m' 0x3C000.
Proof.
  intros Hz. revert m k. induction j as [|j IH]; intros m k Hj Hk Hp Hl extra.
  { exists m. assert (k = 60) as -> by lia. done. }
  change (S (S j) + extra)%nat with (S (S j + extra)). remember (S j + extra)%nat as fuel eqn:Hfuel. cbn [lba_loop].
  rewrite (proj2 (Z.eqb_neq _ _)), (proj2 (Z.leb_le _ _)) by lia.
  pose proof (Z.div_mod k 16) as Hdm. pose proof (Z.mod_pos_bound k 16) as Hmb.
  assert (0x1000 * (1 + k / 16) * 16 + 4096 * (k mod 16) = 0x10000 + 4096 * k) as -> by lia.
  destruct (ext_read_ok m (17 + 8 * k) 8 (0x10000 + 4096 * k)) as (m1 & -> & Ht); [lia..| |done|].
  { replace (0x10000 + 4096 * k) with (4096 * (k mod 16) + (1 + k / 16) * 65536) by lia. rewrite Z.mod_add, Z.mod_small; lia. }
  rewrite !Hz. change (u8 8) with 8. change (u16 (Z.shiftl 8 9)) with 4096. rewrite u16_small, u32_small by lia.
  assert (loaded m0 m1 (4096 * (k + 1))) as Hl1.
  { replace (4096 * (k + 1)) with (4096 * k + 4096) by lia. apply (loaded_step m0 m); [lia..|done|].
    by replace (8704 + 4096 * k) with ((17 + 8 * k) * 512) by lia. }
  specialize (IH m1 (k + 1) ltac:(lia) ltac:(lia) Hp Hl1 extra). rewrite <- Hfuel in IH.
  replace (480 - 8 * k - 8) with (480 - 8 * (k + 1)) by lia. replace (17 + 8 * k + (0 * 65536 + 8)) with (17 + 8 * (k + 1)) by lia.
  destruct (65536 <=? 4096 * (k mod 16) + 4096) eqn:Ec; [apply Z.leb_le in Ec|apply Z.leb_gt in Ec].
  - destruct (succ_carry k 16) as [Hd Hm]; [lia..|]. rewrite Hd, Hm in IH. rewrite u16_small by lia.
    replace (0x1000 * (1 + k / 16) + 0x1000) with (0x1000 * (1 + (k / 16 + 1))) by lia. exact IH.
  - destruct (succ_no_carry k 16) as [Hd Hm]; [lia..|]. rewrite Hd, Hm in IH.
    replace (4096 * (k mod 16) + 4096) with (4096 * (k mod 16 + 1)) by lia. exact IH.
Qed.

Lemma chs_loop_ok j m0 m k :
  Z.of_nat j + k = 480 → 0 ≤ k → loaded m0 m (512 * k) →
  ∃ m', chs_loop (S j) m (480 - k) (0x1000 * (1 + k / 128)) (512 * (k mod 128))
      ((17 + k) / 36) ((17 + k) / 18 mod 2) ((17 + k) mod 18 + 1) = Ret (Ok m') ∧
    loaded m0 m' 0x3C000.
Proof.
  revert m k. induction j as [|j IH]; intros m k Hj Hk Hl.
  { exists m. assert (k = 480) as -> by lia. done. }
  remember (S j) as fuel eqn:Hfuel. cbn [chs_loop].
  rewrite (proj2 (Z.eqb_neq _ _)) by lia. remember (17 + k) as b eqn:Hb.
  pose proof (Z.div_mod k 128) as Hdm. pose proof (Z.mod_pos_bound k 128) as Hmb.
  pose proof (Z.div_mod b 18) as Hd18. pose proof (Z.mod_pos_bound b 18) as Hm18.
  assert (b / 36 = b / 18 / 2) as H36 by by rewrite Z.div_div by lia.
  pose proof (Z.div_mod (b / 18) 2) as Hd2. pose proof (Z.mod_pos_bound (b / 18) 2) as Hm2.
  assert (0x1000 * (1 + k / 128) * 16 + 512 * (k mod 128) = 0x10000 + 512 * k) as -> by lia.
  destruct (chs_read_ok m (b / 36) (b / 18 mod 2) (b mod 18 + 1) 1 (0x10000 + 512 * k)) as (m1 & -> & Ht); [lia..| |].
  { replace (0x10000 + 512 * k) with (512 * (k mod 128) + (1 + k / 128) * 65536) by lia. rewrite Z.mod_add, Z.mod_small; lia. }
  assert (loaded m0 m1 (512 * (k + 1))) as Hl1.
  { replace (512 * (k + 1)) with (512 * k + 512) by lia. apply (loaded_step m0 m); [lia..|done|].
    by replace (8704 + 512 * k) with (((b / 36 * 2 + b / 18 mod 2) * 18 + (b mod 18 + 1 - 1)) * 512) by lia. }
  specialize (IH m1 (k + 1) ltac:(lia) ltac:(lia) Hl1). replace (17 + (k + 1)) with (b + 1) in IH by lia.
  rewrite u16_small by lia. replace (480 - k - 1) with (480 - (k + 1)) by lia.
  assert ((if 65536 <=? 512 * (k mod 128) + 512 then u16 (0x1000 * (1 + k / 128) + 0x1000) else 0x1000 * (1 + k / 128)) =
      0x1000 * (1 + (k + 1) / 128) ∧
    (if 65536 <=? 512 * (k mod 128) + 512 then 0 else 512 * (k mod 128) + 512) = 512 * ((k + 1) mod 128)) as [-> ->].
  { destruct (Z.leb_spec 65536 (512 * (k mod 128) + 512)).
    - destruct (succ_carry k 128) as [-> ->]; [lia..|]. rewrite u16_small; lia.
    - destruct (succ_no_carry k 128) as [-> ->]; lia. }
  rewrite u8_small by lia. destruct (Z.ltb_spec (b mod 18 + 1 + 1) 19).
  { destruct (succ_no_carry b 18) as [Hd Hm]; [lia..|]. rewrite Hd, Hm in IH.
    assert ((b + 1) / 36 = b / 36) as E by (rewrite H36; replace 36 with (18 * 2) by lia; rewrite <- Z.div_div, Hd; lia).
    by rewrite E in IH. }
  destruct (succ_carry b 18) as [Hd Hm]; [lia..|]. rewrite Hd, Hm in IH.
  assert ((b + 1) / 36 = (b / 18 + 1) / 2) as E by (replace 36 with (18 * 2) by lia; rewrite <- Z.div_div, Hd; lia).
  rewrite E in IH. rewrite u8_small by lia. destruct (Z.ltb_spec (b / 18 mod 2 + 1) 2).
  - destruct (succ_no_carry (b / 18) 2) as [Hd' Hm']; [lia..|]. rewrite Hd', Hm' in IH. by rewrite H36.
  - destruct (succ_carry (b / 18) 2) as [Hd' Hm']; [lia..|]. rewrite Hd', Hm' in IH. rewrite u8_small, H36 by lia. exact IH.
Qed.

Lemma load_kernel_ok m hi :
  ext_present = false ∨ upper_eax_zero hi → ∃ m', load_kernel m hi = Ret (Ok m') ∧ loaded m m' 0x3C000.
Proof.
  intros Hhi. assert (loaded m m 0) as H0 by (split; [lia|done]). unfold load_kernel. destruct ext_present eqn:Ep.
  - destruct Hhi as [|[-> Hz]]; [done|]. rewrite Hz. exact (lba_loop_ok 60 m m 0 Hz eq_refl ltac:(lia) Ep H0 420).
  - exact (chs_loop_ok 480 m m 0 eq_refl ltac:(lia) H0).
Qed.

(** Stage 1 loads stage 2. *)
Lemma stage1_ok m : ∃ m', stage1 m = Ok m' ∧ transfer disk m m' 512 8192 STAGE2_ADDR.
Proof.
  unfold stage1. destruct (chs_read_ok m 0 0 2 STAGE2_SECTORS STAGE2_ADDR) as (m' & -> & Ht); [done..|].
  exists m'. done.
Qed.
End load.

(** ** The keyboard controller

    The registers behind the ports 0x60 and 0x64: for how many more polls the input buffer is
    full, for how many more the requested output is not there yet, the output, whether the next
    data byte goes to the output port, and the output port, whose bit 1 is the line A20. *)
Record Kbc : Type := mkKbc { busy : nat; delay : nat; output : option Z; writing : bool; outport : Z }.

Definition kbc_poll (k : Kbc) : Kbc := mkKbc (pred (busy k)) (pred (delay k)) (output k) (writing k) (outport k).
(** The commands used; the controller takes [b] polls for them. *)
Definition kbc_command (b : nat) (c : Z) (k : Kbc) : Kbc :=
  if c =? 0xD0 then mkKbc b b (Some (outport k)) (writing k) (outport k)
  else if c =? 0xD1 then mkKbc b (delay k) (output k) true (outport k)
  else mkKbc b (delay k) (output k) (writing k) (outport k).
Definition kbc_data (b : nat) (v : Z) (k : Kbc) : Kbc :=
  if writing k then mkKbc b (delay k) (output k) false v else mkKbc b (delay k) (output k) false (outport k).

(** Its documented behaviour; [latency] bounds the polls.  D0 may only be sent while the
    output buffer is empty, and nothing may be written while the input buffer is full. *)
Class Controller (D : Type) `{!Ports D} : Type := {
  kbc : D → Kbc;
  latency : nat;
  kbc_status d : kbc (port_inb 0x64 d).1 = kbc_poll (kbc d) ∧
    (Z.land (port_inb 0x64 d).2 2 = 0 ↔ busy (kbc d) = 0%nat) ∧
    (Z.land (port_inb 0x64 d).2 1 = 0 ↔ output (kbc d) = None ∨ delay (kbc d) ≠ 0%nat);
  kbc_read d v : output (kbc d) = Some v → delay (kbc d) = 0%nat →
    (port_inb 0x60 d).2 = v ∧
    kbc (port_inb 0x60 d).1 = mkKbc (busy (kbc d)) 0 None (writing (kbc d)) (outport (kbc d));
  kbc_write_command d c : c ∈ [0xAD; 0xAE; 0xD0; 0xD1] → busy (kbc d) = 0%nat → (c = 0xD0 → output (kbc d) = None) →
    ∃ b, (b ≤ latency)%nat ∧ kbc (port_outb 0x64 c d) = kbc_command b c (kbc d);
  kbc_write_data d v : busy (kbc d) = 0%nat →
    ∃ b, (b ≤ latency)%nat ∧ kbc (port_outb 0x60 v d) = kbc_data b v (kbc d) }.

Definition a20_gate {D} `{Controller D} (d : D) : bool := Z.testbit (outport (kbc d)) 1.

Section controller.
Context {D : Type} `{Controller D}.

Lemma bind_inb {A} p (f : Z → ioM D A) d : (inb p ≫= f) d = f (port_inb p d).2 (port_inb p d).1.
Proof. unfold mbind, ioM_bind, inb. by destruct (port_inb p d). Qed.
Lemma bind_outb {A} p v (f : unit → ioM D A) d : (outb p v ≫= f) d = f tt (port_outb p v d).
Proof. done. Qed.

Lemma wait_input_ok fuel d : (busy (kbc d) < fuel)%nat →
  ∃ d', wait_input fuel d = Ret (d', tt) ∧ busy (kbc d') = 0%nat ∧
    output (kbc d') = output (kbc d) ∧ writing (kbc d') = writing (kbc d) ∧ outport (kbc d') = outport (kbc d) ∧
    (delay (kbc d') ≤ delay (kbc d))%nat.
Proof.
  revert d. induction fuel as [|fuel IH]; intros d Hb; [lia|]. cbn [wait_input].
  destruct (kbc_status d) as (Hk & Hi & _). rewrite bind_inb.
  destruct (port_inb 0x64 d) as [d1 v] eqn:E. cbn [fst snd] in *. destruct (Z.eqb_spec (Z.land v 2) 0) as [Hz|Hz].
  - exists d1. rewrite Hk. apply Hi in Hz. cbn. rewrite Hz. split; [done|]. split; [done|]. split; [done|]. split; [done|]. split; [done|lia].
  - destruct (IH d1) as (d' & E' & H1 & H2 & H3 & H4 & H5).
    { rewrite Hk. cbn. destruct (busy (kbc d)) eqn:Eb; [by destruct Hz; apply Hi|lia]. }
    exists d'. rewrite H2, H3, H4, Hk. rewrite Hk in H5. cbn in *. split; [done|]. split; [done|]. split; [done|].
    split; [done|]. split; [done|lia].
Qed.

Lemma wait_output_ok fuel d v : output (kbc d) = Some v → (delay (kbc d) < fuel)%nat →
  ∃ d', wait_output fuel d = Ret (d', tt) ∧ output (kbc d') = Some v ∧ delay (kbc d') = 0%nat ∧
    (busy (kbc d') ≤ busy (kbc d))%nat ∧ writing (kbc d') = writing (kbc d) ∧ outport (kbc d') = outport (kbc d).
Proof.
  revert d. induction fuel as [|fuel IH]; intros d Ho Hb; [lia|]. cbn [wait_output].
  destruct (kbc_status d) as (Hk & _ & Hi). rewrite bind_inb.
  destruct (port_inb 0x64 d) as [d1 w] eqn:E. cbn [fst snd] in *. destruct (Z.eqb_spec (Z.land w 1) 0) as [Hz|Hz].
  - apply Hi in Hz as [Hz|Hz]; [congruence|]. destruct (IH d1) as (d' & E' & H1 & H2 & H3 & H4 & H5); [by rewrite Hk|rewrite Hk; cbn; lia|].
    exists d'. rewrite H1, H2, H4, H5, Hk. rewrite Hk in H3. cbn in *. split; [done|]. split; [done|]. split; [done|]. split; [lia|done].
  - exists d1. rewrite Hk. cbn. split; [done|]. split; [done|]. split; [|split; [lia|done]].
    destruct (delay (kbc d)) eqn:Ed; [done|]. destruct Hz. apply Hi. by right.
Qed.

(** [enable_a20] ends and opens the line, whatever the output port was. *)
Lemma enable_a20_ok fuel d :
  output (kbc d) = None → (busy (kbc d) ≤ latency)%nat → (latency < fuel)%nat →
  ∃ d', enable_a20 fuel d = Ret (d', tt) ∧ outport (kbc d') = Z.lor (outport (kbc d)) 2 ∧ a20_gate d' = true.
Proof.
  intros Ho Hb Hf. unfold enable_a20.
  destruct (wait_input_ok fuel d) as (d1 & E1 & B1 & O1 & W1 & P1 & _); [lia|]. rewrite (ioM_bind_Ret _ _ d _ _ E1).
  rewrite bind_outb.
  destruct (kbc_write_command d1 0xAD) as (b1 & Hb1 & K1); [set_solver|done|done|].
  destruct (wait_input_ok fuel (port_outb 0x64 0xAD d1)) as (d2 & E2 & B2 & O2 & W2 & P2 & _); [rewrite K1; cbn; lia|].
  rewrite (ioM_bind_Ret _ _ _ _ _ E2). rewrite K1 in O2, P2. cbn in O2, P2.
  rewrite bind_outb.
  destruct (kbc_write_command d2 0xD0) as (b2 & Hb2 & K2); [set_solver|done|congruence|].
  destruct (wait_output_ok fuel (port_outb 0x64 0xD0 d2) (outport (kbc d2))) as (d3 & E3 & O3 & D3 & B3 & W3 & P3);
    [by rewrite K2|rewrite K2; cbn; lia|].
  rewrite (ioM_bind_Ret _ _ _ _ _ E3). rewrite K2 in B3, P3. cbn in B3, P3.
  rewrite bind_inb. destruct (kbc_read d3 _ O3 D3) as [V3 K3].
  destruct (port_inb 0x60 d3) as [d4 al] eqn:E4. cbn [fst snd] in *. subst al.
  destruct (wait_input_ok fuel d4) as (d5 & E5 & B5 & O5 & W5 & P5 & _); [rewrite K3; cbn; lia|].
  rewrite (ioM_bind_Ret _ _ _ _ _ E5). rewrite K3 in P5. cbn in P5.
  rewrite bind_outb.
  destruct (kbc_write_command d5 0xD1) as (b5 & Hb5 & K5); [set_solver|done|done|].
  destruct (wait_input_ok fuel (port_outb 0x64 0xD1 d5)) as (d6 & E6 & B6 & O6 & W6 & P6 & _); [rewrite K5; cbn; lia|].
  rewrite (ioM_bind_Ret _ _ _ _ _ E6). rewrite K5 in W6. cbn in W6.
  rewrite bind_outb.
  destruct (kbc_write_data d6 (Z.lor (outport (kbc d2)) 2)) as (b6 & Hb6 & K6); [done|]. unfold kbc_data in K6. rewrite W6 in K6.
  destruct (wait_input_ok fuel (port_outb 0x60 (Z.lor (outport (kbc d2)) 2) d6)) as (d7 & E7 & B7 & O7 & W7 & P7 & _); [rewrite K6; cbn; lia|].
  rewrite (ioM_bind_Ret _ _ _ _ _ E7). rewrite K6 in P7. cbn in P7.
  rewrite bind_outb.
  destruct (kbc_write_command d7 0xAE) as (b7 & Hb7 & K7); [set_solver|done|done|].
  destruct (wait_input_ok fuel (port_outb 0x64 0xAE d7)) as (d8 & E8 & B8 & O8 & W8 & P8 & _); [rewrite K7; cbn; lia|].
  rewrite K7 in P8. cbn in P8. exists d8. split; [exact E8|]. unfold a20_gate. rewrite P8, P7, P2, P1.
  split; [done|]. by rewrite Z.lor_spec, orb_true_r.
Qed.
End controller.

(** ** Copying and page tables *)

Lemma poke_bytes_in m p l k :
  0 ≤ p → p + Z.of_nat (length l) ≤ 18446744073709551616 → (k < length l)%nat →
  poke_bytes m p l (p + Z.of_nat k) = nth k l 0.
Proof.
  intros. unfold poke_bytes. replace (p + Z.of_nat k - p) with (Z.of_nat k) by lia.
  rewrite u64_small, (proj2 (Z.ltb_lt _ _)), Nat2Z.id by lia. done.
Qed.

Lemma poke_peek m src dst x :
  0 ≤ src < 4294967296 → 0 ≤ dst < 4294967296 → 0 ≤ x < 18446744073709551616 →
  poke_bytes m dst (peek m src 4) x = if (dst <=? x) && (x <? dst + 4) then m (src + (x - dst)) else m x.
Proof.
  intros Hs Hd Hx. destruct ((dst <=? x) && (x <? dst + 4)) eqn:E.
  - assert (∃ k, (k < 4)%nat ∧ x = dst + Z.of_nat k) as (k & Hk & ->) by (exists (Z.to_nat (x - dst)); blia).
    rewrite poke_bytes_in by (rewrite ?peek_length; lia). replace (src + (dst + Z.of_nat k - dst)) with (src + Z.of_nat k) by lia.
    cbn [peek]. rewrite !u64_small by lia. do 4 (destruct k as [|k]; [cbn [nth]; f_equal; lia|]). lia.
  - apply poke_bytes_out; rewrite ?peek_length; blia.
Qed.

(** [rep movsd] copies, if the destination does not begin inside the source. *)
Lemma rep_movsd_ok n m esi edi x :
  0 ≤ esi → esi + 4 * Z.of_nat n ≤ edi → edi + 4 * Z.of_nat n < 4294967296 → 0 ≤ x < 18446744073709551616 →
  rep_movsd true n m esi edi x = if (edi <=? x) && (x <? edi + 4 * Z.of_nat n) then m (esi + (x - edi)) else m x.
Proof.
  intros Hs Hsd Hd Hx. revert m esi edi Hs Hsd Hd. induction n as [|n IH]; intros m esi edi Hs Hsd Hd; cbn [rep_movsd].
  { by rewrite (proj2 (andb_false_iff _ _)) by (rewrite Z.leb_gt, Z.ltb_ge; lia). }
  unfold bus. rewrite !u32_small by lia. rewrite IH by lia.
  replace (edi + 4 + 4 * Z.of_nat n) with (edi + 4 * Z.of_nat (S n)) by lia.
  destruct ((edi + 4 <=? x) && (x <? edi + 4 * Z.of_nat (S n))) eqn:E1.
  - rewrite poke_peek by lia. do 2 case_bool; bool_to_prop; bool_to_prop; try lia. f_equal. lia.
  - rewrite poke_peek by lia. by do 2 case_bool; bool_to_prop; bool_to_prop; try lia.
Qed.

Lemma poke_u32_out m a v x :
  0 ≤ a < 4294967296 → 0 ≤ x < 18446744073709551616 → x < a ∨ a + 4 ≤ x → poke_u32 m a v x = m x.
Proof. intros. apply poke_bytes_out; rewrite ?le_bytes_length; lia. Qed.

Lemma rep_stosd_zero n m edi x :
  0 ≤ edi → edi + 4 * Z.of_nat n < 4294967296 → 0 ≤ x < 18446744073709551616 →
  rep_stosd n m edi 0 x = if (edi <=? x) && (x <? edi + 4 * Z.of_nat n) then 0 else m x.
Proof.
  intros He Hn Hx. revert m edi He Hn. induction n as [|n IH]; intros m edi He Hn; cbn [rep_stosd].
  { by rewrite (proj2 (andb_false_iff _ _)) by (rewrite Z.leb_gt, Z.ltb_ge; lia). }
  rewrite u32_small, IH by lia. destruct (decide (edi ≤ x < edi + 4)) as [Hin|Hout].
  - assert (poke_u32 m edi 0 x = 0) as ->.
    { unfold poke_u32. replace x with (edi + Z.of_nat (Z.to_nat (x - edi))) by lia.
      rewrite poke_bytes_in by (rewrite ?le_bytes_length; lia). destruct (Z.to_nat (x - edi)) as [|[|[|[|k]]]] eqn:E; try done. lia. }
    do 2 case_bool; bool_to_prop; bool_to_prop; lia.
  - rewrite poke_u32_out by lia. do 2 case_bool; bool_to_prop; bool_to_prop; lia.
Qed.

(** An aligned entry of a zeroed table. *)
Definition zero8 (m : ram) (a : Z) : Prop := ∀ x, a ≤ x < a + 8 → m x = 0.

Lemma peek_zero m a n : 0 ≤ a → a + Z.of_nat n ≤ 4294967296 → (∀ x, a ≤ x < a + Z.of_nat n → m x = 0) → le_num (peek m a n) = 0.
Proof.
  revert a. induction n as [|n IH]; intros a Ha Hn Hz; cbn [peek le_num]; [done|].
  rewrite u64_small, Hz, IH by (lia || intros; apply Hz; lia). done.
Qed.

Lemma peek_poke_u32 m a v :
  0 ≤ a → a + 8 ≤ 4294967296 → 0 ≤ v < 4294967296 → zero8 m a → peek_u64 (poke_u32 m a v) a = v.
Proof.
  intros Ha Ha' Hv Hz. unfold peek_u64. change 8%nat with (4 + 4)%nat. rewrite peek_app, le_num_app, peek_length.
  rewrite (peek_zero _ (a + Z.of_nat 4) 4) by (lia || intros; rewrite poke_u32_out by lia; apply Hz; lia).
  pose proof (peek_poke_bytes m a (le_bytes 4 v)) as E. rewrite le_bytes_length in E. unfold poke_u32. rewrite E by lia.
  rewrite le_num_bytes, Z.mod_small by done. lia.
Qed.

(** The entries written, one after the other, into zeroed tables. *)
Definition assoc (a : Z) (l : list (Z * Z)) : Z := default 0 (snd <$> find (λ p, p.1 =? a) l).

Definition entry_ok (p : Z * Z) : Prop := 0 ≤ p.1 < 65536 ∧ p.1 mod 8 = 0 ∧ 0 ≤ p.2 < 4294967296.

Lemma apart8 a b : a mod 8 = 0 → b mod 8 = 0 → a ≠ b → a + 8 ≤ b ∨ b + 8 ≤ a.
Proof. intros Ha Hb Hne. pose proof (Z.div_mod a 8). pose proof (Z.div_mod b 8). lia. Qed.

Lemma table_other m l a :
  Forall entry_ok l → 0 ≤ a < 65536 → a mod 8 = 0 → a ∉ l.*1 →
  peek_u64 (foldl (λ m '(a, v), poke_u32 m a v) m l) a = peek_u64 m a.
Proof.
  intros Hl Ha Ha8. revert m. induction Hl as [|[b v] l (Hb & Hb8 & Hv) _ IH]; intros m Hn; cbn [foldl]; [done|].
  cbn [fmap list_fmap fst] in *. apply not_elem_of_cons in Hn as [Hne Hn]. rewrite IH by done. unfold peek_u64. f_equal.
  destruct (apart8 a b Ha8 Hb8 Hne); apply (peek_agree m _ a (a + 8)); try lia; intros x Hx; apply poke_u32_out; lia.
Qed.

Lemma table_entries m l a :
  Forall entry_ok l → NoDup l.*1 → 0 ≤ a < 65536 → a mod 8 = 0 → zero8 m a →
  peek_u64 (foldl (λ m '(a, v), poke_u32 m a v) m l) a = assoc a l.
Proof.
  intros Hl Hnd Ha Ha8. revert m Hnd. induction Hl as [|[b v] l (Hb & Hb8 & Hv) Hl IH]; intros m Hnd Hz; cbn [foldl].
  { apply peek_zero; [lia..|]. intros x Hx. apply Hz. lia. }
  cbn [fmap list_fmap fst snd] in *. apply NoDup_cons in Hnd as [Hn Hnd]. unfold assoc. cbn [find fst].
  destruct (Z.eqb_spec b a) as [->|Hne].
  - rewrite table_other by done. apply peek_poke_u32; (done || lia).
  - apply IH; [done|]. intros x Hx. rewrite poke_u32_out; [by apply Hz|lia|lia|]. destruct (apart8 a b Ha8 Hb8 ltac:(done)); lia.
Qed.

Lemma page_entries_ok : Forall entry_ok page_entries ∧ NoDup page_entries.*1.
Proof.
  split; [|vm_compute; apply (bool_decide_unpack _); vm_compute; exact I].
  unfold page_entries, entry_ok. repeat (apply Forall_cons_2; [split; [split; [discriminate|reflexivity]|split; [reflexivity|split; [discriminate|reflexivity]]]|]).
  apply Forall_nil_2.
Qed.

Lemma page_entry m a : 0x1000 ≤ a < 0x5000 → a mod 8 = 0 → peek_u64 (setup_page_tables m) a = assoc a page_entries.
Proof.
  intros Ha Ha8. unfold setup_page_tables. apply table_entries; [apply page_entries_ok|apply page_entries_ok|lia|done|].
  intros x Hx. pose proof (Z.div_mod a 8). rewrite rep_stosd_zero by (unfold PML4_ADDR; lia).
  rewrite (proj2 (andb_true_iff _ _)); [done|]. rewrite Z.leb_le, Z.ltb_lt. unfold PML4_ADDR. lia.
Qed.

(** Outside of the page tables memory is unchanged. *)
Lemma setup_page_tables_out m x : 0 ≤ x < 0x1000 ∨ 0x5000 ≤ x < 18446744073709551616 → setup_page_tables m x = m x.
Proof.
  intros Hx. unfold setup_page_tables, page_entries, PML4_ADDR, PDPT_ADDR, PD_ADDR. cbn [foldl].
  rewrite !poke_u32_out by lia. rewrite rep_stosd_zero by lia. rewrite (proj2 (andb_false_iff _ _)); [done|].
  rewrite Z.leb_gt, Z.ltb_ge. lia.
Qed.

(** *** Address translation

    The processor's walk through four levels of tables: the physical address and whether it can
    be written. *)
Definition frame (e : Z) : Z := Z.land e 0x000FFFFFFFFFF000.
Definition page_walk (m : ram) (cr3 v : Z) : option (Z * bool) :=
  let e4 := peek_u64 m (frame cr3 + 8 * Z.land (Z.shiftr v 39) 511) in
  if negb (Z.testbit e4 0) then None else
  let e3 := peek_u64 m (frame e4 + 8 * Z.land (Z.shiftr v 30) 511) in
  if negb (Z.testbit e3 0) then None else
  let w := Z.testbit e4 1 && Z.testbit e3 1 in
  if Z.testbit e3 7 then Some (Z.land e3 0x000FFFFFC0000000 + Z.land v 0x3FFFFFFF, w) else
  let e2 := peek_u64 m (frame e3 + 8 * Z.land (Z.shiftr v 21) 511) in
  if negb (Z.testbit e2 0) then None else
  let w := w && Z.testbit e2 1 in
  if Z.testbit e2 7 then Some (Z.land e2 0x000FFFFFFFE00000 + Z.land v 0x1FFFFF, w) else
  let e1 := peek_u64 m (frame e2 + 8 * Z.land (Z.shiftr v 12) 511) in
  if negb (Z.testbit e1 0) then None else
  Some (frame e1 + Z.land v 0xFFF, w && Z.testbit e1 1).

Lemma index_mod v n : 0 ≤ n → Z.land (Z.shiftr v n) 511 = v / 2 ^ n mod 512.
Proof. intros Hn. change 511 with (Z.ones 9). by rewrite Z.land_ones, Z.shiftr_div_pow2 by lia. Qed.

Ltac assoc_skip := repeat (rewrite (proj2 (Z.eqb_neq _ _)) by lia).
Lemma top_entries j : 0 ≤ j < 512 →
  assoc (0x1000 + 8 * j) page_entries = (if j =? 0 then 0x2003 else 0) ∧
  assoc (0x2000 + 8 * j) page_entries = (if j =? 0 then 0x3003 else 0).
Proof.
  intros Hj. unfold assoc, page_entries, PML4_ADDR, PDPT_ADDR, PD_ADDR. cbn [find fst].
  destruct (Z.eqb_spec j 0) as [->|]; [done|]. assoc_skip. done.
Qed.
Lemma pd_entry j : 0 ≤ j < 512 → assoc (0x3000 + 8 * j) page_entries = if j <? 8 then j * 0x200000 + 0x83 else 0.
Proof.
  intros Hj. destruct (Z.ltb_spec j 8) as [Hlt|].
  - assert (j ∈ seqZ 0 8) as Hin by (apply elem_of_seqZ; lia). clear Hj Hlt. revert j Hin. apply Forall_forall.
    repeat (apply Forall_cons_2; [reflexivity|]). apply Forall_nil_2.
  - unfold assoc, page_entries, PML4_ADDR, PDPT_ADDR, PD_ADDR. cbn [find fst]. assoc_skip. done.
Qed.

(** The first 16 MB are mapped to themselves, writable, and nothing else is mapped. *)
Lemma page_walk_identity m v :
  0 ≤ v < 281474976710656 →
  page_walk (setup_page_tables m) PML4_ADDR v = if v <? 0x1000000 then Some (v, true) else None.
Proof.
  intros Hv. unfold page_walk. rewrite !index_mod by lia.
  change (2 ^ 39) with (2097152 * 512 * 512). change (2 ^ 30) with (2097152 * 512). change (2 ^ 21) with 2097152.
  rewrite <- !Z.div_div by lia. pose proof (Z.div_mod v 2097152) as D21. pose proof (Z.mod_pos_bound v 2097152) as M21.
  remember (v / 2097152) as q eqn:Hq. pose proof (Z.div_mod q 512) as D30. pose proof (Z.mod_pos_bound q 512) as M30.
  remember (q / 512) as r eqn:Hr. pose proof (Z.div_mod r 512) as D39. pose proof (Z.mod_pos_bound r 512) as M39.
  assert (0 ≤ r / 512 < 512) as Hs by lia. remember (r / 512) as s eqn:Hs'. rewrite (Z.mod_small s 512) by lia.
  assert (∀ i j, 0x1000 ≤ i ≤ 0x3000 → i mod 8 = 0 → 0 ≤ j < 512 →
    peek_u64 (setup_page_tables m) (i + 8 * j) = assoc (i + 8 * j) page_entries) as He.
  { intros i j Hi Hi8 Hj. apply page_entry; [lia|]. rewrite Z.mul_comm, Z.mod_add by lia. done. }
  change (frame PML4_ADDR) with 0x1000. rewrite He by (done || lia). rewrite (proj1 (top_entries _ Hs)).
  destruct (Z.eqb_spec s 0) as [Es|]; [|by rewrite (proj2 (Z.ltb_ge _ _)) by lia]. change (frame 0x2003) with 0x2000.
  change (negb (Z.testbit 0x2003 0)) with false. change (Z.testbit 0x2003 1) with true. cbv iota. rewrite He, (proj2 (top_entries (r mod 512) ltac:(lia))) by (done || lia).
  destruct (Z.eqb_spec (r mod 512) 0) as [Er|]; [|by rewrite (proj2 (Z.ltb_ge _ _)) by lia]. change (frame 0x3003) with 0x3000.
  change (negb (Z.testbit 0x3003 0)) with false. change (Z.testbit 0x3003 1) with true. change (Z.testbit 0x3003 7) with false.
  cbv iota. rewrite He, pd_entry by (done || lia).
  destruct (Z.ltb_spec (q mod 512) 8) as [Hlt|]; [|by rewrite (proj2 (Z.ltb_ge _ _)) by lia].
  rewrite (proj2 (Z.ltb_lt v _)) by lia. change 0x1FFFFF with (Z.ones 21). rewrite Z.land_ones by lia. change (2 ^ 21) with 2097152.
  assert (q mod 512 ∈ seqZ 0 8) as Hin by (apply elem_of_seqZ; lia).
  assert (Forall (λ j, let e := j * 0x200000 + 0x83 in Z.testbit e 0 = true ∧ Z.testbit e 1 = true ∧ Z.testbit e 7 = true ∧
    Z.land e 0x000FFFFFFFE00000 = j * 0x200000) (seqZ 0 8)) as Hall.
  { repeat (apply Forall_cons_2; [done|]). apply Forall_nil_2. }
  rewrite Forall_forall in Hall. destruct (Hall _ Hin) as (-> & -> & -> & ->). cbn. do 2 f_equal. lia.
Qed.

(** *** Bytes stay bytes *)
Lemma poke_bytes_ram_ok m p l : ram_ok m → Forall (λ b, 0 ≤ b < 256) l → ram_ok (poke_bytes m p l).
Proof.
  intros Hm Hl x. unfold poke_bytes. case_bool; [|apply Hm].
  destruct (nth_in_or_default (Z.to_nat (u64 (x - p))) l 0) as [Hin| ->]; [|lia].
  rewrite Forall_forall in Hl. by apply Hl, list_elem_of_In.
Qed.
Lemma le_bytes_bytes n v : Forall (λ b, 0 ≤ b < 256) (le_bytes n v).
Proof. revert v. induction n as [|n IH]; intros v; cbn [le_bytes]; constructor; [apply u8_range|apply IH]. Qed.
Lemma rep_movsd_ram_ok a20 n m esi edi : ram_ok m → ram_ok (rep_movsd a20 n m esi edi).
Proof.
  revert m esi edi. induction n as [|n IH]; intros m esi edi Hm; cbn [rep_movsd]; [done|].
  apply IH, poke_bytes_ram_ok; [done|by apply peek_ok].
Qed.
Lemma setup_page_tables_ram_ok m : ram_ok m → ram_ok (setup_page_tables m).
Proof.
  intros Hm. unfold setup_page_tables. assert (ram_ok (rep_stosd 4096 m PML4_ADDR 0)) as Hz.
  { generalize 4096%nat PML4_ADDR. intros n. revert m Hm. induction n as [|n IH]; intros m Hm a; cbn [rep_stosd]; [done|].
    apply IH, poke_bytes_ram_ok; [done|apply le_bytes_bytes]. }
  revert Hz. generalize (rep_stosd 4096 m PML4_ADDR 0). generalize page_entries. clear.
  induction l as [|[a v] l IH]; intros m Hm; cbn [foldl]; [done|]. apply IH, poke_bytes_ram_ok; [done|apply le_bytes_bytes].
Qed.

(** ** Long mode *)

(** Protection, paging, physical address extension and long mode are on, and so is SSE. *)
Definition long_mode (c : Control) : Prop :=
  cr3 c = PML4_ADDR ∧ Z.testbit (cr0 c) 0 = true ∧ Z.testbit (cr0 c) 31 = true ∧ Z.testbit (cr4 c) 5 = true ∧
  Z.testbit (efer c) 8 = true ∧ Z.testbit (cr0 c) 1 = true ∧ Z.testbit (cr0 c) 2 = false ∧
  Z.testbit (cr4 c) 9 = true ∧ Z.testbit (cr4 c) 10 = true.

(** The selected descriptor is a present 64-bit code segment of ring 0. *)
Definition long_code_segment (sel : Z) : Prop :=
  ∃ access flags, gdt !! Z.to_nat (sel + 5) = Some access ∧ gdt !! Z.to_nat (sel + 6) = Some flags ∧ sel mod 8 = 0 ∧
    Z.testbit access 7 = true ∧ Z.land (Z.shiftr access 5) 3 = 0 ∧ Z.testbit access 4 = true ∧ Z.testbit access 3 = true ∧
    Z.testbit flags 5 = true ∧ Z.testbit flags 6 = false.

Lemma mov_cr0_ok v c :
  Z.testbit v 31 = false ∨ Z.testbit v 0 = true ∧ Z.testbit (cr4 c) 5 = true →
  mov_cr0 v c = Ret (mkControl v (cr3 c) (cr4 c) (efer c)).
Proof. unfold mov_cr0. intros [->|[-> ->]]; [done|]. by rewrite !andb_false_r. Qed.
Lemma wrmsr_ok v c : Z.testbit (cr0 c) 31 = false → wrmsr_efer v c = Ret (mkControl (cr0 c) (cr3 c) (cr4 c) v).
Proof. unfold wrmsr_efer. by intros ->. Qed.
Lemma and16_bit r v n : 0 ≤ n < 16 → Z.testbit (and16 r v) n = Z.testbit r n && Z.testbit v n.
Proof.
  intros Hn. unfold and16. change 0xFFFF with (Z.ones 16).
  rewrite Z.lor_spec, Z.ldiff_spec, !Z.land_spec, Z.ones_spec_low, andb_false_r, andb_true_r by lia. done.
Qed.
Lemma and16_high r v n : 16 ≤ n → Z.testbit (and16 r v) n = Z.testbit r n.
Proof.
  intros Hn. unfold and16. change 0xFFFF with (Z.ones 16).
  rewrite Z.lor_spec, Z.ldiff_spec, !Z.land_spec, Z.ones_spec_high, andb_false_r, andb_true_r, orb_false_r by lia. done.
Qed.

(** Equations of bits of the registers before. *)
Ltac control_bits c :=
  repeat match goal with |- context [Z.testbit (?f c) ?n] => destruct (Z.testbit (f c) n) end; reflexivity.

Lemma protected_mode_ok m c :
  ram_ok m → Z.testbit (cr0 c) 31 = false →
  ∃ m' c', protected_mode true m c = Ret (m', c') ∧ long_mode c' ∧ ram_ok m' ∧
    (∀ x, 0 ≤ x < 0x3C000 → m' (KERNEL_ADDR + x) = m (0x10000 + x)) ∧
    (∀ x, 0 ≤ x < 0x1000 ∨ 0x5000 ≤ x < 0x10000 → m' x = m x) ∧
    ∀ v, 0 ≤ v < 281474976710656 → page_walk m' PML4_ADDR v = if v <? 0x1000000 then Some (v, true) else None.
Proof.
  intros Hm Hpg. unfold protected_mode.
  rewrite mov_cr0_ok by (left; by rewrite Z.lor_spec, Hpg). rewrite mbind_Ret. cbn [cr0 cr3 cr4 efer mov_cr3 mov_cr4].
  rewrite wrmsr_ok by (cbn [cr0 mov_cr3 mov_cr4]; by rewrite Z.lor_spec, Hpg). rewrite mbind_Ret. cbn [cr0 cr3 cr4 efer mov_cr3 mov_cr4].
  rewrite mov_cr0_ok by (right; cbn [cr0 cr4 mov_cr3 mov_cr4]; rewrite !Z.lor_spec; split; control_bits c). rewrite mbind_Ret. cbn [cr0 cr3 cr4 efer mov_cr3 mov_cr4].
  rewrite mov_cr0_ok by (right; cbn [cr0 cr4 mov_cr3 mov_cr4]; unfold or16; rewrite !Z.lor_spec, and16_bit, !Z.lor_spec by lia; split;
    control_bits c).
  rewrite mbind_Ret. cbn [cr0 cr3 cr4 efer mov_cr3 mov_cr4].
  eexists _, _. split; [done|]. split.
  { unfold long_mode, or16. cbn [cr0 cr3 cr4 efer mov_cr3 mov_cr4]. rewrite !Z.lor_spec, (and16_high _ _ 31), !and16_bit, !Z.lor_spec by lia. rewrite ?Hpg.
    split; [done|]. do 7 (split; [control_bits c|]). control_bits c. }
  split; [by apply setup_page_tables_ram_ok, rep_movsd_ram_ok|].
  change (Z.to_nat (KERNEL_SECTORS * 512 / 4)) with (Z.to_nat 61440). change (Z.shiftl KERNEL_LOAD_SEG 4) with 0x10000. unfold KERNEL_ADDR.
  split; [|split; [|intros v Hv; by apply page_walk_identity]].
  - intros x Hx. rewrite setup_page_tables_out, rep_movsd_ok by lia. rewrite (proj2 (andb_true_iff _ _)) by (rewrite Z.leb_le, Z.ltb_lt; lia).
    f_equal. lia.
  - intros x Hx. rewrite setup_page_tables_out, rep_movsd_ok by lia.
    by rewrite (proj2 (andb_false_iff _ _)) by (rewrite Z.leb_gt, Z.ltb_ge; lia).
Qed.

(** The interrupt gates select a code segment of the loader's table. *)
Lemma kernel_code_segment : long_code_segment KERNEL_CS.
Proof. exists 0x9A, 0x20. done. Qed.

Lemma check_vga_flag_ok `{BiosOk} m :
  (∀ x, free_memory x → x ≠ 0x501 → check_vga_flag m x = m x) ∧ (ram_ok m → ram_ok (check_vga_flag m)) ∧
  check_vga_flag m 0x501 = if m vga_flag =? 1 then 0x13 else m 0x501.
Proof.
  destruct (set_mode_ok m 0x13) as [Hf Hr]. unfold check_vga_flag. destruct (m vga_flag =? 1); [|done]. split; [|split].
  - intros x Hx Hne. rewrite write_bytes_out by (unfold free_memory in *; lia). by apply Hf.
  - intros Hm x. unfold write_bytes. case_bool; [lia|by apply Hr].
  - by apply write_bytes_in.
Qed.

(** A machine as the BIOS leaves it: in real mode, with an idle keyboard controller. *)
Definition powered_on {D} `{Controller D} (d : D) (m : ram) (c : Control) : Prop :=
  ram_ok m ∧ Z.testbit (cr0 c) 31 = false ∧ output (kbc d) = None ∧ (busy (kbc d) ≤ latency)%nat.

Lemma bootloader_ok {D} `{Controller D} `{B : Bios} disk `{!BiosOk disk} fuel d m hi c :
  powered_on d m c → (latency < fuel)%nat → ext_present = false ∨ upper_eax_zero hi →
  ∃ d' m' c', bootloader a20_gate fuel d m hi c = Ret (Ok (d', m', c')) ∧ ram_ok m' ∧
    (∀ x, 0 ≤ x < KERNEL_SECTORS * 512 → m' (KERNEL_ADDR + x) = disk (17 * 512 + x)) ∧
    m' VGA_STATUS_ADDR = (if disk 8703 =? 1 then VGA_MODE_13H else m VGA_STATUS_ADDR) ∧
    long_mode c' ∧
    ∀ v, 0 ≤ v < 281474976710656 → page_walk m' (cr3 c') v = if v <? 0x1000000 then Some (v, true) else None.
Proof.
  intros (Hram & Hpg & Hout & Hbusy) Hfuel Hhi. unfold bootloader.
  destruct (stage1_ok disk m) as (m1 & -> & Hl1 & Ho1 & Hr1). unfold stage2.
  destruct (enable_a20_ok fuel d Hout Hbusy Hfuel) as (d' & -> & _ & Ha). rewrite mbind_Ret, Ha.
  destruct (check_vga_flag_ok (disk := disk) m1) as (Hf2 & Hr2 & Hv2).
  destruct (load_kernel_ok disk (check_vga_flag m1) hi Hhi) as (m3 & -> & Hl3 & Ho3 & Hr3). rewrite mbind_Ret.
  destruct (protected_mode_ok m3 c) as (m4 & c' & -> & Hlong & Hr4 & Hk & Ho4 & Hw); [auto|done|]. rewrite mbind_Ret.
  exists d', m4, c'. split; [done|]. split; [done|]. split; [|split; [|split; [done|]]].
  - intros x Hx. unfold KERNEL_SECTORS in Hx. rewrite Hk by lia. rewrite Hl3 by lia. f_equal. lia.
  - change VGA_STATUS_ADDR with 0x501. rewrite Ho4, Ho3 by (unfold free_memory; lia). rewrite Hv2.
    rewrite Hl1 by (unfold vga_flag, STAGE2_ADDR; lia). change (512 + (vga_flag - STAGE2_ADDR)) with 8703.
    rewrite Ho1 by (unfold free_memory, STAGE2_ADDR; lia). done.
  - destruct Hlong as [-> _]. exact Hw.
Qed.

(** ** A machine *)

(** A drive with the bytes [disk], with or without the extended services. *)
Definition in_buffer (buf n x : Z) : bool := (buf <=? x) && (x <? buf + n).
Definition fill (disk : Z → Z) (m : ram) (src n buf : Z) : ram := λ x, if in_buffer buf n x then disk (src + (x - buf)) else m x.
Definition drive_bios (disk : Z → Z) (lba : bool) : Bios := {|
  ext_present := lba;
  ext_read := λ m b n buf, if b + n <=? 2880 then Some (fill disk m (b * 512) (n * 512) buf) else None;
  chs_read := λ m cyl head sector n buf,
    if sector + n <=? 19 then Some (fill disk m (((cyl * 2 + head) * 18 + (sector - 1)) * 512) (n * 512) buf, n) else None;
  set_mode := λ m _, m;
  eax_high := λ hi, hi |}.

Lemma fill_transfer disk m src n buf : (∀ x, 0 ≤ disk x < 256) → transfer disk m (fill disk m src n buf) src n buf.
Proof.
  intros Hd. unfold fill, in_buffer. split; [|split].
  - intros x Hx. by rewrite (proj2 (andb_true_iff _ _)) by (rewrite Z.leb_le, Z.ltb_lt; lia).
  - intros x _ Hx. by rewrite (proj2 (andb_false_iff _ _)) by (rewrite Z.leb_gt, Z.ltb_ge; lia).
  - intros Hm x. case_bool; [apply Hd|apply Hm].
Qed.

Lemma drive_bios_ok disk lba : (∀ x, 0 ≤ disk x < 256) → @BiosOk (drive_bios disk lba) disk.
Proof.
  intros Hd. split; cbn.
  - intros m b n buf _ _ Hb _ _. rewrite (proj2 (Z.leb_le _ _)) by done. eexists. split; [done|]. by apply fill_transfer.
  - intros m cyl head sector n buf _ _ _ _ Hs _. rewrite (proj2 (Z.leb_le _ _)) by done. eexists. split; [done|]. by apply fill_transfer.
  - done.
Qed.

(** The keyboard controller alone as a machine that takes two polls. *)
#[global] Instance kbc_ports : Ports Kbc := {|
  port_inb := λ p k, if p =? 0x64 then
      (kbc_poll k, (if bool_decide (busy k = 0%nat) then 0 else 2) + match output k with Some _ => if bool_decide (delay k = 0%nat) then 1 else 0 | None => 0 end)
    else (mkKbc (busy k) 0 None (writing k) (outport k), default 0 (output k));
  port_outb := λ p v k, if p =? 0x64 then kbc_command 2 v k else kbc_data 2 v k;
  port_inw := λ p k, (k, 0);
  port_outw := λ p v k, k |}.
#[global] Program Instance kbc_controller : Controller Kbc := {| kbc := λ k, k; latency := 2 |}.
Next Obligation.
  intros k. cbn. split; [done|]. destruct (output k), (bool_decide_reflect (busy k = 0%nat)), (bool_decide_reflect (delay k = 0%nat));
    cbn; split; split; intros; done || lia || (by right) || (by left) || (by destruct_or!).
Qed.
Next Obligation. intros k v Ho Hd. cbn. by rewrite Ho. Qed.
Next Obligation. intros k c _ _ _. by exists 2%nat. Qed.
Next Obligation. intros k v _. by exists 2%nat. Qed.

(** C12: the boot loader brings the kernel up.  On a machine in real mode with an idle keyboard
    controller and a floppy drive without defects, which either lacks the extended disk
    services or leaves the upper half of EAX zero, as it was at the start, both stages end
    without an error (every loop ends, no mode switch faults): the 480 sectors from
    sector 17 on are in memory at
    0x100000, the byte at 0x501 tells whether the graphics flag in the image is set,
    the processor is in long mode with SSE, the page tables map exactly the first 16 MB, to
    themselves and writable, and the selector of the kernel's interrupt gates is a 64-bit code
    segment. *)
Theorem bootloader_spec {D} `{Controller D} `{B : Bios} disk `{!BiosOk disk} fuel d m hi c :
  powered_on d m c → (latency < fuel)%nat → ext_present = false ∨ upper_eax_zero hi →
  (∃ d' m' c', bootloader a20_gate fuel d m hi c = Ret (Ok (d', m', c')) ∧ ram_ok m' ∧
    (∀ x, 0 ≤ x < KERNEL_SECTORS * 512 → m' (KERNEL_ADDR + x) = disk (17 * 512 + x)) ∧
    m' VGA_STATUS_ADDR = (if disk 8703 =? 1 then VGA_MODE_13H else m VGA_STATUS_ADDR) ∧
    long_mode c' ∧
    ∀ v, 0 ≤ v < 281474976710656 → page_walk m' (cr3 c') v = if v <? 0x1000000 then Some (v, true) else None) ∧
  long_code_segment KERNEL_CS.
Proof. intros Hp Hf Hhi. split; [by apply bootloader_ok|apply kernel_code_segment]. Qed.

Definition flagged_disk (x : Z) : Z := if x =? 8703 then 1 else u8 x.
Lemma flagged_disk_ok x : 0 ≤ flagged_disk x < 256.
Proof. unfold flagged_disk. case_bool; [lia|apply u8_range]. Qed.
Definition real_mode : Control := mkControl 0x60000010 0 0 0.

Lemma bootloader_spec_witness :
  ∃ d' m' c', @bootloader Kbc _ (drive_bios flagged_disk true) a20_gate 3 (mkKbc 1 0 None false 0xCD) (λ _, 0xFF) 0 real_mode = Ret (Ok (d', m', c')) ∧
    m' 0x100007 = 7 ∧ m' VGA_STATUS_ADDR = VGA_MODE_13H ∧ page_walk m' (cr3 c') 0xFEDCBA = Some (0xFEDCBA, true).
Proof.
  pose proof (drive_bios_ok flagged_disk true flagged_disk_ok) as Hbios.
  destruct (@bootloader_spec Kbc _ _ (drive_bios flagged_disk true) flagged_disk Hbios 3 (mkKbc 1 0 None false 0xCD) (λ _, 0xFF) 0 real_mode)
    as [(d' & m' & c' & E & _ & Hk & Hv & _ & Hw) _].
  - split; [intros x; lia|]. split; [reflexivity|]. split; [reflexivity|cbn; lia].
  - cbn. lia.
  - right. by split.
  - exists d', m', c'. split; [exact E|]. split; [exact (Hk 7 ltac:(unfold KERNEL_SECTORS; lia))|]. split; [exact Hv|].
    exact (Hw 0xFEDCBA ltac:(lia)).
Defined.

(** A nonzero upper half of EAX is added to the sector number: the second read is outside of
    the disk. *)
Lemma eax_high_garbage disk m : @load_kernel (drive_bios disk true) m 1 = Ret (Err DiskError).
Proof. reflexivity. Qed.
