(* ===== verification/DiskImage.v ===== *)
(** The disk image (Makefile) and what becomes of it: the loader, the kernel and the table of
    executables are concatenated, and the machine that boots from the image runs a kernel that
    serves the files of the table. *)

From stdpp Require Import strings.
From S2P Require Import Prelude Utf8 FreeList Tiling BTreeMap ByteMem Elf RegionAllocator Executable Timer Task Scheduler PortIO Vga Interrupts Api Boot ExecTable Bootloader.
#[local] Open Scope Z_scope.

Definition MAX_KERNEL_SIZE : Z := 245760.

(** [dd if=/dev/zero] up to a size *)
Definition pad_to (n : Z) (l : list Z) : list Z :=
  if size_of l <? n then l ++ replicate (Z.to_nat (n - size_of l)) 0 else l.

(** Padding to a multiple of four bytes. *)
Definition pad4 (l : list Z) : list Z :=
  let padding := 4 - size_of l mod 4 in
  if padding <? 4 then l ++ replicate (Z.to_nat padding) 0 else l.

(** The rule for the image: [Err] if the size check fails. *)
Definition make_image (stage1 stage2 kernel exec_table : list Z) : result unit (list Z) :=
  let image := stage1 ++ stage2 in
  let image := pad_to (17 * 512) image in
  let image := image ++ kernel in
  let image := pad4 image in
  let image := image ++ exec_table in
  if MAX_KERNEL_SIZE <? size_of image - 17 * 512 then Err tt
  else Ok (pad_to 1474560 image).

(** ** The layout *)

Lemma size_app l1 l2 : size_of (l1 ++ l2) = size_of l1 + size_of l2.
Proof. unfold size_of. rewrite length_app. lia. Qed.
Lemma size_zeros n : 0 ≤ n → size_of (replicate (Z.to_nat n) 0) = n.
Proof. intros. unfold size_of. rewrite length_replicate. lia. Qed.

(** The place of the table after a kernel of [n] bytes. *)
Definition table_offset (n : Z) : Z := (n + 3) / 4 * 4.

Lemma make_image_ok stage1 stage2 kernel table :
  size_of stage1 = 512 → size_of stage2 = 8192 → table_offset (size_of kernel) + size_of table ≤ MAX_KERNEL_SIZE →
  ∃ pad rest, make_image stage1 stage2 kernel table = Ok (stage1 ++ stage2 ++ kernel ++ replicate pad 0 ++ table ++ replicate rest 0) ∧
    size_of kernel + Z.of_nat pad = table_offset (size_of kernel).
Proof.
  intros H1 H2 Hk. unfold make_image, MAX_KERNEL_SIZE in *.
  assert (pad_to (17 * 512) (stage1 ++ stage2) = stage1 ++ stage2) as ->.
  { unfold pad_to. rewrite size_app, H1, H2. done. }
  assert (0 ≤ size_of kernel ∧ 0 ≤ size_of table) as [Hk0 Ht0] by (unfold size_of; lia).
  assert (∃ pad, pad4 ((stage1 ++ stage2) ++ kernel) = ((stage1 ++ stage2) ++ kernel) ++ replicate pad 0 ∧
    size_of kernel + Z.of_nat pad = table_offset (size_of kernel)) as (pad & -> & Hpad).
  { unfold pad4, table_offset. rewrite !size_app, H1, H2. replace (512 + 8192 + size_of kernel) with (size_of kernel + 2176 * 4) by lia.
    rewrite Z.mod_add by lia. pose proof (Z.div_mod (size_of kernel) 4) as Hdm. pose proof (Z.mod_pos_bound (size_of kernel) 4) as Hmb.
    pose proof (Z.div_mod (size_of kernel + 3) 4) as Hdm'. pose proof (Z.mod_pos_bound (size_of kernel + 3) 4) as Hmb'.
    destruct (Z.ltb_spec (4 - size_of kernel mod 4) 4).
    - eexists. split; [done|]. lia.
    - exists 0%nat. rewrite app_nil_r. split; [done|]. lia. }
  rewrite (proj2 (Z.ltb_ge _ _)) by (rewrite !size_app, H1, H2; unfold size_of at 2; rewrite length_replicate; lia).
  exists pad. unfold pad_to. case_bool.
  - eexists. split; [|done]. by rewrite <- !app_assoc.
  - exists 0%nat. split; [|done]. cbn [replicate]. by rewrite app_nil_r, <- !app_assoc.
Qed.

(** A part of the image. *)
Lemma nth_part (pre l post : list Z) k :
  (k < length l)%nat → nth (length pre + k) (pre ++ l ++ post) 0 = nth k l 0.
Proof. intros Hk. rewrite app_nth2 by lia. replace (length pre + k - length pre)%nat with k by lia. by apply app_nth1. Qed.

Lemma holds_nth m a l :
  0 ≤ a → a + size_of l ≤ 18446744073709551616 → (∀ k, (k < length l)%nat → m (a + Z.of_nat k) = nth k l 0) → holds m a l.
Proof.
  unfold holds, size_of. revert a. induction l as [|b l IH]; intros a Ha Hs Hm; [done|]. cbn [length peek] in *. f_equal.
  - rewrite u64_small by lia. specialize (Hm 0%nat ltac:(lia)). by rewrite Z.add_0_r in Hm.
  - apply IH; [lia..|]. intros k Hk. specialize (Hm (S k) ltac:(lia)). replace (a + 1 + Z.of_nat k) with (a + Z.of_nat (S k)) by lia. done.
Qed.

(** The drive holds the image. *)
Definition on_disk (disk : Z → Z) (img : list Z) : Prop := ∀ x, 0 ≤ x < size_of img → disk x = nth (Z.to_nat x) img 0.

(** What the loader brings to 0x100000 is the content of the image from sector 17 on. *)
Lemma loaded_part disk m boot pre l post :
  on_disk disk (boot ++ pre ++ l ++ post) → size_of boot = 17 * 512 → size_of pre + size_of l ≤ KERNEL_SECTORS * 512 →
  (∀ x, 0 ≤ x < KERNEL_SECTORS * 512 → m (KERNEL_ADDR + x) = disk (17 * 512 + x)) →
  holds m (KERNEL_ADDR + size_of pre) l.
Proof.
  intros Hd Hb Hs Hm. unfold KERNEL_SECTORS, KERNEL_ADDR in *. assert (0 ≤ size_of pre ∧ 0 ≤ size_of l) as [? ?] by (unfold size_of; lia).
  apply holds_nth; [lia..|]. intros k Hk. rewrite <- Z.add_assoc, Hm by (unfold size_of in *; lia).
  rewrite Hd by (rewrite !size_app; unfold size_of in *; lia).
  rewrite <- (nth_part (boot ++ pre) l post k) by done. rewrite <- app_assoc. f_equal. rewrite length_app. unfold size_of in *. lia.
Qed.

Section image.
Context {St : Type} `{RegionAllocator St} {D : Type} `{Controller D} `{B : Bios} (disk : Z → Z) `{!BiosOk disk}.
Context (trampoline network_task telnetd_task repl_task : Z).
Context (Htr : 0 ≤ trampoline < 18446744073709551616).

(** C11: files packed at the build are read back by the kernel that boots from the disk.
    For at most 15 non-empty files the script writes a table; if kernel and table have at most 480
    sectors, the Makefile writes an image; a machine with this image in its drive, whose BIOS
    lacks the extended disk services or leaves the upper half of EAX zero, loads the
    kernel and the table to 0x100000 and enters the kernel in long mode; and if the table ends
    before its destination after [.bss], the destination fits before the heap and nothing else
    in the scanned memory looks like a table, the boot ends in a
    running kernel that lists exactly the files packed and whose [read] of a name gives the bytes of
    the first file of that name.  Names are cut to 15 bytes; a
    name of at most 15 ASCII characters is kept as it is. *)
Theorem disk_boot_spec nic files stage1 stage2 kernel :
  packable files → Forall (λ f, f.2 ≠ []) files → size_of stage1 = 512 → size_of stage2 = 8192 →
  ∃ table, make_exec_table (existing files) = Ok table ∧
  (∀ f, f ∈ files → Forall (λ c, 0 < c < 0x80) (table_name f.1) → (length (table_name f.1) ≤ 15)%nat →
    kernel_name f.1 = table_name f.1) ∧
  let a := KERNEL_ADDR + table_offset (size_of kernel) in
  (a + size_of table ≤ KERNEL_ADDR + MAX_KERNEL_SIZE →
   ∃ img, make_image stage1 stage2 kernel table = Ok img ∧
   ∀ fuel d m hi c, on_disk disk img → powered_on d m c → (latency < fuel)%nat → ext_present = false ∨ upper_eax_zero hi →
   ∃ d' m' c', bootloader a20_gate fuel d m hi c = Ret (Ok (d', m', c')) ∧ long_mode c' ∧
     (∀ x, 0 ≤ x < KERNEL_SECTORS * 512 → m' (KERNEL_ADDR + x) = disk (17 * 512 + x)) ∧
     peek m' KERNEL_ADDR (length kernel) = kernel ∧
     ∀ bss_start bss_end s0 cpu,
       let dest := align_up bss_end 512 in
       0 ≤ bss_start ≤ bss_end → bss_end < HEAP_START → a + size_of table ≤ dest → dest + size_of table ≤ HEAP_START →
       no_other_table m' a bss_start dest → HEAP_START ≤ ra_start →
       serves trampoline network_task telnetd_task repl_task nic files m' bss_start bss_end s0 cpu).
Proof.
  intros Hp Hne H1 H2. pose proof Hp as [Hn Hoff]. exists (table_image (packed files)). split; [by apply make_exec_table_ok|].
  split; [intros f _; apply kernel_name_ascii|]. intros a Hsz.
  destruct (make_image_ok stage1 stage2 kernel (table_image (packed files)) H1 H2) as (pad & rest & Hi & Hpad); [unfold a in *; lia|].
  eexists. split; [exact Hi|]. intros fuel d m hi c Hd Hon Hfuel Hhi.
  destruct (bootloader_ok disk fuel d m hi c Hon Hfuel Hhi) as (d' & m' & c' & E & Hram & Hk & _ & Hlong & _).
  exists d', m', c'. split; [done|]. split; [done|]. split; [done|]. rewrite app_assoc in Hd.
  assert (size_of (stage1 ++ stage2) = 17 * 512) as Hb by (rewrite size_app; lia).
  assert (0 ≤ size_of kernel ∧ 0 ≤ size_of (table_image (packed files))) as [Hk0 Ht0] by (unfold size_of; lia).
  assert (size_of (kernel ++ replicate pad 0) = table_offset (size_of kernel)) as Hpre.
  { rewrite size_app, <- Hpad. unfold size_of at 2. rewrite length_replicate. done. }
  unfold MAX_KERNEL_SIZE, a in *. split.
  { pose proof (loaded_part disk m' (stage1 ++ stage2) [] kernel _ Hd Hb) as Hl. change (size_of []) with 0 in Hl.
    rewrite Z.add_0_r in Hl. apply Hl; [unfold KERNEL_SECTORS; lia|done]. }
  intros bss_start bss_end s0 cpu Hbs Hbe Hdis Hfit Hno Hra.
  assert (table_offset (size_of kernel) mod 4 = 0 ∧ 0 ≤ table_offset (size_of kernel)) as [Hto Hto0].
  { split; [unfold table_offset; apply Z.mod_mul; lia|]. rewrite <- Hpad. lia. }
  apply (pack_boot_read trampoline network_task telnetd_task repl_task Htr nic files m' bss_start bss_end
    (KERNEL_ADDR + table_offset (size_of kernel)) (align_up bss_end 512) s0 cpu); try done; unfold KERNEL_ADDR, SEARCH_START in *; [|lia|].
  - rewrite <- Hpre. rewrite (app_assoc kernel) in Hd.
    by apply (loaded_part disk m' (stage1 ++ stage2) (kernel ++ replicate pad 0) _ _ Hd Hb); [unfold KERNEL_SECTORS; lia|].
  - rewrite Z.add_mod, Hto by lia. done.
Qed.
End image.

(** ** A concrete image

    A kernel of four bytes and one file; [.bss] from 0x100404 to 0x100600. *)
Definition tiny_files : list (list Z * list Z) := [(chars "a.elf", [7; 7; 7; 7; 7])].
Definition tiny_kernel : list Z := [0xF4; 0xEB; 0xFD; 0x90].
Definition tiny_table : list Z := table_image (packed tiny_files).

Lemma nth_zeros n k : nth k (replicate n 0) 0 = 0.
Proof. revert k. induction n as [|n IH]; intros [|k]; cbn; auto. Qed.

Lemma tiny_packable : packable tiny_files ∧ Forall (λ f, f.2 ≠ []) tiny_files.
Proof. split; [split; [cbn; lia|reflexivity]|by repeat constructor]. Qed.

(** The loaded memory. *)
Definition tiny_loaded (m : ram) : Prop :=
  ∀ x, 0 ≤ x < KERNEL_SECTORS * 512 → m (KERNEL_ADDR + x) = nth (Z.to_nat x) (tiny_kernel ++ tiny_table) 0.

Lemma tiny_no_other m : tiny_loaded m → no_other_table m 0x100004 0x100404 0x100600.
Proof.
  intros Hm b Hb Hb4 Hne Hmag. exfalso. unfold SEARCH_START in Hb.
  assert (forallb (λ k, bool_decide (k = 1) || negb (bool_decide (take 4 (drop (Z.to_nat (4 * k)) ((tiny_kernel ++ tiny_table) ++ replicate 508 0)) = EXEC_TABLE_MAGIC)))
    (seqZ 0 384) = true) as Hall by (vm_compute; reflexivity).
  rewrite forallb_forall in Hall. pose proof (Z.div_mod (b - 0x100000) 4) as Hdm.
  assert ((b - 0x100000) mod 4 = 0) as Hz by (rewrite Zminus_mod, Hb4; done).
  set (k := (b - 0x100000) / 4) in *. specialize (Hall k). rewrite <- list_elem_of_In, elem_of_seqZ in Hall. specialize (Hall ltac:(lia)).
  rewrite bool_decide_eq_false_2 in Hall by lia. cbn [orb] in Hall. apply negb_true_iff, bool_decide_eq_false in Hall. apply Hall.
  rewrite <- Hmag. symmetry. set (l := take 4 _). assert (length l = 4%nat) as Hl.
  { unfold l. rewrite length_take, length_drop. change (length ((tiny_kernel ++ tiny_table) ++ replicate 508 0)) with 1536%nat. lia. }
  assert (holds m b l) as Hh; [|by unfold holds in Hh; rewrite Hl in Hh].
  apply holds_nth; [lia|unfold size_of; rewrite Hl; lia|]. intros j Hj. rewrite Hl in Hj. unfold l. rewrite nth_firstn, (proj2 (Nat.ltb_lt j 4) Hj), nth_skipn.
  replace (b + Z.of_nat j) with (KERNEL_ADDR + Z.of_nat (Z.to_nat (4 * k) + j)) by (unfold KERNEL_ADDR; lia).
  rewrite Hm by (unfold KERNEL_SECTORS; lia). rewrite Nat2Z.id. set (i := (Z.to_nat (4 * k) + j)%nat).
  destruct (decide (i < length (tiny_kernel ++ tiny_table))%nat) as [Hi|Hi].
  - by rewrite (app_nth1 _ _ _ Hi).
  - rewrite (nth_overflow (tiny_kernel ++ tiny_table)), (app_nth2 (tiny_kernel ++ tiny_table)) by lia. by rewrite nth_zeros.
Qed.

Definition tiny_stages : list Z * list Z := (replicate (Z.to_nat 512) 0, replicate (Z.to_nat 8192) 0).
Lemma tiny_stages_size : size_of tiny_stages.1 = 512 ∧ size_of tiny_stages.2 = 8192.
Proof. by split; apply size_zeros. Qed.

(** The drive with the tiny image. *)
Definition tiny_image (rest : nat) : list Z := tiny_stages.1 ++ tiny_stages.2 ++ tiny_kernel ++ tiny_table ++ replicate rest 0.
Definition tiny_disk (rest : nat) (x : Z) : Z := nth (Z.to_nat x) (tiny_image rest) 0.

Lemma tiny_disk_bytes rest x : 0 ≤ tiny_disk rest x < 256.
Proof.
  unfold tiny_disk. destruct (nth_in_or_default (Z.to_nat x) (tiny_image rest) 0) as [Hin| ->]; [|lia].
  assert (Hf : Forall (λ b, 0 ≤ b < 256) (tiny_image rest)); [|rewrite Forall_forall in Hf; by apply Hf, list_elem_of_In].
  assert (∀ n, Forall (λ b, 0 ≤ b < 256) (replicate n 0)) as Hz by (intros n; apply Forall_replicate; lia).
  assert (Forall (λ b, 0 ≤ b < 256) (tiny_kernel ++ tiny_table)) as Hk.
  { rewrite Forall_forall. intros b Hb.
    assert (forallb (λ b, (0 <=? b) && (b <? 256)) (tiny_kernel ++ tiny_table) = true) as Hall by (vm_compute; reflexivity).
    rewrite forallb_forall in Hall. specialize (Hall b (proj1 (list_elem_of_In _ _) Hb)). bool_to_prop. lia. }
  unfold tiny_image. rewrite (app_assoc tiny_kernel).
  apply Forall_app_2; [apply Hz|]. apply Forall_app_2; [apply Hz|]. apply Forall_app_2; [exact Hk|apply Hz].
Qed.

Lemma tiny_content rest x : 0 ≤ x → tiny_disk rest (17 * 512 + x) = nth (Z.to_nat x) (tiny_kernel ++ tiny_table) 0.
Proof.
  intros Hx. destruct tiny_stages_size as [H1 H2]. unfold tiny_disk, tiny_image, size_of in *.
  rewrite app_assoc, app_nth2, length_app by (rewrite length_app; lia).
  replace (Z.to_nat (17 * 512 + x) - (length tiny_stages.1 + length tiny_stages.2))%nat with (Z.to_nat x) by lia.
  rewrite (app_assoc tiny_kernel). destruct (decide (Z.to_nat x < length (tiny_kernel ++ tiny_table))%nat) as [Hi|Hi].
  - by rewrite (app_nth1 _ _ _ Hi).
  - rewrite (nth_overflow (tiny_kernel ++ tiny_table)), (app_nth2 (tiny_kernel ++ tiny_table)) by lia. by rewrite nth_zeros.
Qed.

Lemma disk_boot_spec_witness :
  ∃ rest d' m' c', make_image tiny_stages.1 tiny_stages.2 tiny_kernel tiny_table = Ok (tiny_image rest) ∧
    @bootloader Kbc _ (drive_bios (tiny_disk rest) false) a20_gate 3 (mkKbc 1 0 None false 0xCD) (λ _, 0xFF) 0 real_mode = Ret (Ok (d', m', c')) ∧
    serves 0x100800 0x100810 0x100820 0x100830 true tiny_files m' 0x100404 0x100600 (ProgramAlloc.mkProgramAllocator ∅ None 0 []) Context_default.
Proof.
  destruct tiny_stages_size as [H1 H2]. destruct tiny_packable as [Hp Hne].
  destruct (make_image_ok tiny_stages.1 tiny_stages.2 tiny_kernel tiny_table H1 H2) as (pad & rest & Ei & Hpad); [vm_compute; discriminate|].
  assert (pad = 0%nat) as -> by (change (size_of tiny_kernel) with 4 in Hpad; change (table_offset 4) with 4 in Hpad; lia).
  change (make_image tiny_stages.1 tiny_stages.2 tiny_kernel tiny_table = Ok (tiny_image rest)) in Ei.
  pose proof (drive_bios_ok (tiny_disk rest) false (tiny_disk_bytes rest)) as Hbios.
  destruct (@disk_boot_spec _ _ Kbc _ _ (drive_bios (tiny_disk rest) false) (tiny_disk rest) Hbios 0x100800 0x100810 0x100820 0x100830
    ltac:(lia) true tiny_files tiny_stages.1 tiny_stages.2 tiny_kernel Hp Hne H1 H2) as (table & Et & _ & Hb).
  rewrite make_exec_table_ok in Et by apply Hp. fold tiny_table in Et. assert (table = tiny_table) as -> by congruence.
  destruct Hb as (img & Ei' & Hrun); [vm_compute; discriminate|]. rewrite Ei in Ei'. assert (img = tiny_image rest) as -> by congruence.
  destruct (Hrun 3%nat (mkKbc 1 0 None false 0xCD) (λ _, 0xFF) 0 real_mode) as (d' & m' & c' & E & _ & Hm & _ & Hserve);
    [by intros x Hx| |cbn; lia|by left|].
  { split; [intros x; lia|]. split; [reflexivity|]. split; [reflexivity|cbn; lia]. }
  exists rest, d', m', c'. split; [exact Ei|]. split; [exact E|].
  apply Hserve; [lia|done|vm_compute; discriminate|vm_compute; discriminate| |done].
  apply (tiny_no_other m'). intros x Hx. rewrite Hm by done. apply tiny_content. lia.
Defined.
